(* ===== verification/_CoqProject ===== *)
-Q . S2P
Prelude.v
GoStd.v
GoTime.v
GoUrl.v
Util.v
Log.v
Header.v
Message.v
Pool.v
Core.v
Float64.v
Rounding.v
JumpHash.v
Selector.v
Weighted.v
Ping.v
Breaker.v
Backoff.v
Circuit.v
Overlap.v
Window.v
Threshold.v
Rate.v
RateLimit.v
TokenBucket.v
Controller.v
Service.v
Server.v
Catalog.v
Registry.v
Notify.v
Lease.v
Listener.v
Client.v
EndToEnd.v
Gzipped.v
Session.v
Link.v
Arith.v
Caller.v
Connect.v
FailMode.v
Cache.v
UserClient.v
Publish.v
