(* ===== verification/Prelude.v ===== *)
(** * frpc: a verification library

    frpc is an RPC framework in Go.  A client encodes a call into a frame
    (src/protocol), sends it over a connection (src/client) and completes the
    call when the response with the same sequence number arrives.  A server
    (src/server) reads frames from each accepted connection, starts a goroutine
    per request, finds the service and method by name, decodes the argument with
    the codec the header names (src/codec, src/core), calls the method and
    writes the response.  A chain of controllers (src/controller: metrics,
    trace, rate limit) is told about connections, requests and responses.
    Servers register themselves in a store and clients discover and watch them
    there (src/registry); a selector (src/selector) chooses among the discovered
    servers for each call; a fail mode decides what happens after a failed call,
    and a circuit breaker (src/circuit) may stand in front of it.

    ** Files, and what they model

    - Prelude: bytes, Go strings, machine integers with their wrap-around, the
      error values, outcomes (value, error, panic), the state-and-error monad
      of code that fills in a message, tactics and the hint database [frpc].
    - GoStd, GoTime, GoUrl, Float64: what the program uses of the language and
      its standard library: slices with capacity and bounds checks,
      encoding/binary, io.ReadFull, strings; time; url.ParseQuery and Encode;
      double-precision arithmetic (exact dyadic numbers, rounded to 53 bits,
      nearest even).  Rounding: rounding is monotone and never reverses the
      order of two quotients.
    - Util (src/util): compression over a gzip library that satisfies
      [GzipLaws]; strings and slices that share memory.
    - Log (src/log): the [Logger] interface by severity, the package's logger,
      the default logger.
    - Header, Message, Pool (src/protocol): the twelve header bytes with all
      accessors as bit operations and their abstract [view]; [Encode], [Decode]
      and the metadata coding; the message pool.
    - Core (src/codec, src/core, src/error): codecs, error texts.
    - JumpHash, Selector, Weighted, Ping (src/selector): hashing, the
      [Selector] class with its laws [SelectLaws] and [SelectorLaws], the
      random, round-robin, hash, weighted, ping and geo selectors and
      [NewSelector].
    - Breaker (src/circuit/breaker_simple.go): the [Breaker] class with its
      laws and the program's own breaker, also under concurrent use; Backoff
      and Circuit: the vendored backoff policy and breaker behind the other
      three of src/circuit; Window: its sliding window of counters, over
      which Threshold and Rate hold the breakers that count failures and that
      weigh them; Overlap: the atomic operations of concurrent calls
      interleaved ([overlap_step]).
    - RateLimit, Controller (src/controller, src/server/server_controller.go
      and the vendored token bucket): the controllers and their chain.
      TokenBucket: the rest of the bucket's operations, lending tokens and
      fitting a rate.
    - Service, Server (src/server): method tables and registration by
      reflection; the handler of a request and the reading loop of a
      connection.  Catalog: the table of services over a server's life, its
      invariant, and the equivalence of tables that offer the same methods.
    - Registry (src/registry): registration, refreshing, discovery, watching
      and closing, at etcd and at consul, and the two interfaces, over any store
      that satisfies the backend's [StoreLaws] (how it spells keys and what a
      directory lists).  Lease: the same over a store whose entries expire
      ([Lease]), with the ticker.  Notify: the goroutines and channels that
      carry changes to watchers ([notify_step]).
    - Listener (src/server/server.go, option.go, listener*.go,
      server_registry.go): options, publishing, listeners, the accept loop,
      closing.
    - Client (src/client/client.go): calls, the pending map, sending, the
      response loop, cancelling and closing, as critical sections under every
      interleaving ([client_step]).
    - EndToEnd: Client, Message and Server put together for one call, a
      heartbeat; Gzipped: for a compressed call.  Session: both ends of a
      connection joined by two byte streams, all goroutines interleaving, as
      long as nothing fails ([session_step]).  Link: the same connection with
      calls of every kind and everything that can go wrong on it, and with what
      a goroutine does after it has left a critical section as a step of its
      own ([link_step]).  Arith (src/test/method_common.go): the services the
      tests register, called over such a connection.  Caller: [Go], [call] and
      [heartbeat] over it.
    - Connect (src/client/option.go, connection*.go, server.go): options,
      dialling, the HTTP handshake with the server behind the default
      multiplexer of net/http, which it shares with the debug pages of the
      vendored trace package.
    - FailMode (src/client/client.go and failmod*.go): selecting a server, the
      cache of connections, the three fail modes, over any [Selector] and any
      [Breaker].  Cache: goroutines that share the cache of connections
      ([cache_step]).  UserClient (client_registry.go, client_controller.go): the
      client a user configures and calls.  Publish: registry option,
      registration and serving put together.

    ** What the theorems show

    - Wire format: [Encode] writes the documented layout, [Decode] inverts it
      and accepts nothing else; its errors and panics; the header accessors act
      on their own field only, and four of the setters can only add bits;
      pooled messages carry nothing over.
    - Calls: a call, and a heartbeat, from client to server and back completes
      once with the outcome the server's contract prescribes; the server
      answers each request with exactly one frame and reads exactly the
      messages sent; under every interleaving the client loses no call and, on
      a connection where coding succeeds, completes each exactly once.
    - Connections: with any number of concurrent calls, and whatever fails, each
      call is accounted for, has got its own answer exactly once, or has got
      the error of something that happened to it or to the connection; what
      [call] returns, response metadata included, is that answer or that error;
      the test services answer with what arithmetic says.  As long as nothing
      fails a connection neither deadlocks nor runs on by itself and can always
      complete every call.
    - Types: whatever is registered and served, the service table is well
      typed, and methods see only arguments decoded into their own type.
    - Selection: every selector answers with a discovered server; round robin
      is fair, a weighted round is exact and never ahead of the weights; jump
      hashing terminates, stays in range and moves keys only to a new server.
    - Protection: the breakers trip, refuse and retry as they promise, the rate
      breaker with its double-precision comparison against exact fractions;
      overlapping calls never share a retry; a bucket lends tokens for exactly
      the time it names, and its search for a quantum ends; the rate
      limiter admits a bounded number in every window, anywhere in the chain.
    - Life cycle: the accept loop backs off and [Close] closes everything;
      registration is atomic; failover terminates and stops at the first
      success; the HTTP handshake succeeds exactly on the paths that the
      multiplexer sends to the server; callers share one connection per server.
    - Registry: what is published is discovered and dialled; at etcd an entry
      stays discoverable with its metadata while the ticker runs, even when a
      tick fails, and at both backends it is made again after an outage; no
      change is lost on the way to a watcher that keeps reading, or told twice;
      a client calls only servers the store lists for its service.
    - Behaviour that differs from what was meant is stated as it is: a failover
      call that failed everywhere reports success, cancelling hits the call
      with number zero, a call may complete twice when the connection ends, the
      geo selector panics, a client never learns of changed servers, the
      connection timeout becomes a read deadline, malformed frames panic,
      compressed calls fail, a registration the registry rejects is silent,
      overlapping failures step over a breaker's threshold, a watcher may get
      changes in reverse order, a request is read after it was given back, a
      reply that does not decode fails the calls of others, etcd with a base
      path without a slash yields names nobody can dial, the ping selector
      panics on an address without a network.

    ** Bounds and fuel

    Machine integers are [Z] with explicit wrap-around ([wrap32], [wrap64],
    [swrap32], [swrap64]); [int] has 64 bits.  Loops that do not recurse on
    their data take fuel, and a theorem or lemma shows how much is enough:
    [hash_loop] the number of buckets plus one ([Hash_in_range]),
    [decodeMetadata_loop] and [serveConn_loop] one round per byte
    ([decodeMetadata_terminates], [serveConn_terminates]), as [handleResponse]
    ([handleResponse_returns]), [rate_loop] four hundred quanta
    ([NewBucketWithRate_returns]), a breaker call on its own twenty steps
    ([alone_is_call]).  Fail modes recurse
    on the number of retries, the window of a breaker on its number of buckets.
    Frames are at most 2^32 bytes long, because their length is a 32-bit word;
    sequence numbers in Session and Link stay below 2^64 ([lk_over] says when a
    connection has exceeded one of these limits), update intervals in Lease are
    below 2^63 / 3 nanoseconds (97 years), so that three of them do not wrap.
    Clock readings, random numbers, what the network delivers, the iteration
    order of maps and the results of third-party libraries are inputs, so each
    theorem holds for all of them.

    ** What is not modelled

    The serialisation libraries, gzip, fmt, the stores, the network, QUIC,
    KCP, TLS, ICMP and the trigonometric functions are parameters, with what
    the program relies on as hypotheses; of the metrics and trace packages
    only the calls are recorded.  The memory model below critical sections and
    atomic operations is not modelled; what interleaves are the critical
    sections of a connection, of the cache of connections and of the simple
    breaker, the atomic operations of the library breakers and the goroutines
    that carry changes to watchers.  In Client what a goroutine does to its call
    after a critical section counts as part of that section; in Link it is a
    step of its own.  In Notify the registration of a watcher is one step,
    although the code does it without the lock.  Log messages of the other parts are left
    out.  The channel of server messages, the context key for the start of a
    request and the breaker modes of src/core are declared and never used by the
    code.  The test functions of src/test start servers at network addresses;
    the protobuf code there is generated. *)
From Stdlib Require Export ZArith Lia.
From Stdlib Require Import Strings.Byte Strings.String.
Export String.StringSyntax.
From stdpp Require Export base tactics gmap vector numbers list.

#[global] Open Scope Z_scope.
#[global] Set Default Goal Selector "!".

(** ** Bytes and Go strings *)

Abbreviation byte := Init.Byte.byte.
Abbreviation bytes := (list Init.Byte.byte).
(** A Go [string] is an immutable sequence of bytes. *)
Abbreviation gostring := (list Init.Byte.byte).
(** A string literal of the source. *)
Notation "'str' s" := (list_byte_of_string s%string) (at level 9, s at level 0, only parsing) : Z_scope.

Definition byte_to_Z (b : byte) : Z := Z.of_N (Byte.to_N b).

(** Go's conversion [byte(x)] of an integer: the low eight bits. *)
Definition byte_of_Z (z : Z) : byte :=
  match Byte.of_N (Z.to_N (z mod 256)) with
  | Some b => b
  | None => Byte.x00
  end.

Lemma byte_to_Z_range b : 0 <= byte_to_Z b < 256.
Proof.
  unfold byte_to_Z. pose proof (Byte.to_N_bounded b). lia.
Qed.

Lemma byte_to_Z_of_Z z : byte_to_Z (byte_of_Z z) = z mod 256.
Proof.
  unfold byte_to_Z, byte_of_Z.
  pose proof (Z.mod_pos_bound z 256 ltac:(lia)) as Hz.
  destruct (Byte.of_N _) as [b|] eqn:E.
  - apply Byte.to_of_N in E. rewrite E, Z2N.id; lia.
  - apply Byte.of_N_None_iff in E. lia.
Qed.

Lemma byte_of_to_Z b : byte_of_Z (byte_to_Z b) = b.
Proof.
  unfold byte_of_Z. rewrite Z.mod_small by apply byte_to_Z_range.
  unfold byte_to_Z. rewrite N2Z.id, Byte.of_to_N. done.
Qed.

#[export] Instance byte_to_Z_inj : Inj (=) (=) byte_to_Z.
Proof. intros a b H. rewrite <- (byte_of_to_Z a), H. apply byte_of_to_Z. Qed.

#[export] Instance byte_eq_decision : EqDecision byte := Byte.byte_eq_dec.

#[export] Instance byte_inhabited : Inhabited byte := populate Byte.x00.

#[export] Instance byte_countable : Countable byte.
Proof. by apply (inj_countable' byte_to_Z byte_of_Z), byte_of_to_Z. Defined.

(** Go's [==] on strings. *)
Definition str_eqb (a b : gostring) : bool := bool_decide (a = b).

(** ** Machine integers *)

Definition wrap8 (z : Z) : Z := z mod 2 ^ 8.
Definition wrap32 (z : Z) : Z := z mod 2 ^ 32.
Definition wrap64 (z : Z) : Z := z mod 2 ^ 64.
(** Two's complement wrap-around of a 64-bit [int] or [time.Duration]. *)
Definition swrap64 (z : Z) : Z := (z + 2 ^ 63) mod 2 ^ 64 - 2 ^ 63.
Definition swrap32 (z : Z) : Z := (z + 2 ^ 31) mod 2 ^ 32 - 2 ^ 31.

Lemma wrap32_small z : 0 <= z < 2 ^ 32 -> wrap32 z = z.
Proof. apply Z.mod_small. Qed.

Lemma wrap64_small z : 0 <= z < 2 ^ 64 -> wrap64 z = z.
Proof. apply Z.mod_small. Qed.

Lemma wrap32_range z : 0 <= wrap32 z < 2 ^ 32.
Proof. apply Z.mod_pos_bound. lia. Qed.

Lemma wrap64_range z : 0 <= wrap64 z < 2 ^ 64.
Proof. apply Z.mod_pos_bound. lia. Qed.

Lemma swrap64_small z : - 2 ^ 63 <= z < 2 ^ 63 -> swrap64 z = z.
Proof. intros. unfold swrap64. rewrite Z.mod_small; lia. Qed.

Lemma swrap32_small z : - 2 ^ 31 <= z < 2 ^ 31 -> swrap32 z = z.
Proof. intros. unfold swrap32. rewrite Z.mod_small; lia. Qed.

(** The length of a Go slice or string, as the [int] that [len] returns. *)
Definition len {A} (l : list A) : Z := Z.of_nat (length l).

Lemma len_nonneg {A} (l : list A) : 0 <= len l.
Proof. unfold len. lia. Qed.

Lemma len_app {A} (l k : list A) : len (l ++ k) = len l + len k.
Proof. unfold len. rewrite length_app. lia. Qed.

Lemma len_cons {A} (x : A) l : len (x :: l) = 1 + len l.
Proof. unfold len. cbn [length]. lia. Qed.

Lemma len_nil {A} : len (@nil A) = 0.
Proof. done. Qed.

Lemma to_nat_len {A} (l : list A) : Z.to_nat (len l) = length l.
Proof. unfold len. lia. Qed.

(** ** Errors

    The [error] values the program creates or compares.  Sentinel errors are
    compared by identity in Go, so each is a constructor of its own;
    [errorString] is a fresh [errors.New]/[fmt.Errorf] value and
    [ExternalError] one that comes from code outside the program. *)
Inductive error : Type :=
| EOF
| ErrUnexpectedEOF
| ErrMetaKVMissing
| ErrMessageToLong
| ErrShutdown
| ErrUnsupportedCodec
| ErrClientNoServer
| ErrServerUnavailable
| ErrServerClosed
| ErrBreakerOpen
| ErrBreakerTimeout
| ContextError (s : gostring)
| ServiceError (s : gostring)
| errorString (s : gostring)
| ExternalError (s : gostring)
| MultiError (es : list error).

(** Go's [err == io.EOF]. *)
Definition is_EOF (e : error) : bool := match e with EOF => true | _ => false end.

(** ** Outcomes and the state-and-error monad

    A Go call returns a value, returns a non-nil [error], or panics. *)
Inductive outcome (A : Type) : Type :=
| Val (a : A)
| Fail (e : error)
| Panic.
Arguments Val {A} a.
Arguments Fail {A} e.
Arguments Panic {A}.

(** A statement sequence over a mutable state [S]: what it has written stays
    written when it returns an error or panics. *)
Definition go (S A : Type) : Type := S -> S * outcome A.

Definition go_ret {S A} (a : A) : go S A := fun s => (s, Val a).

Definition go_bind {S A B} (m : go S A) (k : A -> go S B) : go S B := fun s =>
  match m s with
  | (s', Val a) => k a s'
  | (s', Fail e) => (s', Fail e)
  | (s', Panic) => (s', Panic)
  end.

Definition go_get {S} : go S S := fun s => (s, Val s).
Definition go_modify {S} (f : S -> S) : go S unit := fun s => (f s, Val tt).
Definition go_fail {S A} (e : error) : go S A := fun s => (s, Fail e).
Definition go_panic {S A} : go S A := fun s => (s, Panic).
(** A pure computation that may panic. *)
Definition go_lift {S A} (o : outcome A) : go S A := fun s => (s, o).

Declare Scope go_scope.
Delimit Scope go_scope with go.
Notation "'let!' x ':=' m 'in' k" := (go_bind m (fun x => k))
  (at level 10, x pattern, m at level 100, k at level 200) : go_scope.
Notation "m ;;; k" := (go_bind m (fun _ => k))
  (at level 100, k at level 200, right associativity) : go_scope.

(** Sequencing of pure outcomes. *)
Definition outcome_bind {A B} (o : outcome A) (k : A -> outcome B) : outcome B :=
  match o with
  | Val a => k a
  | Fail e => Fail e
  | Panic => Panic
  end.
Notation "'let?' x ':=' m 'in' k" := (outcome_bind m (fun x => k))
  (at level 10, x pattern, m at level 100, k at level 200) : go_scope.

Lemma go_bind_assoc {S A B C} (m : go S A) (k : A -> go S B) (h : B -> go S C) s :
  go_bind (go_bind m k) h s = go_bind m (fun a => go_bind (k a) h) s.
Proof. unfold go_bind. destruct (m s) as [s' [a|e|]]; done. Qed.

Lemma go_bind_Val {S A B} (m : go S A) (k : A -> go S B) s s' a :
  m s = (s', Val a) -> go_bind m k s = k a s'.
Proof. intros H. unfold go_bind. by rewrite H. Qed.

Lemma go_bind_Fail {S A B} (m : go S A) (k : A -> go S B) s s' e :
  m s = (s', Fail e) -> go_bind m k s = (s', Fail e).
Proof. intros H. unfold go_bind. by rewrite H. Qed.

Lemma go_bind_Panic {S A B} (m : go S A) (k : A -> go S B) s s' :
  m s = (s', Panic) -> go_bind m k s = (s', Panic).
Proof. intros H. unfold go_bind. by rewrite H. Qed.

Lemma go_bind_lift {S A B} (o : outcome A) (k : A -> go S B) s a :
  o = Val a -> go_bind (go_lift o) k s = k a s.
Proof. intros ->. done. Qed.

(** ** Automation *)

(** Splits the [if]s and [match]es of the goal and of the hypotheses that
    equate them to a known value. *)
Ltac split_matches :=
  repeat match goal with
  | H : context [match ?x with _ => _ end] |- _ => destruct x eqn:?; try discriminate
  | |- context [match ?x with _ => _ end] => destruct x eqn:?; try discriminate
  end.

(** Turns boolean integer comparisons into propositions. *)
Ltac zbool :=
  repeat match goal with
  | H : (_ && _)%bool = true |- _ => apply andb_true_iff in H as [? ?]
  | H : (_ || _)%bool = false |- _ => apply orb_false_iff in H as [? ?]
  | H : (_ <=? _) = true |- _ => apply Z.leb_le in H
  | H : (_ <=? _) = false |- _ => apply Z.leb_gt in H
  | H : (_ <? _) = true |- _ => apply Z.ltb_lt in H
  | H : (_ <? _) = false |- _ => apply Z.ltb_ge in H
  | H : (_ =? _) = true |- _ => apply Z.eqb_eq in H
  | H : (_ =? _) = false |- _ => apply Z.eqb_neq in H
  | H : (_ >? _) = _ |- _ => rewrite Z.gtb_ltb in H
  end.

Create HintDb frpc.
Create Rewrite HintDb len.
#[export] Hint Resolve byte_to_Z_range len_nonneg wrap32_range wrap64_range : frpc.
#[export] Hint Rewrite @len_app @len_cons @len_nil @to_nat_len : len.

Ltac simpl_len := autorewrite with len in *.

(** ** Generic lemmas on lists and integers *)

Lemma take_app_len {A} (l k : list A) n : n = length l -> take n (l ++ k) = l.
Proof. intros ->. apply take_app_length. Qed.

Lemma drop_app_len {A} (l k : list A) n : n = length l -> drop n (l ++ k) = k.
Proof. intros ->. apply drop_app_length. Qed.

(** A number put above the bits of a smaller one is added to it. *)
Lemma lor_shiftl_add a b n :
  0 <= n -> 0 <= a < 2 ^ n -> Z.lor a (Z.shiftl b n) = a + b * 2 ^ n.
Proof.
  intros Hn Ha. rewrite Z.shiftl_mul_pow2 by done.
  assert (Z.land a (b * 2 ^ n) = 0) as Hland.
  2: { rewrite Z.add_nocarry_lxor, Z.lxor_lor; done. }
  apply Z.bits_inj'; intros i Hi. rewrite Z.land_spec, Z.bits_0.
  destruct (Z.lt_ge_cases i n).
  { rewrite (Z.mul_pow2_bits_low b n i) by lia. apply andb_false_r. }
  destruct (Z.eq_dec a 0) as [->|]; [by rewrite Z.bits_0|].
  rewrite Z.bits_above_log2; [done|lia|].
  apply Z.log2_lt_pow2; [lia|].
  apply (Z.lt_le_trans _ (2 ^ n)); [lia|]. apply Z.pow_le_mono_r; lia.
Qed.
