(* ===== verification/GoStd.v ===== *)
(** * The part of the Go language and standard library the program uses

    Slices with their capacity and the bounds checks of slice expressions,
    [copy], [encoding/binary]'s big-endian accessors, [io.ReadFull] over a
    stream, and the [strings] functions of the connection and registry code.
    The program runs on a 64-bit platform: [int] is 64 bits wide. *)
From Stdlib Require Import Strings.Byte.
From S2P Require Import Prelude.

(** ** Slices *)

(** A byte slice: the underlying array from the slice's start to its
    capacity, and the slice's length. *)
Record slice := mkSlice { sl_buf : bytes; sl_len : Z }.

(** What [make([]byte, n)] followed by filling it gives: capacity = length. *)
Definition slice_of (l : bytes) : slice := mkSlice l (len l).

(** The elements of a slice. *)
Definition sl_bytes (s : slice) : bytes := take (Z.to_nat (sl_len s)) (sl_buf s).

(** The slice expression [s[lo:hi]]; the upper bound is the {e capacity}. *)
Definition slice_expr (s : slice) (lo hi : Z) : outcome slice :=
  if (0 <=? lo) && (lo <=? hi) && (hi <=? len (sl_buf s))
  then Val (mkSlice (drop (Z.to_nat lo) (sl_buf s)) (hi - lo))
  else Panic.

(** [s[lo:]]. *)
Definition slice_from (s : slice) (lo : Z) : outcome slice :=
  if (0 <=? lo) && (lo <=? sl_len s)
  then Val (mkSlice (drop (Z.to_nat lo) (sl_buf s)) (sl_len s - lo))
  else Panic.

(** Writing the bytes [src] at offset [off] of [dst]. *)
Definition overwrite (off : Z) (src dst : bytes) : bytes :=
  take (Z.to_nat off) dst ++ src ++ drop (Z.to_nat off + length src) dst.

(** [copy(dst[lo:hi], src)] on a buffer of which [dst] is the whole array. *)
Definition copy_into (dst : bytes) (lo hi : Z) (src : bytes) : outcome bytes :=
  if (0 <=? lo) && (lo <=? hi) && (hi <=? len dst)
  then Val (overwrite lo (take (Z.to_nat (hi - lo)) src) dst)
  else Panic.

(** ** encoding/binary *)

(** [binary.BigEndian.Uint32]. *)
Definition BigEndian_Uint32 (b : bytes) : outcome Z :=
  match b with
  | b0 :: b1 :: b2 :: b3 :: _ =>
      Val (Z.lor (Z.lor (Z.lor (byte_to_Z b3) (Z.shiftl (byte_to_Z b2) 8))
                        (Z.shiftl (byte_to_Z b1) 16))
                 (Z.shiftl (byte_to_Z b0) 24))
  | _ => Panic
  end.

(** The four bytes [binary.BigEndian.PutUint32] stores. *)
Definition be32 (v : Z) : bytes :=
  [byte_of_Z (Z.shiftr v 24); byte_of_Z (Z.shiftr v 16);
   byte_of_Z (Z.shiftr v 8); byte_of_Z v].

(** [binary.BigEndian.Uint64]. *)
Definition BigEndian_Uint64 (b : bytes) : outcome Z :=
  match b with
  | b0 :: b1 :: b2 :: b3 :: b4 :: b5 :: b6 :: b7 :: _ =>
      Val (Z.lor (Z.lor (Z.lor (Z.lor (Z.lor (Z.lor (Z.lor
             (byte_to_Z b7) (Z.shiftl (byte_to_Z b6) 8))
             (Z.shiftl (byte_to_Z b5) 16)) (Z.shiftl (byte_to_Z b4) 24))
             (Z.shiftl (byte_to_Z b3) 32)) (Z.shiftl (byte_to_Z b2) 40))
             (Z.shiftl (byte_to_Z b1) 48)) (Z.shiftl (byte_to_Z b0) 56))
  | _ => Panic
  end.

(** The eight bytes [binary.BigEndian.PutUint64] stores. *)
Definition be64 (v : Z) : bytes :=
  [byte_of_Z (Z.shiftr v 56); byte_of_Z (Z.shiftr v 48);
   byte_of_Z (Z.shiftr v 40); byte_of_Z (Z.shiftr v 32);
   byte_of_Z (Z.shiftr v 24); byte_of_Z (Z.shiftr v 16);
   byte_of_Z (Z.shiftr v 8); byte_of_Z v].

(** [binary.BigEndian.PutUint32(dst[lo:hi], v)]. *)
Definition PutUint32 (dst : bytes) (lo hi v : Z) : outcome bytes :=
  if (0 <=? lo) && (lo <=? hi) && (hi <=? len dst) && (4 <=? hi - lo)
  then Val (overwrite lo (be32 v) dst)
  else Panic.

Arguments be32 : simpl never.
Arguments be64 : simpl never.

(** Reference form: the value of a byte string read in base 256, and the
    [n]-digit representation of a number. *)
Definition be_value (l : bytes) : Z := foldl (fun a b => a * 256 + byte_to_Z b) 0 l.

Fixpoint be_bytes (n : nat) (v : Z) : bytes :=
  match n with
  | O => []
  | S n' => be_bytes n' (v / 256) ++ [byte_of_Z v]
  end.

Lemma be_value_snoc l b : be_value (l ++ [b]) = be_value l * 256 + byte_to_Z b.
Proof. unfold be_value. by rewrite foldl_app. Qed.

Lemma be_value_bytes n v : be_value (be_bytes n v) = v mod 256 ^ Z.of_nat n.
Proof.
  revert v. induction n as [|n IH]; intros v.
  - by rewrite Z.mod_1_r.
  - cbn [be_bytes]. rewrite be_value_snoc, IH, byte_to_Z_of_Z.
    rewrite Nat2Z.inj_succ, Z.pow_succ_r by lia.
    rewrite Z.rem_mul_r; lia.
Qed.

Lemma be32_be_bytes v : be32 v = be_bytes 4 v.
Proof.
  unfold be32, be_bytes. cbn [app]. rewrite !Z.shiftr_div_pow2 by lia.
  rewrite !Z.div_div by lia. done.
Qed.

Lemma be64_be_bytes v : be64 v = be_bytes 8 v.
Proof.
  unfold be64, be_bytes. cbn [app]. rewrite !Z.shiftr_div_pow2 by lia.
  rewrite !Z.div_div by lia. done.
Qed.

(** Nesting [lor] of shifted bytes is the base-256 value. *)
Lemma lor_shift_byte a b n :
  0 <= n -> 0 <= a < 2 ^ n ->
  Z.lor a (Z.shiftl (byte_to_Z b) n) = a + byte_to_Z b * 2 ^ n /\
  0 <= a + byte_to_Z b * 2 ^ n < 2 ^ (n + 8).
Proof.
  intros Hn Ha. rewrite lor_shiftl_add by done.
  pose proof (byte_to_Z_range b). rewrite Z.pow_add_r by lia.
  change (2 ^ 8) with 256. nia.
Qed.

Ltac fold_lor :=
  match goal with
  | |- context [Z.lor ?a (Z.shiftl (byte_to_Z ?b) ?n)] =>
      lazymatch a with
      | context [Z.lor _ _] => fail
      | _ =>
        let H := fresh "Hlor" in
        let R := fresh "Hrange" in
        destruct (lor_shift_byte a b n) as [H R];
        [lia | first [assumption | apply byte_to_Z_range] | ];
        rewrite H; clear H; cbn [Z.add Pos.add Pos.succ] in R
      end
  end.

Lemma BigEndian_Uint32_value b0 b1 b2 b3 rest :
  BigEndian_Uint32 (b0 :: b1 :: b2 :: b3 :: rest) = Val (be_value [b0; b1; b2; b3]).
Proof. unfold BigEndian_Uint32. repeat fold_lor. unfold be_value. cbn. f_equal. lia. Qed.

Lemma BigEndian_Uint64_value b0 b1 b2 b3 b4 b5 b6 b7 rest :
  BigEndian_Uint64 (b0 :: b1 :: b2 :: b3 :: b4 :: b5 :: b6 :: b7 :: rest) =
  Val (be_value [b0; b1; b2; b3; b4; b5; b6; b7]).
Proof. unfold BigEndian_Uint64. repeat fold_lor. unfold be_value. cbn. f_equal. lia. Qed.

Lemma Uint32_be32 v rest : BigEndian_Uint32 (be32 v ++ rest) = Val (wrap32 v).
Proof.
  unfold be32. cbn [app]. rewrite BigEndian_Uint32_value.
  fold (be32 v). rewrite be32_be_bytes, be_value_bytes. done.
Qed.

Lemma Uint64_be64 v rest : BigEndian_Uint64 (be64 v ++ rest) = Val (wrap64 v).
Proof.
  unfold be64. cbn [app]. rewrite BigEndian_Uint64_value.
  fold (be64 v). rewrite be64_be_bytes, be_value_bytes. done.
Qed.

Lemma be_value_range l : 0 <= be_value l < 256 ^ len l.
Proof.
  induction l as [|b l IH] using rev_ind; [cbv; split; congruence|].
  rewrite be_value_snoc. simpl_len. rewrite Z.add_0_r, Z.pow_add_r by (pose proof (len_nonneg l); lia).
  pose proof (byte_to_Z_range b). lia.
Qed.

Lemma BigEndian_Uint32_range b v : BigEndian_Uint32 b = Val v -> 0 <= v < 2 ^ 32.
Proof.
  destruct b as [|b0 [|b1 [|b2 [|b3 rest]]]]; try discriminate.
  rewrite BigEndian_Uint32_value. intros [= <-]. apply be_value_range.
Qed.

Lemma length_be32 v : length (be32 v) = 4%nat.
Proof. done. Qed.

Lemma len_be32 v : len (be32 v) = 4.
Proof. done. Qed.

#[export] Hint Rewrite len_be32 : len.

(** ** Slices: lemmas *)

Lemma slice_of_bytes l : sl_bytes (slice_of l) = l.
Proof. unfold sl_bytes, slice_of. cbn. rewrite to_nat_len. by rewrite take_ge. Qed.

(** Slicing a buffer laid out as [pre ++ mid ++ post] yields [mid]. *)
Lemma slice_expr_app pre mid post l lo hi :
  lo = len pre -> hi = len pre + len mid ->
  slice_expr (mkSlice (pre ++ mid ++ post) l) lo hi = Val (mkSlice (mid ++ post) (len mid)).
Proof.
  intros -> ->. unfold slice_expr. cbn [sl_buf]. simpl_len.
  pose proof (len_nonneg pre). pose proof (len_nonneg mid). pose proof (len_nonneg post).
  rewrite !(proj2 (Z.leb_le _ _)) by lia. cbn [andb].
  rewrite drop_app_length. do 2 f_equal. lia.
Qed.

Lemma sl_bytes_app mid post : sl_bytes (mkSlice (mid ++ post) (len mid)) = mid.
Proof. unfold sl_bytes. cbn. rewrite to_nat_len. apply take_app_length. Qed.

Lemma slice_from_app pre post l lo :
  lo = len pre -> l = len (pre ++ post) ->
  slice_from (mkSlice (pre ++ post) l) lo = Val (mkSlice post (len post)).
Proof.
  intros -> ->. unfold slice_from. cbn [sl_len sl_buf]. simpl_len.
  pose proof (len_nonneg pre). pose proof (len_nonneg post).
  rewrite !(proj2 (Z.leb_le _ _)) by lia. cbn [andb].
  rewrite drop_app_length. do 2 f_equal. lia.
Qed.

(** Writing exactly the middle part of a buffer. *)
Lemma overwrite_app pre mid post src off :
  off = len pre -> len src = len mid -> overwrite off src (pre ++ mid ++ post) = pre ++ src ++ post.
Proof.
  unfold len. intros -> H. unfold overwrite. rewrite Nat2Z.id.
  rewrite take_app_length. rewrite <- drop_drop, drop_app_length.
  rewrite drop_app_len by lia. done.
Qed.

(** ** io.Reader *)

(** A byte stream: what is still to be read, and the error the stream gives
    once that is exhausted ([io.EOF] for a closed peer). *)
Record reader := mkReader { rd_bytes : bytes; rd_err : error }.

(** [io.ReadFull(r, buf)] with [len(buf) = n]: the bytes stored in [buf], the
    error returned and the stream left. *)
Definition ReadFull (n : Z) (r : reader) : reader * bytes * option error :=
  if n <=? len (rd_bytes r)
  then (mkReader (drop (Z.to_nat n) (rd_bytes r)) (rd_err r),
        take (Z.to_nat n) (rd_bytes r), None)
  else (mkReader [] (rd_err r), rd_bytes r,
        Some (if (0 <? len (rd_bytes r)) && is_EOF (rd_err r)
              then ErrUnexpectedEOF else rd_err r)).

Lemma ReadFull_app n l rest e :
  n = len l -> ReadFull n (mkReader (l ++ rest) e) = (mkReader rest e, l, None).
Proof.
  intros ->. unfold ReadFull. cbn [rd_bytes rd_err]. simpl_len.
  rewrite (proj2 (Z.leb_le _ _)) by (pose proof (len_nonneg rest); lia).
  by rewrite drop_app_length, take_app_length.
Qed.

(** ** strings *)

(** [strings.SplitN(s, sep, 2)] for a one-byte separator: the parts before and
    after its first occurrence, or the whole string. *)
Fixpoint split_first (sep : byte) (s : gostring) : option (gostring * gostring) :=
  match s with
  | [] => None
  | c :: s' =>
      if bool_decide (c = sep) then Some ([], s')
      else match split_first sep s' with
           | Some (a, b) => Some (c :: a, b)
           | None => None
           end
  end.

(** [strings.Split(s, sep)] for a one-byte separator. *)
Fixpoint split_all (sep : byte) (s : gostring) : list gostring :=
  match s with
  | [] => [[]]
  | c :: s' =>
      match split_all sep s' with
      | [] => [[]]
      | p :: ps => if bool_decide (c = sep) then [] :: p :: ps else (c :: p) :: ps
      end
  end.

(** [strings.HasPrefix], [strings.TrimPrefix], [strings.HasSuffix]. *)
Definition HasPrefix (s prefix : gostring) : bool :=
  bool_decide (take (length prefix) s = prefix).
Definition TrimPrefix (s prefix : gostring) : gostring :=
  if HasPrefix s prefix then drop (length prefix) s else s.
Definition HasSuffix (s suffix : gostring) : bool :=
  bool_decide (length suffix <= length s)%nat &&
  bool_decide (drop (length s - length suffix) s = suffix).

Lemma split_first_app sep a b :
  sep ∉ a -> split_first sep (a ++ sep :: b) = Some (a, b).
Proof.
  induction a as [|c a IH]; cbn [app split_first]; intros Hn.
  - by rewrite bool_decide_true.
  - rewrite not_elem_of_cons in Hn. destruct Hn as [Hc Ha].
    rewrite bool_decide_false by congruence. by rewrite IH.
Qed.

Lemma split_first_inv sep s a b : split_first sep s = Some (a, b) -> s = a ++ sep :: b.
Proof.
  revert a. induction s as [|c s IH]; intros a; cbn [split_first]; [discriminate|]. case_bool_decide as Hc.
  - intros [= <- <-]. by subst.
  - destruct (split_first sep s) as [[a' b']|]; [|discriminate]. intros [= <- <-]. by rewrite (IH a').
Qed.

Lemma split_first_None sep a : sep ∉ a -> split_first sep a = None.
Proof.
  induction a as [|c a IH]; cbn [split_first]; intros Hn; [done|].
  rewrite not_elem_of_cons in Hn. destruct Hn as [Hc Ha].
  rewrite bool_decide_false by congruence. by rewrite IH.
Qed.

Lemma TrimPrefix_app p s : TrimPrefix (p ++ s) p = s.
Proof.
  unfold TrimPrefix, HasPrefix. rewrite take_app_length, bool_decide_true by done.
  apply drop_app_length.
Qed.

(** Filling a zeroed buffer from left to right: [pre] is already written and
    the next [len mid] bytes are replaced. *)
Lemma copy_into_step pre mid post src lo hi :
  lo = len pre -> len src = len mid -> lo + len mid <= hi <= lo + len mid + len post ->
  copy_into (pre ++ mid ++ post) lo hi src = Val ((pre ++ src) ++ post).
Proof.
  intros -> Hs Hhi. unfold copy_into. simpl_len.
  pose proof (len_nonneg pre). pose proof (len_nonneg mid).
  rewrite !(proj2 (Z.leb_le _ _)) by lia. cbn [andb]. f_equal.
  rewrite take_ge by (unfold len in *; lia).
  rewrite <- app_assoc. by apply overwrite_app.
Qed.

Lemma PutUint32_step pre mid post v lo hi :
  lo = len pre -> len mid = 4 -> hi = lo + 4 ->
  PutUint32 (pre ++ mid ++ post) lo hi v = Val ((pre ++ be32 v) ++ post).
Proof.
  intros -> Hm ->. unfold PutUint32. simpl_len.
  pose proof (len_nonneg pre). pose proof (len_nonneg post).
  rewrite !(proj2 (Z.leb_le _ _)) by lia. cbn [andb]. f_equal.
  rewrite <- app_assoc. by apply overwrite_app.
Qed.

(** [slice_expr_app] for a buffer known up to associativity. *)
Lemma slice_expr_at buf pre mid post l lo hi :
  buf = pre ++ mid ++ post -> lo = len pre -> hi = len pre + len mid ->
  slice_expr (mkSlice buf l) lo hi = Val (mkSlice (mid ++ post) (len mid)).
Proof. intros ->. apply slice_expr_app. Qed.

(** What a successful slice expression gives, and when it succeeds. *)
Lemma slice_expr_Val s lo hi r :
  slice_expr s lo hi = Val r ->
  0 <= lo <= hi /\ hi <= len (sl_buf s) /\
  sl_bytes r = take (Z.to_nat (hi - lo)) (drop (Z.to_nat lo) (sl_buf s)).
Proof.
  unfold slice_expr. destruct (_ && _) eqn:E; [|discriminate].
  intros [= <-]. zbool. repeat split; lia.
Qed.

(** ** Reading back: what a successful access says about the buffer *)

Lemma be_bytes_value l : be_bytes (length l) (be_value l) = l.
Proof.
  induction l as [|b l IH] using rev_ind; [done|].
  rewrite length_app, be_value_snoc. cbn [length]. rewrite Nat.add_1_r. cbn [be_bytes].
  pose proof (byte_to_Z_range b).
  rewrite Z.div_add_l, Z.div_small, Z.add_0_r, IH by lia. f_equal. f_equal.
  apply (inj byte_to_Z). rewrite byte_to_Z_of_Z.
  rewrite Z.add_comm, Z.mod_add, Z.mod_small by lia. done.
Qed.

Lemma BigEndian_Uint32_be32 b v :
  BigEndian_Uint32 b = Val v -> take 4 b = be32 v.
Proof.
  destruct b as [|b0 [|b1 [|b2 [|b3 rest]]]]; try discriminate.
  rewrite BigEndian_Uint32_value. intros [= <-].
  rewrite be32_be_bytes. symmetry. apply (be_bytes_value [b0; b1; b2; b3]).
Qed.

Lemma slice_expr_split buf l lo hi r :
  slice_expr (mkSlice buf l) lo hi = Val r ->
  drop (Z.to_nat lo) buf = sl_bytes r ++ drop (Z.to_nat hi) buf /\
  len (sl_bytes r) = hi - lo /\ 0 <= lo <= hi /\ hi <= len buf.
Proof.
  intros Hs. apply slice_expr_Val in Hs as (H1 & H2 & ->). cbn [sl_buf] in *.
  repeat split; try lia.
  - replace (Z.to_nat hi) with (Z.to_nat lo + Z.to_nat (hi - lo))%nat by lia.
    rewrite <- drop_drop. symmetry. apply take_drop.
  - unfold len in *. rewrite length_take, length_drop. lia.
Qed.

Lemma slice_expr_out s lo hi : hi < lo \/ len (sl_buf s) < hi -> slice_expr s lo hi = Panic.
Proof.
  intros H. unfold slice_expr. destruct (_ && _) eqn:E; [|done]. zbool. lia.
Qed.
