(* ===== verification/GoTime.v ===== *)
(** * Time (the part of the package [time] the program uses)

    A [time.Time] is the number of nanoseconds since Go's zero time, a
    [time.Duration] a 64-bit number of nanoseconds. *)
From S2P Require Import Prelude.

Definition maxDuration : Z := 2 ^ 63 - 1.
Definition minDuration : Z := - 2 ^ 63.
Definition Millisecond : Z := 1000000.
Definition Second : Z := 1000000000.

(** [t.Sub(u)] saturates. *)
Definition time_Sub (t u : Z) : Z :=
  if maxDuration <? t - u then maxDuration
  else if t - u <? minDuration then minDuration
  else t - u.

(** [t.Add(d)] *)
Definition time_Add (t d : Z) : Z := t + d.

Lemma time_Sub_exact t u : - 2 ^ 63 <= t - u < 2 ^ 63 -> time_Sub t u = t - u.
Proof. intros H. unfold time_Sub, maxDuration, minDuration. split_matches; zbool; lia. Qed.

Lemma time_Sub_mono t t' u : t <= t' -> time_Sub t u <= time_Sub t' u.
Proof. intros H. unfold time_Sub, maxDuration, minDuration. split_matches; zbool; lia. Qed.

Lemma time_Sub_range t u : - 2 ^ 63 <= time_Sub t u < 2 ^ 63.
Proof. unfold time_Sub, maxDuration, minDuration. split_matches; zbool; lia. Qed.
