(* ===== verification/GoUrl.v ===== *)
(** * net/url and strconv as the program uses them

    [url.ParseQuery] with [Values.Get], and [strconv.Atoi].  Both ['&'] and
    [';'] separate the pairs of a query, as in the releases of Go the program
    was written for. *)
From Stdlib Require Import Strings.Byte.
From S2P Require Import Prelude.

(** Splitting at every byte that satisfies a predicate. *)
Fixpoint split_by (p : byte -> bool) (s : gostring) : list gostring :=
  match s with
  | [] => [[]]
  | c :: s' =>
      match split_by p s' with
      | [] => [[]]
      | w :: ws => if p c then [] :: w :: ws else (c :: w) :: ws
      end
  end.

(** The part before and after the first byte [c]; the second is empty when
    there is none. *)
Fixpoint cut (c : byte) (s : gostring) : gostring * gostring :=
  match s with
  | [] => ([], [])
  | x :: s' => if bool_decide (x = c) then ([], s') else let '(a, b) := cut c s' in (x :: a, b)
  end.

Definition hex_digit (b : byte) : option Z :=
  let z := byte_to_Z b in
  if (48 <=? z) && (z <=? 57) then Some (z - 48)
  else if (97 <=? z) && (z <=? 102) then Some (z - 87)
  else if (65 <=? z) && (z <=? 70) then Some (z - 55)
  else None.

(** [url.QueryUnescape]; [None] is an invalid escape. *)
Fixpoint QueryUnescape (s : gostring) : option gostring :=
  match s with
  | [] => Some []
  | c :: s' =>
      if bool_decide (c = x25) then
        match s' with
        | h :: l :: rest =>
            match hex_digit h, hex_digit l, QueryUnescape rest with
            | Some a, Some b, Some r => Some (byte_of_Z (16 * a + b) :: r)
            | _, _, _ => None
            end
        | _ => None
        end
      else match QueryUnescape s' with
           | Some r => Some ((if bool_decide (c = x2b) then x20 else c) :: r)
           | None => None
           end
  end.

Definition is_separator (b : byte) : bool := bool_decide (b = x26) || bool_decide (b = x3b).

(** One pair of a query, added to the pairs before it. *)
Definition parse_segment (st : list (gostring * gostring) * bool) (seg : gostring) : list (gostring * gostring) * bool :=
  let '(acc, ok) := st in
  match seg with
  | [] => (acc, ok)
  | _ =>
    let '(k, v) := cut x3d seg in
    match QueryUnescape k, QueryUnescape v with
    | Some k', Some v' => (acc ++ [(k', v')], ok)
    | _, _ => (acc, false)
    end
  end.

(** [url.ParseQuery]: the pairs in order, and whether all of them were valid
    ([err == nil]). *)
Definition ParseQuery (query : gostring) : list (gostring * gostring) * bool :=
  foldl parse_segment ([], true) (split_by is_separator query).

(** [Values.Get]: the first value of a key, or the empty string. *)
Fixpoint values_Get (vs : list (gostring * gostring)) (key : gostring) : gostring :=
  match vs with
  | [] => []
  | (k, v) :: vs' => if bool_decide (k = key) then v else values_Get vs' key
  end.

Definition dec_digit (b : byte) : option Z :=
  let z := byte_to_Z b in
  if (48 <=? z) && (z <=? 57) then Some (z - 48) else None.

Fixpoint dec_value (acc : Z) (s : gostring) : option Z :=
  match s with
  | [] => Some acc
  | c :: s' => match dec_digit c with Some d => dec_value (10 * acc + d) s' | None => None end
  end.

(** [strconv.Atoi]; [None] is a syntax or range error. *)
Definition Atoi (s : gostring) : option Z :=
  let '(neg, digits) :=
    match s with
    | c :: rest => if bool_decide (c = x2d) then (true, rest)
                   else if bool_decide (c = x2b) then (false, rest) else (false, s)
    | [] => (false, [])
    end in
  match digits with
  | [] => None
  | _ =>
    match dec_value 0 digits with
    | Some v => let z := if neg then - v else v in
                if (- 2 ^ 63 <=? z) && (z <? 2 ^ 63) then Some z else None
    | None => None
    end
  end.

Lemma Atoi_range s z : Atoi s = Some z -> - 2 ^ 63 <= z < 2 ^ 63.
Proof.
  unfold Atoi. destruct (match s with [] => _ | _ => _ end) as [neg digits].
  intros H. destruct digits; [discriminate|]. destruct (dec_value _ _); [|discriminate].
  cbn zeta in H. destruct (_ && _) eqn:E; [|discriminate]. injection H as <-. zbool. lia.
Qed.

Example ParseQuery_weight :
  values_Get (ParseQuery (str "tps=10&weight=%37&weight=2")).1 (str "weight") = str "7".
Proof. vm_compute. reflexivity. Qed.

Example Atoi_examples :
  (Atoi (str "-12"), Atoi (str "+7"), Atoi (str "7x"), Atoi (str "9223372036854775808"))
  = (Some (-12), Some 7, None, None).
Proof. vm_compute. reflexivity. Qed.

(** ** Encoding queries *)

Definition hex_upper (z : Z) : byte := byte_of_Z (if z <? 10 then 48 + z else 55 + z).

(** Letters, digits and ["-_.~"] are kept, a space becomes ["+"], everything
    else is percent-encoded. *)
Definition unreserved (b : byte) : bool :=
  let z := byte_to_Z b in
  (48 <=? z) && (z <=? 57) || (65 <=? z) && (z <=? 90) || (97 <=? z) && (z <=? 122) ||
  (z =? 45) || (z =? 46) || (z =? 95) || (z =? 126).

Definition escape_byte (b : byte) : gostring :=
  if unreserved b then [b]
  else if bool_decide (b = x20) then [x2b]
  else [x25; hex_upper (byte_to_Z b / 16); hex_upper (byte_to_Z b mod 16)].

(** [url.QueryEscape] *)
Definition QueryEscape (s : gostring) : gostring := concat (map escape_byte s).

(** [v.Set(key, value)]: the values of the key are replaced by one. *)
Definition values_Set (vs : list (gostring * gostring)) (key value : gostring) : list (gostring * gostring) :=
  filter (fun kv => kv.1 <> key) vs ++ [(key, value)].

(** Byte-wise order of strings. *)
Fixpoint str_leb (a b : gostring) : bool :=
  match a, b with
  | [], _ => true
  | _ :: _, [] => false
  | x :: a', y :: b' =>
      if byte_to_Z x <? byte_to_Z y then true
      else if byte_to_Z y <? byte_to_Z x then false
      else str_leb a' b'
  end.

Fixpoint insert_key (k : gostring) (l : list gostring) : list gostring :=
  match l with
  | [] => [k]
  | x :: l' => if str_leb k x then k :: l else x :: insert_key k l'
  end.

(** The keys, each once, in order. *)
Definition sorted_keys (vs : list (gostring * gostring)) : list gostring :=
  foldr insert_key [] (remove_dups (map fst vs)).

(** The pairs in the order [Encode] writes them. *)
Definition grouped (vs : list (gostring * gostring)) : list (gostring * gostring) :=
  concat (map (fun k => filter (fun kv => kv.1 = k) vs) (sorted_keys vs)).

Definition encode_pair (kv : gostring * gostring) : gostring := QueryEscape kv.1 ++ x3d :: QueryEscape kv.2.

Fixpoint join (sep : byte) (l : list gostring) : gostring :=
  match l with
  | [] => []
  | [s] => s
  | s :: l' => s ++ sep :: join sep l'
  end.

(** [v.Encode()] *)
Definition values_Encode (vs : list (gostring * gostring)) : gostring := join x26 (map encode_pair (grouped vs)).

Example values_Encode_example :
  values_Encode (values_Set (ParseQuery (str "weight=7&group=a b&tps=3")).1 (str "tps") []) =
  str "group=a+b&tps=&weight=7".
Proof. vm_compute. reflexivity. Qed.

(** ** Parsing what was encoded *)

Lemma hex_digit_upper z : 0 <= z < 16 -> hex_digit (hex_upper z) = Some z.
Proof.
  intros Hz. unfold hex_digit, hex_upper. rewrite byte_to_Z_of_Z.
  destruct (z <? 10) eqn:E; zbool; rewrite Z.mod_small by lia; split_matches; zbool; try lia; f_equal; lia.
Qed.

Lemma QueryUnescape_escape_byte c rest :
  QueryUnescape (escape_byte c ++ rest) = option_map (cons c) (QueryUnescape rest).
Proof.
  unfold escape_byte. destruct (unreserved c) eqn:E.
  - cbn [app QueryUnescape]. rewrite bool_decide_false, (bool_decide_false (c = x2b)) by (intros ->; discriminate).
    by destruct (QueryUnescape rest).
  - destruct (bool_decide (c = x20)) eqn:Es.
    + apply bool_decide_eq_true in Es as ->. cbn [app QueryUnescape].
      rewrite bool_decide_false, bool_decide_true by done. by destruct (QueryUnescape rest).
    + cbn [app QueryUnescape]. rewrite bool_decide_true by done.
      pose proof (byte_to_Z_range c) as Hr. pose proof (Z.mod_pos_bound (byte_to_Z c) 16 ltac:(lia)) as Hm.
      assert (0 <= byte_to_Z c / 16 < 16) by (split; [apply Z.div_pos|apply Z.div_lt_upper_bound]; lia).
      rewrite !hex_digit_upper by lia.
      replace (16 * (byte_to_Z c / 16) + byte_to_Z c mod 16) with (byte_to_Z c) by (apply Z.div_mod; lia).
      rewrite byte_of_to_Z. by destruct (QueryUnescape rest).
Qed.

Lemma QueryUnescape_Escape s : QueryUnescape (QueryEscape s) = Some s.
Proof.
  induction s as [|c s IH]; [done|]. unfold QueryEscape in *. cbn [map concat].
  by rewrite QueryUnescape_escape_byte, IH.
Qed.

(** Bytes an escaped string does not contain. *)
Lemma escape_byte_safe c : Forall (fun b => is_separator b = false /\ b <> x3d) (escape_byte c).
Proof. destruct c; cbn; repeat constructor; discriminate. Qed.

Lemma QueryEscape_safe s : Forall (fun b => is_separator b = false /\ b <> x3d) (QueryEscape s).
Proof.
  induction s as [|c s IH]; [constructor|]. unfold QueryEscape in *. cbn [map concat].
  apply Forall_app. split; [apply escape_byte_safe|done].
Qed.

Lemma cut_at c a b : Forall (fun x => x <> c) a -> cut c (a ++ c :: b) = (a, b).
Proof.
  induction 1 as [|x a Hx Ha IH]; cbn; [by rewrite bool_decide_true|].
  rewrite bool_decide_false by done. by rewrite IH.
Qed.

Lemma split_by_none p s : Forall (fun b => p b = false) s -> split_by p s = [s].
Proof. induction 1 as [|x s Hx Hs IH]; cbn; [done|]. by rewrite IH, Hx. Qed.

Lemma split_by_sep p s sep rest :
  Forall (fun b => p b = false) s -> p sep = true -> split_by p (s ++ sep :: rest) = s :: split_by p rest.
Proof.
  intros Hs Hsep. induction Hs as [|x s Hx Hs IH]; cbn.
  - rewrite Hsep. destruct (split_by p rest) eqn:E; [|done]. destruct rest; [done|]. cbn in E.
    destruct (split_by p rest); [done|]. by destruct (p _).
  - by rewrite IH, Hx.
Qed.

Lemma split_by_join l : l <> [] -> Forall (Forall (fun b => is_separator b = false)) l ->
  split_by is_separator (join x26 l) = l.
Proof.
  induction l as [|s l IH]; intros Hne H; [done|]. apply Forall_cons in H as [Hs Hl].
  destruct l as [|s' l]; [by apply split_by_none|].
  change (join x26 (s :: s' :: l)) with (s ++ x26 :: join x26 (s' :: l)).
  rewrite split_by_sep by done. by rewrite IH.
Qed.

Lemma encode_pair_safe kv : Forall (fun b => is_separator b = false) (encode_pair kv).
Proof.
  unfold encode_pair. apply Forall_app. split; [|constructor; [done|]].
  - apply (Forall_impl _ _ _ (QueryEscape_safe kv.1)). tauto.
  - apply (Forall_impl _ _ _ (QueryEscape_safe kv.2)). tauto.
Qed.

Lemma parse_segment_encoded acc kv : parse_segment (acc, true) (encode_pair kv) = (acc ++ [kv], true).
Proof.
  unfold parse_segment. destruct (encode_pair kv) as [|b seg] eqn:E.
  { unfold encode_pair in E. by destruct (QueryEscape kv.1). }
  rewrite <- E. unfold encode_pair. rewrite cut_at.
  - rewrite !QueryUnescape_Escape. by destruct kv.
  - apply (Forall_impl _ _ _ (QueryEscape_safe kv.1)). tauto.
Qed.

Lemma parse_segments_encoded l : forall acc,
  foldl parse_segment (acc, true) (map encode_pair l) = (acc ++ l, true).
Proof.
  induction l as [|kv l IH]; intros acc; [by rewrite app_nil_r|].
  cbn [map foldl]. rewrite parse_segment_encoded, IH, <- app_assoc. done.
Qed.

Lemma ParseQuery_join l : ParseQuery (join x26 (map encode_pair l)) = (l, true).
Proof.
  unfold ParseQuery. destruct l as [|kv l]; [done|]. rewrite split_by_join; [apply (parse_segments_encoded (kv :: l))|done|].
  apply Forall_forall. intros s Hs. apply list_elem_of_fmap in Hs as (x & -> & _). apply encode_pair_safe.
Qed.

Lemma values_Get_filter l key : values_Get (filter (fun kv => kv.1 = key) l) key = values_Get l key.
Proof.
  induction l as [|[k v] l IH]; [done|]. rewrite filter_cons. cbn [fst values_Get].
  destruct (decide (k = key)) as [->|Hne]; cbn [values_Get].
  - by rewrite !bool_decide_true.
  - by rewrite (bool_decide_false (k = key)).
Qed.

Lemma values_Get_app_other l k key : Forall (fun kv => kv.1 <> key) l -> values_Get (l ++ k) key = values_Get k key.
Proof. induction 1 as [|[x v] l Hx Hl IH]; [done|]. cbn in *. by rewrite bool_decide_false. Qed.

Lemma values_Get_app_l l k key : (exists v, (key, v) ∈ l) -> values_Get (l ++ k) key = values_Get l key.
Proof.
  induction l as [|[x v] l IH]; intros (w & Hw); [by apply not_elem_of_nil in Hw|]. cbn.
  destruct (bool_decide (x = key)) eqn:E; [done|]. apply bool_decide_eq_false in E. apply IH. exists w.
  apply elem_of_cons in Hw as [Hw|Hw]; [congruence|done].
Qed.

Lemma elem_of_insert_key k x l : x ∈ insert_key k l <-> x = k \/ x ∈ l.
Proof.
  induction l as [|y l IH]; cbn; [by rewrite list_elem_of_singleton, elem_of_nil; tauto|].
  destruct (str_leb k y); rewrite !elem_of_cons; [tauto|]. rewrite IH. tauto.
Qed.

Lemma elem_of_sorted_keys vs x : x ∈ sorted_keys vs <-> x ∈ map fst vs.
Proof.
  unfold sorted_keys. rewrite <- (elem_of_remove_dups (map fst vs)). induction (remove_dups (map fst vs)) as [|y l IH]; cbn; [done|].
  rewrite elem_of_insert_key, elem_of_cons, IH. done.
Qed.

(** Grouping by key does not change the first value of a key. *)
Lemma values_Get_grouped vs key : values_Get (grouped vs) key = values_Get vs key.
Proof.
  unfold grouped.
  assert (forall ks, key ∈ ks ->
    values_Get (concat (map (fun k => filter (fun kv => kv.1 = k) vs) ks)) key = values_Get vs key) as Hin.
  { induction ks as [|k ks IH]; intros Hk; [by apply not_elem_of_nil in Hk|]. cbn [map concat].
    destruct (decide (k = key)) as [->|Hne].
    - destruct (decide (Exists (fun kv => kv.1 = key) vs)) as [Hex|Hnex].
      + apply Exists_exists in Hex as ([k v] & Hkv & Hk'). cbn in Hk'. subst k.
        rewrite values_Get_app_l by (exists v; by apply list_elem_of_filter). apply values_Get_filter.
      + assert (filter (fun kv => kv.1 = key) vs = []) as Hf.
        { apply elem_of_nil_inv. intros kv Hkv. apply list_elem_of_filter in Hkv as [Hkv Hin'].
          apply Hnex, Exists_exists. eauto. }
        rewrite Hf. cbn [app]. destruct (decide (key ∈ ks)) as [Hks|Hks]; [by apply IH|].
        rewrite <- (app_nil_r (concat _)), values_Get_app_other.
        { cbn. rewrite <- values_Get_filter, Hf. done. }
        apply Forall_concat, Forall_fmap, Forall_forall. intros k Hk'. apply Forall_forall. intros kv Hkv.
        apply list_elem_of_filter in Hkv as [Hkv _]. congruence.
    - rewrite values_Get_app_other.
      + apply IH. apply elem_of_cons in Hk as [->|Hk]; done.
      + apply Forall_forall. intros kv Hkv. apply list_elem_of_filter in Hkv as [Hkv _]. congruence. }
  destruct (decide (key ∈ map fst vs)) as [Hk|Hk]; [apply Hin; by apply elem_of_sorted_keys|].
  rewrite <- (app_nil_r (concat _)), values_Get_app_other.
  - rewrite <- (app_nil_r vs), values_Get_app_other; [done|]. apply Forall_forall. intros kv Hkv E.
    apply Hk. apply list_elem_of_fmap. eauto.
  - apply Forall_concat, Forall_fmap, Forall_forall. intros k Hk'. apply Forall_forall. intros kv Hkv E.
    apply list_elem_of_filter in Hkv as [_ Hkv]. apply Hk. apply list_elem_of_fmap. eauto.
Qed.

(** Parsing an encoded query gives back every first value. *)
Lemma ParseQuery_Encode vs :
  (ParseQuery (values_Encode vs)).2 = true /\
  forall key, values_Get (ParseQuery (values_Encode vs)).1 key = values_Get vs key.
Proof.
  unfold values_Encode. rewrite ParseQuery_join. split; [done|]. intros key. apply values_Get_grouped.
Qed.

Lemma values_Get_Set vs key value other :
  values_Get (values_Set vs key value) other = if bool_decide (key = other) then value else values_Get vs other.
Proof.
  unfold values_Set. destruct (bool_decide (key = other)) eqn:E.
  - apply bool_decide_eq_true in E as ->. rewrite values_Get_app_other.
    + cbn. by rewrite bool_decide_true.
    + apply Forall_forall. intros kv Hkv. by apply list_elem_of_filter in Hkv as [Hkv _].
  - apply bool_decide_eq_false in E. induction vs as [|[k v] vs IH].
    + cbn. by rewrite bool_decide_false.
    + rewrite filter_cons. cbn [fst values_Get]. destruct (decide (k <> key)) as [Hk|Hk].
      * cbn [app values_Get]. by destruct (bool_decide (k = other)).
      * apply dec_stable in Hk as ->. rewrite (bool_decide_false (key = other)) by done. apply IH.
Qed.
