(* ===== verification/Util.v ===== *)
(** * Utilities (src/util/compress.go, converter.go)

    [Zip] and [Unzip] over the gzip library, which is a parameter with the laws
    its documentation states, and the conversions between strings and byte
    slices that share memory. *)
From Stdlib Require Import Strings.Byte.
From S2P Require Import Prelude.

(** ** Compression *)

(** [compress/gzip] as the code uses it: a writer over a buffer and a reader
    over bytes. *)
Class GzipLib (W R : Type) := {
  gz_NewWriter : W;
  gz_Write : bytes -> W -> W * option error;
  gz_Flush : W -> W * option error;
  gz_Close : W -> W * option error;
  gz_Bytes : W -> bytes;
  gz_NewReader : bytes -> R + error;
  gz_ReadAll : R -> bytes + error
}.

(** What was written to a writer is what a reader of its output reads once the
    writer is closed. *)
Class GzipLaws (W R : Type) `{GzipLib W R} := {
  gz_content : W -> bytes;
  gz_closed : W -> bool;
  new_law : gz_content gz_NewWriter = [] /\ gz_closed gz_NewWriter = false;
  Write_law : forall d w w', gz_closed w = false -> gz_Write d w = (w', None) ->
    gz_content w' = gz_content w ++ d /\ gz_closed w' = false;
  Flush_law : forall w w', gz_closed w = false -> gz_Flush w = (w', None) ->
    gz_content w' = gz_content w /\ gz_closed w' = false;
  Close_law : forall w w', gz_Close w = (w', None) -> gz_content w' = gz_content w /\ gz_closed w' = true;
  Read_law : forall w, gz_closed w = true ->
    exists r, gz_NewReader (gz_Bytes w) = inl r /\ gz_ReadAll r = inl (gz_content w)
}.

Section compress.
Context {W R : Type} `{GzipLib W R}.

Definition Unzip (data : bytes) : bytes + error :=
  match gz_NewReader data with
  | inr e => inr e
  | inl gr =>
      match gz_ReadAll gr with
      | inr e => inr e
      | inl data => inl data
      end
  end.

Definition Zip (data : bytes) : bytes + error :=
  let '(w, err) := gz_Write data gz_NewWriter in
  match err with
  | Some e => inr e
  | None =>
      let '(w, err) := gz_Flush w in
      match err with
      | Some e => inr e
      | None =>
          let '(w, err) := gz_Close w in
          match err with
          | Some e => inr e
          | None => inl (gz_Bytes w)
          end
      end
  end.
End compress.

(** What [Zip] compresses [Unzip] restores, for every content. *)
Theorem unzip_zip {W R} `{GzipLaws W R} data z : Zip data = inl z -> Unzip z = inl data.
Proof.
  unfold Zip, Unzip. destruct new_law as [Hn Hc].
  destruct (gz_Write data gz_NewWriter) as [w1 [e|]] eqn:E1; [discriminate|].
  destruct (gz_Flush w1) as [w2 [e|]] eqn:E2; [discriminate|].
  destruct (gz_Close w2) as [w3 [e|]] eqn:E3; [discriminate|]. intros [= <-].
  apply Write_law in E1 as [H1 C1]; [|done]. apply Flush_law in E2 as [H2 C2]; [|done]. apply Close_law in E3 as [H3 C3].
  destruct (Read_law w3 C3) as (r & -> & ->). by rewrite H3, H2, H1, Hn.
Qed.

(** ** Strings and slices over the same memory *)

(** The headers of a slice and of a string: words of memory. *)
Record slice_header := mkSlice { sh_Data : Z; sh_Len : Z; sh_Cap : Z }.
Record string_header := mkString { gh_Data : Z; gh_Len : Z }.

(** The first two words of the slice header, read as a string header. *)
Definition ByteToString (b : slice_header) : string_header := mkString (sh_Data b) (sh_Len b).

(** The words [x[0], x[1], x[1]], read as a slice header. *)
Definition StringToByte (s : string_header) : slice_header := mkSlice (gh_Data s) (gh_Len s) (gh_Len s).

Definition memory := Z -> byte.
Definition contents (m : memory) (start length : Z) : bytes := (fun i => m (start + Z.of_nat i)) <$> seq 0 (Z.to_nat length).

(** [b[i] = x] *)
Definition store (b : slice_header) (i : Z) (x : byte) (m : memory) : memory :=
  fun a => if a =? sh_Data b + i then x else m a.

(** The conversions copy nothing: in any memory the string and the slice
    have the same contents, each conversion undoes the other up to spare
    capacity, and a later write to the slice is seen through the string, so a
    string made by [ByteToString] is constant only as long as nobody writes to
    the buffer. *)
Theorem conversions_alias m b s :
  contents m (gh_Data (ByteToString b)) (gh_Len (ByteToString b)) = contents m (sh_Data b) (sh_Len b) /\
  contents m (sh_Data (StringToByte s)) (sh_Len (StringToByte s)) = contents m (gh_Data s) (gh_Len s) /\
  ByteToString (StringToByte s) = s /\ StringToByte (ByteToString b) = mkSlice (sh_Data b) (sh_Len b) (sh_Len b) /\
  (forall i x, 0 <= i < sh_Len b ->
     contents (store b i x m) (gh_Data (ByteToString b)) (gh_Len (ByteToString b)) !! Z.to_nat i = Some x).
Proof.
  do 2 (split; [done|]). split; [by destruct s|]. split; [done|]. intros i x Hi. unfold contents, store. cbn.
  rewrite list_lookup_fmap, lookup_seq_lt by lia. cbn. by rewrite Z.add_0_l || rewrite (proj2 (Z.eqb_eq _ _)) by lia.
Qed.

(** ** Witnesses *)

(** A gzip library that stores: a magic number, then the bytes. *)
#[export] Instance stored_Gzip : GzipLib (bytes * bool) bytes := {
  gz_NewWriter := ([], false);
  gz_Write := fun d w => ((w.1 ++ d, w.2), None);
  gz_Flush := fun w => (w, None);
  gz_Close := fun w => ((w.1, true), None);
  gz_Bytes := fun w => [x1f; x8b] ++ w.1;
  gz_NewReader := fun data =>
    match data with
    | a :: b :: rest => if bool_decide (a = x1f /\ b = x8b) then inl rest else inr (ExternalError (str "gzip: invalid header"))
    | _ => inr EOF
    end;
  gz_ReadAll := fun r => inl r
}.

#[export, refine] Instance stored_GzipLaws : GzipLaws (bytes * bool) bytes := { gz_content := fst; gz_closed := snd }.
Proof.
  - done.
  - intros d [c b] w' Hb [= <-]. done.
  - intros [c b] w' Hb [= <-]. done.
  - intros [c b] w' [= <-]. done.
  - intros [c b] _. exists c. done.
Defined.

Lemma unzip_zip_witness : Zip (str "hello") = inl ([x1f; x8b] ++ str "hello") /\ Unzip ([x1f; x8b] ++ str "hello") = inl (str "hello").
Proof. split; [reflexivity|]. apply (unzip_zip (str "hello")). reflexivity. Defined.
