(* ===== verification/Log.v ===== *)
(** * Logging (src/log/logger.go, default_logger.go)

    The [Logger] interface with its twelve methods (six severities, with and
    without a format), the package-level logger that [SetLogger] replaces, and
    the default logger over the standard library's.  What a logger does is
    seen in the world: the lines written, and whether the process has exited or
    the goroutine is panicking.  [fmt] and the colour package are parameters. *)
From S2P Require Import Prelude.

Inductive severity := SevDebug | SevInfo | SevWarn | SevError | SevFatal | SevPanic.

Inductive colour := NoColour | Green | Yellow | Red | Magenta.

Inductive ending := Exited (code : Z) | Panicking (msg : gostring).

Record world := mkWorld {
  w_lines : list (Z * gostring);
  w_end : option ending
}.

Definition calldepth : Z := 3.

Section logging.
(** Values, a slice of values as a value, [fmt.Sprint], [fmt.Sprintf], and the
    [color.*String] functions. *)
Context {value : Type} (slice : list value -> value).
Context (Sprint : list value -> gostring) (Sprintf : gostring -> list value -> gostring).
Context (paint : colour -> gostring -> gostring).

(** The methods of the interface, by severity: [Debug(v...)] and so on, and
    [Debugf(format, v...)] and so on. *)
Record Logger := mkLogger {
  lg_Log : severity -> list value -> world -> world;
  lg_Logf : severity -> gostring -> list value -> world -> world
}.

(** [fmt.Sprintf("%s: %s", lvl, msg)] *)
Definition header (lvl msg : gostring) : gostring := lvl ++ str ": " ++ msg.

(** [l.Output] of the standard logger. *)
Definition output (depth : Z) (line : gostring) (w : world) : world :=
  mkWorld (w_lines w ++ [(depth, line)]) (w_end w).

Definition stop (e : ending) (w : world) : world := mkWorld (w_lines w) (Some e).

(** The level as the default logger prints it. *)
Definition label (s : severity) : gostring :=
  match s with
  | SevDebug => str "DEBUG"
  | SevInfo => paint Green (str "INFO ")
  | SevWarn => paint Yellow (str "WARN ")
  | SevError => paint Red (str "ERROR")
  | SevFatal => paint Magenta (str "FATAL")
  | SevPanic => []
  end.

(** A call in a process that has exited or a goroutine that panics does not
    happen. *)
Definition alive (f : world -> world) (w : world) : world :=
  match w_end w with None => f w | Some _ => w end.

(** [log.Logger.Panic] and [Panicf] of the standard library write the line and
    panic with it; the default logger's [Panic] hands the whole slice on as one
    value. *)
Definition std_Panic (msg : gostring) (w : world) : world := stop (Panicking msg) (output 2 msg w).

Definition default_Log (s : severity) (v : list value) : world -> world :=
  alive (fun w =>
    match s with
    | SevFatal => stop (Exited 1) (output calldepth (header (label s) (Sprint v)) w)
    | SevPanic => std_Panic (Sprint [slice v]) w
    | _ => output calldepth (header (label s) (Sprint v)) w
    end).

Definition default_Logf (s : severity) (format : gostring) (v : list value) : world -> world :=
  alive (fun w =>
    match s with
    | SevFatal => stop (Exited 1) (output calldepth (header (label s) (Sprintf format v)) w)
    | SevPanic => std_Panic (Sprintf format v) w
    | _ => output calldepth (header (label s) (Sprintf format v)) w
    end).

Definition defaultLogger : Logger := mkLogger default_Log default_Logf.

(** The package: its variable [l], and a program's use of it. *)
Inductive log_op :=
| OpSetLogger (logger : Logger)
| OpLog (s : severity) (v : list value)
| OpLogf (s : severity) (format : gostring) (v : list value).

Definition SetLogger (logger : Logger) (st : Logger * world) : Logger * world := (logger, st.2).
Definition Log (s : severity) (v : list value) (st : Logger * world) : Logger * world := (st.1, lg_Log st.1 s v st.2).
Definition Logf (s : severity) (format : gostring) (v : list value) (st : Logger * world) : Logger * world :=
  (st.1, lg_Logf st.1 s format v st.2).

Definition log_step (st : Logger * world) (op : log_op) : Logger * world :=
  match op with
  | OpSetLogger logger => SetLogger logger st
  | OpLog s v => Log s v st
  | OpLogf s format v => Logf s format v st
  end.

Definition log_run : Logger * world -> list log_op -> Logger * world := foldl log_step.

(** ** Proofs *)

(** Whether an operation ends the program with the default logger. *)
Definition final (op : log_op) : bool :=
  match op with
  | OpSetLogger _ => false
  | OpLog s _ | OpLogf s _ _ => match s with SevFatal | SevPanic => true | _ => false end
  end.

(** The line of an operation. *)
Definition line_of (op : log_op) : list (Z * gostring) :=
  match op with
  | OpSetLogger _ => []
  | OpLog SevPanic v => [(2, Sprint [slice v])]
  | OpLogf SevPanic format v => [(2, Sprintf format v)]
  | OpLog s v => [(calldepth, header (label s) (Sprint v))]
  | OpLogf s format v => [(calldepth, header (label s) (Sprintf format v))]
  end.

Lemma ended_run ops w : w_end w <> None -> (forall op, op ∈ ops -> exists s v, op = OpLog s v) ->
  log_run (defaultLogger, w) ops = (defaultLogger, w).
Proof.
  intros Hw. induction ops as [|op ops IH]; intros Hops; [done|].
  destruct (Hops op) as (s & v & ->); [by apply elem_of_cons; left|]. cbn. unfold Log. cbn.
  replace (default_Log s v w) with w; [apply IH; intros; apply Hops, elem_of_cons; by right|].
  unfold default_Log, alive. by destruct (w_end w).
Qed.

(** The default logger writes every message, in order, one line each with
    its level, until a fatal message, which is written too and exits with
    status 1; nothing is written after it. *)
Theorem default_logger_lines before v after w :
  w_end w = None -> (forall op, op ∈ before -> final op = false /\ forall l, op <> OpSetLogger l) ->
  (forall op, op ∈ after -> exists s v, op = OpLog s v) ->
  log_run (defaultLogger, w) (before ++ OpLog SevFatal v :: after) =
    (defaultLogger, mkWorld (w_lines w ++ concat (map line_of before) ++ line_of (OpLog SevFatal v)) (Some (Exited 1))).
Proof.
  intros Hw Hbefore Hafter. revert w Hw Hbefore. induction before as [|op before IH]; intros w Hw Hbefore.
  - cbn [app log_run foldl log_step]. unfold Log. cbn [fst snd defaultLogger lg_Log].
    change (foldl log_step ?st after) with (log_run st after). unfold default_Log at 1, alive. rewrite Hw.
    by rewrite ended_run.
  - destruct (Hbefore op) as [Hf Hset]; [by apply elem_of_cons; left|].
    assert (log_step (defaultLogger, w) op = (defaultLogger, mkWorld (w_lines w ++ line_of op) None)) as Hstep.
    { destruct op as [l|s x|s f x]; [by destruct (Hset l)|..]; destruct s; try discriminate;
        cbn; unfold Log, Logf; cbn; unfold default_Log, default_Logf, alive, output; rewrite Hw; by rewrite <- Hw. }
    cbn [app log_run foldl]. rewrite Hstep. change (foldl log_step ?st ?ops) with (log_run st ops).
    rewrite IH; [|done|intros; apply Hbefore, elem_of_cons; by right]. cbn [w_lines map concat]. by rewrite <- !app_assoc.
Qed.
End logging.

(** ** Witnesses *)

Definition join (v : list gostring) : gostring := concat v.
Definition bracket (v : list gostring) : gostring := str "[" ++ concat v ++ str "]".
Definition plain (c : colour) (s : gostring) : gostring := s.

Lemma default_logger_lines_witness :
  let lg := defaultLogger bracket join (fun f v => f ++ join v) plain in
  log_run (lg, mkWorld [] None) [OpLog SevInfo [str "up"]; OpLog SevFatal [str "down"]; OpLog SevWarn [str "late"]] =
    (lg, mkWorld [(3, str "INFO : up"); (3, str "FATAL: down")] (Some (Exited 1))).
Proof.
  apply (default_logger_lines bracket join (fun f v => f ++ join v) plain [OpLog SevInfo [str "up"]] [str "down"]
    [OpLog SevWarn [str "late"]] (mkWorld [] None)).
  - reflexivity.
  - intros op [->|[]%elem_of_nil]%elem_of_cons. by split.
  - intros op [->|[]%elem_of_nil]%elem_of_cons. by eexists _, _.
Defined.

(** [Panic] prints its arguments as one slice. *)
Example Panic_prints_slice :
  w_lines (default_Log bracket join plain SevPanic [str "a"] (mkWorld [] None)) = [(2, str "[a]")].
Proof. reflexivity. Qed.
