(* ===== verification/Header.v ===== *)
(** * The message header (src/protocol/message.go, lines 11-177)

    A header is an array of twelve bytes: magic number, version, one byte of
    packed flags (message type, heartbeat, one-way, compression, status), one
    byte whose upper half is the serialization type, and a 64-bit sequence
    number.  The enumerations of the source are [byte] types, so a header read
    from the wire can hold any value of them. *)
From Stdlib Require Import Strings.Byte.
From S2P Require Import Prelude GoStd.

(** ** Byte operators of the language *)

Definition bor (a b : byte) : byte := byte_of_Z (Z.lor (byte_to_Z a) (byte_to_Z b)).
Definition band (a b : byte) : byte := byte_of_Z (Z.land (byte_to_Z a) (byte_to_Z b)).
(** Go's [a &^ b]. *)
Definition bandnot (a b : byte) : byte := byte_of_Z (Z.ldiff (byte_to_Z a) (byte_to_Z b)).
Definition bshl (a : byte) (n : Z) : byte := byte_of_Z (Z.shiftl (byte_to_Z a) n).
Definition bshr (a : byte) (n : Z) : byte := byte_of_Z (Z.shiftr (byte_to_Z a) n).
Definition beqb (a b : byte) : bool := byte_to_Z a =? byte_to_Z b.

Lemma beqb_true a b : beqb a b = true <-> a = b.
Proof. unfold beqb. rewrite Z.eqb_eq. split; [apply (inj byte_to_Z)|by intros ->]. Qed.

(** A property of all (pairs of) bytes is checked by evaluation. *)
Definition all_bytes : list byte := map byte_of_Z (seqZ 0 256).

Lemma all_bytes_complete b : b ∈ all_bytes.
Proof.
  unfold all_bytes. rewrite <- (byte_of_to_Z b).
  apply list_elem_of_fmap_2, elem_of_seqZ. pose proof (byte_to_Z_range b). lia.
Qed.

Section exhaustive.
Context {A : Type} `{!EqDecision A}.

Lemma forall_byte (f g : byte -> A) :
  forallb (fun a => bool_decide (f a = g a)) all_bytes = true -> forall a, f a = g a.
Proof.
  intros H a. rewrite forallb_forall in H.
  eapply bool_decide_eq_true_1, (H a), list_elem_of_In, all_bytes_complete.
Qed.

Lemma forall_byte2 (f g : byte -> byte -> A) :
  forallb (fun a => forallb (fun b => bool_decide (f a b = g a b)) all_bytes) all_bytes = true ->
  forall a b, f a b = g a b.
Proof.
  intros H a. apply forall_byte. rewrite forallb_forall in H.
  apply H, list_elem_of_In, all_bytes_complete.
Qed.
End exhaustive.

(** Proves an equation in at most two bytes by evaluating it on all of them. *)
Ltac byte_solve :=
  match goal with
  | |- forall a b : Init.Byte.byte, @?f a b = @?g a b =>
      apply (forall_byte2 f g); vm_compute; reflexivity
  | |- forall a : Init.Byte.byte, @?f a = @?g a =>
      apply (forall_byte f g); vm_compute; reflexivity
  end.

(** ** Constants *)

Definition magicNumber : byte := x08.

Definition MessageType := byte.
Definition Request : MessageType := x00.
Definition Response : MessageType := x01.

Definition CompressType := byte.
Definition CompressNone : CompressType := x00.
Definition Gzip : CompressType := x01.

Definition MessageStatusType := byte.
Definition Normal : MessageStatusType := x00.
Definition StatusError : MessageStatusType := x01.

Definition SerializeType := byte.
Definition JSON : SerializeType := x00.
Definition ProtoBuffer : SerializeType := x01.
Definition MsgPack : SerializeType := x02.

(** ** The header and its accessors *)

Definition Header : Type := vec byte 12.

#[export] Instance Header_inhabited : Inhabited Header := populate (vreplicate 12 x00).

Section accessors.
Implicit Types h : Header.

Definition CheckMagicNumber h : bool := beqb (h !!! 0%fin) magicNumber.

Definition Version h : byte := h !!! 1%fin.
Definition SetVersion h (v : byte) : Header := vinsert 1%fin v h.

Definition getMessageType h : MessageType := bshr (band (h !!! 2%fin) x80) 7.
Definition SetMessageType h (mt : MessageType) : Header :=
  vinsert 2%fin (bor (h !!! 2%fin) (bshl mt 7)) h.

Definition IsHeartbeat h : bool := beqb (band (h !!! 2%fin) x40) x40.
Definition SetHeartbeat h (hb : bool) : Header :=
  if hb then vinsert 2%fin (bor (h !!! 2%fin) x40) h
  else vinsert 2%fin (bandnot (h !!! 2%fin) x40) h.

Definition IsOneway h : bool := beqb (band (h !!! 2%fin) x20) x20.
Definition SetOneway h (oneway : bool) : Header :=
  if oneway then vinsert 2%fin (bor (h !!! 2%fin) x20) h
  else vinsert 2%fin (bandnot (h !!! 2%fin) x20) h.

Definition getCompressType h : CompressType := bshr (band (h !!! 2%fin) x1c) 2.
Definition SetCompressType h (ct : CompressType) : Header :=
  vinsert 2%fin (bor (h !!! 2%fin) (band (bshl ct 2) x1c)) h.

Definition getMessageStatusType h : MessageStatusType := band (h !!! 2%fin) x03.
Definition SetMessageStatusType h (mt : MessageStatusType) : Header :=
  vinsert 2%fin (bor (h !!! 2%fin) (band mt x03)) h.

Definition getSerializeType h : SerializeType := bshr (band (h !!! 3%fin) xf0) 4.
Definition SetSerializeType h (st : SerializeType) : Header :=
  vinsert 3%fin (bor (h !!! 3%fin) (bshl st 4)) h.

(** [h[4:]] has eight bytes, so [Uint64] does not panic. *)
Definition Seq h : Z :=
  match BigEndian_Uint64 (drop 4 (vec_to_list h)) with
  | Val v => v
  | _ => 0
  end.
Definition SetSeq h (seq : Z) : Header :=
  vinsert 4%fin (byte_of_Z (Z.shiftr seq 56)) $
  vinsert 5%fin (byte_of_Z (Z.shiftr seq 48)) $
  vinsert 6%fin (byte_of_Z (Z.shiftr seq 40)) $
  vinsert 7%fin (byte_of_Z (Z.shiftr seq 32)) $
  vinsert 8%fin (byte_of_Z (Z.shiftr seq 24)) $
  vinsert 9%fin (byte_of_Z (Z.shiftr seq 16)) $
  vinsert 10%fin (byte_of_Z (Z.shiftr seq 8)) $
  vinsert 11%fin (byte_of_Z seq) h.

(** [copy(h[1:], zeroHeader)]: everything but the magic number is zeroed. *)
Definition resetHeader h : Header := (h !!! 0%fin) ::: vreplicate 11 x00.

(** The first [len l] bytes replaced, as [io.ReadFull(reader, h[:])] does. *)
Definition header_fill h (l : bytes) : Header :=
  fun_to_vec (fun i => match l !! (fin_to_nat i) with Some b => b | None => h !!! i end).

End accessors.

Arguments header_fill : simpl never.

(** [Header([12]byte{})] with the magic number set. *)
Definition newHeader : Header := magicNumber ::: vreplicate 11 x00.

(** Opens a header into its twelve bytes and evaluates. *)
Ltac open_header h := inv_vec h; intros.
Ltac by_header h := open_header h; reflexivity.

(** ** Setters and getters *)

Section header_facts.
Implicit Types h : Header.

Lemma SetSeq_bytes h seq :
  vec_to_list (SetSeq h seq) = take 4 (vec_to_list h) ++ be64 seq.
Proof. by_header h. Qed.

Lemma Seq_SetSeq_wrap h seq : Seq (SetSeq h seq) = wrap64 seq.
Proof.
  unfold Seq. rewrite SetSeq_bytes, drop_app_len.
  - pose proof (Uint64_be64 seq []) as E. rewrite app_nil_r in E. by rewrite E.
  - by_header h.
Qed.

End header_facts.

(** ** The abstract header

    What a header means: its fields.  [view] is the abstraction function; the
    theorems below say that each setter, a bit operation on the packed bytes,
    is an update of one field of the view. *)
Record HeaderView := mkView {
  v_magic : byte;
  v_version : byte;
  v_type : MessageType;
  v_heartbeat : bool;
  v_oneway : bool;
  v_compress : CompressType;
  v_status : MessageStatusType;
  v_serialize : SerializeType;
  v_seq : Z
}.

Definition view (h : Header) : HeaderView :=
  mkView (h !!! 0%fin) (Version h) (getMessageType h) (IsHeartbeat h) (IsOneway h)
    (getCompressType h) (getMessageStatusType h) (getSerializeType h) (Seq h).

(** The five fields packed in the flag byte. *)
Definition flags (a : byte) : MessageType * bool * bool * CompressType * MessageStatusType :=
  (bshr (band a x80) 7, beqb (band a x40) x40, beqb (band a x20) x20,
   bshr (band a x1c) 2, band a x03).

Lemma flags_type : forall a b : byte, flags (bor a (bshl b 7)) =
  let '(t, hb, ow, ct, ms) := flags a in (bor t (band b x01), hb, ow, ct, ms).
Proof. byte_solve. Qed.

Lemma flags_compress : forall a b : byte, flags (bor a (band (bshl b 2) x1c)) =
  let '(t, hb, ow, ct, ms) := flags a in (t, hb, ow, bor ct (band b x07), ms).
Proof. byte_solve. Qed.

Lemma flags_status : forall a b : byte, flags (bor a (band b x03)) =
  let '(t, hb, ow, ct, ms) := flags a in (t, hb, ow, ct, bor ms (band b x03)).
Proof. byte_solve. Qed.

Lemma flags_heartbeat (v : bool) : forall a : byte,
  flags (if v then bor a x40 else bandnot a x40) =
  let '(t, hb, ow, ct, ms) := flags a in (t, v, ow, ct, ms).
Proof. destruct v; byte_solve. Qed.

Lemma flags_oneway (v : bool) : forall a : byte,
  flags (if v then bor a x20 else bandnot a x20) =
  let '(t, hb, ow, ct, ms) := flags a in (t, hb, v, ct, ms).
Proof. destruct v; byte_solve. Qed.

Lemma serialize_nibble : forall a b : byte,
  bshr (band (bor a (bshl b 4)) xf0) 4 = bor (bshr (band a xf0) 4) (band b x0f).
Proof. byte_solve. Qed.

Lemma ser_byte_set (h : Header) b : (vinsert 3%fin b h : Header) !!! 3%fin = b.
Proof. apply vlookup_insert. Qed.

Lemma getSerializeType_set h st :
  getSerializeType (SetSerializeType h st) = bor (getSerializeType h) (band st x0f).
Proof. unfold getSerializeType, SetSerializeType. by rewrite ser_byte_set, serialize_nibble. Qed.

Definition flags_view (h : Header) (f : MessageType * bool * bool * CompressType * MessageStatusType) : HeaderView :=
  let '(t, hb, ow, ct, ms) := f in
  mkView (h !!! 0%fin) (Version h) t hb ow ct ms (getSerializeType h) (Seq h).

(** The view of a header after a write to its flag byte. *)
Lemma view_flag_write h a : view (vinsert 2%fin a h) = flags_view h (flags a).
Proof. by_header h. Qed.

Lemma view_flags h : view h = flags_view h (flags (h !!! 2%fin)).
Proof. by_header h. Qed.

(** *** Each setter on the view *)

Lemma view_SetVersion (h : Header) (v : byte) :
  view (SetVersion h v) = let w := view h in
    mkView (v_magic w) v (v_type w) (v_heartbeat w) (v_oneway w) (v_compress w) (v_status w) (v_serialize w) (v_seq w).
Proof.
  by_header h.
Qed.

Lemma view_SetMessageType (h : Header) (mt : MessageType) :
  view (SetMessageType h mt) = let w := view h in
    mkView (v_magic w) (v_version w) (bor (v_type w) (band mt x01)) (v_heartbeat w) (v_oneway w) (v_compress w) (v_status w) (v_serialize w) (v_seq w).
Proof.
  unfold SetMessageType. rewrite view_flag_write, flags_type. reflexivity.
Qed.

Lemma view_SetHeartbeat (h : Header) (hb : bool) :
  view (SetHeartbeat h hb) = let w := view h in
    mkView (v_magic w) (v_version w) (v_type w) hb (v_oneway w) (v_compress w) (v_status w) (v_serialize w) (v_seq w).
Proof.
  pose proof (flags_heartbeat hb (h !!! 2%fin)) as E.
  destruct hb; unfold SetHeartbeat; rewrite view_flag_write, E; reflexivity.
Qed.

Lemma view_SetOneway (h : Header) (ow : bool) :
  view (SetOneway h ow) = let w := view h in
    mkView (v_magic w) (v_version w) (v_type w) (v_heartbeat w) ow (v_compress w) (v_status w) (v_serialize w) (v_seq w).
Proof.
  pose proof (flags_oneway ow (h !!! 2%fin)) as E.
  destruct ow; unfold SetOneway; rewrite view_flag_write, E; reflexivity.
Qed.

Lemma view_SetCompressType (h : Header) (ct : CompressType) :
  view (SetCompressType h ct) = let w := view h in
    mkView (v_magic w) (v_version w) (v_type w) (v_heartbeat w) (v_oneway w) (bor (v_compress w) (band ct x07)) (v_status w) (v_serialize w) (v_seq w).
Proof.
  unfold SetCompressType. rewrite view_flag_write, flags_compress. reflexivity.
Qed.

Lemma view_SetMessageStatusType (h : Header) (ms : MessageStatusType) :
  view (SetMessageStatusType h ms) = let w := view h in
    mkView (v_magic w) (v_version w) (v_type w) (v_heartbeat w) (v_oneway w) (v_compress w) (bor (v_status w) (band ms x03)) (v_serialize w) (v_seq w).
Proof.
  unfold SetMessageStatusType. rewrite view_flag_write, flags_status. reflexivity.
Qed.

Lemma view_SetSerializeType (h : Header) (st : SerializeType) :
  view (SetSerializeType h st) = let w := view h in
    mkView (v_magic w) (v_version w) (v_type w) (v_heartbeat w) (v_oneway w) (v_compress w) (v_status w) (bor (v_serialize w) (band st x0f)) (v_seq w).
Proof.
  unfold view. cbn zeta. rewrite getSerializeType_set. by_header h.
Qed.

Lemma view_SetSeq (h : Header) (seq : Z) :
  view (SetSeq h seq) = let w := view h in
    mkView (v_magic w) (v_version w) (v_type w) (v_heartbeat w) (v_oneway w) (v_compress w) (v_status w) (v_serialize w) (wrap64 seq).
Proof.
  unfold view. cbn zeta. rewrite Seq_SetSeq_wrap. by_header h.
Qed.

(** The value of a field after a setter that ORs its argument in. *)
Lemma bor_clear v mask : band v mask = v -> bor x00 (band v mask) = v.
Proof. intros ->. by destruct v. Qed.

(** C30.  What the setters of the header do, on every header.  No setter touches
    another field, although five fields share one byte.  Version, sequence
    number (modulo 2^64) and the two flags are replaced by the argument.  The
    setters of message type, compression, status and serialization are said to
    set their field, but they OR the argument into it: they set it when it was
    clear (as it is in a new or reset header), and cannot take a value back,
    so a response stays a response, a compressed message compressed and an
    error an error whatever is set afterwards. *)
Theorem header_setters_update_view : forall (h : Header) (v : byte) (mt : MessageType)
    (hb ow : bool) (ct : CompressType) (ms : MessageStatusType) (st : SerializeType) (seq : Z),
  let w := view h in
  let '(mkView m0 v0 t0 hb0 ow0 c0 s0 e0 q0) := w in
  view (SetVersion h v) = mkView m0 v t0 hb0 ow0 c0 s0 e0 q0 /\
  view (SetMessageType h mt) = mkView m0 v0 (bor t0 (band mt x01)) hb0 ow0 c0 s0 e0 q0 /\
  view (SetHeartbeat h hb) = mkView m0 v0 t0 hb ow0 c0 s0 e0 q0 /\
  view (SetOneway h ow) = mkView m0 v0 t0 hb0 ow c0 s0 e0 q0 /\
  view (SetCompressType h ct) = mkView m0 v0 t0 hb0 ow0 (bor c0 (band ct x07)) s0 e0 q0 /\
  view (SetMessageStatusType h ms) = mkView m0 v0 t0 hb0 ow0 c0 (bor s0 (band ms x03)) e0 q0 /\
  view (SetSerializeType h st) = mkView m0 v0 t0 hb0 ow0 c0 s0 (bor e0 (band st x0f)) q0 /\
  view (SetSeq h seq) = mkView m0 v0 t0 hb0 ow0 c0 s0 e0 (wrap64 seq) /\
  (t0 = x00 -> band mt x01 = mt -> getMessageType (SetMessageType h mt) = mt) /\
  (c0 = x00 -> band ct x07 = ct -> getCompressType (SetCompressType h ct) = ct) /\
  (s0 = x00 -> band ms x03 = ms -> getMessageStatusType (SetMessageStatusType h ms) = ms) /\
  (e0 = x00 -> band st x0f = st -> getSerializeType (SetSerializeType h st) = st) /\
  (t0 = Response -> getMessageType (SetMessageType h Request) = Response) /\
  (c0 = Gzip -> getCompressType (SetCompressType h CompressNone) = Gzip) /\
  (s0 = StatusError -> getMessageStatusType (SetMessageStatusType h Normal) = StatusError) /\
  (e0 = MsgPack -> getSerializeType (SetSerializeType h JSON) = MsgPack).
Proof.
  intros. unfold w, view at 1. cbn zeta iota beta.
  change (getMessageType ?x) with (v_type (view x)). change (getCompressType ?x) with (v_compress (view x)).
  change (getMessageStatusType ?x) with (v_status (view x)). change (getSerializeType ?x) with (v_serialize (view x)).
  rewrite view_SetVersion, view_SetHeartbeat, view_SetOneway, view_SetSeq, !view_SetMessageType, !view_SetCompressType,
    !view_SetMessageStatusType, !view_SetSerializeType. cbn zeta.
  cbn [v_magic v_version v_type v_heartbeat v_oneway v_compress v_status v_serialize v_seq].
  repeat (split; [done|]). repeat split; intros ->; (done || by apply bor_clear).
Qed.
