(* ===== verification/Message.v ===== *)
(** * The wire protocol (src/protocol/message.go, lines 67-83 and 179-341)

    The message record, [Encode] and [Decode] of the frame format

    <<
      header (12) | total (4) | len path (4) | path | len method (4) | method
                  | len meta (4) | meta | len payload (4) | payload
    >>

    with big-endian lengths, metadata as a sequence of length-prefixed keys
    and values.  [Encode] is the buffer-filling code of the source; [layout]
    is its specification as a concatenation.  [Decode] runs in the
    state-and-error monad over the message and the stream, so a failed decode
    leaves the fields it had already set. *)
From Stdlib Require Import Strings.Byte.
From S2P Require Import Prelude GoStd Header.

#[local] Open Scope go_scope.

(** [map[string]string]; [None] is the nil map. *)
Abbreviation metadata := (gmap gostring gostring).

Record Message := mkMessage {
  msg_Header : Header;
  ServicePath : gostring;
  ServiceMethod : gostring;
  Metadata : option metadata;
  Payload : bytes;
  msg_data : bytes
}.

Section updates.
Implicit Types m : Message.

Definition set_Header (h : Header) m : Message :=
  mkMessage h (ServicePath m) (ServiceMethod m) (Metadata m) (Payload m) (msg_data m).
Definition set_ServicePath (s : gostring) m : Message :=
  mkMessage (msg_Header m) s (ServiceMethod m) (Metadata m) (Payload m) (msg_data m).
Definition set_ServiceMethod (s : gostring) m : Message :=
  mkMessage (msg_Header m) (ServicePath m) s (Metadata m) (Payload m) (msg_data m).
Definition set_Metadata (md : option metadata) m : Message :=
  mkMessage (msg_Header m) (ServicePath m) (ServiceMethod m) md (Payload m) (msg_data m).
Definition set_Payload (p : bytes) m : Message :=
  mkMessage (msg_Header m) (ServicePath m) (ServiceMethod m) (Metadata m) p (msg_data m).
Definition set_data (d : bytes) m : Message :=
  mkMessage (msg_Header m) (ServicePath m) (ServiceMethod m) (Metadata m) (Payload m) d.
End updates.

Definition NewMessage : Message := mkMessage newHeader [] [] None [] [].

(** [m.Reset()]. *)
Definition Reset (m : Message) : Message :=
  mkMessage (resetHeader (msg_Header m)) [] [] None [] [].

(** ** Encoding *)

(** The length of a possibly nil map. *)
Definition meta_size (m : option metadata) : nat :=
  match m with None => 0%nat | Some md => size md end.

(** The sequence a [range] over a map yields: each entry once, in any order. *)
Definition ranges_over (m : option metadata) (iter : list (gostring * gostring)) : Prop :=
  match m with
  | None => iter = []
  | Some md => iter ≡ₚ map_to_list md
  end.

(** One iteration of [encodeMetadata]'s loop: the four [buf.Write]s. *)
Definition encode_entry (kv : gostring * gostring) : bytes :=
  be32 (wrap32 (len kv.1)) ++ kv.1 ++ be32 (wrap32 (len kv.2)) ++ kv.2.

Definition encodeMetadata (m : option metadata) (iter : list (gostring * gostring)) : bytes :=
  if (meta_size m =? 0)%nat then [] else concat (map encode_entry iter).

Definition Encode (m : Message) (iter : list (gostring * gostring)) : outcome bytes :=
  let meta := encodeMetadata (Metadata m) iter in
  let spl := len (ServicePath m) in
  let sml := len (ServiceMethod m) in
  let allL := (4 + spl) + (4 + sml) + (4 + len meta) + (4 + len (Payload m)) in
  let metaStart := 12 + 4 + (4 + spl) + (4 + sml) in
  let payLoadStart := metaStart + (4 + len meta) in
  let l := 12 + 4 + allL in
  let data := replicate (Z.to_nat l) x00 in
  let? data := copy_into data 0 l (vec_to_list (msg_Header m)) in
  let? data := PutUint32 data 12 16 (wrap32 allL) in
  let? data := PutUint32 data 16 20 (wrap32 spl) in
  let? data := copy_into data 20 (20 + spl) (ServicePath m) in
  let? data := PutUint32 data (20 + spl) (24 + spl) (wrap32 sml) in
  let? data := copy_into data (24 + spl) metaStart (ServiceMethod m) in
  let? data := PutUint32 data metaStart (metaStart + 4) (wrap32 (len meta)) in
  let? data := copy_into data (metaStart + 4) l meta in
  let? data := PutUint32 data payLoadStart (payLoadStart + 4) (wrap32 (len (Payload m))) in
  copy_into data (payLoadStart + 4) l (Payload m).

(** ** Decoding *)

(** The loop of [decodeMetadata], in 32-bit arithmetic; [None] is running out
    of [fuel]. *)
Fixpoint decodeMetadata_loop (fuel : nat) (l n : Z) (data : slice) (m : metadata)
    : option (outcome (metadata * option error)) :=
  match fuel with
  | O => None
  | S fuel' =>
    if n <? l then
      let r :=
        let? s := slice_expr data n (wrap32 (n + 4)) in
        let? sl := BigEndian_Uint32 (sl_bytes s) in
        let n := wrap32 (n + 4) in
        if wrap32 (l - 4) <? wrap32 (n + sl) then Val (inl ErrMetaKVMissing) else
        let? ks := slice_expr data n (wrap32 (n + sl)) in
        let k := sl_bytes ks in
        let n := wrap32 (n + sl) in
        let? s := slice_expr data n (wrap32 (n + 4)) in
        let? sl := BigEndian_Uint32 (sl_bytes s) in
        let n := wrap32 (n + 4) in
        if l <? wrap32 (n + sl) then Val (inl ErrMetaKVMissing) else
        let? vs := slice_expr data n (wrap32 (n + sl)) in
        Val (inr (wrap32 (n + sl), k, sl_bytes vs)) in
      match r with
      | Val (inl e) => Some (Val (m, Some e))
      | Val (inr (n', k, v)) => decodeMetadata_loop fuel' l n' data (<[k := v]> m)
      | Fail e => Some (Fail e)
      | Panic => Some Panic
      end
    else Some (Val (m, None))
  end.

(** Each iteration consumes at least eight bytes, so [l + 1] rounds are
    enough ([decodeMetadata_terminates]). *)
Definition decodeMetadata (l : Z) (data : slice) : outcome (metadata * option error) :=
  match decodeMetadata_loop (S (Z.to_nat l)) l 0 data ∅ with
  | Some r => r
  | None => Panic
  end.

(** The state of a decode: the receiver and the stream. *)
Definition dstate : Type := Message * reader.

Definition upd (f : Message -> Message) : go dstate unit := go_modify (fun '(m, r) => (f m, r)).

(** [io.ReadFull(reader, message.Header[:])]. *)
Definition read_header : go dstate unit := fun '(m, r) =>
  let '(r', l, err) := ReadFull 12 r in
  ((set_Header (header_fill (msg_Header m) l) m, r'),
   match err with None => Val tt | Some e => Fail e end).

(** [io.ReadFull(reader, buf)] into a buffer of [n] bytes. *)
Definition read_full (n : Z) : go dstate bytes := fun '(m, r) =>
  let '(r', l, err) := ReadFull n r in
  ((m, r'), match err with None => Val l | Some e => Fail e end).

(** [binary.BigEndian.Uint32(data[lo:hi])]. *)
Definition uint32_at (data : slice) (lo hi : Z) : outcome Z :=
  let? s := slice_expr data lo hi in BigEndian_Uint32 (sl_bytes s).

(** The metadata section of [Decode]. *)
Definition decode_meta_section (data : slice) (l n nEnd : Z) : go dstate unit :=
  if 0 <? l then
    let! s := go_lift (slice_expr data n nEnd) in
    let! (md, err) := go_lift (decodeMetadata l s) in
    upd (set_Metadata (Some md)) ;;;
    match err with None => go_ret tt | Some e => go_fail e end
  else go_ret tt.

(** The second half of [Decode]: the fields of the frame body. *)
Definition decode_fields (buf : bytes) : go dstate unit :=
  let data := slice_of buf in
  let n := 0 in
  let! l := go_lift (uint32_at data n 4) in
  let n := n + 4 in
  let nEnd := n + l in
  let! sp := go_lift (slice_expr data n nEnd) in
  upd (set_ServicePath (sl_bytes sp)) ;;;
  let n := nEnd in
  let! l := go_lift (uint32_at data n (n + 4)) in
  let n := n + 4 in
  let nEnd := n + l in
  let! sm := go_lift (slice_expr data n nEnd) in
  upd (set_ServiceMethod (sl_bytes sm)) ;;;
  let n := nEnd in
  let! l := go_lift (uint32_at data n (n + 4)) in
  let n := n + 4 in
  let nEnd := n + l in
  decode_meta_section data l n nEnd ;;;
  let n := nEnd in
  let! _ := go_lift (uint32_at data n (n + 4)) in
  let n := n + 4 in
  let! pl := go_lift (slice_from data n) in
  upd (set_Payload (sl_bytes pl)).

Definition Decode (MaxMessageLength : Z) : go dstate unit :=
  read_header ;;;
  let! lenData := read_full 4 in
  let! l := go_lift (BigEndian_Uint32 lenData) in
  if (0 <? MaxMessageLength) && (MaxMessageLength <? l) then go_fail ErrMessageToLong else
  let! buf := read_full l in
  upd (set_data buf) ;;;
  decode_fields buf.

(** ** Encode is its layout *)

(** The frame as a concatenation of its parts. *)
Definition body (sp sm meta payload : bytes) : bytes :=
  be32 (wrap32 (len sp)) ++ sp ++ be32 (wrap32 (len sm)) ++ sm ++
  be32 (wrap32 (len meta)) ++ meta ++ be32 (wrap32 (len payload)) ++ payload.

Definition layout (h : Header) (sp sm meta payload : bytes) : bytes :=
  vec_to_list h ++ be32 (wrap32 (len (body sp sm meta payload))) ++ body sp sm meta payload.

Lemma len_body sp sm meta payload :
  len (body sp sm meta payload) = (4 + len sp) + (4 + len sm) + (4 + len meta) + (4 + len payload).
Proof. unfold body. simpl_len. lia. Qed.

Lemma len_header (h : Header) : len (vec_to_list h) = 12.
Proof. unfold len. by rewrite length_vec_to_list. Qed.

#[local] Hint Rewrite len_header : len.

Lemma len_replicate {A} n (x : A) : 0 <= n -> len (replicate (Z.to_nat n) x) = n.
Proof. intros. unfold len. rewrite length_replicate. lia. Qed.

Lemma replicate_split {A} (x : A) a b :
  0 <= a -> 0 <= b ->
  replicate (Z.to_nat (a + b)) x = replicate (Z.to_nat a) x ++ replicate (Z.to_nat b) x.
Proof. intros. rewrite Z2Nat.inj_add by done. apply replicate_add. Qed.

Lemma Encode_layout (m : Message) (iter : list (gostring * gostring)) :
  Encode m iter =
  Val (layout (msg_Header m) (ServicePath m) (ServiceMethod m)
         (encodeMetadata (Metadata m) iter) (Payload m)).
Proof.
  unfold Encode, layout. rewrite len_body.
  set (meta := encodeMetadata _ _). set (sp := ServicePath m).
  set (sm := ServiceMethod m). set (pl := Payload m). set (h := msg_Header m).
  pose proof (len_nonneg sp). pose proof (len_nonneg sm).
  pose proof (len_nonneg meta). pose proof (len_nonneg pl).
  set (allL := 4 + len sp + (4 + len sm) + (4 + len meta) + (4 + len pl)).
  set (z := fun n => replicate (Z.to_nat n) x00).
  replace (replicate (Z.to_nat (12 + 4 + allL)) x00) with
    ([] ++ z 12 ++ z 4 ++ z 4 ++ z (len sp) ++ z 4 ++ z (len sm) ++ z 4 ++ z (len meta) ++ z 4 ++ z (len pl))
    by (rewrite app_nil_l; unfold z; rewrite <- !replicate_split by lia; do 2 f_equal; lia).
  assert (forall n, 0 <= n -> len (z n) = n) as Hz by (intros; by apply len_replicate).
  rewrite copy_into_step by (simpl_len; rewrite ?Hz by lia; simpl_len; lia).
  rewrite app_nil_l. cbn [outcome_bind].
  repeat (first
    [ rewrite PutUint32_step by (simpl_len; rewrite ?Hz by lia; lia)
    | rewrite copy_into_step by (simpl_len; rewrite ?Hz by lia; lia) ]; cbn [outcome_bind]).
  rewrite <- (app_nil_r (z (len pl))).
  rewrite copy_into_step by (simpl_len; rewrite ?Hz by lia; lia).
  rewrite app_nil_r. unfold body. rewrite <- !app_assoc. done.
Qed.

(** C13.  [Encode] refines its specification: filling in the buffer step by step
    writes exactly the frame, for every message and every iteration order of
    its metadata: no index is out of range, no byte is left unwritten or
    written twice, and the length word is the length of what follows it modulo
    2^32. *)
Theorem Encode_is_layout (m : Message) (iter : list (gostring * gostring)) :
  exists b,
    b = body (ServicePath m) (ServiceMethod m) (encodeMetadata (Metadata m) iter) (Payload m) /\
    Encode m iter = Val (vec_to_list (msg_Header m) ++ be32 (wrap32 (len b)) ++ b) /\
    len b = 16 + len (ServicePath m) + len (ServiceMethod m) +
            len (encodeMetadata (Metadata m) iter) + len (Payload m).
Proof.
  eexists. split; [done|]. split; [apply Encode_layout|]. rewrite len_body. lia.
Qed.

(** ** Decoding what was encoded *)

Lemma len_encode_entry k v : len (encode_entry (k, v)) = 8 + len k + len v.
Proof. unfold encode_entry. cbn. simpl_len. lia. Qed.

(** One round of the loop over an encoded entry. *)
Lemma decodeMetadata_round fuel l n bl pre k v post m :
  n = len pre -> n + len (encode_entry (k, v)) <= l < 2 ^ 32 ->
  decodeMetadata_loop (S fuel) l n (mkSlice (pre ++ encode_entry (k, v) ++ post) bl) m =
  decodeMetadata_loop fuel l (n + len (encode_entry (k, v)))
    (mkSlice (pre ++ encode_entry (k, v) ++ post) bl) (<[k := v]> m).
Proof.
  intros -> Hl. cbn [decodeMetadata_loop]. rewrite len_encode_entry in *.
  pose proof (len_nonneg pre). pose proof (len_nonneg k). pose proof (len_nonneg v).
  rewrite (proj2 (Z.ltb_lt _ _)) by lia.
  rewrite (wrap32_small (len pre + 4)) by lia.
  set (buf := pre ++ _ ++ post).
  set (k4 := be32 (wrap32 (len k))). set (v4 := be32 (wrap32 (len v))).
  assert (len k4 = 4 /\ len v4 = 4) as [Hk4 Hv4] by done.
  rewrite (slice_expr_at buf pre k4 (k ++ v4 ++ v ++ post));
    [|unfold buf, encode_entry; cbn [fst snd]; by rewrite <- !app_assoc|done|done].
  cbn [outcome_bind]. rewrite sl_bytes_app.
  unfold k4 at 1. rewrite <- (app_nil_r (be32 _)), Uint32_be32. cbn [outcome_bind].
  rewrite !(wrap32_small (len k)) by lia.
  rewrite !(wrap32_small (len pre + 4 + len k)), (wrap32_small (l - 4)) by lia.
  rewrite (proj2 (Z.ltb_ge _ _)) by lia.
  rewrite (slice_expr_at buf (pre ++ k4) k (v4 ++ v ++ post));
    [|unfold buf, encode_entry; cbn [fst snd]; by rewrite <- !app_assoc|simpl_len; lia|simpl_len; lia].
  cbn [outcome_bind]. rewrite sl_bytes_app.
  rewrite !(wrap32_small (len pre + 4 + len k + 4)) by lia.
  rewrite (slice_expr_at buf (pre ++ k4 ++ k) v4 (v ++ post));
    [|unfold buf, encode_entry; cbn [fst snd]; by rewrite <- !app_assoc|simpl_len; lia|simpl_len; lia].
  cbn [outcome_bind]. rewrite sl_bytes_app.
  unfold v4 at 1. rewrite <- (app_nil_r (be32 _)), Uint32_be32. cbn [outcome_bind].
  rewrite !(wrap32_small (len v)) by lia.
  rewrite !(wrap32_small (len pre + 4 + len k + 4 + len v)) by lia.
  rewrite (proj2 (Z.ltb_ge _ _)) by lia.
  rewrite (slice_expr_at buf (pre ++ k4 ++ k ++ v4) v post);
    [|unfold buf, encode_entry; cbn [fst snd]; by rewrite <- !app_assoc|simpl_len; lia|simpl_len; lia].
  cbn [outcome_bind]. rewrite sl_bytes_app. f_equal. lia.
Qed.

Definition insert_all (m : metadata) (iter : list (gostring * gostring)) : metadata :=
  foldl (fun m kv => <[kv.1 := kv.2]> m) m iter.

Lemma decodeMetadata_loop_encoded iter : forall fuel l n bl pre post m,
  n = len pre -> l = n + len (concat (map encode_entry iter)) -> l < 2 ^ 32 ->
  (length iter < fuel)%nat ->
  decodeMetadata_loop fuel l n (mkSlice (pre ++ concat (map encode_entry iter) ++ post) bl) m =
  Some (Val (insert_all m iter, None)).
Proof.
  induction iter as [|[k v] iter IH]; intros fuel l n bl pre post m Hn Hl Hlt Hf.
  - destruct fuel; [cbn in Hf; lia|]. cbn [decodeMetadata_loop].
    cbn in Hl. rewrite (proj2 (Z.ltb_ge _ _)) by (simpl_len; lia). done.
  - destruct fuel as [|fuel]; [cbn in Hf; lia|]. cbn [map concat] in *. simpl_len.
    pose proof (len_nonneg (concat (map encode_entry iter))).
    rewrite <- app_assoc. rewrite decodeMetadata_round by lia.
    rewrite (app_assoc pre (encode_entry (k, v)) _).
    apply IH; [by simpl_len; subst|lia|done|cbn in Hf; lia].
Qed.

Lemma insert_all_list_to_map m iter : insert_all m iter = list_to_map (reverse iter) ∪ m.
Proof.
  revert m. induction iter as [|[k v] iter IH]; intros m.
  - cbn. by rewrite (left_id ∅ (∪)).
  - cbn [insert_all foldl]. fold (insert_all (<[k:=v]> m) iter). rewrite IH.
    rewrite reverse_cons, list_to_map_app. cbn.
    rewrite insert_empty, insert_union_singleton_l. apply map_union_assoc.
Qed.

Lemma insert_all_map_to_list (md : metadata) iter :
  iter ≡ₚ map_to_list md -> insert_all ∅ iter = md.
Proof.
  intros Hp. rewrite insert_all_list_to_map, (right_id ∅ (∪)).
  symmetry. apply list_to_map_flip. by rewrite reverse_Permutation.
Qed.

Lemma decodeMetadata_encoded iter post bl :
  len (concat (map encode_entry iter)) < 2 ^ 32 ->
  decodeMetadata (len (concat (map encode_entry iter)))
    (mkSlice (concat (map encode_entry iter) ++ post) bl) = Val (insert_all ∅ iter, None).
Proof.
  intros Hl. unfold decodeMetadata.
  assert (8 * Z.of_nat (length iter) <= len (concat (map encode_entry iter))) as Hn.
  { clear Hl. induction iter as [|[k v] iter IH]; [cbv; discriminate|].
    cbn [map concat length]. simpl_len. rewrite len_encode_entry.
    pose proof (len_nonneg k). pose proof (len_nonneg v). lia. }
  rewrite (decodeMetadata_loop_encoded iter _ _ 0 bl [] post ∅); [done|done|simpl_len; lia|done|lia].
Qed.

Lemma header_fill_full h (h' : Header) : header_fill h (vec_to_list h') = h'.
Proof.
  apply vec_eq. intros i. unfold header_fill. rewrite lookup_fun_to_vec.
  by rewrite (proj1 (vlookup_lookup h' i _) eq_refl).
Qed.

Lemma read_header_app m (h : Header) rest e :
  read_header (m, mkReader (vec_to_list h ++ rest) e) = ((set_Header h m, mkReader rest e), Val tt).
Proof.
  unfold read_header. rewrite ReadFull_app by (by rewrite len_header).
  by rewrite header_fill_full.
Qed.

Lemma read_full_app n l m rest e :
  n = len l -> read_full n (m, mkReader (l ++ rest) e) = ((m, mkReader rest e), Val l).
Proof. intros ->. unfold read_full. by rewrite ReadFull_app. Qed.

Lemma uint32_at_app buf bl pre v post lo hi :
  buf = pre ++ be32 (wrap32 v) ++ post -> lo = len pre -> hi = lo + 4 -> 0 <= v < 2 ^ 32 ->
  uint32_at (mkSlice buf bl) lo hi = Val v.
Proof.
  intros Hb -> -> Hv. unfold uint32_at.
  rewrite (slice_expr_at buf pre (be32 (wrap32 v)) post) by (done || by simpl_len).
  cbn [outcome_bind]. rewrite sl_bytes_app, <- (app_nil_r (be32 _)), Uint32_be32.
  by rewrite !(wrap32_small v) by done.
Qed.

(** The metadata branch of [Decode]: an empty section leaves the receiver's
    metadata alone, a non-empty one replaces it. *)
Definition received_metadata (old sent : option metadata) : option metadata :=
  if (meta_size sent =? 0)%nat then old else sent.

Lemma meta_section_received sent iter :
  ranges_over sent iter ->
  let meta := encodeMetadata sent iter in
  (meta_size sent = 0%nat /\ meta = []) \/
  (meta_size sent <> 0%nat /\ meta = concat (map encode_entry iter) /\ 0 < len meta /\
   Some (insert_all ∅ iter) = sent).
Proof.
  intros Hr meta. unfold meta, encodeMetadata.
  destruct (Nat.eqb_spec (meta_size sent) 0) as [E|E]; [by left|right].
  destruct sent as [md|]; [|done]. cbn in Hr, E.
  repeat split; [done| |by rewrite (insert_all_map_to_list md)].
  destruct iter as [|[k v] iter].
  - symmetry in Hr. apply Permutation_nil_r in Hr.
    apply map_to_list_empty_iff in Hr. subst md. by rewrite map_size_empty in E.
  - cbn [map concat]. simpl_len. rewrite len_encode_entry.
    pose proof (len_nonneg k). pose proof (len_nonneg v).
    pose proof (len_nonneg (concat (map encode_entry iter))). lia.
Qed.

Section roundtrip.
Context (sp sm pl : bytes) (md : option metadata) (iter : list (gostring * gostring)).
Let meta := encodeMetadata md iter.
Let b := body sp sm meta pl.
Hypothesis Hiter : ranges_over md iter.
Hypothesis Hfits : len b < 2 ^ 32.

(** Closes the side conditions of locating a part in the frame. *)
Ltac part := solve [ done | unfold b, body; rewrite <- ?app_assoc; done | unfold b in *;
  rewrite ?len_body in *; simpl_len; lia ].

Lemma decode_meta_section_body m0 r0 pre post n :
  b = pre ++ meta ++ post -> n = len pre ->
  decode_meta_section (mkSlice b (len b)) (len meta) n (n + len meta) (m0, r0) =
  ((set_Metadata (received_metadata (Metadata m0) md) m0, r0), Val tt).
Proof.
  intros Hb ->. unfold decode_meta_section, received_metadata.
  destruct (meta_section_received _ _ Hiter) as [[Hs Hm]|(Hs & Hm & Hpos & Hmd)].
  - fold meta in Hm. rewrite Hm, Hs. by destruct m0.
  - fold meta in Hm, Hpos. rewrite (proj2 (Z.ltb_lt _ _)), (proj2 (Nat.eqb_neq _ _)) by done.
    erewrite go_bind_lift by (by eapply slice_expr_at).
    assert (len (concat (map encode_entry iter)) < 2 ^ 32) as Hm32.
    { rewrite <- Hm. pose proof (len_nonneg pre). pose proof (len_nonneg post).
      rewrite Hb in Hfits. simpl_len. lia. }
    rewrite Hm. erewrite go_bind_lift by (by apply decodeMetadata_encoded).
    cbn. by rewrite Hmd.
Qed.

Lemma decode_fields_body m0 r0 :
  decode_fields b (m0, r0) =
  ((mkMessage (msg_Header m0) sp sm (received_metadata (Metadata m0) md) pl (msg_data m0), r0),
   Val tt).
Proof.
  pose proof (len_nonneg sp). pose proof (len_nonneg sm).
  pose proof (len_nonneg meta). pose proof (len_nonneg pl).
  set (sp4 := be32 (wrap32 (len sp))). set (sm4 := be32 (wrap32 (len sm))).
  set (me4 := be32 (wrap32 (len meta))). set (pl4 := be32 (wrap32 (len pl))).
  assert (len sp4 = 4 /\ len sm4 = 4 /\ len me4 = 4 /\ len pl4 = 4) as (?&?&?&?) by done.
  unfold decode_fields, slice_of.
  erewrite go_bind_lift by (eapply (uint32_at_app b (len b) [] (len sp)); part).
  erewrite go_bind_lift by (eapply (slice_expr_at b sp4 sp); part).
  erewrite go_bind_Val by reflexivity. rewrite sl_bytes_app.
  erewrite go_bind_lift by (eapply (uint32_at_app b (len b) (sp4 ++ sp) (len sm)); part).
  erewrite go_bind_lift by (eapply (slice_expr_at b (sp4 ++ sp ++ sm4) sm); part).
  erewrite go_bind_Val by reflexivity. rewrite sl_bytes_app.
  erewrite go_bind_lift by (eapply (uint32_at_app b (len b) (sp4 ++ sp ++ sm4 ++ sm) (len meta)); part).
  erewrite go_bind_Val by (eapply (decode_meta_section_body _ _ (sp4 ++ sp ++ sm4 ++ sm ++ me4)); part).
  erewrite go_bind_lift by
    (eapply (uint32_at_app b (len b) (sp4 ++ sp ++ sm4 ++ sm ++ me4 ++ meta) (len pl) pl); part).
  assert (b = (sp4 ++ sp ++ sm4 ++ sm ++ me4 ++ meta ++ pl4) ++ pl) as Hb by part.
  erewrite go_bind_lift by (rewrite Hb; apply slice_from_app; [simpl_len; lia|done]).
  rewrite <- (app_nil_r pl) at 1. rewrite sl_bytes_app. reflexivity.
Qed.
End roundtrip.

Lemma Decode_Encode (MaxMessageLength : Z) (m m0 : Message)
    (iter : list (gostring * gostring)) (frame rest : bytes) (e : error) :
  ranges_over (Metadata m) iter ->
  Encode m iter = Val frame ->
  len frame - 16 < 2 ^ 32 ->
  MaxMessageLength <= 0 \/ len frame - 16 <= MaxMessageLength ->
  Decode MaxMessageLength (m0, mkReader (frame ++ rest) e) =
  ((mkMessage (msg_Header m) (ServicePath m) (ServiceMethod m)
      (received_metadata (Metadata m0) (Metadata m)) (Payload m) (drop 16 frame),
    mkReader rest e), Val tt).
Proof.
  intros Hr HE Hb Hmax. rewrite Encode_layout in HE. injection HE as <-.
  set (meta := encodeMetadata _ _) in *. unfold layout in *.
  set (b := body _ _ _ _) in *. simpl_len. pose proof (len_nonneg b).
  replace (drop 16 _) with b.
  2: { rewrite app_assoc, drop_app_len; [done|]. by rewrite length_app, length_vec_to_list. }
  rewrite <- !app_assoc. unfold Decode.
  erewrite go_bind_Val by apply read_header_app.
  erewrite go_bind_Val by (by apply read_full_app).
  erewrite go_bind_lift by (rewrite <- (app_nil_r (be32 _)); apply Uint32_be32).
  rewrite !(wrap32_small (len b)) by lia.
  replace ((0 <? _) && (_ <? _)) with false by
    (symmetry; apply andb_false_iff; rewrite !Z.ltb_ge; lia).
  erewrite go_bind_Val by (by apply read_full_app).
  erewrite go_bind_Val by reflexivity.
  assert (len b < 2 ^ 32) as Hb' by lia.
  unfold b, meta. by rewrite decode_fields_body.
Qed.

(** C4.  Round trip of the wire format: decoding the frame [Encode] produces,
    followed by anything, gives back every field of the message and consumes
    exactly the frame.  It holds for every iteration order of the metadata,
    for any receiver, for frames below 2^32 bytes within the configured
    maximum; the receiver's metadata is replaced unless the sent metadata is
    empty. *)
Theorem decode_encode_roundtrip (MaxMessageLength : Z) (m m0 : Message)
    (iter : list (gostring * gostring)) (frame rest : bytes) (e : error) :
  ranges_over (Metadata m) iter ->
  Encode m iter = Val frame ->
  len frame - 16 < 2 ^ 32 ->
  MaxMessageLength <= 0 \/ len frame - 16 <= MaxMessageLength ->
  Decode MaxMessageLength (m0, mkReader (frame ++ rest) e) =
  ((mkMessage (msg_Header m) (ServicePath m) (ServiceMethod m)
      (received_metadata (Metadata m0) (Metadata m)) (Payload m) (drop 16 frame),
    mkReader rest e), Val tt).
Proof. apply Decode_Encode. Qed.

(** ** Arbitrary input *)

(** In 32-bit arithmetic a sum that did not go below [n] did not wrap. *)
Lemma wrap32_no_wrap n k : 0 <= n < 2 ^ 32 -> 0 <= k < 2 ^ 32 -> n <= wrap32 (n + k) -> wrap32 (n + k) = n + k.
Proof.
  intros Hn Hk Hle. unfold wrap32 in *.
  destruct (Z.lt_ge_cases (n + k) (2 ^ 32)); [by rewrite Z.mod_small by lia|].
  rewrite <- (Z.mod_add _ (-1)) in Hle |- * by lia.
  rewrite Z.mod_small in Hle |- * by lia. lia.
Qed.

(** Inverts a chain of [let?] that ended in a value. *)
Lemma outcome_bind_Val {A B} (o : outcome A) (k : A -> outcome B) b :
  outcome_bind o k = Val b -> exists a, o = Val a /\ k a = Val b.
Proof. destruct o; cbn; [by eauto|discriminate..]. Qed.

(** A bounds-checked 32-bit cursor move: the slice taken is the next [k] bytes. *)
Lemma slice_expr_advance data n k s :
  0 <= n < 2 ^ 32 -> 0 <= k < 2 ^ 32 -> slice_expr data n (wrap32 (n + k)) = Val s ->
  wrap32 (n + k) = n + k /\ n + k <= len (sl_buf data).
Proof.
  intros Hn Hk Hs. apply slice_expr_Val in Hs as (H1 & H2 & _).
  assert (wrap32 (n + k) = n + k) as E by (apply wrap32_no_wrap; lia). lia.
Qed.

Lemma decodeMetadata_loop_fuel : forall fuel l n data m,
  0 <= n < 2 ^ 32 -> 0 <= l < 2 ^ 32 -> (Z.to_nat (l - n) < fuel)%nat ->
  decodeMetadata_loop fuel l n data m <> None.
Proof.
  induction fuel as [|fuel IH]; intros l n data m Hn Hl Hf; [lia|].
  cbn [decodeMetadata_loop]. destruct (n <? l) eqn:Hlt; [|done]. zbool.
  destruct (outcome_bind _ _) as [[e|[[n' k] v]]|e|] eqn:E; try done.
  apply IH; [|done|].
  all: apply outcome_bind_Val in E as (s1 & Hs1 & E).
  all: apply outcome_bind_Val in E as (sl1 & Hu1 & E).
  all: cbn zeta in E; destruct (_ <? _); [discriminate|].
  all: apply outcome_bind_Val in E as (s2 & Hs2 & E).
  all: apply outcome_bind_Val in E as (s3 & Hs3 & E).
  all: apply outcome_bind_Val in E as (sl2 & Hu2 & E).
  all: destruct (_ <? _); [discriminate|].
  all: apply outcome_bind_Val in E as (s4 & Hs4 & E); injection E as <- _ _.
  all: apply BigEndian_Uint32_range in Hu1, Hu2.
  all: apply slice_expr_advance in Hs1 as [E1 _]; [|lia..].
  all: apply slice_expr_advance in Hs2 as [E2 _]; [|apply wrap32_range|lia].
  all: apply slice_expr_advance in Hs3 as [E3 _]; [|apply wrap32_range|lia].
  all: apply slice_expr_advance in Hs4 as [E4 _]; [|apply wrap32_range|lia].
  - apply wrap32_range.
  - lia.
Qed.

Lemma decodeMetadata_loop_more : forall fuel fuel' l n data m r,
  decodeMetadata_loop fuel l n data m = Some r -> (fuel <= fuel')%nat ->
  decodeMetadata_loop fuel' l n data m = Some r.
Proof.
  induction fuel as [|fuel IH]; intros [|fuel'] l n data m r H Hle; try done; [lia|].
  cbn [decodeMetadata_loop] in *. destruct (n <? l); [|done].
  destruct (outcome_bind _ _) as [[e|[[n' k] v]]|e|]; try done.
  apply IH; [done|lia].
Qed.

(** The metadata loop terminates on every input, however malformed: with
    one round per byte of the section the loop has returned.  (Each round
    that continues has moved the cursor forward by at least eight, since a
    32-bit wrap-around makes a slice expression fail.) *)
Theorem decodeMetadata_terminates (l : Z) (data : slice) (fuel : nat) :
  0 <= l < 2 ^ 32 -> (Z.to_nat l < fuel)%nat ->
  exists r, decodeMetadata_loop fuel l 0 data ∅ = Some r /\ decodeMetadata l data = r.
Proof.
  intros Hl Hf. unfold decodeMetadata.
  destruct (decodeMetadata_loop (S (Z.to_nat l)) l 0 data ∅) as [r|] eqn:E.
  - exists r. split; [|done]. by eapply decodeMetadata_loop_more.
  - by apply decodeMetadata_loop_fuel in E; [|lia..].
Qed.

(** *** Framing *)

(** The field parser never touches the stream, whatever it returns. *)
Lemma go_bind_reader {A B} (m : go dstate A) (k : A -> go dstate B) :
  (forall s, (m s).1.2 = s.2) -> (forall a s, (k a s).1.2 = s.2) ->
  forall s, (go_bind m k s).1.2 = s.2.
Proof.
  intros Hm Hk s. unfold go_bind. specialize (Hm s).
  destruct (m s) as [s' [a|e|]]; cbn in *; [|done..]. by rewrite Hk.
Qed.

Lemma upd_reader f s : (upd f s).1.2 = s.2.
Proof. by destruct s. Qed.

Ltac reader_frame :=
  repeat first
    [ done
    | apply upd_reader
    | match goal with |- context [match ?x with _ => _ end] => destruct x end
    | apply go_bind_reader; [intros|intros] ].

Lemma decode_fields_reader buf s : (decode_fields buf s).1.2 = s.2.
Proof.
  revert s. unfold decode_fields, decode_meta_section. cbn zeta. reader_frame.
Qed.

(** Framing: on any stream holding a header, a length word [l] and at
    least [l] more bytes, a decode that is not refused for its length
    consumes exactly [16 + l] bytes, whether the contents of the frame are
    accepted, rejected with an error or make the parser panic. *)
Theorem Decode_consumes_frame (MaxMessageLength l : Z) (h : Header) (b rest : bytes)
    (e : error) (m0 : Message) :
  0 <= l < 2 ^ 32 -> len b = l -> MaxMessageLength <= 0 \/ l <= MaxMessageLength ->
  (Decode MaxMessageLength (m0, mkReader (vec_to_list h ++ be32 l ++ b ++ rest) e)).1.2
  = mkReader rest e.
Proof.
  intros Hl Hb Hmax. unfold Decode.
  erewrite go_bind_Val by apply read_header_app.
  erewrite go_bind_Val by (by apply read_full_app).
  erewrite go_bind_lift by (rewrite <- (app_nil_r (be32 _)); apply Uint32_be32).
  rewrite wrap32_small by lia.
  replace ((0 <? _) && (_ <? _)) with false by
    (symmetry; apply andb_false_iff; rewrite !Z.ltb_ge; lia).
  erewrite go_bind_Val by (by apply read_full_app).
  erewrite go_bind_Val by reflexivity. apply decode_fields_reader.
Qed.

(** *** What an accepted frame looks like *)

Lemma go_bind_inv {S A B} (m : go S A) (k : A -> go S B) s s' b :
  go_bind m k s = (s', Val b) -> exists s1 a, m s = (s1, Val a) /\ k a s1 = (s', Val b).
Proof. unfold go_bind. destruct (m s) as [s1 [a|e|]]; [by eauto|discriminate..]. Qed.

Lemma go_lift_inv {S A B} (o : outcome A) (k : A -> go S B) s s' b :
  go_bind (go_lift o) k s = (s', Val b) -> exists a, o = Val a /\ k a s = (s', Val b).
Proof. intros (s1 & a & [= <- ->] & H)%go_bind_inv. eauto. Qed.

Lemma upd_inv {B} f (k : unit -> go dstate B) m r s' b :
  go_bind (upd f) k (m, r) = (s', Val b) -> k tt (f m, r) = (s', Val b).
Proof. done. Qed.

Lemma uint32_at_split buf l lo v :
  uint32_at (mkSlice buf l) lo (lo + 4) = Val v ->
  drop (Z.to_nat lo) buf = be32 v ++ drop (Z.to_nat (lo + 4)) buf /\
  0 <= v < 2 ^ 32 /\ 0 <= lo /\ lo + 4 <= len buf.
Proof.
  unfold uint32_at. intros (s & Hs & Hv)%outcome_bind_Val.
  apply slice_expr_split in Hs as (Hd & Hlen & Hlo & Hhi).
  assert (take 4 (sl_bytes s) = sl_bytes s) as Ht by (apply take_ge; unfold len in *; lia).
  pose proof (BigEndian_Uint32_range _ _ Hv).
  apply BigEndian_Uint32_be32 in Hv. rewrite Ht in Hv. rewrite <- Hv. repeat split; done || lia.
Qed.

Lemma decode_meta_section_inv data l n nEnd m r m1 r1 :
  decode_meta_section data l n nEnd (m, r) = ((m1, r1), Val tt) ->
  r1 = r /\ exists md, m1 = set_Metadata md m /\
  (if 0 <? l then exists s mm, slice_expr data n nEnd = Val s /\
     decodeMetadata l s = Val (mm, None) /\ md = Some mm
   else md = Metadata m).
Proof.
  unfold decode_meta_section. destruct (0 <? l).
  - intros (s & Hs & H)%go_lift_inv.
    apply go_lift_inv in H as ([md [err|]] & Hd & H); [discriminate|].
    injection H as <- <-. split; [done|]. exists (Some md). eauto 7.
  - intros [= <- <-]. split; [done|]. exists (Metadata m). by destruct m.
Qed.

(** The metadata part of an accepted frame: its raw bytes, and the map read from them. *)
Definition metadata_read (raw : bytes) (old new : option metadata) : Prop :=
  (raw = [] /\ new = old) \/
  (raw <> [] /\ exists cap md, decodeMetadata (len raw) (mkSlice (raw ++ cap) (len raw)) = Val (md, None)
                 /\ new = Some md).

Lemma decode_meta_section_split buf l n m r m1 r1 :
  0 <= l -> 0 <= n <= len buf ->
  decode_meta_section (slice_of buf) l n (n + l) (m, r) = ((m1, r1), Val tt) ->
  r1 = r /\ exists raw md, m1 = set_Metadata md m /\ metadata_read raw (Metadata m) md /\
    drop (Z.to_nat n) buf = raw ++ drop (Z.to_nat (n + l)) buf /\ len raw = l.
Proof.
  intros Hl Hn H. apply decode_meta_section_inv in H as (-> & md & -> & H). split; [done|].
  destruct (0 <? l) eqn:E; zbool.
  - destruct H as (s & mm & Hs & Hd & ->).
    exists (sl_bytes s), (Some mm). split; [done|].
    pose proof Hs as Hs'. apply slice_expr_split in Hs' as (Hdrop & Hlen & _).
    replace (n + l - n) with l in Hlen by lia.
    split; [|done]. right. split; [intros E0; rewrite E0, len_nil in Hlen; lia|].
    exists (drop (Z.to_nat (n + l)) buf), mm. split; [|done]. rewrite Hlen, <- Hd. f_equal.
    unfold slice_expr in Hs. destruct (_ && _); [|done].
    injection Hs as <-. cbn [sl_buf slice_of]. f_equal; [symmetry; exact Hdrop|lia].
  - subst md. exists [], (Metadata m). rewrite len_nil. repeat split.
    + by left.
    + cbn. do 2 f_equal. lia.
    + lia.
Qed.

Lemma decode_fields_inv buf m r m1 r1 :
  decode_fields buf (m, r) = ((m1, r1), Val tt) ->
  r1 = r /\ msg_Header m1 = msg_Header m /\ msg_data m1 = msg_data m /\
  exists raw l4, length l4 = 4%nat /\ metadata_read raw (Metadata m) (Metadata m1) /\
    buf = be32 (len (ServicePath m1)) ++ ServicePath m1 ++
          be32 (len (ServiceMethod m1)) ++ ServiceMethod m1 ++
          be32 (len raw) ++ raw ++ l4 ++ Payload m1.
Proof.
  unfold decode_fields. cbn zeta.
  intros (l1 & Hl1 & H)%go_lift_inv. apply uint32_at_split in Hl1 as (D1 & R1 & _ & B1).
  apply go_lift_inv in H as (sp & Hsp & H). apply upd_inv in H.
  apply slice_expr_split in Hsp as (D2 & L2 & _ & B2).
  apply go_lift_inv in H as (l2 & Hl2 & H). apply uint32_at_split in Hl2 as (D3 & R2 & _ & B3).
  apply go_lift_inv in H as (sm & Hsm & H). apply upd_inv in H.
  apply slice_expr_split in Hsm as (D4 & L4 & _ & B4).
  apply go_lift_inv in H as (l3 & Hl3 & H). apply uint32_at_split in Hl3 as (D5 & R3 & _ & B5).
  apply go_bind_inv in H as ([m2 r2] & [] & Hmeta & H).
  apply decode_meta_section_split in Hmeta as (-> & raw & md & -> & Hmd & D6 & L6); [|lia..].
  apply go_lift_inv in H as (l4 & Hl4 & H). apply uint32_at_split in Hl4 as (D7 & _ & _ & B7).
  apply go_lift_inv in H as (pl & Hpl & H). injection H as <- <-.
  unfold slice_from in Hpl. destruct (_ && _) eqn:E; [|discriminate]. zbool.
  injection Hpl as <-. cbn in Hmd |- *. repeat split.
  exists raw, (be32 l4). repeat split; [done|].
  assert (len (sl_bytes sp) = l1) as -> by lia. assert (len (sl_bytes sm) = l2) as -> by lia.
  rewrite L6. unfold sl_bytes at 3. cbn [sl_len sl_buf slice_of] in *.
  rewrite take_ge by (rewrite length_drop; unfold len in *; lia).
  rewrite <- D7, <- D6, <- D5, <- D4, <- D3, <- D2, <- D1. by rewrite drop_0.
Qed.

Lemma ReadFull_None n r r' l :
  ReadFull n r = (r', l, None) -> rd_bytes r = l ++ rd_bytes r' /\ (0 <= n -> len l = n).
Proof.
  unfold ReadFull. destruct (n <=? len (rd_bytes r)) eqn:E; [|discriminate].
  intros [= <- <-]. cbn. rewrite take_drop. split; [done|]. zbool.
  unfold len in *. rewrite length_take. lia.
Qed.

Lemma header_fill_list h l : length l = 12%nat -> vec_to_list (header_fill h l) = l.
Proof.
  intros Hl. apply (list_eq_same_length _ _ 12); [done|apply length_vec_to_list|].
  intros i x y Hi Hx Hy.
  pose proof (proj2 (vlookup_lookup' _ i x) Hx) as (Hi' & Hx').
  unfold header_fill in Hx'. rewrite lookup_fun_to_vec, fin_to_nat_to_fin, Hy in Hx'. congruence.
Qed.

Lemma Decode_inv (MaxMessageLength : Z) (m0 m1 : Message) (r0 r1 : reader) :
  Decode MaxMessageLength (m0, r0) = ((m1, r1), Val tt) ->
  exists raw l4,
    length l4 = 4%nat /\
    metadata_read raw (Metadata m0) (Metadata m1) /\
    msg_data m1 = be32 (len (ServicePath m1)) ++ ServicePath m1 ++
                  be32 (len (ServiceMethod m1)) ++ ServiceMethod m1 ++
                  be32 (len raw) ++ raw ++ l4 ++ Payload m1 /\
    rd_bytes r0 = vec_to_list (msg_Header m1) ++ be32 (len (msg_data m1)) ++ msg_data m1 ++ rd_bytes r1 /\
    (0 < MaxMessageLength -> len (msg_data m1) <= MaxMessageLength).
Proof.
  unfold Decode. intros ([ma ra] & [] & Hh & H)%go_bind_inv.
  unfold read_header in Hh. destruct (ReadFull 12 r0) as [[r h] [e|]] eqn:R1; [discriminate|].
  injection Hh as <- <-. apply ReadFull_None in R1 as [R1 L1]. specialize (L1 ltac:(lia)).
  apply go_bind_inv in H as ([mb rb] & l4 & Hl & H).
  unfold read_full in Hl. destruct (ReadFull 4 r) as [[r2 l4'] [e|]] eqn:R2; [discriminate|].
  injection Hl as <- <- ->. apply ReadFull_None in R2 as [R2 L2]. specialize (L2 ltac:(lia)).
  apply go_lift_inv in H as (l & Hl & H).
  destruct (_ && _) eqn:Hmax; [discriminate|].
  apply go_bind_inv in H as ([mc rc] & buf & Hb & H).
  unfold read_full in Hb. destruct (ReadFull l r2) as [[r3 buf'] [e|]] eqn:R3; [discriminate|].
  injection Hb as <- <- ->. apply ReadFull_None in R3 as [R3 L3].
  apply upd_inv in H. apply decode_fields_inv in H as (-> & Hh & Hd & raw & w & Hw & Hmd & Hbuf).
  pose proof (BigEndian_Uint32_range _ _ Hl). specialize (L3 ltac:(lia)).
  apply BigEndian_Uint32_be32 in Hl. rewrite take_ge in Hl by (unfold len in L2; lia).
  exists raw, w. cbn in Hh, Hd, Hmd. rewrite Hh, Hd, L3. repeat split; try done.
  - rewrite header_fill_list by (unfold len in L1; lia). by rewrite <- Hl, <- R3, <- R2.
  - apply andb_false_iff in Hmax. rewrite !Z.ltb_ge in Hmax. lia.
Qed.

(** C8.  Soundness of decoding: whatever bytes arrive, if [Decode] accepts them
    then the consumed bytes are exactly a frame of the documented layout
    carrying the fields of the resulting message.  The only part of the frame
    that is not determined by the message is the payload's length word [l4],
    which the code reads and ignores, and the payload is all that follows it;
    the metadata is the map parsed from the metadata section. *)
Theorem Decode_accepts_only_frames (MaxMessageLength : Z) (m0 m1 : Message) (r0 r1 : reader) :
  Decode MaxMessageLength (m0, r0) = ((m1, r1), Val tt) ->
  exists raw l4,
    length l4 = 4%nat /\
    metadata_read raw (Metadata m0) (Metadata m1) /\
    msg_data m1 = be32 (len (ServicePath m1)) ++ ServicePath m1 ++
                  be32 (len (ServiceMethod m1)) ++ ServiceMethod m1 ++
                  be32 (len raw) ++ raw ++ l4 ++ Payload m1 /\
    rd_bytes r0 = vec_to_list (msg_Header m1) ++ be32 (len (msg_data m1)) ++ msg_data m1 ++ rd_bytes r1 /\
    (0 < MaxMessageLength -> len (msg_data m1) <= MaxMessageLength).
Proof. apply Decode_inv. Qed.

(** Errors of a decode: a stream that ends before the frame is complete
    gives the stream's error, with [io.EOF] in the middle of a read reported
    as [io.ErrUnexpectedEOF]; a frame longer than a positive maximum is
    refused before its contents are read. *)
Theorem Decode_stream_errors (MaxMessageLength : Z) (m0 : Message) (h : Header)
    (l : Z) (part : bytes) (e : error) :
  0 <= l < 2 ^ 32 ->
  (len part < 12 ->
   (Decode MaxMessageLength (m0, mkReader part e)).2 =
   Fail (if (0 <? len part) && is_EOF e then ErrUnexpectedEOF else e)) /\
  (len part < 4 ->
   (Decode MaxMessageLength (m0, mkReader (vec_to_list h ++ part) e)).2 =
   Fail (if (0 <? len part) && is_EOF e then ErrUnexpectedEOF else e)) /\
  (0 < MaxMessageLength < l ->
   Decode MaxMessageLength (m0, mkReader (vec_to_list h ++ be32 l ++ part) e) =
   ((set_Header h m0, mkReader part e), Fail ErrMessageToLong)) /\
  (MaxMessageLength <= 0 \/ l <= MaxMessageLength -> len part < l ->
   (Decode MaxMessageLength (m0, mkReader (vec_to_list h ++ be32 l ++ part) e)).2 =
   Fail (if (0 <? len part) && is_EOF e then ErrUnexpectedEOF else e)).
Proof.
  intros Hl.
  assert (forall n m, len part < n -> read_full n (m, mkReader part e) =
     ((m, mkReader [] e), Fail (if (0 <? len part) && is_EOF e then ErrUnexpectedEOF else e))) as Hshort.
  { intros n m Hn. unfold read_full, ReadFull. cbn.
    by rewrite (proj2 (Z.leb_gt _ _)) by done. }
  unfold Decode. repeat split; intros Hp.
  - unfold go_bind at 1, read_header, ReadFull. cbn [rd_bytes rd_err].
    by rewrite (proj2 (Z.leb_gt _ _)) by done.
  - erewrite go_bind_Val by apply read_header_app. by erewrite go_bind_Fail by (by apply Hshort).
  - erewrite go_bind_Val by apply read_header_app.
    erewrite go_bind_Val by (by apply read_full_app).
    erewrite go_bind_lift by (rewrite <- (app_nil_r (be32 _)); apply Uint32_be32).
    rewrite wrap32_small, !(proj2 (Z.ltb_lt _ _)) by lia. done.
  - intros Hlt. erewrite go_bind_Val by apply read_header_app.
    erewrite go_bind_Val by (by apply read_full_app).
    erewrite go_bind_lift by (rewrite <- (app_nil_r (be32 _)); apply Uint32_be32).
    rewrite wrap32_small by lia.
    replace ((0 <? _) && (_ <? _)) with false by
      (symmetry; apply andb_false_iff; rewrite !Z.ltb_ge; lia).
    by erewrite go_bind_Fail by (by apply Hshort).
Qed.

(** C36.  Malformed frames are not all rejected with an error: a frame body
    shorter than four bytes, and a metadata key whose announced length makes
    the 32-bit bounds check [n+sl > l-4] wrap around, make the parser panic
    with an out-of-range slice expression. *)
Theorem Decode_malformed_panics (h : Header) (b rest : bytes) (e : error) (m0 : Message)
    (l sl : Z) (tail : bytes) :
  len b < 4 -> 8 <= l < 2 ^ 32 -> 2 ^ 32 - 4 <= sl < 2 ^ 32 ->
  (Decode 0 (m0, mkReader (vec_to_list h ++ be32 (len b) ++ b ++ rest) e)).2 = Panic /\
  decodeMetadata l (mkSlice (be32 sl ++ tail) l) = Panic.
Proof.
  intros Hb Hl Hsl. pose proof (len_nonneg b). split.
  - unfold Decode. erewrite go_bind_Val by apply read_header_app.
    erewrite go_bind_Val by (by apply read_full_app).
    erewrite go_bind_lift by (rewrite <- (app_nil_r (be32 _)); apply Uint32_be32).
    rewrite wrap32_small by lia. cbn [Z.ltb Z.compare andb].
    erewrite go_bind_Val by (by apply read_full_app).
    erewrite go_bind_Val by reflexivity. unfold decode_fields. cbn zeta.
    unfold go_bind at 1, go_lift, uint32_at.
    by rewrite slice_expr_out by (cbn [slice_of sl_buf]; lia).
  - unfold decodeMetadata. cbn [decodeMetadata_loop].
    rewrite (proj2 (Z.ltb_lt 0 l)) by lia. change (wrap32 (0 + 4)) with 4.
    rewrite (slice_expr_at _ [] (be32 sl) tail) by done. cbn [outcome_bind].
    rewrite sl_bytes_app, <- (app_nil_r (be32 sl)), Uint32_be32. cbn [outcome_bind].
    rewrite (wrap32_small sl), (wrap32_small (l - 4)) by lia.
    assert (wrap32 (4 + sl) = 4 + sl - 2 ^ 32) as ->.
    { unfold wrap32. rewrite <- (Z.mod_add _ (-1)) by lia. rewrite Z.mod_small; lia. }
    rewrite (proj2 (Z.ltb_ge _ _)) by lia.
    by rewrite slice_expr_out by lia.
Qed.

(** ** Witnesses *)

Definition sample_meta : metadata := {[ str "k" := str "v"; str "key2" := str "value2" ]}.
Definition sample_message : Message :=
  mkMessage (SetSeq newHeader 258) (str "Arith") (str "Mul") (Some sample_meta) (str "payload") [].
Definition sample_frame : bytes :=
  match Encode sample_message (map_to_list sample_meta) with Val f => f | _ => [] end.

Lemma decode_encode_roundtrip_witness :
  Decode 0 (NewMessage, mkReader (sample_frame ++ str "next") EOF) =
  ((mkMessage (msg_Header sample_message) (str "Arith") (str "Mul") (Some sample_meta) (str "payload")
      (drop 16 sample_frame), mkReader (str "next") EOF), Val tt).
Proof.
  apply (decode_encode_roundtrip 0 sample_message NewMessage (map_to_list sample_meta));
    [apply Permutation_refl|vm_compute; reflexivity|vm_compute; reflexivity|left; lia].
Defined.

Lemma Decode_consumes_frame_witness :
  (Decode 10 (NewMessage, mkReader (vec_to_list newHeader ++ be32 3 ++ [x01; x02; x03] ++ str "next") EOF)).1.2
  = mkReader (str "next") EOF.
Proof. apply (Decode_consumes_frame 10 3); [lia|reflexivity|lia]. Defined.

Lemma decodeMetadata_terminates_witness :
  exists r, decodeMetadata_loop 20 9 0 (mkSlice (be32 4294967292 ++ be32 0 ++ [x00]) 9) ∅ = Some r /\
    decodeMetadata 9 (mkSlice (be32 4294967292 ++ be32 0 ++ [x00]) 9) = r.
Proof. apply (decodeMetadata_terminates 9 _ 20); lia. Defined.

Definition sample_decoded : dstate * outcome unit :=
  Decode 0 (NewMessage, mkReader sample_frame EOF).

Lemma Decode_accepts_only_frames_witness :
  let m1 := sample_decoded.1.1 in
  exists raw l4,
    length l4 = 4%nat /\
    metadata_read raw (Metadata NewMessage) (Metadata m1) /\
    msg_data m1 = be32 (len (ServicePath m1)) ++ ServicePath m1 ++
                  be32 (len (ServiceMethod m1)) ++ ServiceMethod m1 ++
                  be32 (len raw) ++ raw ++ l4 ++ Payload m1 /\
    sample_frame = vec_to_list (msg_Header m1) ++ be32 (len (msg_data m1)) ++ msg_data m1 ++
                   rd_bytes sample_decoded.1.2 /\
    (0 < 0 -> len (msg_data m1) <= 0).
Proof.
  apply (Decode_accepts_only_frames 0 NewMessage sample_decoded.1.1 (mkReader sample_frame EOF)
           sample_decoded.1.2).
  vm_compute. reflexivity.
Defined.

Lemma Decode_stream_errors_witness :
  (Decode 0 (NewMessage, mkReader [x08] EOF)).2 = Fail ErrUnexpectedEOF /\
  Decode 5 (NewMessage, mkReader (vec_to_list newHeader ++ be32 6 ++ [x08]) EOF)
    = ((set_Header newHeader NewMessage, mkReader [x08] EOF), Fail ErrMessageToLong).
Proof.
  split.
  - apply (proj1 (Decode_stream_errors 0 NewMessage newHeader 6 [x08] EOF ltac:(lia))). reflexivity.
  - apply (proj1 (proj2 (proj2 (Decode_stream_errors 5 NewMessage newHeader 6 [x08] EOF ltac:(lia))))). lia.
Defined.

Lemma Decode_malformed_panics_witness :
  (Decode 0 (NewMessage, mkReader (vec_to_list newHeader ++ be32 1 ++ [x08] ++ []) EOF)).2 = Panic /\
  decodeMetadata 9 (mkSlice (be32 4294967295 ++ be32 0 ++ [x00]) 9) = Panic.
Proof. apply (Decode_malformed_panics newHeader [x08] [] EOF NewMessage 9 4294967295); vm_compute; try split; congruence. Defined.
