(* ===== verification/Pool.v ===== *)
(** * Message pool (src/protocol/pool.go and [Message.Copy])

    [msgPool] is a [sync.Pool]: [Get] returns some message that was [Put]
    before, or a new one, and the runtime may drop pooled messages at any
    time.  The pool is modelled as the list of pooled messages, [Get]'s choice
    as an argument, and the life of a pool as a step relation. *)
From Stdlib Require Import Strings.Byte.
From S2P Require Import Prelude GoStd Header Message.

Abbreviation pool := (list Message).

(** [msgPool]'s [New] function. *)
Definition msgPool_New : Message := mkMessage newHeader [] [] None [] [].

(** [msgPool.Get()]: the message at position [choice], if there is one. *)
Definition GetMsgs (choice : option nat) (p : pool) : Message * pool :=
  match choice with
  | Some i => match p !! i with
              | Some m => (m, delete i p)
              | None => (msgPool_New, p)
              end
  | None => (msgPool_New, p)
  end.

(** [FreeMsg]: reset and [Put]. *)
Definition FreeMsg (m : Message) (p : pool) : pool := Reset m :: p.

(** [m.Copy()]: a pooled message that takes over the header (by value), the
    service path and the method. *)
Definition Copy (choice : option nat) (m : Message) (p : pool) : Message * pool :=
  let header := msg_Header m in
  let '(c, p') := GetMsgs choice p in
  (set_ServiceMethod (ServiceMethod m) (set_ServicePath (ServicePath m) (set_Header header c)), p').

(** Any sequence of operations of any number of goroutines on the pool. *)
Inductive pool_step : pool -> pool -> Prop :=
| step_get choice p : pool_step p (GetMsgs choice p).2
| step_free m p : pool_step p (FreeMsg m p)
| step_copy choice m p : pool_step p (Copy choice m p).2
| step_drop i p : pool_step p (delete i p).

(** A message carries nothing of its previous use. *)
Definition clean (m : Message) : Prop := m = Reset m.

Lemma Reset_clean m : clean (Reset m).
Proof. unfold clean, Reset. cbn. done. Qed.

Lemma New_clean : clean msgPool_New.
Proof. done. Qed.

#[export] Hint Resolve Reset_clean New_clean : frpc.

Lemma GetMsgs_clean choice p :
  Forall clean p -> clean (GetMsgs choice p).1 /\ Forall clean (GetMsgs choice p).2.
Proof.
  intros Hp. unfold GetMsgs. destruct choice as [i|]; [|split; [apply New_clean|done]].
  destruct (p !! i) as [m|] eqn:E; [|split; [apply New_clean|done]]. cbn. split.
  - by eapply Forall_lookup_1.
  - by apply Forall_delete.
Qed.

Lemma Copy_pool choice m p : (Copy choice m p).2 = (GetMsgs choice p).2.
Proof. unfold Copy. by destruct (GetMsgs choice p). Qed.

Lemma pool_step_clean p p' : pool_step p p' -> Forall clean p -> Forall clean p'.
Proof.
  destruct 1 as [choice p|m p|choice m p|i p]; intros Hp.
  - by apply GetMsgs_clean.
  - constructor; [apply Reset_clean|done].
  - rewrite Copy_pool. by apply GetMsgs_clean.
  - by apply Forall_delete.
Qed.

Lemma pool_reachable_clean p : rtc pool_step [] p -> Forall clean p.
Proof.
  intros H. remember [] as p0. assert (Forall clean p0) as H0 by (subst; constructor).
  clear Heqp0. induction H; [done|]. eauto using pool_step_clean.
Qed.

(** The header of a clean message: every field but the magic number is zero. *)
Lemma clean_view m : clean m ->
  view (msg_Header m) = mkView (msg_Header m !!! 0%fin) x00 Request false false CompressNone Normal JSON 0.
Proof.
  unfold clean. intros E. rewrite E at 1. cbn [Reset msg_Header].
  generalize (msg_Header m). intros h. by_header h.
Qed.

(** Reuse is invisible: whatever sequence of gets, frees, copies and drops
    the pool went through, and whatever messages were freed into it, a message
    taken from it has no metadata, path, method or payload left and all header
    fields but the first byte zero, so the OR-ing setters start from scratch;
    and [Copy] transfers exactly the header, path and method. *)
Theorem pooled_messages_are_clean (p : pool) (choice : option nat) (src : Message) :
  rtc pool_step [] p ->
  (let m := (GetMsgs choice p).1 in
   ServicePath m = [] /\ ServiceMethod m = [] /\ Metadata m = None /\ Payload m = [] /\
   msg_data m = [] /\
   view (msg_Header m) = mkView (msg_Header m !!! 0%fin) x00 Request false false CompressNone Normal JSON 0) /\
  (Copy choice src p).1 =
    mkMessage (msg_Header src) (ServicePath src) (ServiceMethod src) None [] [].
Proof.
  intros Hp%pool_reachable_clean. destruct (GetMsgs_clean choice p Hp) as [Hc _].
  pose proof (clean_view _ Hc) as Hv. unfold Copy. destruct (GetMsgs choice p) as [m p'].
  cbn in *. rewrite Hv. unfold clean in Hc. rewrite Hc. done.
Qed.

Definition used_message : Message :=
  mkMessage (SetHeartbeat (SetSeq newHeader 7) true) (str "A") (str "B") (Some ∅) (str "xyz") (str "d").

Lemma pooled_messages_are_clean_witness :
  (GetMsgs (Some 0%nat) (FreeMsg used_message [])).1 <> used_message /\
  ServicePath (GetMsgs (Some 0%nat) (FreeMsg used_message [])).1 = [] /\
  (Copy (Some 0%nat) used_message (FreeMsg used_message [])).1 =
    mkMessage (msg_Header used_message) (str "A") (str "B") None [] [].
Proof.
  pose proof (pooled_messages_are_clean (FreeMsg used_message []) (Some 0%nat) used_message
    (rtc_once _ _ (step_free used_message []))) as [(H & _) HC].
  split; [by vm_compute|]. split; [exact H|exact HC].
Defined.
