(* ===== verification/Core.v ===== *)
(** * Codecs, error texts and formatting (src/codec, src/core, src/error)

    The serialisation libraries are outside the repository's own code, so a
    [Codec] is a record of the two operations of the interface; [Codecs] is
    the table of src/core/frpc.go.  [Error] gives the text of an error value
    ([err.Error()]), [itoa] the decimal rendering of [%d]. *)
From Stdlib Require Import Strings.Byte.
From S2P Require Import Prelude GoStd Header.

(** ** Formatting *)

Definition digit (d : Z) : byte := byte_of_Z (48 + d).

Fixpoint itoa_loop (fuel : nat) (n : Z) (acc : gostring) : gostring :=
  match fuel with
  | O => acc
  | S fuel' =>
      let acc' := digit (n mod 10) :: acc in
      if n <? 10 then acc' else itoa_loop fuel' (n / 10) acc'
  end.

(** [%d] of a 64-bit integer; 20 digits are enough. *)
Definition itoa (n : Z) : gostring :=
  if n <? 0 then x2d :: itoa_loop 20 (- n) [] else itoa_loop 20 n [].

Example itoa_examples : (itoa 0, itoa 15, itoa (-90), itoa 18446744073709551615)
  = (str "0", str "15", str "-90", str "18446744073709551615").
Proof. vm_compute. reflexivity. Qed.

(** [%v] of a slice of already rendered elements. *)
Definition render_slice (l : list gostring) : gostring :=
  str "[" ++ concat (match l with [] => [] | x :: l' => x :: map (fun y => str " " ++ y) l' end) ++ str "]".

(** ** Error texts *)

Fixpoint Error (e : error) : gostring :=
  match e with
  | EOF => str "EOF"
  | ErrUnexpectedEOF => str "unexpected EOF"
  | ErrMetaKVMissing => str "wrong metadata lines. some keys or values are missing"
  | ErrMessageToLong => str "message is too long"
  | ErrShutdown => str "connection is shut down"
  | ErrUnsupportedCodec => str "unsupported codec"
  | ErrClientNoServer => str "can not found any server"
  | ErrServerUnavailable => str "selected server is unavilable"
  | ErrServerClosed => str "http: Server closed"
  | ErrBreakerOpen => str "breaker open"
  | ErrBreakerTimeout => str "breaker time out"
  | ContextError s | ServiceError s | errorString s | ExternalError s => s
  | MultiError es => render_slice (map Error es)
  end.

(** [NewMultiError] *)
Definition NewMultiError (es : list error) : error := MultiError es.

(** ** Codecs *)

Section codecs.
Context {value rtype : Type}.

(** [Encode] of a value and [Decode] into a new value of a type; an error is
    the right injection. *)
Record Codec := mkCodec {
  codec_Encode : value -> bytes + error;
  codec_Decode : bytes -> rtype -> value + error
}.

(** The protobuf codec asks the value for its own marshaller first and for a
    protobuf message second. *)
Record pb_ops := mkPb {
  pb_Marshaler : value -> option (bytes + error);
  pb_Message : value -> option (bytes + error);
  pb_Unmarshaler : rtype -> option (bytes -> value + error);
  pb_UnMessage : rtype -> option (bytes -> value + error);
  pb_typename : value -> gostring;
  pb_typename_of : rtype -> gostring
}.

Definition PBCodec (pb : pb_ops) : Codec := mkCodec
  (fun i =>
     match pb_Marshaler pb i with
     | Some r => r
     | None => match pb_Message pb i with
               | Some r => r
               | None => inr (errorString (pb_typename pb i ++ str " is not a proto.Unmarshaler"))
               end
     end)
  (fun data t =>
     match pb_Unmarshaler pb t with
     | Some f => f data
     | None => match pb_UnMessage pb t with
               | Some f => f data
               | None => inr (errorString (pb_typename_of pb t ++ str " is not a proto.Unmarshaler"))
               end
     end).

(** The libraries behind the three codecs. *)
Record codec_libs := mkLibs {
  lib_json : Codec;
  lib_pb : pb_ops;
  lib_msgpack : Codec
}.

(** [core.Codecs[st]]: nil for an unregistered type. *)
Definition Codecs (libs : codec_libs) (st : SerializeType) : option Codec :=
  if beqb st JSON then Some (lib_json libs)
  else if beqb st ProtoBuffer then Some (PBCodec (lib_pb libs))
  else if beqb st MsgPack then Some (lib_msgpack libs)
  else None.
End codecs.
Arguments Codec : clear implicits.
Arguments pb_ops : clear implicits.
Arguments codec_libs : clear implicits.
