(* ===== verification/Float64.v ===== *)
(** * Double-precision arithmetic

    The operands of the program's floating-point operations (jump hash,
    exponential backoff, error rates) are not negative and far from overflow
    and underflow, so a double is represented by an exact dyadic number
    [m * 2^e] and each operation rounds the exact rational result to 53 bits,
    nearest, ties to even. *)
From S2P Require Import Prelude.

(** ** Positive double-precision numbers *)

Record f64 := mkF64 { f_m : Z; f_e : Z }.

(** [n / d] rounded to the nearest integer, ties to even. *)
Definition rne (n d : Z) : Z :=
  let q := n / d in
  let r := n mod d in
  if 2 * r <? d then q
  else if d <? 2 * r then q + 1
  else if Z.even q then q else q + 1.

(** The exponent that leaves 53 bits in front of the point. *)
Definition f64_exp (n d : Z) : Z :=
  let k := Z.log2 n - Z.log2 d in
  if n * 2 ^ (Z.max 0 (- k)) <? d * 2 ^ (Z.max 0 k) then k - 53 else k - 52.

(** The positive rational [n / d] rounded to double precision. *)
Definition f64_round (n d : Z) : f64 :=
  let e := f64_exp n d in
  mkF64 (rne (n * 2 ^ (Z.max 0 (- e))) (d * 2 ^ (Z.max 0 e))) e.

(** [float64(z)] of an integer below 2^53, [x / y] and [x * y]. *)
Definition f64_of_Z (z : Z) : f64 := mkF64 z 0.
Definition f64_div (x y : f64) : f64 :=
  let e := f_e x - f_e y in
  f64_round (f_m x * 2 ^ Z.max 0 e) (f_m y * 2 ^ Z.max 0 (- e)).
Definition f64_mul (x y : f64) : f64 :=
  let e := f_e x + f_e y in
  f64_round (f_m x * f_m y * 2 ^ Z.max 0 e) (2 ^ Z.max 0 (- e)).
(** [int64(x)]: truncation. *)
Definition f64_trunc (x : f64) : Z := (f_m x * 2 ^ Z.max 0 (f_e x)) / 2 ^ Z.max 0 (- f_e x).

(** ** Rounding *)

Lemma rne_ge n d k : 0 < d -> k * d <= n -> k <= rne n d.
Proof.
  intros Hd Hk. assert (k <= n / d) by (apply Z.div_le_lower_bound; lia).
  unfold rne. split_matches; lia.
Qed.

Lemma rne_le n d k : 0 < d -> n <= k * d -> rne n d <= k.
Proof.
  intros Hd Hk. unfold rne.
  pose proof (Z.div_mod n d ltac:(lia)). pose proof (Z.mod_pos_bound n d Hd).
  split_matches; zbool; nia.
Qed.

Lemma pow2_pos e : 0 < 2 ^ Z.max 0 e.
Proof. apply Z.pow_pos_nonneg; lia. Qed.

(** [d * 2^k <= n] with the power moved to the side where it is an integer. *)
Definition scaled_le (d k n : Z) : Prop := d * 2 ^ Z.max 0 k <= n * 2 ^ Z.max 0 (- k).

Lemma scaled_le_shift d k n s :
  0 <= s -> scaled_le d k n -> scaled_le (2 ^ s * d) (k - s) n.
Proof.
  unfold scaled_le. intros Hs H.
  destruct (Z.le_gt_cases s k).
  - rewrite !Z.max_r, !Z.max_l in * by lia.
    replace (2 ^ k) with (2 ^ s * 2 ^ (k - s)) in H by (rewrite <- Z.pow_add_r by lia; f_equal; lia). lia.
  - rewrite (Z.max_l 0 (k - s)), (Z.max_r 0 (- (k - s))) by lia.
    replace (2 ^ (- (k - s))) with (2 ^ Z.max 0 (- k) * 2 ^ (s - Z.max 0 k))
      by (rewrite <- Z.pow_add_r by lia; f_equal; lia).
    replace (2 ^ s) with (2 ^ Z.max 0 k * 2 ^ (s - Z.max 0 k))
      by (rewrite <- Z.pow_add_r by lia; f_equal; lia).
    pose proof (Z.pow_pos_nonneg 2 (s - Z.max 0 k) ltac:(lia) ltac:(lia)). nia.
Qed.

Lemma scaled_le_log2 n d : 0 < n -> 0 < d -> scaled_le d (Z.log2 n - Z.log2 d - 1) n.
Proof.
  intros Hn Hd. unfold scaled_le.
  pose proof (Z.log2_spec n Hn) as [Ln _]. pose proof (Z.log2_spec d Hd) as [_ Ud].
  pose proof (Z.log2_nonneg n). pose proof (Z.log2_nonneg d).
  set (k := Z.log2 n - Z.log2 d - 1).
  pose proof (pow2_pos k). pose proof (pow2_pos (- k)).
  assert (2 ^ Z.succ (Z.log2 d) * 2 ^ Z.max 0 k = 2 ^ Z.log2 n * 2 ^ Z.max 0 (- k)) as E
    by (rewrite <- !Z.pow_add_r by lia; f_equal; lia).
  nia.
Qed.

(** The scaled quotient has 53 bits before the point. *)
Lemma f64_exp_scaled n d : 0 < n -> 0 < d -> scaled_le (2 ^ 52 * d) (f64_exp n d) n.
Proof.
  intros Hn Hd. unfold f64_exp. set (k := Z.log2 n - Z.log2 d).
  destruct (_ <? _) eqn:E; zbool.
  - replace (k - 53) with (k - 1 - 52) by lia.
    apply scaled_le_shift; [lia|]. by apply scaled_le_log2.
  - apply scaled_le_shift; [lia|]. done.
Qed.

(** Rounding is monotone at integers up to 2^53, which are representable:
    a quotient that is at least [k] rounds to at least [k]. *)
Lemma f64_round_ge n d k :
  0 < n -> 0 < d -> 0 <= k <= 2 ^ 53 -> k * d <= n ->
  k * 2 ^ Z.max 0 (- f_e (f64_round n d)) <= f_m (f64_round n d) * 2 ^ Z.max 0 (f_e (f64_round n d)).
Proof.
  intros Hn Hd Hk Hle. pose proof (f64_exp_scaled n d Hn Hd) as Hs. unfold scaled_le in Hs.
  unfold f64_round. cbn [f_m f_e]. set (e := f64_exp n d) in *.
  pose proof (pow2_pos e). pose proof (pow2_pos (- e)).
  destruct (Z.le_gt_cases e 0).
  - rewrite (Z.max_l 0 e) in * by lia. change (2 ^ 0) with 1 in *. rewrite !Z.mul_1_r in *.
    apply rne_ge; [lia|nia].
  - rewrite (Z.max_l 0 (- e)) in * by lia. change (2 ^ 0) with 1 in *. rewrite !Z.mul_1_r in *.
    assert (2 ^ 52 <= rne n (d * 2 ^ Z.max 0 e)) by (apply rne_ge; nia).
    assert (2 ^ 1 <= 2 ^ Z.max 0 e) by (apply Z.pow_le_mono_r; lia).
    change (2 ^ 53) with (2 ^ 52 * 2) in Hk. nia.
Qed.

Lemma f64_trunc_ge x k :
  k * 2 ^ Z.max 0 (- f_e x) <= f_m x * 2 ^ Z.max 0 (f_e x) -> k <= f64_trunc x.
Proof. intros H. apply Z.div_le_lower_bound; [apply pow2_pos|lia]. Qed.

(** Rounding is monotone at powers of two as well. *)
Lemma f64_round_le n d k :
  0 < n -> 0 < d -> 0 <= k -> n <= 2 ^ k * d ->
  f_m (f64_round n d) * 2 ^ Z.max 0 (f_e (f64_round n d)) <= 2 ^ k * 2 ^ Z.max 0 (- f_e (f64_round n d)).
Proof.
  intros Hn Hd Hk Hle. pose proof (f64_exp_scaled n d Hn Hd) as Hs. unfold scaled_le in Hs.
  unfold f64_round. cbn [f_m f_e]. set (e := f64_exp n d) in *.
  pose proof (pow2_pos e). pose proof (pow2_pos (- e)).
  destruct (Z.le_gt_cases e 0).
  - rewrite (Z.max_l 0 e) in * by lia. change (2 ^ 0) with 1 in *. rewrite !Z.mul_1_r in *.
    apply rne_le; [lia|nia].
  - rewrite (Z.max_l 0 (- e)), (Z.max_r 0 e) in * by lia. change (2 ^ 0) with 1 in *.
    rewrite !Z.mul_1_r in *.
    assert (2 ^ (52 + e) <= 2 ^ k) as Hp by (rewrite Z.pow_add_r by lia; nia).
    apply Z.pow_le_mono_r_iff in Hp; [|lia..].
    assert (2 ^ k = 2 ^ (k - e) * 2 ^ e) as Ek by (rewrite <- Z.pow_add_r by lia; f_equal; lia).
    rewrite Ek in Hle |- *. apply Z.mul_le_mono_nonneg_r; [lia|]. apply rne_le; [nia|].
    replace (2 ^ (k - e) * (d * 2 ^ e)) with (2 ^ (k - e) * 2 ^ e * d) by ring. done.
Qed.

(** ** Sums, differences, comparison *)

(** A double as a fraction. *)
Definition f_num (x : f64) : Z := f_m x * 2 ^ Z.max 0 (f_e x).
Definition f_den (x : f64) : Z := 2 ^ Z.max 0 (- f_e x).

(** [x + y], [x - y] where [y <= x], [x <= y]. *)
Definition f64_add (x y : f64) : f64 :=
  f64_round (f_num x * f_den y + f_num y * f_den x) (f_den x * f_den y).
Definition f64_sub (x y : f64) : f64 :=
  f64_round (f_num x * f_den y - f_num y * f_den x) (f_den x * f_den y).
Definition f64_leb (x y : f64) : bool := f_num x * f_den y <=? f_num y * f_den x.

(** [float64(z)] of any non-negative [int64]. *)
Definition f64_of_int64 (z : Z) : f64 := f64_round z 1.

(** The value lies between two integers. *)
Definition between (a b : Z) (x : f64) : Prop := a * f_den x <= f_num x <= b * f_den x.

Lemma f_den_pos x : 0 < f_den x.
Proof. apply pow2_pos. Qed.

Lemma f64_round_0 d : 0 < d -> f_m (f64_round 0 d) = 0.
Proof. intros Hd. unfold f64_round. cbn [f_m]. rewrite Z.mul_0_l. unfold rne.
  rewrite Z.div_0_l, Z.mod_0_l by (pose proof (pow2_pos (f64_exp 0 d)); nia).
  pose proof (pow2_pos (f64_exp 0 d)). by rewrite (proj2 (Z.ltb_lt _ _)) by nia.
Qed.

(** Rounding is monotone at the integers up to 2^53. *)
Lemma f64_round_between n d a b :
  0 <= n -> 0 < d -> 0 <= a -> b <= 2 ^ 53 -> a * d <= n <= b * d -> between a b (f64_round n d).
Proof.
  intros Hn Hd Ha Hb [Hl Hu]. unfold between, f_num, f_den.
  destruct (decide (n = 0)) as [->|Hn0].
  { rewrite f64_round_0 by done. pose proof (pow2_pos (- f_e (f64_round 0 d))). nia. }
  split; [apply f64_round_ge; nia|].
  pose proof (f64_exp_scaled n d ltac:(lia) Hd) as Hs. unfold scaled_le in Hs.
  destruct (Z.le_gt_cases (f64_exp n d) 0) as [He|He].
  - unfold f64_round. cbn [f_m f_e]. set (e := f64_exp n d) in *. pose proof (pow2_pos (- e)).
    rewrite (Z.max_l 0 e) in * by lia. change (2 ^ 0) with 1 in *. rewrite !Z.mul_1_r in *.
    apply rne_le; [lia|nia].
  - assert (2 ^ 1 <= 2 ^ Z.max 0 (f64_exp n d)) by (apply Z.pow_le_mono_r; lia).
    rewrite (Z.max_l 0 (- f64_exp n d)) in Hs by lia. change (2 ^ 0) with 1 in Hs.
    change (2 ^ 53) with (2 ^ 52 * 2) in Hb. assert (b = 2 ^ 53) as -> by (change (2 ^ 53) with (2 ^ 52 * 2); nia).
    apply f64_round_le; lia.
Qed.

Lemma between_of_Z z : between z z (f64_of_Z z).
Proof. unfold between, f_num, f_den. cbn [f_m f_e f64_of_Z]. change (Z.max 0 (- 0)) with 0. rewrite Z.max_id. lia. Qed.

Lemma f64_add_between a b c d x y :
  0 <= a -> 0 <= c -> b + d <= 2 ^ 53 -> between a b x -> between c d y -> between (a + c) (b + d) (f64_add x y).
Proof.
  unfold between. intros Ha Hc Hb [Xl Xu] [Yl Yu]. pose proof (f_den_pos x) as Px. pose proof (f_den_pos y) as Py.
  apply (Z.mul_le_mono_nonneg_r _ _ (f_den y)) in Xl, Xu; [|lia..].
  apply (Z.mul_le_mono_nonneg_r _ _ (f_den x)) in Yl, Yu; [|lia..].
  assert (0 < f_den x * f_den y) by (by apply Z.mul_pos_pos).
  assert (0 <= a * (f_den x * f_den y)) by (apply Z.mul_nonneg_nonneg; lia).
  assert (0 <= c * (f_den x * f_den y)) by (apply Z.mul_nonneg_nonneg; lia).
  apply f64_round_between; lia.
Qed.

Lemma f64_sub_between a b c d x y :
  d <= a -> 0 <= c -> b - c <= 2 ^ 53 -> between a b x -> between c d y -> between (a - d) (b - c) (f64_sub x y).
Proof.
  unfold between. intros Ha Hc Hb [Xl Xu] [Yl Yu]. pose proof (f_den_pos x) as Px. pose proof (f_den_pos y) as Py.
  apply (Z.mul_le_mono_nonneg_r _ _ (f_den y)) in Xl, Xu; [|lia..].
  apply (Z.mul_le_mono_nonneg_r _ _ (f_den x)) in Yl, Yu; [|lia..].
  assert (0 < f_den x * f_den y) by (by apply Z.mul_pos_pos).
  assert (0 <= (a - d) * (f_den x * f_den y)) by (apply Z.mul_nonneg_nonneg; lia).
  apply f64_round_between; lia.
Qed.

(** [x * y] is the rounded product of the fractions. *)
Lemma f64_mul_between a b x y :
  0 <= a -> b <= 2 ^ 53 -> 0 <= f_num x -> 0 <= f_num y ->
  a * (f_den x * f_den y) <= f_num x * f_num y <= b * (f_den x * f_den y) ->
  between a b (f64_mul x y).
Proof.
  unfold f_num, f_den. intros Ha Hb Hx Hy H. unfold f64_mul.
  pose proof (pow2_pos (f_e x)). pose proof (pow2_pos (f_e y)).
  pose proof (pow2_pos (- f_e x)). pose proof (pow2_pos (- f_e y)). pose proof (pow2_pos (f_e x + f_e y)).
  pose proof (pow2_pos (- (f_e x + f_e y))).
  assert (2 ^ Z.max 0 (f_e x) * 2 ^ Z.max 0 (f_e y) * 2 ^ Z.max 0 (- (f_e x + f_e y)) =
          2 ^ Z.max 0 (f_e x + f_e y) * (2 ^ Z.max 0 (- f_e x) * 2 ^ Z.max 0 (- f_e y))) as E
    by (rewrite <- !Z.pow_add_r by lia; f_equal; lia).
  revert H Hx Hy E. set (Px := 2 ^ Z.max 0 (f_e x)) in *. set (Py := 2 ^ Z.max 0 (f_e y)) in *.
  set (Dx := 2 ^ Z.max 0 (- f_e x)) in *. set (Dy := 2 ^ Z.max 0 (- f_e y)) in *.
  set (P := 2 ^ Z.max 0 (f_e x + f_e y)) in *. set (D := 2 ^ Z.max 0 (- (f_e x + f_e y))) in *.
  intros [Hl Hu] Hx Hy E. assert (0 < Dx * Dy) as HD by nia.
  assert (0 <= f_m x) by nia. assert (0 <= f_m y) by nia.
  apply f64_round_between; [nia|done..|].
  assert (f_m x * f_m y * P * (Dx * Dy) = f_m x * Px * (f_m y * Py) * D) as E2
    by (transitivity (f_m x * f_m y * (P * (Dx * Dy))); [ring|rewrite <- E; ring]).
  split; apply (Z.mul_le_mono_pos_r _ _ (Dx * Dy)); try done; rewrite E2.
  - replace (a * D * (Dx * Dy)) with (a * (Dx * Dy) * D) by ring. apply Z.mul_le_mono_nonneg_r; lia.
  - replace (b * D * (Dx * Dy)) with (b * (Dx * Dy) * D) by ring. apply Z.mul_le_mono_nonneg_r; lia.
Qed.

Lemma f64_trunc_between a b x : between a b x -> a <= f64_trunc x <= b.
Proof.
  unfold between, f64_trunc. fold (f_num x) (f_den x). intros []. pose proof (f_den_pos x).
  split; [apply Z.div_le_lower_bound|apply Z.div_le_upper_bound]; lia.
Qed.
