(* ===== verification/Rounding.v ===== *)
(** * Comparing rounded quotients

    Rounding to double precision is monotone, and it keeps apart quotients
    whose relative distance is more than 2^-52; so comparing two rounded
    quotients of small integers compares the quotients themselves. *)
From S2P Require Import Prelude Float64.

(** ** The exponent *)

(** [2^e] as the fraction [pow_n e / pow_d e]. *)
Definition pow_n (e : Z) : Z := 2 ^ Z.max 0 e.
Definition pow_d (e : Z) : Z := 2 ^ Z.max 0 (- e).

Lemma pow_n_pos e : 0 < pow_n e.
Proof. apply pow2_pos. Qed.
Lemma pow_d_pos e : 0 < pow_d e.
Proof. apply pow2_pos. Qed.

Lemma pow_step e e' : e < e' -> 2 * (pow_n e * pow_d e') <= pow_n e' * pow_d e.
Proof.
  intros He. unfold pow_n, pow_d. change 2 with (2 ^ 1) at 1. rewrite <- !Z.pow_add_r by lia. apply Z.pow_le_mono_r; lia.
Qed.

Lemma scaled_lt_shift d k n s : 0 <= s -> n * pow_d k < d * pow_n k -> n * pow_d (k - s) < 2 ^ s * d * pow_n (k - s).
Proof.
  intros Hs H. pose proof (pow_n_pos k). pose proof (pow_d_pos k). pose proof (pow_n_pos (k - s)). pose proof (pow_d_pos (k - s)).
  assert (pow_d (k - s) * pow_n k = 2 ^ s * pow_n (k - s) * pow_d k) as E.
  { unfold pow_n, pow_d. rewrite <- !Z.pow_add_r by lia. f_equal. lia. }
  apply (Z.mul_lt_mono_pos_r (pow_n k)); [done|].
  replace (n * pow_d (k - s) * pow_n k) with (n * (pow_d (k - s) * pow_n k)) by ring. rewrite E.
  replace (n * (2 ^ s * pow_n (k - s) * pow_d k)) with (n * pow_d k * (2 ^ s * pow_n (k - s))) by ring.
  replace (2 ^ s * d * pow_n (k - s) * pow_n k) with (d * pow_n k * (2 ^ s * pow_n (k - s))) by ring.
  apply Z.mul_lt_mono_pos_r; [|done]. pose proof (Z.pow_pos_nonneg 2 s). nia.
Qed.

Lemma scaled_lt_log2 n d : 0 < n -> 0 < d -> n * pow_d (Z.log2 n - Z.log2 d + 1) < d * pow_n (Z.log2 n - Z.log2 d + 1).
Proof.
  intros Hn Hd. pose proof (Z.log2_spec n Hn) as [_ Un]. pose proof (Z.log2_spec d Hd) as [Ld _].
  pose proof (Z.log2_nonneg n). pose proof (Z.log2_nonneg d). set (k := Z.log2 n - Z.log2 d + 1).
  pose proof (pow_n_pos k). pose proof (pow_d_pos k).
  assert (2 ^ Z.succ (Z.log2 n) * pow_d k = 2 ^ Z.log2 d * pow_n k) as E
    by (unfold pow_n, pow_d; rewrite <- !Z.pow_add_r by lia; f_equal; lia).
  nia.
Qed.

(** The scaled quotient has 53 bits before the point and no more. *)
Lemma f64_exp_bounds n d : 0 < n -> 0 < d ->
  let e := f64_exp n d in 2 ^ 52 * (d * pow_n e) <= n * pow_d e < 2 ^ 53 * (d * pow_n e).
Proof.
  intros Hn Hd e. split.
  - pose proof (f64_exp_scaled n d Hn Hd) as H. unfold scaled_le in H. fold e in H. unfold pow_n, pow_d. lia.
  - unfold e, f64_exp. set (k := Z.log2 n - Z.log2 d). destruct (_ <? _) eqn:E; zbool.
    + pose proof (scaled_lt_shift d k n 53 ltac:(lia)) as H. unfold pow_n, pow_d in *. specialize (H ltac:(lia)). lia.
    + pose proof (scaled_lt_shift d (k + 1) n 53 ltac:(lia)) as H. replace (k + 1 - 53) with (k - 52) in H by lia.
      specialize (H (scaled_lt_log2 n d Hn Hd)). lia.
Qed.

(** ** Rounding to an integer *)

Lemma rne_error n d : 0 < d -> 2 * Z.abs (n - rne n d * d) <= d.
Proof.
  intros Hd. unfold rne. pose proof (Z.div_mod n d ltac:(lia)). pose proof (Z.mod_pos_bound n d Hd).
  split_matches; zbool; nia.
Qed.

Lemma rne_mono n1 d1 n2 d2 : 0 < d1 -> 0 < d2 -> n1 * d2 <= n2 * d1 -> rne n1 d1 <= rne n2 d2.
Proof.
  intros H1 H2 Hle. assert (n1 / d1 <= n2 / d2) as Hq.
  { apply Z.div_le_lower_bound; [done|]. pose proof (Z.mul_div_le n1 d1 H1). nia. }
  pose proof (Z.div_mod n1 d1 ltac:(lia)) as E1. pose proof (Z.mod_pos_bound n1 d1 H1).
  pose proof (Z.div_mod n2 d2 ltac:(lia)) as E2. pose proof (Z.mod_pos_bound n2 d2 H2).
  destruct (decide (n1 / d1 = n2 / d2)) as [Eq|Hne].
  - assert (n1 mod d1 * d2 <= n2 mod d2 * d1) as Hr by (rewrite Eq in E1; nia).
    unfold rne. rewrite Eq. split_matches; zbool; try lia; nia.
  - unfold rne. split_matches; zbool; lia.
Qed.

(** ** Rounding to double precision *)

(** [x <= y] and [x < y], exactly. *)
Definition f64_le (x y : f64) : Prop := f_num x * f_den y <= f_num y * f_den x.
Definition f64_lt (x y : f64) : Prop := f_num x * f_den y < f_num y * f_den x.

Lemma f64_leb_le x y : f64_leb x y = true <-> f64_le x y.
Proof. apply Z.leb_le. Qed.
Lemma f64_leb_gt x y : f64_lt y x -> f64_leb x y = false.
Proof. intros H. apply Z.leb_gt. exact H. Qed.

Lemma f_num_round n d : f_num (f64_round n d) = rne (n * pow_d (f64_exp n d)) (d * pow_n (f64_exp n d)) * pow_n (f64_exp n d).
Proof. done. Qed.
Lemma f_den_round n d : f_den (f64_round n d) = pow_d (f64_exp n d).
Proof. done. Qed.

(** A smaller quotient has no larger exponent. *)
Lemma f64_exp_mono n1 d1 n2 d2 :
  0 < n1 -> 0 < d1 -> 0 < n2 -> 0 < d2 -> n1 * d2 <= n2 * d1 -> f64_exp n1 d1 <= f64_exp n2 d2.
Proof.
  intros Hn1 Hd1 Hn2 Hd2 Hle. destruct (f64_exp_bounds n1 d1 Hn1 Hd1) as [L1 _]. destruct (f64_exp_bounds n2 d2 Hn2 Hd2) as [_ U2].
  destruct (Z.le_gt_cases (f64_exp n1 d1) (f64_exp n2 d2)) as [|Hgt]; [done|exfalso].
  apply pow_step in Hgt. set (e1 := f64_exp n1 d1) in *. set (e2 := f64_exp n2 d2) in *.
  pose proof (pow_n_pos e1). pose proof (pow_d_pos e1). pose proof (pow_n_pos e2). pose proof (pow_d_pos e2).
  set (N1 := pow_n e1) in *. set (D1 := pow_d e1) in *. set (N2 := pow_n e2) in *. set (D2 := pow_d e2) in *.
  assert (2 ^ 52 * (d1 * N1) * (d2 * D2) <= n1 * D1 * (d2 * D2)) by (apply Z.mul_le_mono_nonneg_r; nia).
  assert (n1 * d2 * (D1 * D2) <= n2 * d1 * (D1 * D2)) by (apply Z.mul_le_mono_nonneg_r; nia).
  assert (n2 * D2 * (d1 * D1) < 2 ^ 53 * (d2 * N2) * (d1 * D1)) by (apply Z.mul_lt_mono_pos_r; nia).
  assert (2 * (N2 * D1) * (2 ^ 52 * (d1 * d2)) <= N1 * D2 * (2 ^ 52 * (d1 * d2))) by (apply Z.mul_le_mono_nonneg_r; nia).
  change (2 ^ 53) with (2 ^ 52 * 2) in *. nia.
Qed.

Lemma f64_round_mono n1 d1 n2 d2 :
  0 < n1 -> 0 < d1 -> 0 < n2 -> 0 < d2 -> n1 * d2 <= n2 * d1 -> f64_le (f64_round n1 d1) (f64_round n2 d2).
Proof.
  intros Hn1 Hd1 Hn2 Hd2 Hle. pose proof (f64_exp_mono n1 d1 n2 d2 Hn1 Hd1 Hn2 Hd2 Hle) as He.
  destruct (f64_exp_bounds n1 d1 Hn1 Hd1) as [_ U1]. destruct (f64_exp_bounds n2 d2 Hn2 Hd2) as [L2 _].
  unfold f64_le. rewrite !f_num_round, !f_den_round. set (e1 := f64_exp n1 d1) in *. set (e2 := f64_exp n2 d2) in *.
  pose proof (pow_n_pos e1). pose proof (pow_d_pos e1). pose proof (pow_n_pos e2). pose proof (pow_d_pos e2).
  destruct (decide (e1 = e2)) as [->|Hne].
  - rewrite <- !Z.mul_assoc. apply Z.mul_le_mono_nonneg_r; [nia|]. apply rne_mono; nia.
  - assert (2 * (pow_n e1 * pow_d e2) <= pow_n e2 * pow_d e1) by (apply pow_step; lia).
    assert (rne (n1 * pow_d e1) (d1 * pow_n e1) <= 2 ^ 53) by (apply rne_le; nia).
    assert (2 ^ 52 <= rne (n2 * pow_d e2) (d2 * pow_n e2)) by (apply rne_ge; nia).
    change (2 ^ 53) with (2 ^ 52 * 2) in *. nia.
Qed.

(** Quotients further apart than a unit in the last place stay apart. *)
Lemma f64_round_lt n1 d1 n2 d2 :
  0 < n1 -> 0 < d1 -> 0 < n2 -> 0 < d2 -> n2 * d1 < (n2 * d1 - n1 * d2) * 2 ^ 52 ->
  f64_lt (f64_round n1 d1) (f64_round n2 d2).
Proof.
  intros Hn1 Hd1 Hn2 Hd2 Hgap. assert (n1 * d2 <= n2 * d1) as Hle by nia.
  pose proof (f64_exp_mono n1 d1 n2 d2 Hn1 Hd1 Hn2 Hd2 Hle) as He.
  destruct (f64_exp_bounds n1 d1 Hn1 Hd1) as [_ U1]. destruct (f64_exp_bounds n2 d2 Hn2 Hd2) as [L2 _].
  unfold f64_lt. rewrite !f_num_round, !f_den_round. set (e1 := f64_exp n1 d1) in *. set (e2 := f64_exp n2 d2) in *.
  pose proof (pow_n_pos e1) as PN1. pose proof (pow_d_pos e1) as PD1. pose proof (pow_n_pos e2) as PN2. pose proof (pow_d_pos e2) as PD2.
  pose proof (rne_error (n1 * pow_d e1) (d1 * pow_n e1) ltac:(nia)) as E1.
  pose proof (rne_error (n2 * pow_d e2) (d2 * pow_n e2) ltac:(nia)) as E2.
  destruct (decide (e1 = e2)) as [Eq|Hne].
  - rewrite Eq in *. set (N := pow_n e2) in *. set (D := pow_d e2) in *.
    set (r1 := rne (n1 * D) (d1 * N)) in *. set (r2 := rne (n2 * D) (d2 * N)) in *.
    rewrite <- !Z.mul_assoc. apply Z.mul_lt_mono_pos_r; [nia|]. apply Z.nle_gt. intros Hr.
    assert (2 * (n2 * D) <= (2 * r2 + 1) * (d2 * N)) as F2 by nia.
    assert ((2 * r1 - 1) * (d1 * N) <= 2 * (n1 * D)) as F1 by nia.
    assert (2 * (n2 * D) * d1 <= (2 * r2 + 1) * (d2 * N) * d1) as G2 by (apply Z.mul_le_mono_nonneg_r; lia).
    assert ((2 * r1 - 1) * (d1 * N) * d2 <= 2 * (n1 * D) * d2) as G1 by (apply Z.mul_le_mono_nonneg_r; lia).
    assert (2 * (r2 - r1) * (d1 * d2 * N) <= 0) by (apply Z.mul_nonpos_nonneg; [lia|nia]).
    assert ((n2 * d1 - n1 * d2) * D <= d1 * d2 * N) as Hsmall by nia.
    assert (n2 * d1 * D < (n2 * d1 - n1 * d2) * 2 ^ 52 * D) as Hbig by (apply Z.mul_lt_mono_pos_r; lia).
    assert (2 ^ 52 * (d2 * N) * d1 <= n2 * D * d1) by (apply Z.mul_le_mono_nonneg_r; lia). nia.
  - assert (2 * (pow_n e1 * pow_d e2) <= pow_n e2 * pow_d e1) as Hstep by (apply pow_step; lia).
    set (N1 := pow_n e1) in *. set (D1 := pow_d e1) in *. set (N2 := pow_n e2) in *. set (D2 := pow_d e2) in *.
    set (r1 := rne (n1 * D1) (d1 * N1)) in *. set (r2 := rne (n2 * D2) (d2 * N2)) in *.
    assert (r1 <= 2 ^ 53) as R1 by (apply rne_le; nia). assert (2 ^ 52 <= r2) as R2 by (apply rne_ge; nia).
    apply Z.nle_gt. intros Hr.
    assert (r2 * (N2 * D1) <= r1 * (N1 * D2)) as Hr' by lia.
    assert (r1 = 2 ^ 53 /\ r2 = 2 ^ 52 /\ 2 * (N1 * D2) = N2 * D1) as (F1 & F2 & F3).
    { assert (0 < N1 * D2) by nia. change (2 ^ 53) with (2 ^ 52 * 2) in *.
      assert (2 ^ 52 * (N2 * D1) <= r2 * (N2 * D1)) by (apply Z.mul_le_mono_nonneg_r; nia).
      assert (r1 * (N1 * D2) <= 2 ^ 52 * 2 * (N1 * D2)) by (apply Z.mul_le_mono_nonneg_r; nia). nia. }
    rewrite F1, F2 in *.
    assert ((2 ^ 54 - 1) * (d1 * N1) * (d2 * D2) <= 2 * (n1 * D1) * (d2 * D2)) as G1 by (apply Z.mul_le_mono_nonneg_r; nia).
    assert (2 * (n2 * D2) * (d1 * D1) <= (2 ^ 53 + 1) * (d2 * N2) * (d1 * D1)) as G2 by (apply Z.mul_le_mono_nonneg_r; nia).
    assert (n1 * d2 * 2 ^ 52 * (D1 * D2) < n2 * d1 * (2 ^ 52 - 1) * (D1 * D2)) as G by (apply Z.mul_lt_mono_pos_r; nia).
    set (X := d1 * d2 * (N1 * D2)) in *. assert (0 < X) by (unfold X; nia).
    assert (d2 * N2 * (d1 * D1) = 2 * X) as EX by (unfold X; nia). nia.
Qed.

(** ** Quotients of small integers *)

Lemma f64_of_int64_small z : 0 < z <= 2 ^ 53 -> f_num (f64_of_int64 z) = z * f_den (f64_of_int64 z).
Proof.
  intros Hz. destruct (f64_round_between z 1 z z) as [L U]; try lia. unfold f64_of_int64. lia.
Qed.

(** [float64(a) / float64(b)] is the rounded quotient. *)
Lemma f64_div_exact a b x y :
  0 < a -> 0 < b -> f_num x = a * f_den x -> f_num y = b * f_den y ->
  exists n d, f64_div x y = f64_round n d /\ 0 < n /\ 0 < d /\ n * b = a * d.
Proof.
  unfold f_num, f_den, f64_div. intros Ha Hb Hx Hy.
  pose proof (pow2_pos (f_e x)). pose proof (pow2_pos (f_e y)). pose proof (pow2_pos (- f_e x)). pose proof (pow2_pos (- f_e y)).
  pose proof (pow2_pos (f_e x - f_e y)). pose proof (pow2_pos (- (f_e x - f_e y))).
  assert (2 ^ Z.max 0 (f_e x - f_e y) * (2 ^ Z.max 0 (- f_e x) * 2 ^ Z.max 0 (f_e y)) =
          2 ^ Z.max 0 (- (f_e x - f_e y)) * (2 ^ Z.max 0 (f_e x) * 2 ^ Z.max 0 (- f_e y))) as E
    by (clear; rewrite <- !Z.pow_add_r by lia; f_equal; lia).
  set (Px := 2 ^ Z.max 0 (f_e x)) in *. set (Py := 2 ^ Z.max 0 (f_e y)) in *.
  set (Qx := 2 ^ Z.max 0 (- f_e x)) in *. set (Qy := 2 ^ Z.max 0 (- f_e y)) in *.
  set (P := 2 ^ Z.max 0 (f_e x - f_e y)) in *. set (Q := 2 ^ Z.max 0 (- (f_e x - f_e y))) in *.
  eexists _, _. split; [reflexivity|].
  assert (0 < f_m x) by (apply (Z.mul_pos_cancel_r _ Px); [done|]; rewrite Hx; by apply Z.mul_pos_pos).
  assert (0 < f_m y) by (apply (Z.mul_pos_cancel_r _ Py); [done|]; rewrite Hy; by apply Z.mul_pos_pos).
  split; [by apply Z.mul_pos_pos|]. split; [by apply Z.mul_pos_pos|].
  assert (0 < Qx * Qy * (Px * Py)) by (by repeat apply Z.mul_pos_pos).
  apply (Z.mul_reg_r _ _ (Qx * Qy * (Px * Py))); [lia|].
  assert (f_m x * Px * (Qy * Py) * (b * P * Qx) = a * Qx * (Qy * Py) * (b * P * Qx)) as E1 by (rewrite Hx; ring).
  assert (f_m y * Py * (Qx * Px) * (a * Q * Qy) = b * Qy * (Qx * Px) * (a * Q * Qy)) as E2 by (rewrite Hy; ring).
  transitivity (f_m x * Px * (Qy * Py) * (b * P * Qx)); [ring|]. rewrite E1.
  transitivity (f_m y * Py * (Qx * Px) * (a * Q * Qy)); [rewrite E2|ring].
  transitivity (a * b * (Qx * Qy) * (P * (Qx * Py))); [ring|]. rewrite E. ring.
Qed.

(** Comparing the rounded quotients compares the quotients. *)
Theorem f64_div_compare p q a b :
  0 < p < 2 ^ 26 -> 0 < q <= 2 ^ 53 -> 0 < a <= 2 ^ 53 -> 0 < b < 2 ^ 26 ->
  f64_leb (f64_div (f64_of_int64 p) (f64_of_int64 q)) (f64_div (f64_of_int64 a) (f64_of_int64 b)) = (p * b <=? q * a).
Proof.
  intros Hp Hq Ha Hb.
  destruct (f64_div_exact p q (f64_of_int64 p) (f64_of_int64 q)) as (n & d & -> & Hn & Hd & E1); try lia; try (apply f64_of_int64_small; lia).
  destruct (f64_div_exact a b (f64_of_int64 a) (f64_of_int64 b)) as (m & k & -> & Hm & Hk & E2); try lia; try (apply f64_of_int64_small; lia).
  destruct (p * b <=? q * a) eqn:E; zbool.
  - apply f64_leb_le, f64_round_mono; try done. apply (Z.mul_le_mono_pos_r _ _ (q * b)); [nia|].
    replace (n * k * (q * b)) with (n * q * (k * b)) by ring. rewrite E1.
    replace (m * d * (q * b)) with (m * b * (d * q)) by ring. rewrite E2.
    replace (p * d * (k * b)) with (p * b * (d * k)) by ring. replace (a * k * (d * q)) with (q * a * (d * k)) by ring.
    apply Z.mul_le_mono_nonneg_r; [nia|done].
  - apply f64_leb_gt, f64_round_lt; try done. apply (Z.mul_lt_mono_pos_r (q * b)); [nia|].
    assert (n * k * (q * b) = p * b * (d * k)) as F1
      by (replace (n * k * (q * b)) with (n * q * (k * b)) by ring; rewrite E1; ring).
    assert (m * d * (q * b) = q * a * (d * k)) as F2
      by (replace (m * d * (q * b)) with (m * b * (d * q)) by ring; rewrite E2; ring).
    replace ((n * k - m * d) * 2 ^ 52 * (q * b)) with ((n * k * (q * b) - m * d * (q * b)) * 2 ^ 52) by ring.
    rewrite F1, F2. assert (p * b < 2 ^ 52) as Hpb by nia.
    replace ((p * b * (d * k) - q * a * (d * k)) * 2 ^ 52) with ((p * b - q * a) * 2 ^ 52 * (d * k)) by ring.
    apply Z.mul_lt_mono_pos_r; [nia|]. lia.
Qed.
