(* ===== verification/JumpHash.v ===== *)
(** * Jump consistent hashing (src/selector/hash.go)

    FNV-1a and the jump hash; its two floating-point operations are those of
    Float64. *)
From S2P Require Import Prelude Float64.

(** ** FNV-1a and the jump hash *)

Definition fnv_offset64 : Z := 14695981039346656037.
Definition fnv_prime64 : Z := 1099511628211.

(** [fnv.New64a] fed with the bytes of a string. *)
Definition HashString (s : gostring) : Z :=
  foldl (fun h b => wrap64 (Z.lxor h (byte_to_Z b) * fnv_prime64)) fnv_offset64 s.

(** One round of the loop: the next key and the next [j]. *)
Definition next_key (key : Z) : Z := wrap64 (wrap64 (key * 2862933555777941757) + 1).
Definition next_j (b key : Z) : Z :=
  f64_trunc (f64_mul (f64_of_Z (b + 1))
    (f64_div (f64_of_Z (Z.shiftl 1 31)) (f64_of_Z (Z.shiftr key 33 + 1)))).

(** [for j < int64(buckets) { ... }]; [None] is running out of fuel. *)
Fixpoint hash_loop (fuel : nat) (buckets key b j : Z) : option Z :=
  match fuel with
  | O => None
  | S fuel' =>
    if j <? buckets then
      let b := j in
      let key := next_key key in
      hash_loop fuel' buckets key b (next_j b key)
    else Some b
  end.

(** [j] grows in every round, so [buckets + 1] rounds are enough
    ([hash_loop_total]). *)
Definition Hash (key buckets : Z) : Z :=
  let buckets := if buckets <=? 0 then 1 else buckets in
  match hash_loop (S (Z.to_nat buckets)) buckets key 0 0 with
  | Some b => b
  | None => 0
  end.

(** [JumpConsistentHash(len, options...)], the options given by their
    [fmt.Sprintf("%v")] rendering. *)
Definition JumpConsistentHash (len : Z) (options : list gostring) : Z :=
  let keyString := foldl (fun k opt => k ++ str "/" ++ opt) [] options in
  Hash (HashString keyString) (swrap32 len).

(** ** The step of the loop *)

(** The step of the loop moves forward: the ratio is at least one. *)
Lemma next_j_ge b key : 0 <= b < 2 ^ 31 -> 0 <= key < 2 ^ 64 -> b + 1 <= next_j b key.
Proof.
  intros Hb Hkey. unfold next_j. apply f64_trunc_ge.
  assert (0 <= Z.shiftr key 33 < 2 ^ 31) as Hs.
  { rewrite Z.shiftr_div_pow2 by lia. split; [apply Z.div_pos; lia|].
    apply Z.div_lt_upper_bound; lia. }
  set (x := Z.shiftr key 33 + 1). change (Z.shiftl 1 31) with (2 ^ 31).
  unfold f64_div, f64_of_Z. cbn [f_m f_e]. change (2 ^ Z.max 0 (0 - 0)) with 1.
  change (2 ^ Z.max 0 (- (0 - 0))) with 1. rewrite !Z.mul_1_r.
  pose proof (f64_round_ge (2 ^ 31) x 1 ltac:(lia) ltac:(lia) ltac:(lia) ltac:(lia)) as Hq.
  set (q := f64_round (2 ^ 31) x) in *. unfold f64_mul. cbn [f_m f_e].
  replace (0 + f_e q) with (f_e q) by lia. rewrite Z.mul_1_l in Hq.
  pose proof (pow2_pos (- f_e q)). pose proof (pow2_pos (f_e q)).
  apply f64_round_ge; nia.
Qed.

(** The converted float is within [int64]. *)
Lemma next_j_le b key : 0 <= b < 2 ^ 31 -> 0 <= key < 2 ^ 64 -> next_j b key <= 2 ^ 62.
Proof.
  intros Hb Hkey. unfold next_j.
  assert (0 <= Z.shiftr key 33 < 2 ^ 31) as Hs.
  { rewrite Z.shiftr_div_pow2 by lia. split; [apply Z.div_pos; lia|].
    apply Z.div_lt_upper_bound; lia. }
  set (x := Z.shiftr key 33 + 1). change (Z.shiftl 1 31) with (2 ^ 31).
  unfold f64_div, f64_of_Z. cbn [f_m f_e]. change (2 ^ Z.max 0 (0 - 0)) with 1.
  change (2 ^ Z.max 0 (- (0 - 0))) with 1. rewrite !Z.mul_1_r.
  pose proof (f64_round_le (2 ^ 31) x 31 ltac:(lia) ltac:(lia) ltac:(lia) ltac:(lia)) as Hq.
  pose proof (f64_round_ge (2 ^ 31) x 1 ltac:(lia) ltac:(lia) ltac:(lia) ltac:(lia)) as Hq1.
  set (q := f64_round (2 ^ 31) x) in *. unfold f64_mul. cbn [f_m f_e].
  replace (0 + f_e q) with (f_e q) by lia. rewrite Z.mul_1_l in Hq1.
  pose proof (pow2_pos (- f_e q)). pose proof (pow2_pos (f_e q)).
  set (r := f64_round _ _).
  assert (f_m r * 2 ^ Z.max 0 (f_e r) <= 2 ^ 62 * 2 ^ Z.max 0 (- f_e r)) as Hr.
  { apply f64_round_le; [nia|lia|lia|]. change (2 ^ 62) with (2 ^ 31 * 2 ^ 31). nia. }
  unfold f64_trunc. apply Z.div_le_upper_bound; [apply pow2_pos|lia].
Qed.

(** ** The loop *)

Lemma next_key_range key : 0 <= next_key key < 2 ^ 64.
Proof. apply wrap64_range. Qed.

#[local] Hint Resolve next_key_range : frpc.

Lemma hash_loop_total : forall fuel buckets key b j,
  buckets <= 2 ^ 31 -> 0 <= j -> 0 <= key < 2 ^ 64 -> (Z.to_nat (buckets - j) < fuel)%nat ->
  exists r, hash_loop fuel buckets key b j = Some r /\
    (j < buckets -> 0 <= r < buckets) /\ (buckets <= j -> r = b).
Proof.
  induction fuel as [|fuel IH]; intros buckets key b j Hn Hj Hk Hf; [lia|].
  cbn [hash_loop]. destruct (j <? buckets) eqn:E; zbool.
  - pose proof (next_j_ge j (next_key key) ltac:(lia) ltac:(auto with frpc)) as Hnext.
    destruct (IH buckets (next_key key) j (next_j j (next_key key))) as (r & Hr & H1 & H2);
      [done|lia|auto with frpc|lia|].
    exists r. split; [done|]. split; [|lia]. intros _.
    destruct (Z.lt_ge_cases (next_j j (next_key key)) buckets); [lia|]. rewrite H2; lia.
  - exists b. repeat split; lia.
Qed.

(** With one more bucket the result is unchanged or the new bucket. *)
Lemma hash_loop_consistent : forall fuel fuel' n key b j r r',
  0 <= n < 2 ^ 31 -> 0 <= j -> 0 <= key < 2 ^ 64 ->
  hash_loop fuel n key b j = Some r -> hash_loop fuel' (n + 1) key b j = Some r' ->
  r' = r \/ r' = n.
Proof.
  induction fuel as [|fuel IH]; intros [|fuel'] n key b j r r' Hn Hj Hk H H'; try discriminate.
  cbn [hash_loop] in H, H'. destruct (j <? n) eqn:E; zbool.
  - rewrite (proj2 (Z.ltb_lt _ _)) in H' by lia.
    pose proof (next_j_ge j (next_key key) ltac:(lia) ltac:(auto with frpc)).
    eapply IH; [..|exact H|exact H']; auto with frpc; lia.
  - injection H as <-. destruct (j <? n + 1) eqn:E'; zbool.
    + right. replace j with n in * by lia.
      pose proof (next_j_ge n (next_key key) ltac:(lia) ltac:(auto with frpc)).
      destruct fuel' as [|fuel']; [discriminate|]. cbn [hash_loop] in H'.
      rewrite (proj2 (Z.ltb_ge _ _)) in H' by lia. congruence.
    + left. congruence.
Qed.

Lemma Hash_spec key buckets :
  0 <= key < 2 ^ 64 -> buckets < 2 ^ 31 ->
  let n := Z.max 1 buckets in
  hash_loop (S (Z.to_nat n)) n key 0 0 = Some (Hash key buckets) /\ 0 <= Hash key buckets < n.
Proof.
  intros Hk Hb n. unfold Hash.
  replace (if buckets <=? 0 then 1 else buckets) with n by (unfold n; split_matches; zbool; lia).
  destruct (hash_loop_total (S (Z.to_nat n)) n key 0 0) as (r & Hr & H1 & _); [lia|lia|done|lia|].
  rewrite Hr. split; [done|]. apply H1. lia.
Qed.

(** C29.  [Hash] terminates and chooses a bucket in [0, max 1 buckets), for every
    64-bit key and every 32-bit bucket count; all intermediate floating-point
    results fit the integer conversion. *)
Theorem Hash_in_range (key buckets : Z) :
  0 <= key < 2 ^ 64 -> - 2 ^ 31 <= buckets < 2 ^ 31 ->
  let n := Z.max 1 buckets in
  hash_loop (S (Z.to_nat n)) n key 0 0 = Some (Hash key buckets) /\
  0 <= Hash key buckets < n /\
  (forall b k, 0 <= b < n -> 0 <= k < 2 ^ 64 -> b < next_j b k < 2 ^ 63).
Proof.
  intros Hk Hb n. destruct (Hash_spec key buckets Hk ltac:(lia)) as [H1 H2].
  repeat split; try done; try apply H2.
  - pose proof (next_j_ge b k ltac:(lia) ltac:(lia)). lia.
  - pose proof (next_j_le b k ltac:(lia) ltac:(lia)). lia.
Qed.

(** Adding a bucket moves a key only into the new bucket. *)
Lemma Hash_consistent key n :
  0 <= key < 2 ^ 64 -> 1 <= n < 2 ^ 31 - 1 ->
  Hash key (n + 1) = Hash key n \/ Hash key (n + 1) = n.
Proof.
  intros Hk Hn.
  destruct (Hash_spec key n Hk ltac:(lia)) as [H1 _].
  destruct (Hash_spec key (n + 1) Hk ltac:(lia)) as [H2 _].
  rewrite Z.max_r in H1, H2 by lia.
  eapply hash_loop_consistent; [..|exact H1|exact H2]; lia.
Qed.

Lemma HashString_range s : 0 <= HashString s < 2 ^ 64.
Proof.
  unfold HashString. destruct s as [|b s _] using rev_ind; [vm_compute; split; congruence|].
  rewrite foldl_app. apply wrap64_range.
Qed.

Lemma JumpConsistentHash_range n options :
  0 < n -> 0 <= JumpConsistentHash n options < n.
Proof.
  intros Hn. unfold JumpConsistentHash. set (k := foldl _ _ _).
  assert (- 2 ^ 31 <= swrap32 n < 2 ^ 31 /\ swrap32 n <= n) as [Hr Hle].
  { unfold swrap32. pose proof (Z.mod_pos_bound (n + 2 ^ 31) (2 ^ 32) ltac:(lia)).
    pose proof (Z.mod_le (n + 2 ^ 31) (2 ^ 32) ltac:(lia) ltac:(lia)). lia. }
  destruct (Hash_spec (HashString k) (swrap32 n) (HashString_range k) ltac:(lia)) as [_ H]. lia.
Qed.

(** Values of the double-precision computation on concrete inputs. *)
Example Hash_values : map (fun k => Hash k 10) [0; 1; 2; 3; 256; 1000000007] = [0; 6; 6; 8; 3; 7].
Proof. vm_compute. reflexivity. Qed.

Example Hash_values_large :
  map (fun kn => Hash kn.1 kn.2)
    [(16830807727658640801, 1006); (764274335609896236, 843); (11178330329979977958, 1823);
     (15482065654666617143, 1889)] = [196; 395; 1378; 1090].
Proof. vm_compute. reflexivity. Qed.

Lemma Hash_in_range_witness :
  hash_loop 11 10 256 0 0 = Some (Hash 256 10) /\ 0 <= Hash 256 10 < 10.
Proof.
  destruct (Hash_in_range 256 10 ltac:(lia) ltac:(lia)) as (H1 & H2 & _).
  split; [exact H1|exact H2].
Defined.
