(* ===== verification/Selector.v ===== *)
(** * Selectors over a plain server list (src/selector)

    The [Selector] interface of selector.go as a type class of operations and
    a class of laws, and its random, round-robin and consistent-hash
    implementations.  A selector is built from a [range] over the discovered
    servers, so constructors and [UpdateServer] take the sequence of entries
    the range yields (each key once, in any order). *)
From S2P Require Import Prelude GoStd JumpHash.

#[local] Open Scope go_scope.

(** What a call of [Select] depends on beside the selector: the service path
    and method, the rendering of the arguments, and the random number drawn
    (a 32-bit output of the generator). *)
Record select_req := mkReq {
  sr_servicePath : gostring;
  sr_serviceMethod : gostring;
  sr_args : gostring;
  sr_rand : Z
}.

(** The entries of [map[string]string] in iteration order. *)
Abbreviation entries := (list (gostring * gostring)).

(** ** The interface *)

Class Selector (S : Type) := {
  Select : select_req -> S -> outcome (S * gostring);
  UpdateServer : entries -> S -> outcome S;
  (** the addresses a selector chooses from *)
  known : S -> list gostring
}.

(** What a selector promises to the client: on well-drawn requests [Select]
    does not panic, returns the empty string exactly when it has no server and
    one of its servers otherwise, and does not change the set it chooses from. *)
Class SelectLaws (S : Type) `{Selector S} := {
  valid : S -> Prop;
  Select_law : forall req (s : S), valid s -> 0 <= sr_rand req < 2 ^ 32 ->
    exists s' name, Select req s = Val (s', name) /\ valid s' /\ known s' = known s /\
      (known s = [] -> name = []) /\ (known s <> [] -> name ∈ known s)
}.

(** And [UpdateServer] replaces that set by the keys of the new map. *)
Class SelectorLaws (S : Type) `{Selector S} := {
  Select_laws :: SelectLaws S;
  UpdateServer_law : forall es (s : S), valid s -> len es < 2 ^ 32 ->
    exists s', UpdateServer es s = Val s' /\ valid s' /\ known s' = map fst es
}.

(** [ss = append(ss, k)] for every key of the range. *)
Definition server_keys (es : entries) : list gostring := map fst es.

(** ** Random *)

Record randomSelector := mkRandom { rnd_servers : list gostring }.

Definition newRandomSelector (es : entries) : randomSelector := mkRandom (server_keys es).

(** [fastrand.Uint32n(maxN)] for the generator output [x]. *)
Definition Uint32n (x maxN : Z) : Z := wrap32 (Z.shiftr (wrap64 (x * maxN)) 32).

Definition random_Select (req : select_req) (s : randomSelector) : outcome (randomSelector * gostring) :=
  let ss := rnd_servers s in
  if len ss =? 0 then Val (s, [])
  else match ss !! Z.to_nat (Uint32n (sr_rand req) (wrap32 (len ss))) with
       | Some name => Val (s, name)
       | None => Panic
       end.

Definition random_UpdateServer (es : entries) (s : randomSelector) : outcome randomSelector :=
  Val (mkRandom (server_keys es)).

#[export] Instance randomSelector_Selector : Selector randomSelector := {
  Select := random_Select;
  UpdateServer := random_UpdateServer;
  known := rnd_servers
}.

(** ** Round robin *)

Record roundRobinSelector := mkRoundRobin { rr_servers : list gostring; rr_i : Z }.

Definition newRoundRobinSelector (es : entries) : roundRobinSelector := mkRoundRobin (server_keys es) 0.

Definition roundRobin_Select (req : select_req) (s : roundRobinSelector)
    : outcome (roundRobinSelector * gostring) :=
  let ss := rr_servers s in
  if len ss =? 0 then Val (s, [])
  else
    let i := Z.rem (rr_i s) (len ss) in
    let s' := mkRoundRobin ss (swrap64 (i + 1)) in
    if i <? 0 then Panic
    else match ss !! Z.to_nat i with
         | Some name => Val (s', name)
         | None => Panic
         end.

(** The position is kept. *)
Definition roundRobin_UpdateServer (es : entries) (s : roundRobinSelector) : outcome roundRobinSelector :=
  Val (mkRoundRobin (server_keys es) (rr_i s)).

#[export] Instance roundRobinSelector_Selector : Selector roundRobinSelector := {
  Select := roundRobin_Select;
  UpdateServer := roundRobin_UpdateServer;
  known := rr_servers
}.

(** ** Consistent hash *)

Record hashSelector := mkHash { hash_servers : list gostring }.

Definition newHashSelector (es : entries) : hashSelector := mkHash (server_keys es).

Definition hash_Select (req : select_req) (s : hashSelector) : outcome (hashSelector * gostring) :=
  let ss := hash_servers s in
  if len ss =? 0 then Val (s, [])
  else
    let i := JumpConsistentHash (len ss) [sr_servicePath req; sr_serviceMethod req; sr_args req] in
    if i <? 0 then Panic
    else match ss !! Z.to_nat i with
         | Some name => Val (s, name)
         | None => Panic
         end.

Definition hash_UpdateServer (es : entries) (s : hashSelector) : outcome hashSelector :=
  Val (mkHash (server_keys es)).

#[export] Instance hashSelector_Selector : Selector hashSelector := {
  Select := hash_Select;
  UpdateServer := hash_UpdateServer;
  known := hash_servers
}.

(** ** Proofs of the laws *)

Lemma len_zero_nil {A} (l : list A) : (len l =? 0) = true <-> l = [].
Proof. unfold len. rewrite Z.eqb_eq. destruct l; cbn; split; try done; lia. Qed.

Lemma len_nonzero {A} (l : list A) : (len l =? 0) = false -> 0 < len l.
Proof. intros H. zbool. pose proof (len_nonneg l). lia. Qed.

(** Indexing with an index in range finds an element. *)
Lemma lookup_in_range {A} (l : list A) i :
  0 <= i < len l -> exists x, l !! Z.to_nat i = Some x /\ x ∈ l.
Proof.
  intros Hi. destruct (lookup_lt_is_Some_2 l (Z.to_nat i)) as [x Hx]; [unfold len in Hi; lia|].
  exists x. split; [done|]. by eapply list_elem_of_lookup_2.
Qed.

Lemma Uint32n_range x n : 0 <= x < 2 ^ 32 -> 0 < n < 2 ^ 32 -> 0 <= Uint32n x n < n.
Proof.
  intros Hx Hn. unfold Uint32n. rewrite wrap64_small by nia.
  rewrite Z.shiftr_div_pow2 by lia.
  assert (0 <= x * n / 2 ^ 32 < n) as H.
  { split; [apply Z.div_pos; nia|]. apply Z.div_lt_upper_bound; nia. }
  rewrite wrap32_small; lia.
Qed.

#[export] Instance randomSelector_laws : SelectorLaws randomSelector.
Proof.
  unshelve refine {| Select_laws := {| valid := fun s => len (rnd_servers s) < 2 ^ 32 |} |}.
  - intros req s Hv Hr. cbn. unfold random_Select.
    destruct (len (rnd_servers s) =? 0) eqn:E.
    + apply len_zero_nil in E. exists s, []. by rewrite E.
    + apply len_nonzero in E. rewrite wrap32_small by lia.
      destruct (lookup_in_range (rnd_servers s) (Uint32n (sr_rand req) (len (rnd_servers s)))) as (x & Hx & Hin).
      { apply Uint32n_range; lia. }
      rewrite Hx. exists s, x. repeat split; [done|by intros E'; rewrite E' in E|done].
  - intros es s _ Hes. exists (mkRandom (server_keys es)). cbn.
    repeat split. unfold server_keys, len in *. by rewrite length_map.
Defined.

#[export] Instance roundRobinSelector_laws : SelectorLaws roundRobinSelector.
Proof.
  unshelve refine {| Select_laws := {| valid := fun s => 0 <= rr_i s < 2 ^ 63 /\ len (rr_servers s) < 2 ^ 63 |} |}.
  - intros req s [Hi Hl] _. cbn. unfold roundRobin_Select.
    destruct (len (rr_servers s) =? 0) eqn:E.
    + apply len_zero_nil in E. exists s, []. by rewrite E.
    + apply len_nonzero in E.
      pose proof (Z.rem_bound_pos (rr_i s) (len (rr_servers s)) ltac:(lia) E) as Hrem.
      rewrite (proj2 (Z.ltb_ge _ _)) by lia.
      destruct (lookup_in_range (rr_servers s) (Z.rem (rr_i s) (len (rr_servers s)))) as (x & Hx & Hin); [done|].
      rewrite Hx. eexists _, x. split; [done|]. cbn. rewrite swrap64_small by lia.
      repeat split; try lia; [by intros E'; rewrite E' in E|done].
  - intros es s [Hi _] Hes. eexists. split; [done|]. cbn.
    unfold server_keys, len in *. rewrite length_map. repeat split; lia.
Defined.

#[export] Instance hashSelector_laws : SelectorLaws hashSelector.
Proof.
  unshelve refine {| Select_laws := {| valid := fun _ => True |} |}.
  - intros req s _ _. cbn. unfold hash_Select.
    destruct (len (hash_servers s) =? 0) eqn:E.
    + apply len_zero_nil in E. exists s, []. by rewrite E.
    + apply len_nonzero in E.
      pose proof (JumpConsistentHash_range (len (hash_servers s))
        [sr_servicePath req; sr_serviceMethod req; sr_args req] E) as Hr.
      rewrite (proj2 (Z.ltb_ge _ _)) by lia.
      destruct (lookup_in_range (hash_servers s) _ Hr) as (x & Hx & Hin).
      rewrite Hx. exists s, x. repeat split; [by intros E'; rewrite E' in E|done].
  - intros es s _ _. by eexists.
Defined.

(** ** Sequences of selections *)

Section runs.
Context {S : Type} `{Selector S}.

Fixpoint run_select (reqs : list select_req) (s : S) : outcome (S * list gostring) :=
  match reqs with
  | [] => Val (s, [])
  | req :: reqs' =>
      let? (s', name) := Select req s in
      let? (s'', names) := run_select reqs' s' in
      Val (s'', name :: names)
  end.
End runs.

Lemma roundRobin_step req ss i :
  ss <> [] -> 0 <= i < 2 ^ 63 -> len ss < 2 ^ 63 ->
  exists name, Select req (mkRoundRobin ss i) = Val (mkRoundRobin ss (i mod len ss + 1), name) /\
    ss !! Z.to_nat (i mod len ss) = Some name.
Proof.
  intros Hss Hi Hl. cbn. unfold roundRobin_Select. cbn [rr_servers rr_i].
  assert (0 < len ss) as Hn by (destruct ss; [done|]; rewrite len_cons; pose proof (len_nonneg ss); lia).
  rewrite (proj2 (Z.eqb_neq _ _)) by lia. rewrite Z.rem_mod_nonneg by lia.
  pose proof (Z.mod_pos_bound i (len ss) Hn) as Hm.
  rewrite (proj2 (Z.ltb_ge _ _)), swrap64_small by lia.
  destruct (lookup_in_range ss (i mod len ss) Hm) as (x & Hx & _). rewrite Hx. eauto.
Qed.

(** The [t]-th selection takes the server [t] places after the first. *)
Lemma roundRobin_run reqs : forall ss i,
  ss <> [] -> 0 <= i < 2 ^ 63 -> len ss < 2 ^ 63 ->
  exists s' names, run_select reqs (mkRoundRobin ss i) = Val (s', names) /\
    length names = length reqs /\ rr_servers s' = ss /\
    forall t, (t < length reqs)%nat -> names !! t = ss !! Z.to_nat ((i + Z.of_nat t) mod len ss).
Proof.
  induction reqs as [|req reqs IH]; intros ss i Hss Hi Hl.
  - eexists _, []. repeat split. cbn. lia.
  - cbn [run_select]. destruct (roundRobin_step req ss i Hss Hi Hl) as (name & -> & Hname).
    cbn [outcome_bind].
    assert (0 < len ss) as Hn by (destruct ss; [done|]; rewrite len_cons; pose proof (len_nonneg ss); lia).
    pose proof (Z.mod_pos_bound i (len ss) Hn) as Hm.
    destruct (IH ss (i mod len ss + 1) Hss ltac:(lia) Hl) as (s' & names & -> & Hlen & Hs & Hnth).
    cbn [outcome_bind]. eexists _, _. split; [done|]. cbn [length]. repeat split; [by rewrite Hlen|done|].
    intros [|t] Ht; cbn.
    + by rewrite Z.add_0_r.
    + rewrite Hnth by lia. do 2 f_equal.
      rewrite <- Z.add_assoc, Z.add_mod_idemp_l by lia. f_equal. lia.
Qed.

(** A list read from position [k] around the end is a rotation. *)
Lemma rotation_lookup {A} (l names : list A) (k : nat) :
  (k < length l)%nat -> length names = length l ->
  (forall t, (t < length l)%nat -> names !! t = l !! ((k + t) mod length l)%nat) ->
  names = drop k l ++ take k l.
Proof.
  intros Hk Hlen Hnth. apply (list_eq_same_length _ _ (length l)).
  - rewrite length_app, length_drop, length_take. lia.
  - done.
  - intros t x y Ht Hx Hy. rewrite Hnth in Hx by done.
    destruct (Nat.lt_ge_cases (k + t) (length l)) as [Hlt|Hge].
    + rewrite Nat.mod_small in Hx by done.
      rewrite lookup_app_l, lookup_drop in Hy by (rewrite length_drop; lia). congruence.
    + rewrite lookup_app_r, length_drop, lookup_take_lt in Hy by (rewrite ?length_drop; lia).
      replace ((k + t) mod length l)%nat with (t - (length l - k))%nat in Hx; [congruence|].
      replace (k + t)%nat with ((t - (length l - k)) + 1 * length l)%nat by lia.
      rewrite Nat.Div0.mod_add, Nat.mod_small by lia. done.
Qed.

(** Round robin is fair: wherever the counter stands (also one kept from a
    longer list by [UpdateServer]), [len] consecutive selections return a
    rotation of the server list, so every server is chosen exactly once. *)
Theorem roundRobin_fair (ss : list gostring) (i : Z) (reqs : list select_req) :
  ss <> [] -> 0 <= i < 2 ^ 63 -> len ss < 2 ^ 63 -> length reqs = length ss ->
  exists s' names,
    run_select reqs (mkRoundRobin ss i) = Val (s', names) /\
    names = drop (Z.to_nat (i mod len ss)) ss ++ take (Z.to_nat (i mod len ss)) ss /\
    names ≡ₚ ss.
Proof.
  intros Hss Hi Hl Hr.
  destruct (roundRobin_run reqs ss i Hss Hi Hl) as (s' & names & Hrun & Hlen & _ & Hnth).
  assert (0 < len ss) as Hn by (destruct ss; [done|]; rewrite len_cons; pose proof (len_nonneg ss); lia).
  pose proof (Z.mod_pos_bound i (len ss) Hn) as Hm.
  assert (names = drop (Z.to_nat (i mod len ss)) ss ++ take (Z.to_nat (i mod len ss)) ss) as Hrot.
  { apply rotation_lookup; [unfold len in *; lia|congruence|]. intros t Ht.
    rewrite Hnth by congruence. f_equal. rewrite <- Z.add_mod_idemp_l by lia.
    unfold len in *. rewrite <- (Z2Nat.id (i mod _)) at 1 by lia.
    rewrite <- Nat2Z.inj_add, <- Nat2Z.inj_mod. lia. }
  exists s', names. repeat split; [done..|]. rewrite Hrot, Permutation_app_comm. by rewrite take_drop.
Qed.

(** C28.  Consistent hashing at the selector: a request goes to one of the known
    servers, the choice depends only on the request and the list, and
    appending a server to the list either leaves the choice unchanged or moves
    the request to the new server. *)
Theorem hash_Select_consistent (ss : list gostring) (new : gostring) (req : select_req) :
  ss <> [] -> len ss < 2 ^ 31 - 1 ->
  exists old name,
    Select req (mkHash ss) = Val (mkHash ss, old) /\ old ∈ ss /\
    Select req (mkHash (ss ++ [new])) = Val (mkHash (ss ++ [new]), name) /\
    (name = old \/ name = new).
Proof.
  intros Hss Hl. cbn. unfold hash_Select. cbn [hash_servers].
  assert (0 < len ss) as Hn by (destruct ss; [done|]; rewrite len_cons; pose proof (len_nonneg ss); lia).
  simpl_len. rewrite !(proj2 (Z.eqb_neq _ _)) by lia.
  set (opts := [_; _; _]). change (1 + 0) with 1.
  pose proof (JumpConsistentHash_range (len ss) opts Hn) as Hr.
  pose proof (JumpConsistentHash_range (len ss + 1) opts ltac:(lia)) as Hr'.
  rewrite !(proj2 (Z.ltb_ge _ _)) by lia.
  destruct (lookup_in_range ss _ Hr) as (x & Hx & Hin). rewrite Hx.
  assert (JumpConsistentHash (len ss + 1) opts = JumpConsistentHash (len ss) opts \/
          JumpConsistentHash (len ss + 1) opts = len ss) as [->| ->].
  { unfold JumpConsistentHash. rewrite !swrap32_small by lia.
    apply Hash_consistent; [apply HashString_range|lia]. }
  - rewrite lookup_app_l by (apply lookup_lt_Some in Hx; done). rewrite Hx. exists x, x. auto.
  - rewrite to_nat_len, list_lookup_middle by done. exists x, new. auto.
Qed.

(** The consistent-hash selector is not consistent over the server {e set}:
    its list is built by ranging over a map, and two iteration orders of one
    map can send the same request to different servers. *)
Theorem hash_Select_order_dependent :
  exists (es es' : entries) (req : select_req) a b,
    es ≡ₚ es' /\ a <> b /\
    Select req (newHashSelector es) = Val (newHashSelector es, a) /\
    Select req (newHashSelector es') = Val (newHashSelector es', b).
Proof.
  exists [(str "tcp@a:1", []); (str "tcp@b:2", [])], [(str "tcp@b:2", []); (str "tcp@a:1", [])],
    (mkReq (str "Arith") (str "Mul") (str "1") 0).
  exists (str "tcp@b:2"), (str "tcp@a:1").
  split; [apply perm_swap|]. split; [discriminate|].
  split; vm_compute; reflexivity.
Qed.

Definition sample_req : select_req := mkReq (str "Arith") (str "Mul") (str "1") 12345.

Lemma roundRobin_fair_witness :
  exists s' names,
    run_select [sample_req; sample_req; sample_req] (mkRoundRobin [str "a"; str "b"; str "c"] 7) = Val (s', names) /\
    names = [str "b"; str "c"; str "a"] /\ names ≡ₚ [str "a"; str "b"; str "c"].
Proof. apply (roundRobin_fair [str "a"; str "b"; str "c"] 7); [done|lia|vm_compute; congruence|done]. Defined.

Lemma hash_Select_consistent_witness :
  exists old name,
    Select sample_req (mkHash [str "a"; str "b"]) = Val (mkHash [str "a"; str "b"], old) /\
    old ∈ [str "a"; str "b"] /\
    Select sample_req (mkHash ([str "a"; str "b"] ++ [str "c"])) = Val (mkHash ([str "a"; str "b"] ++ [str "c"]), name) /\
    (name = old \/ name = str "c").
Proof. apply (hash_Select_consistent [str "a"; str "b"] (str "c") sample_req); [done|vm_compute; congruence]. Defined.
