(* ===== verification/Weighted.v ===== *)
(** * Weighted selection (src/selector/weight.go, selector_weight.go, selector_ping.go)

    [nextWeighted] is nginx's smooth weighted round robin over a slice of
    pointers to [Weighted]; the structs are shared and updated in place, so
    the state is the slice with the current contents of its structs ([None] is
    a nil pointer) and the result is the position of the chosen pointer.
    Integers are 64-bit. *)
From Stdlib Require Import Strings.Byte.
From S2P Require Import Prelude GoStd GoUrl JumpHash Selector.

#[local] Open Scope go_scope.

Record Weighted := mkWeighted {
  Server : gostring;
  Weight : Z;
  CurrentWeight : Z;
  EffectiveWeight : Z
}.

Definition set_CurrentWeight (c : Z) (w : Weighted) : Weighted :=
  mkWeighted (Server w) (Weight w) c (EffectiveWeight w).

(** ** nextWeighted *)

(** The body of the loop for a non-nil [w]: the updated struct. *)
Definition bump (w : Weighted) : Weighted :=
  let cw := swrap64 (CurrentWeight w + EffectiveWeight w) in
  let ew := if EffectiveWeight w <? Weight w then swrap64 (EffectiveWeight w + 1) else EffectiveWeight w in
  mkWeighted (Server w) (Weight w) cw ew.

(** [best == nil || w.CurrentWeight > best.CurrentWeight], where [best] points
    into the part of the slice already processed. *)
Definition better (w : Weighted) (best : option nat) (processed : list (option Weighted)) : bool :=
  match best with
  | None => true
  | Some b =>
      match processed !! b with
      | Some (Some bw) => CurrentWeight bw <? CurrentWeight w
      | _ => true
      end
  end.

Fixpoint next_loop (processed todo : list (option Weighted)) (total : Z) (best : option nat)
    : list (option Weighted) * Z * option nat :=
  match todo with
  | [] => (processed, total, best)
  | None :: todo' => next_loop (processed ++ [None]) todo' total best
  | Some w :: todo' =>
      let w' := bump w in
      let best' := if better w' best processed then Some (length processed) else best in
      next_loop (processed ++ [Some w']) todo' (swrap64 (total + EffectiveWeight w)) best'
  end.

Definition nextWeighted (servers : list (option Weighted)) : list (option Weighted) * option nat :=
  let '(servers', total, best) := next_loop [] servers 0 None in
  match best with
  | None => (servers', None)
  | Some b =>
      (alter (option_map (fun w => set_CurrentWeight (swrap64 (CurrentWeight w - total)) w)) b servers',
       Some b)
  end.

(** ** The selectors built on it *)

Record weightedSelector := mkWeightedSelector { ws_servers : list (option Weighted) }.

(** The weight of one server: the [weight] entry of its metadata, 1 when it is
    missing or malformed. *)
Definition metadata_weight (metadata : gostring) : Z :=
  let '(v, ok) := ParseQuery metadata in
  if ok then
    let ww := values_Get v (str "weight") in
    match ww with
    | [] => 1
    | _ => match Atoi ww with Some weight => weight | None => 1 end
    end
  else 1.

Definition createWeighted (es : entries) : list (option Weighted) :=
  map (fun '(k, metadata) =>
    Some (mkWeighted k (metadata_weight metadata) 0 (metadata_weight metadata))) es.

Definition newWeightedSelector (es : entries) : weightedSelector := mkWeightedSelector (createWeighted es).

(** [w.Server] of the chosen pointer. *)
Definition weighted_Select (req : select_req) (s : weightedSelector) : outcome (weightedSelector * gostring) :=
  let ss := ws_servers s in
  if len ss =? 0 then Val (s, [])
  else
    let '(ss', best) := nextWeighted ss in
    match best with
    | None => Val (mkWeightedSelector ss', [])
    | Some b => match ss' !! b with
                | Some (Some w) => Val (mkWeightedSelector ss', Server w)
                | _ => Panic
                end
    end.

Definition weighted_UpdateServer (es : entries) (s : weightedSelector) : outcome weightedSelector :=
  Val (mkWeightedSelector (createWeighted es)).

(** The addresses of the non-nil entries. *)
Definition weighted_known (s : weightedSelector) : list gostring :=
  omap (option_map Server) (ws_servers s).

#[export] Instance weightedSelector_Selector : Selector weightedSelector := {
  Select := weighted_Select;
  UpdateServer := weighted_UpdateServer;
  known := weighted_known
}.

(** ** Sums *)

Fixpoint sumZ (l : list Z) : Z :=
  match l with [] => 0 | x :: l' => x + sumZ l' end.

Lemma sumZ_app l k : sumZ (l ++ k) = sumZ l + sumZ k.
Proof. induction l as [|x l IH]; cbn; [done|]. rewrite IH. lia. Qed.

Lemma sumZ_nonpos l m : Forall (fun x => x <= m) l -> m <= 0 -> sumZ l <= 0.
Proof. intros H Hm. induction H as [|x l Hx Hl IH]; cbn; lia. Qed.

(** An element is bounded by the sum and the lower bound of the others. *)
Lemma sumZ_elem_bounds l W x :
  0 <= W -> Forall (fun y => - W <= y) l -> x ∈ l -> - W <= x <= sumZ l + len l * W.
Proof.
  intros HW H Hx. split; [rewrite Forall_forall in H; by apply H|].
  assert (forall k, Forall (fun y => - W <= y) k -> - (len k * W) <= sumZ k) as Hlow.
  { induction 1; cbn [sumZ]; simpl_len; cbn beta in *; lia. }
  apply list_elem_of_split in Hx as (l1 & l2 & ->).
  apply Forall_app in H as [H1 H2]. apply Forall_cons in H2 as [Hx H2].
  apply Hlow in H1, H2. rewrite sumZ_app. cbn. simpl_len. lia.
Qed.

Lemma sumZ_alter {A} (f : A -> Z) (g : A -> A) (l : list A) b x :
  l !! b = Some x -> sumZ (f <$> alter g b l) = sumZ (f <$> l) - f x + f (g x).
Proof.
  revert b. induction l as [|y l IH]; intros [|b] H; try discriminate; cbn in *.
  - injection H as ->. lia.
  - rewrite (IH _ H). lia.
Qed.

(** A nonnegative list with sum zero is zero. *)
Lemma sumZ_zero l : Forall (fun x => 0 <= x) l -> sumZ l = 0 -> Forall (fun x => x = 0) l.
Proof.
  assert (forall k, Forall (fun x => 0 <= x) k -> 0 <= sumZ k) as Hpos by (induction 1; cbn; lia).
  induction 1 as [|x l Hx Hl IH]; intros Hs; [done|]. cbn in Hs. specialize (Hpos l Hl).
  constructor; [lia|]. apply IH. lia.
Qed.

(** ** The loop *)

(** [b] is the leftmost position of the largest current weight. *)
Definition is_best (l : list (option Weighted)) (b : nat) : Prop :=
  exists bw, l !! b = Some (Some bw) /\
    forall i w, l !! i = Some (Some w) ->
      CurrentWeight w <= CurrentWeight bw /\ ((i < b)%nat -> CurrentWeight w < CurrentWeight bw).

Definition best_so_far (l : list (option Weighted)) (best : option nat) : Prop :=
  match best with
  | None => l = []
  | Some b => is_best l b
  end.

Lemma best_so_far_snoc l best w :
  best_so_far l best ->
  is_best (l ++ [Some w])
    (if better w best l then length l else match best with Some b => b | None => 0%nat end).
Proof.
  intros H. destruct best as [b|]; cbn in *.
  - destruct H as (bw & Hb & Hmax). rewrite Hb. destruct (_ <? _) eqn:E; zbool.
    + exists w. rewrite list_lookup_middle by done. split; [done|].
      intros i w' Hi. apply lookup_app_Some in Hi as [Hi|[Hle Hi]].
      * destruct (Hmax _ _ Hi). lia.
      * apply list_lookup_singleton_Some in Hi as [Hi0 [= ->]]. lia.
    + exists bw. split; [by apply lookup_app_l_Some|].
      intros i w' Hi. apply lookup_app_Some in Hi as [Hi|[Hle Hi]]; [by apply Hmax in Hi|].
      apply list_lookup_singleton_Some in Hi as [Hi0 [= ->]].
      apply lookup_lt_Some in Hb. lia.
  - subst l. exists w. split; [done|]. intros i w' Hi. apply list_lookup_singleton_Some in Hi as [-> [= ->]]. cbn. lia.
Qed.

(** The loop bumps every entry, adds up the effective weights and finds the
    leftmost best entry. *)
Lemma next_loop_spec ws : forall processed total best,
  best_so_far processed best ->
  exists best', next_loop processed (Some <$> ws) total best =
    (processed ++ (Some <$> (bump <$> ws)),
     foldl (fun t w => swrap64 (t + EffectiveWeight w)) total ws, best') /\
    best_so_far (processed ++ (Some <$> (bump <$> ws))) best'.
Proof.
  induction ws as [|w ws IH]; intros processed total best Hb; cbn [next_loop fmap list_fmap foldl].
  - rewrite app_nil_r. eauto.
  - pose proof (best_so_far_snoc processed best (bump w) Hb) as Hsnoc.
    destruct (IH (processed ++ [Some (bump w)]) (swrap64 (total + EffectiveWeight w))
      (if better (bump w) best processed then Some (length processed) else best)) as (best' & -> & Hb').
    + destruct (better _ _ _) eqn:E; [done|]. destruct best; [done|]. by rewrite (eq_refl : better _ None _ = true) in E.
    + rewrite <- app_assoc in Hb' |- *. cbn [app] in *. eauto.
Qed.

(** ** One selection *)

(** The state between selections: weights effective, current weights above
    [-W] and summing to zero, no 64-bit overflow in sight. *)
Record balanced (W : Z) (ws : list Weighted) : Prop := {
  bal_pos : 0 < W;
  bal_total : sumZ (Weight <$> ws) = W;
  bal_small : (len ws + 2) * W < 2 ^ 62;
  bal_each : Forall (fun w => EffectiveWeight w = Weight w /\ 0 <= Weight w /\ - W < CurrentWeight w) ws;
  bal_sum : sumZ (CurrentWeight <$> ws) = 0
}.

(** What one selection does to the structs, in plain integers. *)
Definition rebalance (W : Z) (b : nat) (ws : list Weighted) : list Weighted :=
  alter (fun w => set_CurrentWeight (CurrentWeight w - W) w) b
    ((fun w => set_CurrentWeight (CurrentWeight w + Weight w) w) <$> ws).

Lemma balanced_weight_le W ws w : balanced W ws -> w ∈ ws -> 0 <= Weight w <= W.
Proof.
  intros [HW Htot Hsmall Heach _] Hin.
  assert (Forall (fun x => - 0 <= x) (Weight <$> ws)) as Hpos.
  { apply Forall_fmap, (Forall_impl _ _ _ Heach). cbn. lia. }
  pose proof (sumZ_elem_bounds _ 0 (Weight w) ltac:(lia) Hpos ltac:(by apply list_elem_of_fmap_2)). lia.
Qed.

Lemma balanced_current W ws w :
  balanced W ws -> w ∈ ws -> - W < CurrentWeight w <= len ws * W.
Proof.
  intros [HW Htot Hsmall Heach Hsum] Hin.
  assert (Forall (fun x => - W <= x) (CurrentWeight <$> ws)) as Hlow.
  { apply Forall_fmap, (Forall_impl _ _ _ Heach). cbn. lia. }
  pose proof (sumZ_elem_bounds _ W (CurrentWeight w) ltac:(lia) Hlow ltac:(by apply list_elem_of_fmap_2)) as Hb.
  rewrite Forall_forall in Heach. specialize (Heach w Hin). cbn in Heach.
  unfold len in *. rewrite length_fmap in Hb. lia.
Qed.

(** No addition of the loop overflows. *)
Lemma balanced_bump W ws w :
  balanced W ws -> w ∈ ws -> bump w = set_CurrentWeight (CurrentWeight w + Weight w) w.
Proof.
  intros Hbal Hin. pose proof (balanced_weight_le _ _ _ Hbal Hin). pose proof (balanced_current _ _ _ Hbal Hin).
  destruct Hbal as [HW _ Hsmall Heach _]. rewrite Forall_forall in Heach.
  destruct (Heach w Hin) as (He & _). pose proof (len_nonneg ws).
  unfold bump, set_CurrentWeight. rewrite He, Z.ltb_irrefl, swrap64_small; [done|nia].
Qed.

Lemma balanced_bumps W ws :
  balanced W ws -> bump <$> ws = (fun w => set_CurrentWeight (CurrentWeight w + Weight w) w) <$> ws.
Proof.
  intros Hbal. apply list_fmap_ext. intros i w Hi.
  apply balanced_bump with W ws; [done|]. by apply list_elem_of_lookup_2 in Hi.
Qed.

(** The running total of the loop is the sum of the weights. *)
Lemma foldl_total ws : forall t,
  Forall (fun w => EffectiveWeight w = Weight w /\ 0 <= Weight w) ws -> 0 <= t ->
  t + sumZ (Weight <$> ws) < 2 ^ 63 ->
  foldl (fun t w => swrap64 (t + EffectiveWeight w)) t ws = t + sumZ (Weight <$> ws).
Proof.
  assert (forall k, Forall (fun w => EffectiveWeight w = Weight w /\ 0 <= Weight w) k ->
    0 <= sumZ (Weight <$> k)) as Hpos by (induction 1 as [|? ? []]; cbn; lia).
  induction ws as [|w ws IH]; intros t H Ht Hb; cbn in *; [lia|].
  apply Forall_cons in H as [[He Hw] H]. specialize (Hpos ws H).
  rewrite He, swrap64_small by lia. rewrite IH by (done || lia). lia.
Qed.

Lemma sumZ_add {A} (f g : A -> Z) l : sumZ ((fun x => f x + g x) <$> l) = sumZ (f <$> l) + sumZ (g <$> l).
Proof. induction l as [|x l IH]; cbn in *; lia. Qed.

Lemma list_fmap_alter_id {A B} (f : A -> B) (g : A -> A) i (l : list A) :
  (forall x, f (g x) = f x) -> f <$> alter g i l = f <$> l.
Proof.
  intros H. revert i. induction l as [|x l IH]; intros [|i]; cbn; try done.
  - by rewrite H.
  - f_equal. apply IH.
Qed.

(** The best entry has a positive current weight. *)
Lemma best_positive l b : is_best (Some <$> l) b -> 0 < sumZ (CurrentWeight <$> l) ->
  exists w, l !! b = Some w /\ 0 < CurrentWeight w.
Proof.
  intros (bw & Hb & Hmax) Hs. rewrite list_lookup_fmap in Hb.
  destruct (l !! b) as [w|] eqn:E; [|done]. injection Hb as ->. exists bw. split; [done|].
  destruct (Z.lt_ge_cases 0 (CurrentWeight bw)); [done|]. exfalso.
  enough (sumZ (CurrentWeight <$> l) <= 0) by lia. apply sumZ_nonpos with (CurrentWeight bw); [|done].
  apply Forall_fmap, Forall_lookup. intros i w Hi. apply (Hmax i w). by rewrite list_lookup_fmap, Hi.
Qed.

(** One selection of a balanced slice picks the leftmost best entry, charges
    it the total weight, and leaves the slice balanced. *)
Lemma nextWeighted_step W ws :
  balanced W ws ->
  exists b w, ws !! b = Some w /\
    nextWeighted (Some <$> ws) = (Some <$> rebalance W b ws, Some b) /\ balanced W (rebalance W b ws).
Proof.
  intros Hbal. pose proof (balanced_bumps _ _ Hbal) as Hbumps.
  pose proof (fun w => balanced_current W ws w Hbal) as Hcur.
  pose proof (fun w => balanced_weight_le W ws w Hbal) as Hle.
  destruct Hbal as [HW Htot Hsmall Heach Hsum].
  set (ws1 := (fun w => set_CurrentWeight (CurrentWeight w + Weight w) w) <$> ws) in *.
  assert (sumZ (CurrentWeight <$> ws1) = W) as Hsum1.
  { unfold ws1. rewrite <- list_fmap_compose. unfold compose. cbn. rewrite sumZ_add. lia. }
  assert (Forall (fun w => EffectiveWeight w = Weight w /\ 0 <= Weight w) ws) as Heach'.
  { apply (Forall_impl _ _ _ Heach). cbn. tauto. }
  destruct (next_loop_spec ws [] 0 None eq_refl) as (best & Hloop & Hbest).
  pose proof (len_nonneg ws) as Hlen.
  rewrite app_nil_l, Hbumps in *. rewrite foldl_total in Hloop by (done || nia).
  destruct best as [b|]; cbn in Hbest.
  2: { assert (ws1 = []) as E by (by destruct ws1). rewrite E in Hsum1. cbn in Hsum1. lia. }
  destruct (best_positive ws1 b Hbest ltac:(lia)) as (w1 & Hb1 & Hpos).
  assert (exists w, ws !! b = Some w /\ w1 = set_CurrentWeight (CurrentWeight w + Weight w) w) as (w & Hw & ->).
  { unfold ws1 in Hb1. rewrite list_lookup_fmap in Hb1. destruct (ws !! b); [|done].
    injection Hb1 as <-. eauto. }
  exists b, w. split; [done|].
  assert (w ∈ ws) as Hin by (by apply list_elem_of_lookup_2 in Hw).
  specialize (Hcur w Hin). specialize (Hle w Hin).
  split.
  - unfold nextWeighted. rewrite Hloop. unfold rebalance. fold ws1. f_equal.
    rewrite Htot. apply list_eq. intros i. rewrite list_lookup_fmap.
    destruct (decide (i = b)) as [->|Hne].
    + rewrite !list_lookup_alter_eq, list_lookup_fmap, Hb1. cbn [fmap option_fmap option_map].
      rewrite Z.add_0_l, swrap64_small by (cbn; nia). done.
    + by rewrite !list_lookup_alter_ne, list_lookup_fmap by done.
  - unfold rebalance. fold ws1. split; try done.
    + rewrite list_fmap_alter_id by done. unfold ws1. by rewrite <- list_fmap_compose.
    + unfold len. rewrite length_alter. unfold ws1. by rewrite length_fmap.
    + apply Forall_alter.
      * apply Forall_fmap. apply (Forall_impl _ _ _ Heach). cbn. lia.
      * intros x Hx. rewrite Hb1 in Hx. injection Hx as <-. rewrite Forall_forall in Heach.
        destruct (Heach w Hin) as (? & ? & ?). cbn in *. lia.
    + rewrite (sumZ_alter CurrentWeight _ _ _ _ Hb1), Hsum1. cbn. lia.
Qed.

(** ** Runs of selections *)

(** How often [x] occurs in [l]. *)
Definition occ {A} `{EqDecision A} (x : A) (l : list A) : Z := len (filter (fun y => y = x) l).

Lemma occ_snoc {A} `{EqDecision A} (x y : A) l :
  occ x (l ++ [y]) = occ x l + (if decide (y = x) then 1 else 0).
Proof.
  unfold occ. rewrite filter_app, len_app, filter_cons. destruct (decide (y = x)); done.
Qed.

Lemma occ_nonneg {A} `{EqDecision A} (x : A) l : 0 <= occ x l.
Proof. apply len_nonneg. Qed.

(** The structs after the positions [ps] have been chosen, one after the
    other, starting from current weights of zero: every selection adds its
    weight to each entry and takes [W] from the chosen one. *)
Definition charged (W : Z) (ps : list nat) (ws : list Weighted) : list Weighted :=
  imap (fun i w => set_CurrentWeight (len ps * Weight w - W * occ i ps) w) ws.

Lemma charged_nil W ws : Forall (fun w => CurrentWeight w = 0) ws -> charged W [] ws = ws.
Proof.
  intros H. apply list_eq. intros i. unfold charged. rewrite list_lookup_imap.
  destruct (ws !! i) as [w|] eqn:E; cbn; [|done]. rewrite Forall_lookup in H. specialize (H _ _ E).
  destruct w. cbn in *. subst. unfold set_CurrentWeight. cbn. by rewrite Z.mul_0_r.
Qed.

Lemma rebalance_charged W b ps ws : rebalance W b (charged W ps ws) = charged W (ps ++ [b]) ws.
Proof.
  apply list_eq. intros i. unfold rebalance, charged.
  rewrite list_lookup_alter, !list_lookup_fmap, !list_lookup_imap.
  destruct (decide (b = i)) as [->|Hne]; destruct (ws !! i) as [w|] eqn:E; cbn; try done.
  - rewrite occ_snoc, len_app, decide_True by done. unfold set_CurrentWeight. cbn.
    do 2 f_equal. change (len [_]) with 1. lia.
  - rewrite occ_snoc, len_app, decide_False by done. unfold set_CurrentWeight. cbn.
    do 2 f_equal. change (len [_]) with 1. lia.
Qed.

Lemma Server_charged W ps ws : Server <$> charged W ps ws = Server <$> ws.
Proof.
  apply list_eq. intros i. unfold charged. rewrite !list_lookup_fmap, list_lookup_imap. by destruct (ws !! i).
Qed.

Lemma weighted_Select_step req W ws :
  balanced W ws ->
  exists b name, (Server <$> ws) !! b = Some name /\
    Select req (mkWeightedSelector (Some <$> ws)) =
      Val (mkWeightedSelector (Some <$> rebalance W b ws), name) /\
    balanced W (rebalance W b ws).
Proof.
  intros Hbal. destruct (nextWeighted_step W ws Hbal) as (b & w & Hw & Hnext & Hbal').
  exists b, (Server w). rewrite list_lookup_fmap, Hw. split; [done|]. split; [|done].
  cbn [Select weightedSelector_Selector]. unfold weighted_Select. cbn [ws_servers].
  rewrite (proj2 (Z.eqb_neq _ _)).
  - rewrite Hnext, list_lookup_fmap. unfold rebalance. rewrite list_lookup_alter_eq, list_lookup_fmap, Hw. done.
  - apply lookup_lt_Some in Hw. unfold len. rewrite length_fmap. lia.
Qed.

(** A run of selections from zero current weights: the positions chosen, and
    the state they lead to. *)
Lemma weighted_run W ws reqs : forall ps,
  balanced W (charged W ps ws) ->
  exists ps' names, length ps' = length reqs /\
    Forall2 (fun i name => (Server <$> ws) !! i = Some name) ps' names /\
    run_select reqs (mkWeightedSelector (Some <$> charged W ps ws)) =
      Val (mkWeightedSelector (Some <$> charged W (ps ++ ps') ws), names) /\
    balanced W (charged W (ps ++ ps') ws).
Proof.
  induction reqs as [|req reqs IH]; intros ps Hbal.
  - exists [], []. rewrite app_nil_r. do 3 (split; [done|]). done.
  - destruct (weighted_Select_step req W _ Hbal) as (b & name & Hname & Hsel & Hbal').
    rewrite Server_charged in Hname. rewrite rebalance_charged in *.
    destruct (IH _ Hbal') as (ps' & names & Hlen & Hnames & Hrun & Hbal'').
    rewrite <- app_assoc in Hrun, Hbal''. cbn [app] in *.
    exists (b :: ps'), (name :: names). split; [cbn; lia|]. split; [by constructor|].
    split; [|done]. cbn [run_select]. rewrite Hsel. cbn [outcome_bind]. rewrite Hrun. done.
Qed.

(** With distinct addresses, the address is chosen as often as its position. *)
Lemma occ_names (l : list gostring) ps names i x :
  NoDup l -> l !! i = Some x -> Forall2 (fun i name => l !! i = Some name) ps names ->
  occ x names = occ i ps.
Proof.
  intros Hnd Hx. unfold occ. induction 1 as [|j y ps names Hj Hall IH]; [done|].
  rewrite !filter_cons. destruct (decide (y = x)) as [->|Hne], (decide (j = i)) as [->|Hne'].
  - rewrite !len_cons. lia.
  - exfalso. apply Hne'. by eapply NoDup_lookup.
  - congruence.
  - done.
Qed.

(** ** The selector over discovered servers *)

Definition weights (es : entries) : list Z := map (fun e => metadata_weight (snd e)) es.

Definition weighted_entries (es : entries) : list Weighted :=
  map (fun '(k, metadata) => mkWeighted k (metadata_weight metadata) 0 (metadata_weight metadata)) es.

Lemma createWeighted_entries es : createWeighted es = Some <$> weighted_entries es.
Proof. unfold createWeighted, weighted_entries. induction es as [|[k m] es IH]; cbn; [done|]. by f_equal. Qed.

Lemma balanced_initial es W :
  Forall (fun w => 0 <= w) (weights es) -> sumZ (weights es) = W -> 0 < W -> (len es + 2) * W < 2 ^ 62 ->
  balanced W (charged W [] (weighted_entries es)).
Proof.
  intros Hw Hs HW Hb. rewrite charged_nil.
  2: { unfold weighted_entries. apply Forall_forall. intros w Hin. apply list_elem_of_fmap in Hin as ([k m] & -> & _). done. }
  assert (Weight <$> weighted_entries es = weights es) as HWs.
  { unfold weighted_entries, weights. clear. induction es as [|[k m] es IH]; cbn; [done|]. by f_equal. }
  split; try done.
  - by rewrite HWs.
  - unfold len, weighted_entries in *. by rewrite length_map.
  - apply Forall_forall. intros w Hin. apply list_elem_of_fmap in Hin as ([k m] & -> & Hin). cbn.
    rewrite Forall_forall in Hw. repeat split; [|lia]. apply Hw. unfold weights. apply list_elem_of_fmap. by exists (k, m).
  - unfold weighted_entries. clear. induction es as [|[k m] es IH]; cbn; [done|]. apply IH.
Qed.

Lemma Server_entries es : Server <$> weighted_entries es = map fst es.
Proof. unfold weighted_entries. induction es as [|[k m] es IH]; cbn; [done|]. by f_equal. Qed.

(** The selections of a run, in terms of how often each server is chosen. *)
Lemma weighted_selector_run es W reqs :
  NoDup (map fst es) -> Forall (fun w => 0 <= w) (weights es) ->
  sumZ (weights es) = W -> 0 < W -> (len es + 2) * W < 2 ^ 62 ->
  exists ps names, length ps = length reqs /\ length names = length reqs /\
    run_select reqs (newWeightedSelector es) =
      Val (mkWeightedSelector (Some <$> charged W ps (weighted_entries es)), names) /\
    balanced W (charged W ps (weighted_entries es)) /\
    forall i k m, es !! i = Some (k, m) -> occ k names = occ i ps.
Proof.
  intros Hnd Hw Hs HW Hb. pose proof (balanced_initial es W Hw Hs HW Hb) as Hbal.
  destruct (weighted_run W _ reqs _ Hbal) as (ps & names & Hlen & Hnames & Hrun & Hbal').
  rewrite Server_entries in Hnames. exists ps, names. split; [done|].
  split; [apply Forall2_length in Hnames; congruence|]. split; [|split; [done|]].
  - rewrite charged_nil in Hrun.
    2: { unfold weighted_entries. apply Forall_forall. intros w Hin. apply list_elem_of_fmap in Hin as ([k m] & -> & _). done. }
    unfold newWeightedSelector. by rewrite createWeighted_entries.
  - intros i k m Hi. apply occ_names with (map fst es); [done| |done].
    change (map fst es) with (fst <$> es). by rewrite list_lookup_fmap, Hi.
Qed.

Lemma charged_lookup W ps es i k m :
  es !! i = Some (k, m) ->
  charged W ps (weighted_entries es) !! i =
    Some (mkWeighted k (metadata_weight m) (len ps * metadata_weight m - W * occ i ps) (metadata_weight m)).
Proof.
  intros Hi. unfold charged. rewrite list_lookup_imap. unfold weighted_entries.
  change (map ?f es) with (f <$> es). rewrite list_lookup_fmap, Hi. done.
Qed.

(** After [W] selections every current weight is a multiple of [W] above
    [-W], hence nonnegative, and they sum to zero. *)
Lemma full_round_zero W ps es :
  balanced W (charged W ps (weighted_entries es)) -> len ps = W ->
  Forall (fun w => CurrentWeight w = 0) (charged W ps (weighted_entries es)).
Proof.
  intros [HW _ _ Heach Hsum] Hps. apply (proj1 (Forall_fmap CurrentWeight (fun x => x = 0) _)), sumZ_zero; [|done].
  apply Forall_fmap, Forall_lookup. intros i w Hi. rewrite Forall_lookup in Heach.
  destruct (Heach _ _ Hi) as (_ & _ & Hcw). unfold charged in Hi. rewrite list_lookup_imap in Hi.
  destruct (weighted_entries es !! i) as [w0|]; [|done]. injection Hi as <-. cbn in *. rewrite Hps in *.
  rewrite <- Z.mul_sub_distr_l in *. set (x := Weight w0 - occ i ps) in *.
  assert (- 1 < x); [|nia]. apply Z.nle_gt. intros ?. nia.
Qed.

(** A charged slice whose current weights are all zero is the initial one. *)
Lemma charged_zero W ps es :
  Forall (fun w => CurrentWeight w = 0) (charged W ps (weighted_entries es)) ->
  charged W ps (weighted_entries es) = weighted_entries es.
Proof.
  intros H. apply list_eq. intros i. destruct (es !! i) as [[k m]|] eqn:Hi.
  - pose proof (charged_lookup W ps es i k m Hi) as Hc. rewrite Forall_lookup in H.
    pose proof (H _ _ Hc) as Hz. cbn in Hz. rewrite Hc, Hz. unfold weighted_entries.
    change (map ?f es) with (f <$> es). by rewrite list_lookup_fmap, Hi.
  - unfold charged, weighted_entries. rewrite list_lookup_imap.
    change (map ?f es) with (f <$> es). by rewrite list_lookup_fmap, Hi.
Qed.

(** C18.  Smooth weighted selection never runs ahead: after any number [t] of
    selections from a new selector, a server of weight [w] out of a total [W]
    has been chosen fewer than [t * w / W + 1] times (and no selection fails). *)
Theorem weighted_never_ahead (es : entries) (W : Z) (reqs : list select_req) :
  NoDup (map fst es) -> Forall (fun w => 0 <= w) (weights es) ->
  sumZ (weights es) = W -> 0 < W -> (len es + 2) * W < 2 ^ 62 ->
  exists s' names, run_select reqs (newWeightedSelector es) = Val (s', names) /\
    length names = length reqs /\
    forall k m, (k, m) ∈ es -> W * occ k names < len reqs * metadata_weight m + W.
Proof.
  intros Hnd Hw Hs HW Hb.
  destruct (weighted_selector_run es W reqs Hnd Hw Hs HW Hb) as (ps & names & Hlen & Hn & Hrun & Hbal & Hocc).
  eexists _, names. split; [done|]. split; [done|]. intros k m Hin.
  apply list_elem_of_lookup in Hin as (i & Hi). rewrite (Hocc _ _ _ Hi).
  pose proof (charged_lookup W ps es i k m Hi) as Hc.
  destruct Hbal as [_ _ _ Heach _]. rewrite Forall_lookup in Heach.
  specialize (Heach _ _ Hc). cbn in Heach. unfold len in *. rewrite Hlen in Heach. lia.
Qed.

(** C17.  Weighted selection is exactly proportional: a full round of [W]
    selections chooses every server exactly as often as its weight and leaves
    the selector as it was at the start of the round. *)
Theorem weighted_round_exact (es : entries) (W : Z) (reqs : list select_req) :
  NoDup (map fst es) -> Forall (fun w => 0 <= w) (weights es) ->
  sumZ (weights es) = W -> 0 < W -> (len es + 2) * W < 2 ^ 62 -> len reqs = W ->
  exists names, run_select reqs (newWeightedSelector es) = Val (newWeightedSelector es, names) /\
    forall k m, (k, m) ∈ es -> occ k names = metadata_weight m.
Proof.
  intros Hnd Hw Hs HW Hb Hr.
  destruct (weighted_selector_run es W reqs Hnd Hw Hs HW Hb) as (ps & names & Hlen & Hn & Hrun & Hbal & Hocc).
  assert (len ps = W) as Hps by (unfold len in *; congruence).
  pose proof (full_round_zero W ps es Hbal Hps) as Hzero.
  exists names. rewrite Hrun. split.
  - unfold newWeightedSelector. rewrite createWeighted_entries. by rewrite charged_zero.
  - intros k m Hin. apply list_elem_of_lookup in Hin as (i & Hi). rewrite (Hocc _ _ _ Hi).
    pose proof (charged_lookup W ps es i k m Hi) as Hc.
    rewrite Forall_lookup in Hzero. specialize (Hzero _ _ Hc). cbn in Hzero. nia.
Qed.

(** ** Laws of the interface *)

(** [createWeighted] never stores a nil pointer. *)
Definition no_nil (l : list (option Weighted)) : Prop := exists ws, l = Some <$> ws.

Lemma weighted_known_Some (ws : list Weighted) : omap (option_map Server) (Some <$> ws) = Server <$> ws.
Proof. induction ws as [|w ws IH]; cbn; [done|]. by f_equal. Qed.

(** Selecting from any nonempty slice without nil pointers, whatever the
    weights: the chosen entry is one of the slice. *)
Lemma nextWeighted_total ws :
  ws <> [] -> exists ws' b w, nextWeighted (Some <$> ws) = (Some <$> ws', Some b) /\
    ws' !! b = Some w /\ Server <$> ws' = Server <$> ws.
Proof.
  intros Hne. destruct (next_loop_spec ws [] 0 None eq_refl) as (best & Hloop & Hbest).
  rewrite app_nil_l in *. unfold nextWeighted. rewrite Hloop.
  destruct best as [b|]; cbn in Hbest; [|by destruct ws].
  destruct Hbest as (bw & Hb & _). rewrite list_lookup_fmap in Hb.
  set (sub := fun w => set_CurrentWeight _ w).
  assert (alter (option_map sub) b (Some <$> (bump <$> ws)) = Some <$> alter sub b (bump <$> ws)) as Halt.
  { apply list_eq. intros i. rewrite !list_lookup_fmap, !list_lookup_alter, !list_lookup_fmap.
    case_decide; [subst|done]. by destruct (ws !! i). }
  rewrite Halt. destruct ((bump <$> ws) !! b) as [w0|] eqn:E; [|done].
  exists (alter sub b (bump <$> ws)), b, (sub w0). split; [done|].
  split; [by rewrite list_lookup_alter_eq, E|].
  rewrite list_fmap_alter_id by done. by rewrite <- list_fmap_compose.
Qed.

#[export] Instance weightedSelector_laws : SelectorLaws weightedSelector.
Proof.
  unshelve refine {| Select_laws := {| valid := fun s : weightedSelector => no_nil (ws_servers s) |} |}.
  - intros req [ss] [ws Hws] _. cbn in Hws. subst ss. cbn [Select known weightedSelector_Selector].
    unfold weighted_Select, weighted_known. cbn [ws_servers]. destruct ws as [|w0 ws].
    + eexists _, _. split; [done|]. repeat split; [by exists []|done].
    + destruct (nextWeighted_total (w0 :: ws) ltac:(done)) as (ws' & b & w & Hnext & Hb & Hsrv).
      assert ((len (Some <$> w0 :: ws) =? 0) = false) as ->.
      { by apply Z.eqb_neq. }
      rewrite Hnext, list_lookup_fmap, Hb. cbn [fmap option_fmap option_map].
      eexists _, _. split; [done|]. cbn [ws_servers]. split; [by exists ws'|].
      rewrite !weighted_known_Some. split; [done|]. split; [done|]. intros _. rewrite <- Hsrv.
      apply list_elem_of_fmap. exists w. split; [done|]. by apply list_elem_of_lookup_2 in Hb.
  - intros es s _ _. eexists. split; [done|]. cbn. unfold weighted_known. cbn.
    rewrite createWeighted_entries. split; [by eexists|]. rewrite weighted_known_Some.
    apply Server_entries.
Defined.

(** ** Witnesses *)

Definition sample_es : entries :=
  [(str "tcp@a:1", str "weight=3"); (str "tcp@b:1", str "weight=2&group=x"); (str "tcp@c:1", [])].

Lemma weighted_never_ahead_witness :
  exists s' names,
    run_select [sample_req; sample_req; sample_req] (newWeightedSelector sample_es) = Val (s', names) /\
    length names = 3%nat /\
    forall k m, (k, m) ∈ sample_es -> 6 * occ k names < 3 * metadata_weight m + 6.
Proof.
  apply (weighted_never_ahead sample_es 6 [sample_req; sample_req; sample_req]).
  - apply (bool_decide_unpack _). vm_compute. done.
  - repeat constructor; vm_compute; discriminate.
  - vm_compute. done.
  - lia.
  - vm_compute. done.
Defined.

Lemma weighted_round_exact_witness :
  exists names,
    run_select (replicate 6 sample_req) (newWeightedSelector sample_es) =
      Val (newWeightedSelector sample_es, names) /\
    forall k m, (k, m) ∈ sample_es -> occ k names = metadata_weight m.
Proof.
  apply (weighted_round_exact sample_es 6 (replicate 6 sample_req)).
  - apply (bool_decide_unpack _). vm_compute. done.
  - repeat constructor; vm_compute; discriminate.
  - vm_compute. done.
  - lia.
  - vm_compute. done.
  - vm_compute. done.
Defined.

(** The interleaving of the six selections, as nginx's algorithm gives it. *)
Example weighted_order :
  (let? (_, names) := run_select (replicate 6 sample_req) (newWeightedSelector sample_es) in Val names) =
  Val [str "tcp@a:1"; str "tcp@b:1"; str "tcp@a:1"; str "tcp@c:1"; str "tcp@b:1"; str "tcp@a:1"].
Proof. vm_compute. done. Qed.
