(* ===== verification/Ping.v ===== *)
(** * Latency and distance selectors (src/selector/selector_ping.go, selector_geo.go, selector.go)

    The network is a parameter of the ping selector ([net.ResolveIPAddr] and
    the [fastping] package): for a host, whether it resolves and which round
    trips the pinger reports before it returns.  The geo selector is
    parameterised by the floating-point operations and functions of [math] it
    uses ([Float64]); [strconv.ParseFloat] and [rand.Rand.Intn] are arguments.
    [NewSelector] dispatches on the select mode. *)
From Stdlib Require Import Strings.Byte.
From S2P Require Import Prelude GoStd GoUrl JumpHash Selector Weighted.

#[local] Open Scope go_scope.

(** ** net.SplitHostPort *)

Fixpoint byteIndex (s : gostring) (c : byte) : option nat :=
  match s with
  | [] => None
  | x :: s' => if bool_decide (x = c) then Some 0%nat else S <$> byteIndex s' c
  end.

Fixpoint lastIndex (s : gostring) (c : byte) : option nat :=
  match s with
  | [] => None
  | x :: s' => match lastIndex s' c with
               | Some i => Some (S i)
               | None => if bool_decide (x = c) then Some 0%nat else None
               end
  end.

(** Host and port; [None] is an address error (the host is then the empty
    string). *)
Definition SplitHostPort (hostport : gostring) : option (gostring * gostring) :=
  let has s c := match byteIndex s c with Some _ => true | None => false end in
  match lastIndex hostport x3a with
  | None => None
  | Some i =>
      let port := drop (S i) hostport in
      if bool_decide (head hostport = Some x5b) then
        match byteIndex hostport x5d with
        | None => None
        | Some e =>
            if (S e =? i)%nat then
              if has (drop 1 hostport) x5b || has (drop (S e) hostport) x5d then None
              else Some (take (e - 1) (drop 1 hostport), port)
            else None
        end
      else
        let host := take i hostport in
        if has host x3a then None
        else if has hostport x5b || has hostport x5d then None
        else Some (host, port)
  end.

Example SplitHostPort_examples :
  (SplitHostPort (str "10.0.0.1:8972"), SplitHostPort (str "[::1]:80"), SplitHostPort (str "::1:80"),
   SplitHostPort (str "host"))
  = (Some (str "10.0.0.1", str "8972"), Some (str "::1", str "80"), None, None).
Proof. vm_compute. reflexivity. Qed.

(** ** Ping *)

Definition CalculateWeight (rtt : Z) : Z :=
  if (0 <=? rtt) && (rtt <=? 10) then 191
  else if (10 <? rtt) && (rtt <=? 200) then 201 - rtt
  else if (100 <? rtt) && (rtt <? 1000) then 1
  else 0.

(** What the network answers for a host: [ni_resolve] the error of
    [ResolveIPAddr], [ni_recv] the durations (in nanoseconds) the pinger passes
    to [OnRecv], [ni_run] the error of [Run]. *)
Record network := mkNetwork {
  ni_resolve : gostring -> option error;
  ni_recv : gostring -> list Z;
  ni_run : gostring -> option error
}.

(** [OnRecv] overwrites [rtt] with the duration in milliseconds. *)
Definition OnRecv (rtt r : Z) : Z := Z.quot r 1000000.

Definition Ping (net : network) (host : gostring) : Z * option error :=
  let rtt := 1000 in
  match ni_resolve net host with
  | Some err => (0, Some err)
  | None => (foldl OnRecv rtt (ni_recv net host), ni_run net host)
  end.

(** The entry of one server; [server[1]] panics when the key has no ["@"]. *)
Definition icmp_entry (net : network) (k : gostring) : outcome Weighted :=
  match split_all x40 k !! 1%nat with
  | None => Panic
  | Some addr =>
      let host := match SplitHostPort addr with Some (h, _) => h | None => [] end in
      let '(rtt, _) := Ping net host in
      let rtt := CalculateWeight rtt in
      Val (mkWeighted k rtt 0 rtt)
  end.

Fixpoint createICMPWeighted (net : network) (es : entries) : outcome (list (option Weighted)) :=
  match es with
  | [] => Val []
  | (k, _) :: es' =>
      let? w := icmp_entry net k in
      let? ss := createICMPWeighted net es' in
      Val (Some w :: ss)
  end.

Record pingSelector := mkPingSelector { ps_servers : list (option Weighted) }.

Definition newPingSelector (net : network) (es : entries) : outcome pingSelector :=
  let? ss := createICMPWeighted net es in Val (mkPingSelector ss).

Definition ping_Select (req : select_req) (s : pingSelector) : outcome (pingSelector * gostring) :=
  let ss := ps_servers s in
  if len ss =? 0 then Val (s, [])
  else
    let '(ss', best) := nextWeighted ss in
    match best with
    | None => Val (mkPingSelector ss', [])
    | Some b => match ss' !! b with
                | Some (Some w) => Val (mkPingSelector ss', Server w)
                | _ => Panic
                end
    end.

Definition ping_UpdateServer (net : network) (es : entries) (s : pingSelector) : outcome pingSelector :=
  let? ss := createICMPWeighted net es in Val (mkPingSelector ss).

(** ** Geo *)

(** The float64 operations the distance uses. *)
Class Float64 (F : Type) := {
  fconst : Z -> F;
  fadd : F -> F -> F;
  fsub : F -> F -> F;
  fmul : F -> F -> F;
  fdiv : F -> F -> F;
  fltb : F -> F -> bool;
  feqb : F -> F -> bool;
  Pi : F;
  MaxFloat64 : F;
  Sin : F -> F;
  Cos : F -> F;
  Asin : F -> F;
  Sqrt : F -> F;
  Pow : F -> F -> F
}.

Section geo.
Context {F : Type} `{Float64 F} (ParseFloat : gostring -> option F) (Intn : Z -> Z).

Record geoServer := mkGeoServer { gs_Server : gostring; gs_Latitude : F; gs_Longitude : F }.

(** [None] in [geo_servers] is a nil pointer. *)
Record geoSelector := mkGeoSelector {
  geo_servers : list (option geoServer);
  Latitude : F;
  Longitude : F
}.

Definition hsin (theta : F) : F := Pow (Sin (fdiv theta (fconst 2))) (fconst 2).

Definition getDistanceFrom (lat1 lon1 lat2 lon2 : F) : F :=
  let la1 := fdiv (fmul lat1 Pi) (fconst 180) in
  let lo1 := fdiv (fmul lon1 Pi) (fconst 180) in
  let la2 := fdiv (fmul lat2 Pi) (fconst 180) in
  let lo2 := fdiv (fmul lon2 Pi) (fconst 180) in
  let r := fconst 6378100 in
  let h := fadd (hsin (fsub la2 la1)) (fmul (fmul (Cos la1) (Cos la2)) (hsin (fsub lo2 lo1))) in
  fmul (fmul (fconst 2) r) (Asin (Sqrt h)).

(** The servers of the range whose metadata has both coordinates. *)
Definition geo_entry (e : gostring * gostring) : option geoServer :=
  let '(s, metadata) := e in
  let '(v, ok) := ParseQuery metadata in
  if ok then
    match values_Get v (str "latitude"), values_Get v (str "longitude") with
    | [], _ | _, [] => None
    | latStr, lonStr =>
        match ParseFloat latStr with
        | None => None
        | Some lat => match ParseFloat lonStr with
                      | None => None
                      | Some lon => Some (mkGeoServer s lat lon)
                      end
        end
    end
  else None.

(** [make([]*geoServer, len(servers))] followed by [append]s. *)
Definition createGeoServer (es : entries) : list (option geoServer) :=
  replicate (length es) None ++ (Some <$> omap geo_entry es).

Definition newGeoSelector (es : entries) (latitude longitude : F) : geoSelector :=
  mkGeoSelector (createGeoServer es) latitude longitude.

(** The loop of [Select]: the servers at the least distance so far and that
    distance. *)
Fixpoint closest (s : geoSelector) (todo : list (option geoServer)) (server : list gostring) (min : F)
    : outcome (list gostring) :=
  match todo with
  | [] => Val server
  | None :: _ => Panic
  | Some gs :: todo' =>
      let d := getDistanceFrom (Latitude s) (Longitude s) (gs_Latitude gs) (gs_Longitude gs) in
      if fltb d min then closest s todo' [gs_Server gs] d
      else if feqb d min then closest s todo' (server ++ [gs_Server gs]) min
      else closest s todo' server min
  end.

(** [s.r.Intn(n)] panics unless [n > 0]. *)
Definition geo_Select (s : geoSelector) : outcome gostring :=
  if len (geo_servers s) =? 0 then Val []
  else
    let? server := closest s (geo_servers s) [] MaxFloat64 in
    if len server =? 1 then
      match server !! 0%nat with Some x => Val x | None => Panic end
    else if len server <=? 0 then Panic
    else match server !! Z.to_nat (Intn (len server)) with Some x => Val x | None => Panic end.

Definition geo_UpdateServer (es : entries) (s : geoSelector) : geoSelector :=
  mkGeoSelector (createGeoServer es) (Latitude s) (Longitude s).
End geo.
Arguments geoServer : clear implicits.
Arguments geoSelector : clear implicits.
Arguments mkGeoServer {F} _ _ _.
Arguments mkGeoSelector {F} _ _ _.

(** ** NewSelector *)

(** core.SelectMode *)
Inductive SelectMode := Random | RoundRobin | WeightedMode | HashMode | PingMode | Closest | OtherMode (z : Z).
#[export] Instance SelectMode_eq_dec : EqDecision SelectMode.
Proof. solve_decision. Defined.

Inductive anySelector :=
| SRandom (s : randomSelector)
| SRoundRobin (s : roundRobinSelector)
| SWeighted (s : weightedSelector)
| SHash (s : hashSelector)
| SPing (s : pingSelector).

Definition NewSelector (net : network) (selectMode : SelectMode) (es : entries) : outcome anySelector :=
  match selectMode with
  | Random => Val (SRandom (newRandomSelector es))
  | RoundRobin => Val (SRoundRobin (newRoundRobinSelector es))
  | WeightedMode => Val (SWeighted (newWeightedSelector es))
  | HashMode => Val (SHash (newHashSelector es))
  | PingMode => let? s := newPingSelector net es in Val (SPing s)
  | _ => Val (SRandom (newRandomSelector es))
  end.

(** Dynamic dispatch of the interface methods. *)
Definition any_Select (req : select_req) (s : anySelector) : outcome (anySelector * gostring) :=
  match s with
  | SRandom s => let? (s', x) := Select req s in Val (SRandom s', x)
  | SRoundRobin s => let? (s', x) := Select req s in Val (SRoundRobin s', x)
  | SWeighted s => let? (s', x) := Select req s in Val (SWeighted s', x)
  | SHash s => let? (s', x) := Select req s in Val (SHash s', x)
  | SPing s => let? (s', x) := ping_Select req s in Val (SPing s', x)
  end.

Definition any_UpdateServer (net : network) (es : entries) (s : anySelector) : outcome anySelector :=
  match s with
  | SRandom s => let? s' := UpdateServer es s in Val (SRandom s')
  | SRoundRobin s => let? s' := UpdateServer es s in Val (SRoundRobin s')
  | SWeighted s => let? s' := UpdateServer es s in Val (SWeighted s')
  | SHash s => let? s' := UpdateServer es s in Val (SHash s')
  | SPing s => let? s' := ping_UpdateServer net es s in Val (SPing s')
  end.

(** ** Proofs: ping *)

Lemma CalculateWeight_range rtt : 0 <= CalculateWeight rtt <= 191.
Proof. unfold CalculateWeight. split_matches; zbool; lia. Qed.

Lemma split_all_nonempty sep s : split_all sep s <> [].
Proof.
  induction s as [|c s IH]; cbn; [done|]. destruct (split_all sep s); [done|]. by destruct (bool_decide _).
Qed.

(** A string that contains the separator splits in at least two parts. *)
Lemma split_all_second sep s : sep ∈ s -> exists x, split_all sep s !! 1%nat = Some x.
Proof.
  induction s as [|c s IH]; intros Hin; [by apply not_elem_of_nil in Hin|].
  cbn. pose proof (split_all_nonempty sep s). destruct (split_all sep s) as [|p ps] eqn:E; [done|].
  destruct (bool_decide (c = sep)) eqn:Ec; [by exists p|].
  apply bool_decide_eq_false in Ec. rewrite elem_of_cons in Hin. destruct Hin as [->|Hin]; [done|].
  destruct (IH Hin) as (x & Hx). by exists x.
Qed.

Definition has_at (k : gostring) : Prop := x40 ∈ k.
#[export] Instance has_at_dec k : Decision (has_at k).
Proof. unfold has_at. apply _. Defined.

Lemma createICMPWeighted_total net es :
  Forall has_at (map fst es) ->
  exists ws, createICMPWeighted net es = Val (Some <$> ws) /\ Server <$> ws = map fst es /\
    Forall (fun w => 0 <= Weight w <= 191 /\ EffectiveWeight w = Weight w /\ CurrentWeight w = 0) ws.
Proof.
  induction es as [|[k m] es IH]; intros Hat; cbn in *; [by exists []|].
  apply Forall_cons in Hat as [Hk Hat]. destruct (IH Hat) as (ws & -> & Hs & Hws).
  destruct (split_all_second _ _ Hk) as (addr & Haddr). unfold icmp_entry. rewrite Haddr.
  destruct (Ping net _) as [rtt err]. cbn. eexists (_ :: ws). split; [done|].
  cbn. split; [by f_equal|]. constructor; [|done]. cbn. pose proof (CalculateWeight_range rtt). lia.
Qed.

Lemma split_all_none sep s : sep ∉ s -> split_all sep s = [s].
Proof.
  induction s as [|c s IH]; intros Hs; [done|]. apply not_elem_of_cons in Hs as [Hc Hs].
  cbn. rewrite (IH Hs), bool_decide_false by congruence. done.
Qed.

(** A server named without the sign panics. *)
Lemma createICMPWeighted_panics net es :
  ~ Forall has_at (map fst es) -> createICMPWeighted net es = Panic.
Proof.
  induction es as [|[k m] es IH]; intros Hat; [by destruct Hat; constructor|]. cbn in *.
  destruct (decide (x40 ∈ k)) as [Hk|Hk].
  - destruct (split_all_second _ _ Hk) as (addr & Haddr). unfold icmp_entry. rewrite Haddr.
    destruct (Ping net _) as [rtt err]. cbn [outcome_bind]. rewrite IH; [done|]. intros Hall. apply Hat. by constructor.
  - unfold icmp_entry. by rewrite split_all_none.
Qed.

Lemma ping_Select_total req ws :
  exists s' name, ping_Select req (mkPingSelector (Some <$> ws)) = Val (s', name) /\
    (ws = [] -> name = []) /\ (ws <> [] -> name ∈ (Server <$> ws)).
Proof.
  unfold ping_Select. cbn [ps_servers]. destruct ws as [|w0 ws]; [by eexists _, _|].
  destruct (nextWeighted_total (w0 :: ws) ltac:(done)) as (ws' & b & w & Hnext & Hb & Hsrv).
  assert ((len (Some <$> w0 :: ws) =? 0) = false) as -> by (by apply Z.eqb_neq).
  rewrite Hnext, list_lookup_fmap, Hb, <- Hsrv. cbn [fmap option_fmap option_map].
  eexists _, _. split; [done|]. split; [done|]. intros _.
  apply list_elem_of_fmap. exists w. split; [done|]. by apply list_elem_of_lookup_2 in Hb.
Qed.

(** ** Proofs: every mode *)

Section select_mode.
Context {S : Type} `{SelectorLaws S}.

(** What the laws give for one selection of a valid selector over [es]. *)
Lemma Select_among (es : entries) req (s : S) :
  valid s -> known s = map fst es -> 0 <= sr_rand req < 2 ^ 32 ->
  exists s' name, Select req s = Val (s', name) /\ (es = [] -> name = []) /\ (es <> [] -> name ∈ map fst es).
Proof.
  intros Hv Hk Hr. destruct (Select_law req s Hv Hr) as (s' & name & Hsel & _ & _ & Hnil & Hin).
  exists s', name. rewrite Hk in *. repeat split; [done|intros ->; by apply Hnil|].
  intros Hne. apply Hin. by destruct es.
Qed.
End select_mode.

Lemma len_server_keys es : len (server_keys es) = len es.
Proof. unfold server_keys, len. by rewrite length_map. Qed.

(** Whatever the select mode, a selector built from the discovered servers
    answers every request: with one of the discovered addresses, or with the
    empty string exactly when none was discovered.  (The ping mode needs keys
    of the form [network@address].) *)
Theorem NewSelector_selects net mode es req :
  len es < 2 ^ 32 -> 0 <= sr_rand req < 2 ^ 32 -> Forall has_at (map fst es) ->
  exists s s' name, NewSelector net mode es = Val s /\ any_Select req s = Val (s', name) /\
    (es = [] -> name = []) /\ (es <> [] -> name ∈ map fst es).
Proof.
  intros Hlen Hr Hat.
  assert (exists s' name, any_Select req (SRandom (newRandomSelector es)) = Val (s', name) /\
    (es = [] -> name = []) /\ (es <> [] -> name ∈ map fst es)) as Hrandom.
  { destruct (Select_among es req (newRandomSelector es)) as (s' & x & Hsel & Hx); try done.
    { change (len (server_keys es) < 2 ^ 32). by rewrite len_server_keys. }
    exists (SRandom s'), x. cbn [any_Select]. by rewrite Hsel. }
  destruct mode; cbn [NewSelector]; try (destruct Hrandom as (s' & x & ?); by eexists _, s', x).
  - destruct (Select_among es req (newRoundRobinSelector es)) as (s' & x & Hsel & Hx); try done.
    { change (0 <= 0 < 2 ^ 63 /\ len (server_keys es) < 2 ^ 63). rewrite len_server_keys. lia. }
    eexists _, (SRoundRobin s'), x. split; [done|]. cbn [any_Select]. by rewrite Hsel.
  - destruct (Select_among es req (newWeightedSelector es)) as (s' & x & Hsel & Hx); try done.
    { cbn. rewrite createWeighted_entries. by eexists. }
    { cbn. unfold weighted_known. cbn. rewrite createWeighted_entries, weighted_known_Some. apply Server_entries. }
    eexists _, (SWeighted s'), x. split; [done|]. cbn [any_Select]. by rewrite Hsel.
  - destruct (Select_among es req (newHashSelector es)) as (s' & x & Hsel & Hx); try done.
    eexists _, (SHash s'), x. split; [done|]. cbn [any_Select]. by rewrite Hsel.
  - destruct (createICMPWeighted_total net es Hat) as (ws & Hws & Hsrv & _).
    unfold newPingSelector. rewrite Hws. cbn [outcome_bind].
    destruct (ping_Select_total req ws) as (s' & x & Hsel & Hnil & Hin).
    eexists _, (SPing s'), x. split; [done|]. cbn [any_Select]. rewrite Hsel. rewrite Hsrv in Hin.
    split; [done|]. split.
    + intros ->. apply Hnil. by destruct ws.
    + intros Hne. apply Hin. intros ->. by destruct es.
Qed.

(** Latency preference of the ping selector: among measured servers a
    shorter round trip never gets a smaller weight, and a weight is zero (never
    chosen while another is positive) exactly from one second up; but a host
    that does not resolve gets the largest weight there is. *)
Theorem ping_weight_preference net k1 k2 w1 w2 h1 h2 p1 p2 :
  icmp_entry net k1 = Val w1 -> icmp_entry net k2 = Val w2 ->
  (exists a, split_all x40 k1 !! 1%nat = Some a /\ SplitHostPort a = Some (h1, p1)) ->
  (exists a, split_all x40 k2 !! 1%nat = Some a /\ SplitHostPort a = Some (h2, p2)) ->
  (0 <= (Ping net h1).1 <= (Ping net h2).1 -> Weight w2 <= Weight w1) /\
  (0 <= (Ping net h1).1 -> Weight w1 = 0 <-> 1000 <= (Ping net h1).1) /\
  (forall e, ni_resolve net h1 = Some e -> Weight w1 = 191 /\ Weight w2 <= Weight w1).
Proof.
  intros H1 H2 (a1 & Ha1 & Hs1) (a2 & Ha2 & Hs2). unfold icmp_entry in H1, H2.
  rewrite Ha1, Hs1 in H1. rewrite Ha2, Hs2 in H2.
  pose proof (CalculateWeight_range (Ping net h2).1) as Hr2.
  destruct (Ping net h1) as [r1 e1] eqn:E1, (Ping net h2) as [r2 e2] eqn:E2.
  injection H1 as <-. injection H2 as <-. cbn in *. split; [|split].
  - intros Hr. unfold CalculateWeight. split_matches; zbool; lia.
  - intros Hr. unfold CalculateWeight. split_matches; zbool; lia.
  - intros e He. unfold Ping in E1. rewrite He in E1. injection E1 as <- <-. change (CalculateWeight 0) with 191. lia.
Qed.

(** ** Proofs: geo *)

(** The geo selector as the source builds it panics on every request once a
    server is discovered: its slice starts with as many nil pointers as there
    are servers. *)
Theorem geo_Select_panics {F} `{Float64 F} ParseFloat Intn es (latitude longitude : F) :
  es <> [] -> geo_Select Intn (newGeoSelector ParseFloat es latitude longitude) = Panic.
Proof.
  intros Hes. destruct es as [|e es]; [done|].
  unfold geo_Select, newGeoSelector, createGeoServer. cbn [geo_servers length replicate app].
  rewrite (proj2 (Z.eqb_neq _ _)); [done|]. rewrite len_cons. pose proof (len_nonneg (replicate (length es) (@None (geoServer F)) ++ (Some <$> omap (geo_entry ParseFloat) (e :: es)))). lia.
Qed.

Section geo_closest.
Context {F : Type} `{Float64 F} (Intn : Z -> Z).
(** The numbers that are not NaN are ordered as some integers. *)
Context (not_nan : F -> Prop) (rank : F -> Z).
Hypothesis fltb_rank : forall x y, not_nan x -> not_nan y -> fltb x y = (rank x <? rank y).
Hypothesis feqb_rank : forall x y, not_nan x -> not_nan y -> feqb x y = (rank x =? rank y).
Hypothesis max_not_nan : not_nan MaxFloat64.
Hypothesis Intn_range : forall n, 0 < n -> 0 <= Intn n < n.

Definition dist (s : geoSelector F) (g : geoServer F) : F :=
  getDistanceFrom (Latitude s) (Longitude s) (gs_Latitude g) (gs_Longitude g).

Definition measurable (s : geoSelector F) (g : geoServer F) : Prop :=
  not_nan (dist s g) /\ rank (dist s g) <= rank MaxFloat64.

Ltac in_app := rewrite ?elem_of_app, ?list_elem_of_singleton, ?elem_of_cons; by auto.

(** The loop keeps exactly servers at the least distance seen. *)
Lemma closest_spec s gss : forall seen server min,
  not_nan min -> Forall (measurable s) gss ->
  (forall x, x ∈ server -> exists g, g ∈ seen /\ gs_Server g = x /\ rank (dist s g) = rank min) ->
  (forall g, g ∈ seen -> rank min <= rank (dist s g)) ->
  (server = [] -> seen = [] /\ min = MaxFloat64) ->
  exists server', closest s (Some <$> gss) server min = Val server' /\
    (seen ++ gss <> [] -> server' <> []) /\
    forall x, x ∈ server' -> exists g, g ∈ seen ++ gss /\ gs_Server g = x /\
      forall g', g' ∈ seen ++ gss -> rank (dist s g) <= rank (dist s g').
Proof.
  induction gss as [|g gss IH]; intros seen server min Hmin Hm Hsrv Hle Hempty.
  - exists server. rewrite app_nil_r. split; [done|]. split.
    + intros Hne ->. by destruct (Hempty eq_refl).
    + intros x Hx. destruct (Hsrv x Hx) as (g & Hg & Hgx & Hr). exists g. repeat split; [done..|].
      intros g' Hg'. rewrite Hr. by apply Hle.
  - apply Forall_cons in Hm as [[Hnan Hmax] Hm].
    replace (seen ++ g :: gss) with ((seen ++ [g]) ++ gss) by (by rewrite <- app_assoc).
    cbn [fmap list_fmap closest]. fold (dist s g). rewrite fltb_rank, feqb_rank by done.
    destruct (_ <? _) eqn:E; [|destruct (_ =? _) eqn:E2]; zbool; apply IH; try done.
    + intros x Hx. apply list_elem_of_singleton in Hx as ->. exists g. split; [in_app|done].
    + intros g' Hg'. apply elem_of_app in Hg' as [Hg'|Hg'].
      * specialize (Hle g' Hg'). lia.
      * apply list_elem_of_singleton in Hg' as ->. lia.
    + intros x Hx. apply elem_of_app in Hx as [Hx|Hx].
      * destruct (Hsrv x Hx) as (g' & ? & ? & ?). exists g'. split; [in_app|done].
      * apply list_elem_of_singleton in Hx as ->. exists g. split; [in_app|done].
    + intros g' Hg'. apply elem_of_app in Hg' as [Hg'|Hg']; [by apply Hle|].
      apply list_elem_of_singleton in Hg' as ->. lia.
    + intros Hs. by destruct server.
    + intros x Hx. destruct (Hsrv x Hx) as (g' & ? & ? & ?). exists g'. split; [in_app|done].
    + intros g' Hg'. apply elem_of_app in Hg' as [Hg'|Hg']; [by apply Hle|].
      apply list_elem_of_singleton in Hg' as ->. lia.
    + intros Hs. destruct (Hempty Hs) as [-> ->]. lia.
Qed.

(** Over a slice without nil pointers the geo selection is right: for
    coordinates whose distances are numbers, it returns a server no other
    server is closer than. *)
Theorem geo_Select_closest (s : geoSelector F) (gss : list (geoServer F)) :
  geo_servers s = Some <$> gss -> gss <> [] -> Forall (measurable s) gss ->
  exists g, g ∈ gss /\ geo_Select Intn s = Val (gs_Server g) /\
    forall g', g' ∈ gss -> rank (dist s g) <= rank (dist s g').
Proof.
  intros Hs Hne Hm.
  destruct (closest_spec s gss [] [] MaxFloat64 max_not_nan Hm) as (server & Hrun & Hsne & Hall); try done.
  { intros x Hx. by apply not_elem_of_nil in Hx. }
  { intros x Hx. by apply not_elem_of_nil in Hx. }
  specialize (Hsne Hne). unfold geo_Select. rewrite Hs, Hrun.
  assert (exists x, x ∈ server /\ geo_Select Intn s = Val x) as (x & Hx & Hsel).
  { unfold geo_Select. rewrite Hs, Hrun. rewrite (proj2 (Z.eqb_neq _ _)) by (by destruct gss). cbn [outcome_bind].
    destruct server as [|x [|y server]]; [done|exists x; split; [in_app|done]|].
    assert (2 <= len (x :: y :: server)) as Hl by (rewrite !len_cons; pose proof (len_nonneg server); lia).
    rewrite (proj2 (Z.eqb_neq _ _)), (proj2 (Z.leb_gt _ _)) by lia.
    destruct (lookup_in_range (x :: y :: server) (Intn (len (x :: y :: server)))) as (z & Hz & Hin).
    { apply Intn_range. lia. }
    exists z. rewrite Hz. done. }
  unfold geo_Select in Hsel. rewrite Hs, Hrun in Hsel.
  destruct (Hall x Hx) as (g & Hg & <- & Hmin). exists g. done.
Qed.
End geo_closest.

(** ** Witnesses *)

(** A network where only the first host answers, after 150 ms, and the second
    does not resolve. *)
Definition sample_net : network := mkNetwork
  (fun h => if str_eqb h (str "b") then Some (ExternalError (str "no such host")) else None)
  (fun h => if str_eqb h (str "a") then [150000000] else [])
  (fun _ => None).

Lemma NewSelector_selects_witness :
  exists s s' name, NewSelector sample_net PingMode sample_es = Val s /\
    any_Select sample_req s = Val (s', name) /\
    (sample_es = [] -> name = []) /\ (sample_es <> [] -> name ∈ map fst sample_es).
Proof.
  apply (NewSelector_selects sample_net PingMode sample_es sample_req).
  - vm_compute. done.
  - vm_compute. done.
  - apply (bool_decide_unpack _). vm_compute. done.
Defined.

Lemma ping_weight_preference_witness :
  exists w1 w2, icmp_entry sample_net (str "tcp@b:1") = Val w1 /\ icmp_entry sample_net (str "tcp@a:1") = Val w2 /\
    Weight w1 = 191 /\ Weight w2 <= Weight w1.
Proof.
  eexists _, _. split; [vm_compute; reflexivity|]. split; [vm_compute; reflexivity|].
  refine (proj2 (proj2 (ping_weight_preference sample_net (str "tcp@b:1") (str "tcp@a:1") _ _
    (str "b") (str "a") (str "1") (str "1") _ _ _ _)) (ExternalError (str "no such host")) _).
  - vm_compute. reflexivity.
  - vm_compute. reflexivity.
  - exists (str "b:1"). vm_compute. done.
  - exists (str "a:1"). vm_compute. done.
  - vm_compute. reflexivity.
Defined.

(** Integer arithmetic in place of float64, to evaluate the definitions. *)
Definition integer_float : Float64 Z := {|
  fconst := fun z => z; fadd := Z.add; fsub := Z.sub; fmul := Z.mul; fdiv := Z.quot;
  fltb := Z.ltb; feqb := Z.eqb; Pi := 3; MaxFloat64 := 2 ^ 1024;
  Sin := fun x => x; Cos := fun x => 1; Asin := fun x => x; Sqrt := Z.sqrt; Pow := Z.pow
|}.

Lemma geo_Select_panics_witness :
  @geo_Select Z integer_float (fun _ => 0) (newGeoSelector Atoi sample_es 10 20) = Panic.
Proof. apply (@geo_Select_panics Z integer_float Atoi (fun _ => 0) sample_es 10 20). discriminate. Defined.

Definition sample_geo : list (geoServer Z) :=
  [mkGeoServer (str "a") 1800 0; mkGeoServer (str "b") 600 0; mkGeoServer (str "c") 1200 900].

Lemma geo_Select_closest_witness :
  exists g, g ∈ sample_geo /\
    @geo_Select Z integer_float (fun _ => 0) (mkGeoSelector (Some <$> sample_geo) 0 0) = Val (gs_Server g) /\
    forall g', g' ∈ sample_geo ->
      @dist Z integer_float (mkGeoSelector (Some <$> sample_geo) 0 0) g <=
      @dist Z integer_float (mkGeoSelector (Some <$> sample_geo) 0 0) g'.
Proof.
  apply (@geo_Select_closest Z integer_float (fun _ => 0) (fun _ => True) (fun z => z)).
  - done.
  - done.
  - done.
  - lia.
  - done.
  - done.
  - repeat constructor; vm_compute; discriminate.
Defined.
