(* ===== verification/Breaker.v ===== *)
(** * Circuit breakers (src/circuit)

    The [Breaker] interface and the program's own implementation
    [SimpleCircuitBreaker].  Clock readings and the outcome of the guarded
    function are inputs of a call: [ci_since] is read by [time.Since] in
    [ready], [ci_reset] by the [reset] it may do, [ci_end] by the final
    [success] or [fail]; [ci_timer] tells whether the timer wins the [select]
    when a timeout is given.  Besides sequential calls, calls of several
    goroutines are modelled as a transition system whose steps are [ready],
    [success] and [fail]. *)
From S2P Require Import Prelude GoTime.

Record SimpleCircuitBreaker := mkBreaker {
  lastFailureTime : Z;
  failures : Z;
  failureThreshold : Z;
  window : Z
}.

Definition NewSimpleCircuitBreaker (failureThreshold window : Z) : SimpleCircuitBreaker :=
  mkBreaker 0 0 failureThreshold window.

Definition breaker_reset (now : Z) (cb : SimpleCircuitBreaker) : SimpleCircuitBreaker :=
  mkBreaker now 0 (failureThreshold cb) (window cb).

Definition success (now : Z) (cb : SimpleCircuitBreaker) : SimpleCircuitBreaker := breaker_reset now cb.

Definition fail (now : Z) (cb : SimpleCircuitBreaker) : SimpleCircuitBreaker :=
  mkBreaker now (wrap64 (failures cb + 1)) (failureThreshold cb) (window cb).

Definition ready (since reset : Z) (cb : SimpleCircuitBreaker) : SimpleCircuitBreaker * bool :=
  if window cb <? time_Sub since (lastFailureTime cb) then (breaker_reset reset cb, true)
  else (cb, failures cb <? failureThreshold cb).

Record call_input := mkCallInput {
  ci_fn : option error;
  ci_timer : bool;
  ci_since : Z;
  ci_reset : Z;
  ci_end : Z
}.

(** The error [fn] and the timer leave: [None] is nil. *)
Definition guarded_result (d : Z) (c : call_input) : option error :=
  if d =? 0 then ci_fn c
  else if ci_timer c then Some ErrBreakerTimeout else ci_fn c.

(** The returned error and whether [fn] was started. *)
Definition Call (d : Z) (c : call_input) (cb : SimpleCircuitBreaker)
    : SimpleCircuitBreaker * (option error * bool) :=
  let '(cb, ok) := ready (ci_since c) (ci_reset c) cb in
  if negb ok then (cb, (Some ErrBreakerOpen, false))
  else
    let err := guarded_result d c in
    match err with
    | None => (success (ci_end c) cb, (None, true))
    | Some e => (fail (ci_end c) cb, (Some e, true))
    end.

(** ** The interface *)

(** What the client uses of a breaker: [Call] with the guarded function's
    outcome. *)
Class Breaker (B : Type) := {
  breaker_Call : Z -> call_input -> B -> B * (option error * bool)
}.

#[export] Instance simple_Breaker : Breaker SimpleCircuitBreaker := { breaker_Call := Call }.

(** Every breaker passes the result of a started function through and reports
    an error when it did not start it. *)
Class BreakerLaws (B : Type) `{Breaker B} := {
  breaker_Call_law : forall d c (b : B) b' err ran, breaker_Call d c b = (b', (err, ran)) ->
    if ran then err = guarded_result d c else err = Some ErrBreakerOpen
}.

#[export] Instance simple_BreakerLaws : BreakerLaws SimpleCircuitBreaker.
Proof.
  split. intros d c b b' err ran H. cbn in H. unfold Call in H.
  destruct (ready _ _ b) as [b1 []]; cbn in H.
  - destruct (guarded_result d c) eqn:E; injection H as <- <- <-; done.
  - by injection H as <- <- <-.
Qed.

(** ** Sequences of calls *)

Fixpoint run_calls (d : Z) (cs : list call_input) (cb : SimpleCircuitBreaker)
    : SimpleCircuitBreaker * list (option error * bool) :=
  match cs with
  | [] => (cb, [])
  | c :: cs' =>
      let '(cb', r) := Call d c cb in
      let '(cb'', rs) := run_calls d cs' cb' in
      (cb'', r :: rs)
  end.

(** A call whose function fails, with all its clock readings in an interval
    and in order. *)
Definition failing_in (d t0 t1 : Z) (c : call_input) : Prop :=
  guarded_result d c <> None /\ t0 <= ci_since c <= t1 /\ t0 <= ci_end c <= t1.

Lemma ready_within cb since reset :
  time_Sub since (lastFailureTime cb) <= window cb ->
  ready since reset cb = (cb, failures cb <? failureThreshold cb).
Proof. intros H. unfold ready. by rewrite (proj2 (Z.ltb_ge _ _)). Qed.

(** The state while failures accumulate within a window that starts at [t0]. *)
Record counting (t0 : Z) (n : Z) (cb : SimpleCircuitBreaker) : Prop := {
  cnt_failures : failures cb = n;
  cnt_last : t0 <= lastFailureTime cb;
  cnt_window : 0 <= window cb < 2 ^ 62;
  cnt_threshold : 0 <= failureThreshold cb < 2 ^ 64
}.

Lemma counting_ready t0 n cb since reset :
  counting t0 n cb -> lastFailureTime cb - 2 ^ 62 <= since <= t0 + window cb ->
  ready since reset cb = (cb, n <? failureThreshold cb).
Proof.
  intros [Hf Hl Hw Ht] Hs. rewrite ready_within; [by rewrite Hf|]. rewrite time_Sub_exact; lia.
Qed.

Lemma run_calls_open d cs : forall t0 n cb,
  counting t0 n cb -> failureThreshold cb <= n -> lastFailureTime cb <= t0 + window cb ->
  Forall (fun c => t0 <= ci_since c <= t0 + window cb) cs ->
  run_calls d cs cb = (cb, replicate (length cs) (Some ErrBreakerOpen, false)).
Proof.
  induction cs as [|c cs IH]; intros t0 n cb Hcnt Hn Hl Hcs; [done|]. apply Forall_cons in Hcs as [Hc Hcs].
  cbn. unfold Call. pose proof (cnt_window _ _ _ Hcnt).
  rewrite (counting_ready t0 n) by (done || lia).
  rewrite (proj2 (Z.ltb_ge _ _)) by done. cbn. by rewrite (IH t0 n).
Qed.

Lemma run_calls_failing d cs : forall t0 n cb,
  counting t0 n cb -> 0 <= n -> n <= failureThreshold cb -> lastFailureTime cb <= t0 + window cb ->
  Forall (failing_in d t0 (t0 + window cb)) cs ->
  let k := Z.to_nat (failureThreshold cb - n) in
  (run_calls d cs cb).2 =
    ((fun c => (guarded_result d c, true)) <$> take k cs) ++
    replicate (length cs - k) (Some ErrBreakerOpen, false).
Proof.
  induction cs as [|c cs IH]; intros t0 n cb Hcnt H0 Hn Hl Hcs k; [by rewrite take_nil|].
  destruct (decide (n = failureThreshold cb)) as [->|Hne].
  { unfold k. rewrite Z.sub_diag. rewrite (run_calls_open d (c :: cs) t0 _ cb Hcnt); [done|lia|done|].
    apply (Forall_impl _ _ _ Hcs). by intros ? (_ & ? & _). }
  apply Forall_cons in Hcs as [(Hg & Hs & He) Hcs]. pose proof (cnt_window _ _ _ Hcnt) as Hw.
  replace k with (S (Z.to_nat (failureThreshold cb - (n + 1)))) by lia. cbn.
  unfold Call. rewrite (counting_ready t0 n) by (done || lia). rewrite (proj2 (Z.ltb_lt _ _)) by lia. cbn [negb].
  destruct (guarded_result d c) as [e|] eqn:E; [|done].
  assert (counting t0 (n + 1) (fail (ci_end c) cb)) as Hcnt'.
  { destruct Hcnt as [Hf ? ? ?]. split; cbn; try done; try lia. rewrite Hf. apply wrap64_small. lia. }
  specialize (IH t0 (n + 1) (fail (ci_end c) cb) Hcnt' ltac:(lia)). cbn in IH.
  specialize (IH ltac:(lia) ltac:(lia) Hcs).
  destruct (run_calls d cs (fail (ci_end c) cb)) as [cb' rs]. cbn in *. by rewrite IH.
Qed.

(** C22.  The breaker trips at its threshold: after a success at [t0], when all
    the calls that follow fail and stay within the window, the first
    [failureThreshold] of them run their function and return its error, and
    every later one returns [ErrBreakerOpen] without running anything. *)
Theorem simple_breaker_trips d t0 cb cs :
  0 <= window cb < 2 ^ 62 -> 0 <= failureThreshold cb < 2 ^ 64 ->
  Forall (failing_in d t0 (t0 + window cb)) cs ->
  (run_calls d cs (success t0 cb)).2 =
    ((fun c => (guarded_result d c, true)) <$> take (Z.to_nat (failureThreshold cb)) cs) ++
    replicate (length cs - Z.to_nat (failureThreshold cb)) (Some ErrBreakerOpen, false).
Proof.
  intros Hw Ht Hcs. pose proof (run_calls_failing d cs t0 0 (success t0 cb)) as H. cbn in H.
  rewrite Z.sub_0_r in H. apply H; try lia; [|done]. split; cbn; done || lia.
Qed.

(** The breaker recovers: a call made later than the window after the last
    failure runs its function, whatever the failure count, and leaves no
    failure on record if it succeeds and exactly one if it fails; the breaker
    is then closed again unless its threshold is at most one. *)
Theorem simple_breaker_recovers d c cb :
  window cb < time_Sub (ci_since c) (lastFailureTime cb) ->
  exists cb', Call d c cb = (cb', (guarded_result d c, true)) /\
    failures cb' = (match guarded_result d c with None => 0 | Some _ => 1 end) /\
    lastFailureTime cb' = ci_end c /\
    (forall c', 1 < failureThreshold cb -> time_Sub (ci_since c') (ci_end c) <= window cb ->
       (Call d c' cb').2 = (guarded_result d c', true)).
Proof.
  intros Hs. unfold Call at 1, ready at 1. rewrite (proj2 (Z.ltb_lt _ _)) by done. cbn [negb].
  destruct (guarded_result d c) as [e|] eqn:E; (eexists; split; [done|]; do 2 (split; [done|]));
    intros c' Ht Hc'; unfold Call; rewrite ready_within by done; cbn [success fail breaker_reset failures failureThreshold];
    try change (wrap64 (0 + 1)) with 1; rewrite (proj2 (Z.ltb_lt _ _)) by lia; cbn [negb];
    by destruct (guarded_result d c').
Qed.

(** ** Concurrent calls *)

(** The breaker and the number of calls that have passed [ready] and not yet
    reported. *)
Record system := mkSystem { sys_breaker : SimpleCircuitBreaker; inflight : Z }.

(** One step of some goroutine, when at most [K] guarded calls may overlap. *)
Inductive step (K : Z) : system -> system -> Prop :=
| step_admit s since reset cb' :
    ready since reset (sys_breaker s) = (cb', true) -> inflight s < K ->
    step K s (mkSystem cb' (inflight s + 1))
| step_reject s since reset cb' :
    ready since reset (sys_breaker s) = (cb', false) ->
    step K s (mkSystem cb' (inflight s))
| step_success s now : 0 < inflight s ->
    step K s (mkSystem (success now (sys_breaker s)) (inflight s - 1))
| step_fail s now : 0 < inflight s ->
    step K s (mkSystem (fail now (sys_breaker s)) (inflight s - 1)).

Definition reachable (K th w : Z) : system -> Prop :=
  rtc (step K) (mkSystem (NewSimpleCircuitBreaker th w) 0).

Record system_inv (K th w : Z) (s : system) : Prop := {
  inv_inflight : 0 <= inflight s <= K;
  inv_failures : 0 <= failures (sys_breaker s);
  inv_sum : failures (sys_breaker s) + inflight s <= Z.max (th - 1) 0 + K;
  inv_threshold : failureThreshold (sys_breaker s) = th;
  inv_window : window (sys_breaker s) = w
}.

Lemma step_inv K th w s s' :
  0 <= th -> Z.max (th - 1) 0 + K < 2 ^ 64 -> system_inv K th w s -> step K s s' -> system_inv K th w s'.
Proof.
  intros Hth HK [Hi Hf Hs Ht Hw] Hstep. destruct Hstep as [s since reset cb' H HiK|s since reset cb' H|s now Hp|s now Hp].
  - unfold ready in H. destruct (_ <? _) eqn:E; simplify_eq; zbool; split; cbn; try done; lia.
  - unfold ready in H. destruct (_ <? _) eqn:E; simplify_eq; split; cbn; done || lia.
  - split; cbn; try done; lia.
  - split; cbn; try done; try lia.
    + apply wrap64_range.
    + rewrite wrap64_small by lia. lia.
Qed.

Lemma reachable_inv K th w s :
  0 <= K -> 0 <= th -> Z.max (th - 1) 0 + K < 2 ^ 64 -> reachable K th w s -> system_inv K th w s.
Proof.
  intros HK Hth Hb Hr.
  assert (system_inv K th w (mkSystem (NewSimpleCircuitBreaker th w) 0)) as H0 by (split; cbn; done || lia).
  unfold reachable in Hr. revert H0. generalize (mkSystem (NewSimpleCircuitBreaker th w) 0) Hr.
  induction 1 as [|x y z Hxy Hyz IH]; intros Hx; [done|]. apply IH; [done|]. by apply (step_inv K th w x).
Qed.

(** C24.  Whatever the interleaving of the goroutines that use a breaker, with at
    most [K] guarded calls at a time the failures recorded since the last
    success or window never exceed the threshold by [K] or more, and the
    counter does not wrap around. *)
Theorem simple_breaker_concurrent K th w s :
  0 < K -> 0 < th -> th + K <= 2 ^ 64 -> reachable K th w s ->
  0 <= failures (sys_breaker s) <= th + K - 1 - inflight s /\ 0 <= inflight s <= K.
Proof.
  intros HK Hth Hb Hr. destruct (reachable_inv K th w s) as [? ? ? _ _]; try done; lia.
Qed.

(** ** Witnesses *)

Definition failing_call (t : Z) : call_input := mkCallInput (Some (errorString (str "refused"))) false t t t.

Lemma simple_breaker_trips_witness :
  (run_calls 0 (failing_call <$> [101; 102; 103; 104]) (success 100 (NewSimpleCircuitBreaker 2 50))).2 =
    [(Some (errorString (str "refused")), true); (Some (errorString (str "refused")), true);
     (Some ErrBreakerOpen, false); (Some ErrBreakerOpen, false)].
Proof.
  rewrite (simple_breaker_trips 0 100 (NewSimpleCircuitBreaker 2 50) (failing_call <$> [101; 102; 103; 104])).
  - vm_compute. reflexivity.
  - cbn. lia.
  - cbn. lia.
  - cbn. repeat constructor; cbn; try lia; discriminate.
Defined.

Lemma simple_breaker_recovers_witness :
  exists cb', Call 0 (failing_call 200) (mkBreaker 100 7 3 50) =
      (cb', (Some (errorString (str "refused")), true)) /\ failures cb' = 1 /\ lastFailureTime cb' = 200 /\
    (forall c', 1 < 3 -> time_Sub (ci_since c') 200 <= 50 -> (Call 0 c' cb').2 = (guarded_result 0 c', true)).
Proof. apply (simple_breaker_recovers 0 (failing_call 200) (mkBreaker 100 7 3 50)). vm_compute. reflexivity. Defined.

(** Two goroutines pass [ready] at threshold one, and both fail. *)
Definition overrun : system := mkSystem (mkBreaker 101 2 1 50) 0.

Lemma simple_breaker_concurrent_witness :
  0 <= failures (sys_breaker overrun) <= 1 + 2 - 1 - inflight overrun /\ 0 <= inflight overrun <= 2.
Proof.
  apply (simple_breaker_concurrent 2 1 50 overrun); [lia..|].
  eapply rtc_l; [apply (step_admit 2 (mkSystem (NewSimpleCircuitBreaker 1 50) 0) 100 100 (mkBreaker 100 0 1 50)); [reflexivity|cbn; lia]|].
  eapply rtc_l; [apply (step_admit 2 (mkSystem (mkBreaker 100 0 1 50) 1) 100 100 (mkBreaker 100 0 1 50)); [reflexivity|cbn; lia]|].
  eapply rtc_l; [apply (step_fail 2 (mkSystem (mkBreaker 100 0 1 50) 2) 101); cbn; lia|].
  eapply rtc_l; [apply (step_fail 2 (mkSystem (mkBreaker 101 1 1 50) 1) 101); cbn; lia|].
  apply rtc_refl.
Defined.
