(* ===== verification/Backoff.v ===== *)
(** * Exponential backoff (src/vendor/github.com/cenk/backoff/exponential.go)

    The policy that decides when an open circuit breaker of the library lets
    a call through again.  [random] is the policy's own generator, a field of
    the record: any sequence of doubles below one and the number drawn so
    far.  [Stop] is the duration -1. *)
From S2P Require Import Prelude GoTime Float64.

(** [math/rand.Rand] as far as [Float64] is concerned. *)
Record rand := mkRand { draws : nat -> f64; drawn : nat }.
Definition rand_Float64 (r : rand) : rand * f64 := (mkRand (draws r) (drawn r + 1), draws r (drawn r)).
(** [Float64] returns a number in [0, 1). *)
Definition unit_draws (r : rand) : Prop := forall n, 0 <= f_num (draws r n) < f_den (draws r n).

Record ExponentialBackOff := mkBackOff {
  InitialInterval : Z;
  RandomizationFactor : f64;
  Multiplier : f64;
  MaxInterval : Z;
  MaxElapsedTime : Z;
  currentInterval : Z;
  startTime : Z;
  random : rand
}.

Definition Stop : Z := -1.
Definition DefaultInitialInterval : Z := 500 * Millisecond.
Definition DefaultRandomizationFactor : f64 := mkF64 1 (-1).
Definition DefaultMultiplier : f64 := mkF64 3 (-1).
Definition DefaultMaxInterval : Z := 60 * Second.
Definition DefaultMaxElapsedTime : Z := 15 * 60 * Second.

Definition set_current (c : Z) (b : ExponentialBackOff) : ExponentialBackOff :=
  mkBackOff (InitialInterval b) (RandomizationFactor b) (Multiplier b) (MaxInterval b) (MaxElapsedTime b)
    c (startTime b) (random b).

Definition backoff_Reset (now : Z) (b : ExponentialBackOff) : ExponentialBackOff :=
  mkBackOff (InitialInterval b) (RandomizationFactor b) (Multiplier b) (MaxInterval b) (MaxElapsedTime b)
    (InitialInterval b) now (random b).

Definition NewExponentialBackOff (now : Z) (r : rand) : ExponentialBackOff :=
  backoff_Reset now
    (mkBackOff DefaultInitialInterval DefaultRandomizationFactor DefaultMultiplier DefaultMaxInterval
       DefaultMaxElapsedTime 0 0 r).

Definition GetElapsedTime (now : Z) (b : ExponentialBackOff) : Z := time_Sub now (startTime b).

Definition incrementCurrentInterval (b : ExponentialBackOff) : ExponentialBackOff :=
  if f64_leb (f64_div (f64_of_int64 (MaxInterval b)) (Multiplier b)) (f64_of_int64 (currentInterval b))
  then set_current (MaxInterval b) b
  else set_current (f64_trunc (f64_mul (f64_of_int64 (currentInterval b)) (Multiplier b))) b.

Definition getRandomValueFromInterval (randomizationFactor random : f64) (currentInterval : Z) : Z :=
  let delta := f64_mul randomizationFactor (f64_of_int64 currentInterval) in
  let minInterval := f64_sub (f64_of_int64 currentInterval) delta in
  let maxInterval := f64_add (f64_of_int64 currentInterval) delta in
  f64_trunc (f64_add minInterval
    (f64_mul random (f64_add (f64_sub maxInterval minInterval) (f64_of_int64 1)))).

Definition NextBackOff (now : Z) (b : ExponentialBackOff) : ExponentialBackOff * Z :=
  if negb (MaxElapsedTime b =? 0) && (MaxElapsedTime b <? GetElapsedTime now b) then (b, Stop)
  else
    let '(r, x) := rand_Float64 (random b) in
    let d := getRandomValueFromInterval (RandomizationFactor b) x (currentInterval b) in
    (incrementCurrentInterval
       (mkBackOff (InitialInterval b) (RandomizationFactor b) (Multiplier b) (MaxInterval b) (MaxElapsedTime b)
          (currentInterval b) (startTime b) r), d).

(** ** Bounds *)

Lemma f64_of_int64_between z : 0 <= z <= 2 ^ 53 -> between z z (f64_of_int64 z).
Proof. intros Hz. apply f64_round_between; lia. Qed.

(** A random duration lies within half of the interval, up to rounding. *)
Lemma getRandomValueFromInterval_bounds x c :
  0 <= f_num x < f_den x -> 0 < c < 2 ^ 51 ->
  c / 2 <= getRandomValueFromInterval DefaultRandomizationFactor x c <= c + (c + 1) / 2 + 2.
Proof.
  intros Hx Hc. unfold getRandomValueFromInterval. set (l := c / 2). set (u := (c + 1) / 2).
  assert (l + u = c /\ l <= u <= l + 1 /\ 0 <= l) as (Hlu & Hu & Hl).
  { unfold l, u. pose proof (Z.div_mod c 2). pose proof (Z.div_mod (c + 1) 2).
    pose proof (Z.mod_pos_bound c 2). pose proof (Z.mod_pos_bound (c + 1) 2). lia. }
  clearbody l u. pose proof (f64_of_int64_between c ltac:(lia)) as HF. set (F := f64_of_int64 c) in *.
  assert (between l u (f64_mul DefaultRandomizationFactor F)) as Hd.
  { unfold between in HF. pose proof (f_den_pos F).
    apply f64_mul_between; try lia; change (f_num DefaultRandomizationFactor) with 1; change (f_den DefaultRandomizationFactor) with 2; nia. }
  pose proof (f64_sub_between c c l u _ _ ltac:(lia) ltac:(lia) ltac:(lia) HF Hd) as Hmin.
  pose proof (f64_add_between c c l u _ _ ltac:(lia) ltac:(lia) ltac:(lia) HF Hd) as Hmax.
  set (D := f64_mul DefaultRandomizationFactor F) in *.
  set (mn := f64_sub F D) in *. set (mx := f64_add F D) in *.
  pose proof (f64_sub_between (c + l) (c + u) (c - u) (c - l) mx mn ltac:(lia) ltac:(lia) ltac:(lia) Hmax Hmin) as Hw.
  pose proof (f64_add_between (c + l - (c - l)) (c + u - (c - u)) 1 1 (f64_sub mx mn) (f64_of_int64 1) ltac:(lia) ltac:(lia) ltac:(lia) Hw (f64_of_int64_between 1 ltac:(lia))) as Hs.
  set (w := f64_add (f64_sub mx mn) (f64_of_int64 1)) in *. clearbody w mn mx.
  assert (between 0 (c + u - (c - u) + 1) (f64_mul x w)) as Hp.
  { unfold between in Hs. pose proof (f_den_pos w). apply f64_mul_between; try lia; nia. }
  pose proof (f64_add_between (c - u) (c - l) 0 (c + u - (c - u) + 1) mn (f64_mul x w) ltac:(lia) ltac:(lia) ltac:(lia) Hmin Hp) as Ht.
  apply f64_trunc_between in Ht. lia.
Qed.

(** The policy of a circuit breaker: default parameters, no time limit, and an
    interval between the initial and the maximal one. *)
Record backoff_ok (b : ExponentialBackOff) : Prop := {
  bo_initial : InitialInterval b = 500 * Millisecond;
  bo_factor : RandomizationFactor b = DefaultRandomizationFactor;
  bo_multiplier : Multiplier b = DefaultMultiplier;
  bo_max : MaxInterval b = DefaultMaxInterval;
  bo_unlimited : MaxElapsedTime b = 0;
  bo_current : 500 * Millisecond <= currentInterval b <= DefaultMaxInterval;
  bo_random : unit_draws (random b)
}.

Lemma incrementCurrentInterval_grows b :
  backoff_ok b ->
  backoff_ok (incrementCurrentInterval b) /\
  Z.min DefaultMaxInterval (3 * currentInterval b / 2) <= currentInterval (incrementCurrentInterval b) /\
  random (incrementCurrentInterval b) = random b.
Proof.
  intros [Hi Hf Hm Hx Hu Hc Hr]. unfold incrementCurrentInterval. rewrite Hm, Hx.
  unfold DefaultMaxInterval, Millisecond, Second in *.
  pose proof (f64_of_int64_between (currentInterval b) ltac:(lia)) as HF.
  assert (3 * currentInterval b / 2 <= (3 * currentInterval b + 1) / 2) by (apply Z.div_le_mono; lia).
  set (F := f64_of_int64 (currentInterval b)) in *.
  change (f64_div (f64_of_int64 (60 * 1000000000)) DefaultMultiplier) with (mkF64 5242880000000000 (-17)).
  unfold f64_leb. change (f_num (mkF64 5242880000000000 (-17))) with 5242880000000000.
  change (f_den (mkF64 5242880000000000 (-17))) with 131072. unfold between in HF. pose proof (f_den_pos F).
  destruct (_ <=? _) eqn:E; zbool; cbn [set_current currentInterval random].
  - split; [|split; [lia|done]]. split; cbn; try done; unfold DefaultMaxInterval, Millisecond, Second; lia.
  - assert (currentInterval b < 40000000000) by nia.
    set (l := 3 * currentInterval b / 2) in *. set (u := (3 * currentInterval b + 1) / 2) in *.
    assert (2 * l <= 3 * currentInterval b <= 2 * u /\ 2 * u <= 3 * currentInterval b + 1 /\
      3 * currentInterval b <= 2 * l + 1) as (Hlu & Hu2 & Hl2).
    { unfold l, u. pose proof (Z.div_mod (3 * currentInterval b) 2). pose proof (Z.div_mod (3 * currentInterval b + 1) 2).
      pose proof (Z.mod_pos_bound (3 * currentInterval b) 2). pose proof (Z.mod_pos_bound (3 * currentInterval b + 1) 2). lia. }
    assert (between l u (f64_mul F DefaultMultiplier)) as Ht.
    { clearbody l u. assert (f_num F = currentInterval b * f_den F) as EF by lia.
      assert (f_den F * (2 * l) <= f_den F * (3 * currentInterval b) <= f_den F * (2 * u))
        by (split; apply Z.mul_le_mono_nonneg_l; lia).
      apply f64_mul_between; change (f_num DefaultMultiplier) with 3; change (f_den DefaultMultiplier) with 2;
        try rewrite EF; (lia || nia). }
    apply f64_trunc_between in Ht. split; [|split; [lia|done]].
    split; cbn [set_current InitialInterval RandomizationFactor Multiplier MaxInterval MaxElapsedTime currentInterval random]; try done; unfold DefaultMaxInterval, Millisecond, Second; lia.
Qed.

Lemma backoff_Reset_ok now b : backoff_ok b -> backoff_ok (backoff_Reset now b).
Proof.
  intros [Hi Hf Hm Hx Hu Hc Hr]. split; cbn; try done. rewrite Hi. unfold DefaultMaxInterval, Millisecond, Second. lia.
Qed.

Lemma NextBackOff_ok now b b' d :
  backoff_ok b -> NextBackOff now b = (b', d) ->
  backoff_ok b' /\ draws (random b') = draws (random b) /\
  Z.min DefaultMaxInterval (3 * currentInterval b / 2) <= currentInterval b' /\
  currentInterval b / 2 <= d <= currentInterval b + (currentInterval b + 1) / 2 + 2.
Proof.
  intros Hb H. pose proof Hb as [Hi Hf Hm Hx Hu Hc Hr]. unfold NextBackOff in H. rewrite Hu in H. cbn in H.
  injection H as <- <-. set (b1 := mkBackOff _ _ _ _ _ _ _ _).
  assert (backoff_ok b1) as Hb1 by (split; try done; cbn; intros n; apply Hr).
  destruct (incrementCurrentInterval_grows b1 Hb1) as (H1 & H2 & H3). cbn in H2, H3. rewrite H3. cbn.
  repeat (split; [done|]). rewrite Hf.
  apply getRandomValueFromInterval_bounds; [apply Hr|]. unfold DefaultMaxInterval, Millisecond, Second in Hc. lia.
Qed.

(** The durations of successive retries. *)
Fixpoint backoffs (nows : list Z) (b : ExponentialBackOff) : list (Z * Z) :=
  match nows with
  | [] => []
  | now :: nows' => let '(b', d) := NextBackOff now b in (currentInterval b, d) :: backoffs nows' b'
  end.

Lemma backoffs_head nows b i c d :
  backoff_ok b -> backoffs nows b !! i = Some (c, d) ->
  (500 * Millisecond <= c <= DefaultMaxInterval) /\ c / 2 <= d <= c + (c + 1) / 2 + 2 /\ (i = 0%nat -> c = currentInterval b).
Proof.
  revert b i. induction nows as [|now nows IH]; intros b i Hb H; [done|]. cbn in H.
  destruct (NextBackOff now b) as [b' d'] eqn:E. destruct (NextBackOff_ok _ _ _ _ Hb E) as (Hb' & _ & _ & Hd).
  destruct i as [|i].
  - cbn in H. injection H as <- <-. split; [apply (bo_current _ Hb)|done].
  - destruct (IH b' i Hb' H) as (? & ? & _). done.
Qed.

Lemma backoffs_next nows b i c d c' d' :
  backoff_ok b -> backoffs nows b !! i = Some (c, d) -> backoffs nows b !! S i = Some (c', d') ->
  Z.min DefaultMaxInterval (3 * c / 2) <= c'.
Proof.
  revert b i. induction nows as [|now nows IH]; intros b i Hb H H'; [done|]. cbn in H, H'.
  destruct (NextBackOff now b) as [b' d0] eqn:E. destruct (NextBackOff_ok _ _ _ _ Hb E) as (Hb' & _ & Hg & _).
  destruct i as [|i]; [|by apply (IH b' i)]. cbn in H. injection H as <- <-. cbn in H'.
  destruct (backoffs_head nows b' 0 c' d' Hb' H') as (_ & _ & ->); [done|lia].
Qed.

(** Waiting times of an open breaker: after a reset of the policy its
    successive retries never stop; every waiting time is within half of the
    current interval (up to three nanoseconds of rounding), hence at least
    250 ms and about 90 s at most; the first interval is 500 ms and each is at
    least half as long again as the one before until the maximum of 60 s is
    reached. *)
Theorem backoffs_bounded nows now b :
  backoff_ok b ->
  let l := backoffs nows (backoff_Reset now b) in
  (forall i c d, l !! i = Some (c, d) ->
     d <> Stop /\ c / 2 <= d <= c + (c + 1) / 2 + 2 /\ 250 * Millisecond <= d <= 90 * Second + 2 /\
     (i = 0%nat -> c = 500 * Millisecond)) /\
  (forall i c d c' d', l !! i = Some (c, d) -> l !! S i = Some (c', d') ->
     Z.min (60 * Second) (3 * c / 2) <= c' <= 60 * Second).
Proof.
  intros Hb l. pose proof (backoff_Reset_ok now b Hb) as Hr. split.
  - intros i c d H. destruct (backoffs_head _ _ _ _ _ Hr H) as (Hc & Hd & H0). cbn in H0.
    unfold DefaultMaxInterval, Second, Millisecond in *.
    assert (250 * 1000000 <= c / 2) by (apply Z.div_le_lower_bound; lia).
    assert ((c + 1) / 2 < 30 * 1000000000 + 1) by (apply Z.div_lt_upper_bound; lia).
    unfold Stop. repeat split; try lia. intros Hi. rewrite H0 by done. by destruct Hb.
  - intros i c d c' d' H H'. split; [by apply (backoffs_next nows (backoff_Reset now b) i c d c' d')|].
    destruct (backoffs_head _ _ _ _ _ Hr H') as ([_ ?] & _). done.
Qed.

(** ** Witness *)

Definition half_rand : rand := mkRand (fun _ => mkF64 1 (-1)) 0.
Definition sample_backoff : ExponentialBackOff :=
  mkBackOff (500 * Millisecond) DefaultRandomizationFactor DefaultMultiplier DefaultMaxInterval 0 (500 * Millisecond) 0 half_rand.

Lemma backoffs_bounded_witness :
  backoffs [0; 0; 0] (backoff_Reset 0 sample_backoff) =
    [(500000000, 500000000); (750000000, 750000000); (1125000000, 1125000000)] /\ 750000000 <> Stop.
Proof.
  split; [vm_compute; reflexivity|].
  destruct (backoffs_bounded [0; 0; 0] 0 sample_backoff) as [H _].
  - split; try reflexivity; [vm_compute; split; congruence|]. intros n. vm_compute. split; congruence.
  - destruct (H 1%nat 750000000 750000000) as (Hs & _); [vm_compute; reflexivity|exact Hs].
Defined.
