(* ===== verification/Circuit.v ===== *)
(** * The library circuit breakers (src/circuit/breaker_consecutive.go, breaker_rate.go,
    breaker_threshold.go over src/vendor/github.com/rubyist/circuitbreaker)

    [ConsecutiveBreaker], [RateBreaker] and [ThresholdBreaker] wrap one
    vendored breaker that differs in its trip function.  The clock readings of
    a call are inputs ([readings]), the outcome of the guarded function is the
    [call_input] of Breaker.  The ring of buckets is the list of its values
    starting at the current one.  Nobody subscribes to the events of these
    breakers (the wrappers keep them private), so [sendEvent] ranges over empty
    lists.  The library's [ErrBreakerOpen] and [ErrBreakerTimeout] have the
    texts of the program's own. *)
From S2P Require Import Prelude GoTime Float64 Backoff Breaker.

(** ** The sliding window (window.go) *)

Record bucket := mkBucket { b_failure : Z; b_success : Z }.
Definition bucket_Reset (b : bucket) : bucket := mkBucket 0 0.
Definition bucket_Fail (b : bucket) : bucket := mkBucket (swrap64 (b_failure b + 1)) (b_success b).
Definition bucket_Success (b : bucket) : bucket := mkBucket (b_failure b) (swrap64 (b_success b + 1)).

Record bucket_window := mkWindow { buckets : list bucket; bucketTime : Z; lastAccess : Z }.

(** [container/ring]: the ring seen from the next element. *)
Definition ring_Next {A} (l : list A) : list A := match l with [] => [] | x :: l' => l' ++ [x] end.
(** The current element. *)
Definition ring_update {A} (f : A -> A) (l : list A) : list A := match l with [] => [] | x :: l' => f x :: l' end.

Definition newWindow (windowTime : Z) (windowBuckets : nat) (now : Z) : bucket_window :=
  mkWindow (replicate windowBuckets (mkBucket 0 0)) (Z.quot windowTime (Z.of_nat windowBuckets)) now.

(** The loop of [getLatestBucket], [n] the rounds left. *)
Fixpoint advance (n : nat) (bt elapsed : Z) (bs : list bucket) : list bucket :=
  match n with
  | O => bs
  | S n' =>
      let bs := ring_update bucket_Reset (ring_Next bs) in
      let elapsed := swrap64 (elapsed - bt) in
      if elapsed <? bt then bs else advance n' bt elapsed bs
  end.

(** The current bucket afterwards is the head. *)
Definition getLatestBucket (now access : Z) (w : bucket_window) : bucket_window :=
  let elapsed := time_Sub now (lastAccess w) in
  if bucketTime w <? elapsed
  then mkWindow (advance (length (buckets w)) (bucketTime w) elapsed (buckets w)) (bucketTime w) access
  else w.

Definition window_update (f : bucket -> bucket) (w : bucket_window) : bucket_window :=
  mkWindow (ring_update f (buckets w)) (bucketTime w) (lastAccess w).
Definition window_Fail (now access : Z) (w : bucket_window) : bucket_window :=
  window_update bucket_Fail (getLatestBucket now access w).
Definition window_Success (now access : Z) (w : bucket_window) : bucket_window :=
  window_update bucket_Success (getLatestBucket now access w).
Definition window_Failures (w : bucket_window) : Z :=
  foldl (fun n b => swrap64 (n + b_failure b)) 0 (buckets w).
Definition window_Successes (w : bucket_window) : Z :=
  foldl (fun n b => swrap64 (n + b_success b)) 0 (buckets w).
Definition window_ErrorRate (w : bucket_window) : f64 :=
  let total := foldl (fun n b => swrap64 (n + swrap64 (b_failure b + b_success b))) 0 (buckets w) in
  if total =? 0 then f64_of_Z 0
  else f64_div (f64_of_int64 (window_Failures w)) (f64_of_int64 total).
Definition window_Reset (w : bucket_window) : bucket_window :=
  mkWindow (bucket_Reset <$> buckets w) (bucketTime w) (lastAccess w).

(** ** The breaker (circuitbreaker.go) *)

(** The values [ThresholdTripFunc], [ConsecutiveTripFunc] and [RateTripFunc] return. *)
Inductive TripFunc :=
| ThresholdTripFunc (threshold : Z)
| ConsecutiveTripFunc (threshold : Z)
| RateTripFunc (rate : f64) (minSamples : Z).

Inductive cstate := open | halfopen | closed.
#[export] Instance cstate_eq_dec : EqDecision cstate.
Proof. solve_decision. Defined.

Record CircuitBreaker := mkCircuit {
  BackOff : ExponentialBackOff;
  ShouldTrip : TripFunc;
  consecFailures : Z;
  lastFailure : Z;
  halfOpens : Z;
  counts : bucket_window;
  nextBackOff : Z;
  tripped : Z;
  broken : Z
}.

Definition set_BackOff (b : ExponentialBackOff) (next : Z) (cb : CircuitBreaker) : CircuitBreaker :=
  mkCircuit b (ShouldTrip cb) (consecFailures cb) (lastFailure cb) (halfOpens cb) (counts cb) next (tripped cb) (broken cb).
Definition set_consecFailures (n : Z) (cb : CircuitBreaker) : CircuitBreaker :=
  mkCircuit (BackOff cb) (ShouldTrip cb) n (lastFailure cb) (halfOpens cb) (counts cb) (nextBackOff cb) (tripped cb) (broken cb).
Definition set_lastFailure (t : Z) (cb : CircuitBreaker) : CircuitBreaker :=
  mkCircuit (BackOff cb) (ShouldTrip cb) (consecFailures cb) t (halfOpens cb) (counts cb) (nextBackOff cb) (tripped cb) (broken cb).
Definition set_halfOpens (n : Z) (cb : CircuitBreaker) : CircuitBreaker :=
  mkCircuit (BackOff cb) (ShouldTrip cb) (consecFailures cb) (lastFailure cb) n (counts cb) (nextBackOff cb) (tripped cb) (broken cb).
Definition set_counts (w : bucket_window) (cb : CircuitBreaker) : CircuitBreaker :=
  mkCircuit (BackOff cb) (ShouldTrip cb) (consecFailures cb) (lastFailure cb) (halfOpens cb) w (nextBackOff cb) (tripped cb) (broken cb).
Definition set_tripped (n : Z) (cb : CircuitBreaker) : CircuitBreaker :=
  mkCircuit (BackOff cb) (ShouldTrip cb) (consecFailures cb) (lastFailure cb) (halfOpens cb) (counts cb) (nextBackOff cb) n (broken cb).
Definition set_broken (n : Z) (cb : CircuitBreaker) : CircuitBreaker :=
  mkCircuit (BackOff cb) (ShouldTrip cb) (consecFailures cb) (lastFailure cb) (halfOpens cb) (counts cb) (nextBackOff cb) (tripped cb) n.

Definition DefaultWindowTime : Z := Millisecond * 10000.
Definition DefaultWindowBuckets : nat := 10.

(** With only [ShouldTrip] given, as the three constructors do; [t_clock] is
    read by the policy, [t_window] by the window. *)
Definition NewBreakerWithOptions (f : TripFunc) (r : rand) (t_clock t_window : Z) : CircuitBreaker :=
  let b := NewExponentialBackOff t_clock r in
  let b := mkBackOff (500 * Millisecond) (RandomizationFactor b) (Multiplier b) (MaxInterval b) (0 * Second)
             (currentInterval b) (startTime b) (random b) in
  let b := backoff_Reset t_clock b in
  let '(b, next) := NextBackOff t_clock b in
  mkCircuit b f 0 0 0 (newWindow DefaultWindowTime DefaultWindowBuckets t_window) next 0 0.

Definition NewThresholdBreaker (threshold : Z) := NewBreakerWithOptions (ThresholdTripFunc threshold).
Definition NewConsecutiveBreaker (threshold : Z) := NewBreakerWithOptions (ConsecutiveTripFunc threshold).
Definition NewRateBreaker (rate : f64) (minSamples : Z) := NewBreakerWithOptions (RateTripFunc rate minSamples).

(** Nanoseconds of the Unix epoch after Go's zero time. *)
Definition unixEpoch : Z := 62135596800 * Second.
Definition UnixNano (t : Z) : Z := swrap64 (t - unixEpoch).
Definition time_Unix0 (nsec : Z) : Z := nsec + unixEpoch.

Definition should_trip (cb : CircuitBreaker) : bool :=
  match ShouldTrip cb with
  | ThresholdTripFunc threshold => window_Failures (counts cb) =? threshold
  | ConsecutiveTripFunc threshold => consecFailures cb =? threshold
  | RateTripFunc rate minSamples =>
      let samples := swrap64 (window_Failures (counts cb) + window_Successes (counts cb)) in
      (minSamples <=? samples) && f64_leb rate (window_ErrorRate (counts cb))
  end.

Definition Trip (now : Z) (cb : CircuitBreaker) : CircuitBreaker :=
  set_lastFailure (UnixNano now) (set_tripped 1 cb).
Definition ResetCounters (cb : CircuitBreaker) : CircuitBreaker :=
  set_counts (window_Reset (counts cb)) (set_consecFailures 0 cb).
Definition circuit_Reset (cb : CircuitBreaker) : CircuitBreaker :=
  ResetCounters (set_halfOpens 0 (set_tripped 0 (set_broken 0 cb))).

(** [state()], whose [halfopen] answer claims the retry. *)
Definition state (now : Z) (cb : CircuitBreaker) : CircuitBreaker * cstate :=
  if tripped cb =? 1 then
    if broken cb =? 1 then (cb, open)
    else
      let since := time_Sub now (time_Unix0 (lastFailure cb)) in
      if negb (nextBackOff cb =? Stop) && (nextBackOff cb <? since) then
        if halfOpens cb =? 0 then
          let cb := set_halfOpens 1 cb in
          let '(b, next) := NextBackOff now (BackOff cb) in
          (set_BackOff b next cb, halfopen)
        else (cb, open)
      else (cb, open)
  else (cb, closed).

Definition Ready (now : Z) (cb : CircuitBreaker) : CircuitBreaker * bool :=
  let '(cb, st) := state now cb in
  let cb := if bool_decide (st = halfopen) then set_halfOpens 0 cb else cb in
  (cb, bool_decide (st = closed) || bool_decide (st = halfopen)).

(** The clock readings of one call. *)
Record readings := mkReadings {
  t_ready : Z;
  t_bucket : Z;
  t_access : Z;
  t_fail : Z;
  t_trip : Z;
  t_reset : Z;
  t_state : Z
}.

Definition circuit_Fail (r : readings) (cb : CircuitBreaker) : CircuitBreaker :=
  let cb := set_counts (window_Fail (t_bucket r) (t_access r) (counts cb)) cb in
  let cb := set_consecFailures (swrap64 (consecFailures cb + 1)) cb in
  let cb := set_lastFailure (UnixNano (t_fail r)) cb in
  if should_trip cb then Trip (t_trip r) cb else cb.

Definition circuit_Success (r : readings) (cb : CircuitBreaker) : CircuitBreaker :=
  let '(b, next) := NextBackOff (t_reset r) (backoff_Reset (t_reset r) (BackOff cb)) in
  let cb := set_BackOff b next cb in
  let '(cb, st) := state (t_state r) cb in
  let cb := if bool_decide (st = halfopen) then circuit_Reset cb else cb in
  let cb := set_consecFailures 0 cb in
  set_counts (window_Success (t_bucket r) (t_access r) (counts cb)) cb.

(** [Call]: the background context is never cancelled.  The returned error and
    whether the function was started. *)
Definition circuit_Call (timeout : Z) (i : call_input) (r : readings) (cb : CircuitBreaker)
    : CircuitBreaker * (option error * bool) :=
  let '(cb, ready) := Ready (t_ready r) cb in
  if negb ready then (cb, (Some ErrBreakerOpen, false))
  else
    match guarded_result timeout i with
    | Some e => (circuit_Fail r cb, (Some e, true))
    | None => (circuit_Success r cb, (None, true))
    end.

(** The wrappers implement the program's interface; all readings after the
    guarded function are those of its end. *)
Definition readings_of (i : call_input) : readings :=
  mkReadings (ci_since i) (ci_end i) (ci_end i) (ci_end i) (ci_end i) (ci_end i) (ci_end i).
#[export] Instance circuit_Breaker : Breaker CircuitBreaker :=
  { breaker_Call d i cb := circuit_Call d i (readings_of i) cb }.

(** The three breakers of src/circuit: each wraps a library breaker and passes
    [Call] on. *)
Record ThresholdBreaker := mkThresholdBreaker { th_breaker : CircuitBreaker }.
Record RateBreaker := mkRateBreaker { ra_breaker : CircuitBreaker }.
Record ConsecutiveBreaker := mkConsecutiveBreaker { cs_breaker : CircuitBreaker }.

Definition new_ThresholdBreaker (threshold : Z) (r : rand) (t1 t2 : Z) : ThresholdBreaker :=
  mkThresholdBreaker (NewThresholdBreaker threshold r t1 t2).
Definition new_RateBreaker (rate : f64) (minSamples : Z) (r : rand) (t1 t2 : Z) : RateBreaker :=
  mkRateBreaker (NewRateBreaker rate minSamples r t1 t2).
Definition new_ConsecutiveBreaker (threshold : Z) (r : rand) (t1 t2 : Z) : ConsecutiveBreaker :=
  mkConsecutiveBreaker (NewConsecutiveBreaker threshold r t1 t2).

Definition ThresholdBreaker_Call (d : Z) (i : call_input) (b : ThresholdBreaker) : ThresholdBreaker * (option error * bool) :=
  let '(cb, res) := circuit_Call d i (readings_of i) (th_breaker b) in (mkThresholdBreaker cb, res).
Definition RateBreaker_Call (d : Z) (i : call_input) (b : RateBreaker) : RateBreaker * (option error * bool) :=
  let '(cb, res) := circuit_Call d i (readings_of i) (ra_breaker b) in (mkRateBreaker cb, res).
Definition ConsecutiveBreaker_Call (d : Z) (i : call_input) (b : ConsecutiveBreaker) : ConsecutiveBreaker * (option error * bool) :=
  let '(cb, res) := circuit_Call d i (readings_of i) (cs_breaker b) in (mkConsecutiveBreaker cb, res).

#[export] Instance threshold_Breaker : Breaker ThresholdBreaker := { breaker_Call := ThresholdBreaker_Call }.
#[export] Instance rate_Breaker : Breaker RateBreaker := { breaker_Call := RateBreaker_Call }.
#[export] Instance consecutive_Breaker : Breaker ConsecutiveBreaker := { breaker_Call := ConsecutiveBreaker_Call }.

(** ** The law of the interface and the invariant *)

Lemma circuit_Call_law d i r cb cb' err ran :
  circuit_Call d i r cb = (cb', (err, ran)) ->
  if ran then err = guarded_result d i else err = Some ErrBreakerOpen.
Proof.
  unfold circuit_Call. destruct (Ready _ cb) as [cb1 []]; cbn; intros H; [|by simplify_eq].
  destruct (guarded_result d i); by simplify_eq.
Qed.

#[export] Instance circuit_BreakerLaws : BreakerLaws CircuitBreaker.
Proof. split. intros d c b b' err ran H. exact (circuit_Call_law _ _ _ _ _ _ _ H). Qed.

(** So each can guard a client's calls. *)
Lemma wrapped_Call_law {W} (wrap : CircuitBreaker -> W) d i cb w err ran :
  (let '(cb', res) := circuit_Call d i (readings_of i) cb in (wrap cb', res)) = (w, (err, ran)) ->
  if ran then err = guarded_result d i else err = Some ErrBreakerOpen.
Proof.
  destruct (circuit_Call d i (readings_of i) cb) as [cb' [e r]] eqn:E. intros [= _ <- <-].
  exact (circuit_Call_law _ _ _ _ _ _ _ E).
Qed.

#[export] Instance threshold_BreakerLaws : BreakerLaws ThresholdBreaker.
Proof. split. intros d c b. apply (wrapped_Call_law mkThresholdBreaker). Qed.
#[export] Instance rate_BreakerLaws : BreakerLaws RateBreaker.
Proof. split. intros d c b. apply (wrapped_Call_law mkRateBreaker). Qed.
#[export] Instance consecutive_BreakerLaws : BreakerLaws ConsecutiveBreaker.
Proof. split. intros d c b. apply (wrapped_Call_law mkConsecutiveBreaker). Qed.

(** Between the calls of one goroutine: no retry is claimed, the policy has
    its default parameters and the waiting time is at least 250 ms. *)
Record circuit_ok (cb : CircuitBreaker) : Prop := {
  co_backoff : backoff_ok (BackOff cb);
  co_next : 250 * Millisecond <= nextBackOff cb <= 90 * Second + 2;
  co_halfOpens : halfOpens cb = 0;
  co_broken : broken cb = 0;
  co_tripped : tripped cb = 0 \/ tripped cb = 1;
  co_buckets : length (buckets (counts cb)) = DefaultWindowBuckets
}.

Lemma NextBackOff_bounds now b b' d :
  backoff_ok b -> NextBackOff now b = (b', d) -> backoff_ok b' /\ 250 * Millisecond <= d <= 90 * Second + 2.
Proof.
  intros Hb E. destruct (NextBackOff_ok _ _ _ _ Hb E) as (Hb' & _ & _ & Hd). split; [done|].
  pose proof (bo_current _ Hb). unfold DefaultMaxInterval, Second, Millisecond in *.
  assert (250 * 1000000 <= currentInterval b / 2) by (apply Z.div_le_lower_bound; lia).
  assert ((currentInterval b + 1) / 2 < 30 * 1000000000 + 1) by (apply Z.div_lt_upper_bound; lia). lia.
Qed.

(** After a reset of the policy the waiting time is at most 750 ms. *)
Definition first_backoff_max : Z := 750 * Millisecond + 2.

Lemma NextBackOff_first now now' b b' d :
  backoff_ok b -> NextBackOff now (backoff_Reset now' b) = (b', d) ->
  backoff_ok b' /\ 250 * Millisecond <= d <= first_backoff_max.
Proof.
  intros Hb E. destruct (NextBackOff_ok _ _ _ _ (backoff_Reset_ok now' b Hb) E) as (Hb' & _ & _ & Hd). split; [done|].
  cbn in Hd. rewrite (bo_initial _ Hb) in Hd. unfold first_backoff_max, Millisecond in *.
  change (500 * 1000000 / 2) with 250000000 in Hd. change ((500 * 1000000 + 1) / 2) with 250000000 in Hd. lia.
Qed.

Lemma length_ring_Next {A} (l : list A) : length (ring_Next l) = length l.
Proof. destruct l; cbn; [done|]. rewrite length_app. cbn. lia. Qed.
Lemma length_ring_update {A} (f : A -> A) (l : list A) : length (ring_update f l) = length l.
Proof. by destruct l. Qed.
Lemma length_advance n bt e bs : length (advance n bt e bs) = length bs.
Proof.
  revert e bs. induction n as [|n IH]; intros e bs; cbn; [done|].
  destruct (_ <? _); rewrite ?IH, length_ring_update, length_ring_Next; done.
Qed.
Lemma length_getLatestBucket now a w : length (buckets (getLatestBucket now a w)) = length (buckets w).
Proof. unfold getLatestBucket. destruct (_ <? _); cbn; [apply length_advance|done]. Qed.

(** What [state] answers in a good state: nothing changes unless a retry is
    due, which is claimed and prolongs the waiting time. *)
Lemma state_cases now cb :
  circuit_ok cb ->
  (tripped cb = 0 /\ state now cb = (cb, closed)) \/
  (tripped cb = 1 /\ time_Sub now (time_Unix0 (lastFailure cb)) <= nextBackOff cb /\ state now cb = (cb, open)) \/
  (tripped cb = 1 /\ nextBackOff cb < time_Sub now (time_Unix0 (lastFailure cb)) /\
   exists b next, NextBackOff now (BackOff cb) = (b, next) /\
     state now cb = (set_BackOff b next (set_halfOpens 1 cb), halfopen)).
Proof.
  intros [Hb Hn Hh Hbr [Ht|Ht] Hl]; [left|right]; unfold state; rewrite Ht; [done|].
  rewrite Hbr, Hh. cbn [Z.eqb]. rewrite (proj2 (Z.eqb_neq _ Stop)) by (unfold Stop, Millisecond in *; lia).
  destruct (nextBackOff cb <? _) eqn:E; zbool; cbn [negb andb].
  - right. split; [done|]. split; [done|]. cbn.
    destruct (NextBackOff now (BackOff cb)) as [b next]. by exists b, next.
  - left. split; [done|]. by split.
Qed.

Lemma Ready_cases now cb :
  circuit_ok cb ->
  (tripped cb = 0 /\ Ready now cb = (cb, true)) \/
  (tripped cb = 1 /\ time_Sub now (time_Unix0 (lastFailure cb)) <= nextBackOff cb /\ Ready now cb = (cb, false)) \/
  (tripped cb = 1 /\ nextBackOff cb < time_Sub now (time_Unix0 (lastFailure cb)) /\
   exists b next, NextBackOff now (BackOff cb) = (b, next) /\ Ready now cb = (set_BackOff b next cb, true)).
Proof.
  intros Hok. destruct (state_cases now cb Hok) as [(Ht & E)|[(Ht & Hs & E)|(Ht & Hs & b & next & Eb & E)]];
    unfold Ready; rewrite E; cbn.
  - by left.
  - right. by left.
  - right. right. split; [done|]. split; [done|]. exists b, next. split; [done|].
    unfold set_halfOpens, set_BackOff. cbn. by rewrite <- (co_halfOpens _ Hok).
Qed.

Lemma Ready_ok now cb : circuit_ok cb -> circuit_ok (Ready now cb).1.
Proof.
  intros Hok. destruct (Ready_cases now cb Hok) as [(_ & ->)|[(_ & _ & ->)|(_ & _ & b & next & Eb & ->)]]; try done.
  destruct (NextBackOff_bounds _ _ _ _ (co_backoff _ Hok) Eb). destruct Hok. by split.
Qed.

Lemma circuit_Fail_ok r cb : circuit_ok cb -> circuit_ok (circuit_Fail r cb).
Proof.
  intros [Hb Hn Hh Hbr Ht Hl]. unfold circuit_Fail, Trip.
  destruct (should_trip _); split; cbn -[getLatestBucket]; auto; by rewrite length_ring_update, length_getLatestBucket.
Qed.

(** The two outcomes of a success: a reset when a retry is due by the new
    waiting time, none otherwise. *)
Lemma circuit_Success_cases r cb :
  circuit_ok cb ->
  exists b next, backoff_ok b /\ 250 * Millisecond <= next <= first_backoff_max /\
    NextBackOff (t_reset r) (backoff_Reset (t_reset r) (BackOff cb)) = (b, next) /\
    ((tripped cb = 0 \/ time_Sub (t_state r) (time_Unix0 (lastFailure cb)) <= next) /\
     circuit_Success r cb =
       set_counts (window_Success (t_bucket r) (t_access r) (counts cb)) (set_consecFailures 0 (set_BackOff b next cb)) \/
     tripped cb = 1 /\ next < time_Sub (t_state r) (time_Unix0 (lastFailure cb)) /\
     exists b' next', backoff_ok b' /\ 250 * Millisecond <= next' <= 90 * Second + 2 /\
       circuit_Success r cb =
         mkCircuit b' (ShouldTrip cb) 0 (lastFailure cb) 0
           (window_Success (t_bucket r) (t_access r) (window_Reset (counts cb))) next' 0 0).
Proof.
  intros Hok. destruct (NextBackOff (t_reset r) (backoff_Reset (t_reset r) (BackOff cb))) as [b next] eqn:E.
  destruct (NextBackOff_first _ _ _ _ _ (co_backoff _ Hok) E) as [Hb Hn]. exists b, next.
  do 3 (split; [done|]). unfold circuit_Success. rewrite E.
  assert (circuit_ok (set_BackOff b next cb)) as Hok'.
  { destruct Hok. split; cbn; try done. unfold first_backoff_max, Second, Millisecond in *. lia. }
  destruct (state_cases (t_state r) _ Hok') as [(Ht & ->)|[(Ht & Hs & ->)|(Ht & Hs & b' & next' & E' & ->)]]; cbn in Ht.
  - left. split; [by left|]. done.
  - left. split; [by right|]. done.
  - right. split; [done|]. split; [done|]. exists b', next'.
    destruct (NextBackOff_bounds _ _ _ _ Hb E') as [? ?]. by split.
Qed.

Lemma circuit_Success_ok r cb : circuit_ok cb -> circuit_ok (circuit_Success r cb).
Proof.
  intros Hok. destruct (circuit_Success_cases r cb Hok) as (b & next & Hb & Hn & _ & [(_ & ->)|(_ & _ & b' & next' & Hb' & Hn' & ->)]).
  - destruct Hok. split; cbn -[getLatestBucket]; auto.
    + unfold first_backoff_max, Second, Millisecond in *. lia.
    + by rewrite length_ring_update, length_getLatestBucket.
  - destruct Hok. split; cbn -[getLatestBucket]; auto.
    rewrite length_ring_update, length_getLatestBucket. cbn. by rewrite length_fmap.
Qed.

Lemma circuit_Call_ok d i r cb : circuit_ok cb -> circuit_ok (circuit_Call d i r cb).1.
Proof.
  intros Hok. pose proof (Ready_ok (t_ready r) cb Hok) as H. unfold circuit_Call.
  destruct (Ready (t_ready r) cb) as [cb1 []]; cbn in *; [|done].
  destruct (guarded_result d i); cbn; [by apply circuit_Fail_ok|by apply circuit_Success_ok].
Qed.

Lemma NewBreakerWithOptions_ok f r t t' :
  unit_draws r -> circuit_ok (NewBreakerWithOptions f r t t') /\
  tripped (NewBreakerWithOptions f r t t') = 0 /\ consecFailures (NewBreakerWithOptions f r t t') = 0 /\
  ShouldTrip (NewBreakerWithOptions f r t t') = f.
Proof.
  intros Hr. unfold NewBreakerWithOptions. destruct (NextBackOff _ _) as [b next] eqn:E.
  assert (backoff_ok b /\ 250 * Millisecond <= next <= 90 * Second + 2) as [Hb Hn].
  { eapply NextBackOff_bounds; [|exact E].
    split; cbn [backoff_Reset NewExponentialBackOff InitialInterval RandomizationFactor Multiplier MaxInterval
      MaxElapsedTime currentInterval random]; try reflexivity; [|exact Hr].
    unfold DefaultMaxInterval, Millisecond, Second. lia. }
  clear E. split; [|done].
  split; cbn [BackOff nextBackOff halfOpens broken tripped counts newWindow buckets]; auto.
Qed.

(** Sequences of calls. *)
Fixpoint run_circuit (d : Z) (cs : list (call_input * readings)) (cb : CircuitBreaker)
    : CircuitBreaker * list (option error * bool) :=
  match cs with
  | [] => (cb, [])
  | (i, r) :: cs' =>
      let '(cb', x) := circuit_Call d i r cb in
      let '(cb'', xs) := run_circuit d cs' cb' in
      (cb'', x :: xs)
  end.

Lemma run_circuit_ok d cs : forall cb, circuit_ok cb -> circuit_ok (run_circuit d cs cb).1.
Proof.
  induction cs as [|[i r] cs IH]; intros cb Hok; [done|]. cbn. pose proof (circuit_Call_ok d i r cb Hok) as H.
  destruct (circuit_Call d i r cb) as [cb' x]. specialize (IH cb' H). by destruct (run_circuit d cs cb').
Qed.

(** ** What a consecutive breaker promises *)

(** The contract: it counts failures in a row; the one that makes [threshold]
    opens it. *)
Inductive contract := CClosed (failures : Z) | COpen (since : Z).

Definition contract_Call (threshold d : Z) (i : call_input) (r : readings) (a : contract)
    : contract * (option error * bool) :=
  match a with
  | COpen _ => (a, (Some ErrBreakerOpen, false))
  | CClosed n =>
      match guarded_result d i with
      | None => (CClosed 0, (None, true))
      | Some e => (if n + 1 =? threshold then COpen (t_trip r) else CClosed (n + 1), (Some e, true))
      end
  end.

(** The calls the contract speaks about: the clock is within the years
    [UnixNano] covers, and a call to an open breaker comes within 250 ms. *)
Definition in_scope (r : readings) (a : contract) : Prop :=
  match a with
  | COpen t => t_ready r <= t + 250 * Millisecond
  | CClosed _ => - 2 ^ 62 <= t_trip r - unixEpoch < 2 ^ 62
  end.

Fixpoint run_contract (threshold d : Z) (cs : list (call_input * readings)) (a : contract)
    : list (option error * bool) :=
  match cs with
  | [] => []
  | (i, r) :: cs' => let '(a', x) := contract_Call threshold d i r a in x :: run_contract threshold d cs' a'
  end.

Fixpoint all_in_scope (threshold d : Z) (cs : list (call_input * readings)) (a : contract) : Prop :=
  match cs with
  | [] => True
  | (i, r) :: cs' => in_scope r a /\ all_in_scope threshold d cs' (contract_Call threshold d i r a).1
  end.

(** How a state of the breaker represents a state of the contract. *)
Record represents (threshold : Z) (a : contract) (cb : CircuitBreaker) : Prop := {
  rep_ok : circuit_ok cb;
  rep_trip : ShouldTrip cb = ConsecutiveTripFunc threshold;
  rep_state :
    match a with
    | CClosed n => tripped cb = 0 /\ consecFailures cb = n /\ 0 <= n < threshold
    | COpen t => tripped cb = 1 /\ lastFailure cb = t - unixEpoch
    end
}.

Lemma ShouldTrip_Success r cb : circuit_ok cb -> ShouldTrip (circuit_Success r cb) = ShouldTrip cb.
Proof.
  intros Hok. by destruct (circuit_Success_cases r cb Hok) as (? & ? & _ & _ & _ & [(_ & ->)|(_ & _ & ? & ? & _ & _ & ->)]).
Qed.

(** An open breaker refuses within 250 ms, whatever its trip function. *)
Lemma open_refuses d i r s cb :
  circuit_ok cb -> tripped cb = 1 -> lastFailure cb = s - unixEpoch -> t_ready r <= s + 250 * Millisecond ->
  circuit_Call d i r cb = (cb, (Some ErrBreakerOpen, false)).
Proof.
  intros Hok Ht Hl Hs. unfold circuit_Call.
  destruct (Ready_cases (t_ready r) cb Hok) as [(Ht' & _)|[(_ & _ & ->)|(_ & Hs' & _)]]; [congruence|done|].
  exfalso. pose proof (co_next _ Hok). rewrite Hl in Hs'. unfold time_Unix0 in Hs'.
  replace (s - unixEpoch + unixEpoch) with s in Hs' by lia.
  pose proof (time_Sub_mono _ _ s Hs) as Hm. rewrite (time_Sub_exact (s + _)) in Hm by (unfold Millisecond; lia). lia.
Qed.

Lemma represents_Call threshold d i r a cb :
  0 < threshold < 2 ^ 63 -> represents threshold a cb -> in_scope r a ->
  (circuit_Call d i r cb).2 = (contract_Call threshold d i r a).2 /\
  represents threshold (contract_Call threshold d i r a).1 (circuit_Call d i r cb).1.
Proof.
  intros Hth [Hok Hf Hst] Hs. pose proof (circuit_Call_ok d i r cb Hok) as Hok'. revert Hok'.
  unfold contract_Call. destruct a as [n|t].
  2: { destruct Hst as [Ht Hl]. rewrite (open_refuses d i r t) by done. cbn. intros _. split; [done|]. by split. }
  unfold circuit_Call.
  - destruct Hst as (Ht & Hn & Hr).
    destruct (Ready_cases (t_ready r) cb Hok) as [(_ & ->)|[(Ht' & _)|(Ht' & _)]]; [|congruence..].
    cbn [negb]. destruct (guarded_result d i) as [e|]; cbn; intros Hok'; (split; [done|]).
    + assert (swrap64 (consecFailures cb + 1) = n + 1) as En by (rewrite Hn; apply swrap64_small; lia).
      revert Hok'. unfold circuit_Fail, should_trip. cbn -[window_Fail]. rewrite Hf, En. destruct (n + 1 =? threshold) eqn:E; zbool; intros Hok'.
      * split; [done|done|]. split; [done|]. cbn. unfold UnixNano. apply swrap64_small. cbn in Hs. lia.
      * split; [done|done|]. repeat split; try done; lia.
    + split; [done|by rewrite ShouldTrip_Success|].
      destruct (circuit_Success_cases r cb Hok) as (? & ? & _ & _ & _ & [(_ & ->)|(Ht' & _)]); [|congruence].
      cbn. repeat split; done || lia.
Qed.

Lemma run_circuit_refines threshold d cs : forall a cb,
  0 < threshold < 2 ^ 63 -> represents threshold a cb -> all_in_scope threshold d cs a ->
  (run_circuit d cs cb).2 = run_contract threshold d cs a.
Proof.
  induction cs as [|[i r] cs IH]; intros a cb Hth Hr Hs; [done|]. destruct Hs as [Hs Hcs].
  destruct (represents_Call threshold d i r a cb Hth Hr Hs) as [Hx Hr']. cbn.
  destruct (circuit_Call d i r cb) as [cb' x], (contract_Call threshold d i r a) as [a' x']. cbn in *. subst x'.
  specialize (IH a' cb' Hth Hr' Hcs). destruct (run_circuit d cs cb') as [cb'' xs]. cbn in *. by rewrite IH.
Qed.

(** C23.  A [ConsecutiveBreaker] refines its contract: over any sequence of
    calls, each function is started and its error passed on until
    [threshold] of them in a row have failed (a success starts the count
    again); from then on calls return [ErrBreakerOpen] without starting
    anything, for at least 250 ms. *)
Theorem consecutive_breaker_refines threshold d rnd t1 t2 cs :
  0 < threshold < 2 ^ 63 -> unit_draws rnd -> all_in_scope threshold d cs (CClosed 0) ->
  (run_circuit d cs (NewConsecutiveBreaker threshold rnd t1 t2)).2 = run_contract threshold d cs (CClosed 0).
Proof.
  intros Hth Hrnd Hs. apply run_circuit_refines; [done| |done].
  destruct (NewBreakerWithOptions_ok (ConsecutiveTripFunc threshold) rnd t1 t2 Hrnd) as (Hok & Ht & Hc & Hf).
  split; [done|done|]. repeat split; try done; lia.
Qed.

(** ** Retries *)

(** Nanoseconds since the last recorded failure. *)
Definition since_failure (now : Z) (cb : CircuitBreaker) : Z := time_Sub now (time_Unix0 (lastFailure cb)).

Lemma foldl_keep (g : bucket -> Z) bs : forall n, 0 <= n <= 1 -> Forall (fun b => g b = 0) bs ->
  foldl (fun n b => swrap64 (n + g b)) n bs = n.
Proof.
  induction bs as [|b bs IH]; intros n Hn H; [done|]. apply Forall_cons in H as [Hb H]. cbn.
  rewrite Hb, Z.add_0_r, swrap64_small by lia. by apply IH.
Qed.

Lemma advance_zero n bt e bs : Forall (fun b => b = mkBucket 0 0) bs -> advance n bt e bs = bs.
Proof.
  revert e bs. induction n as [|n IH]; intros e bs Hbs; [done|]. cbn.
  assert (ring_update bucket_Reset (ring_Next bs) = bs) as ->; [|destruct (_ <? _); [done|by apply IH]].
  assert (bs = replicate (length bs) (mkBucket 0 0)) as -> by (apply list_eq_same_length with (length bs); rewrite ?length_replicate; auto; intros i x y Hi Hx Hy; rewrite Forall_lookup in Hbs; rewrite (Hbs _ _ Hx); apply lookup_replicate in Hy as [-> _]; done).
  destruct bs as [|b bs]; [done|]. cbn. rewrite <- replicate_S_end. done.
Qed.

(** A window that was just reset holds nothing but the new success. *)
Lemma window_Success_Reset now a w :
  buckets w <> [] ->
  window_Failures (window_Success now a (window_Reset w)) = 0 /\
  window_Successes (window_Success now a (window_Reset w)) = 1.
Proof.
  intros Hw. assert (Forall (fun b => b = mkBucket 0 0) (buckets (window_Reset w))) as Hz
    by (apply Forall_forall; intros b Hb; cbn in Hb; apply list_elem_of_fmap in Hb as (? & -> & _); done).
  assert (buckets (getLatestBucket now a (window_Reset w)) = buckets (window_Reset w)) as E.
  { unfold getLatestBucket. destruct (_ <? _); [|done]. cbn [buckets]. by apply advance_zero. }
  unfold window_Success, window_update, window_Failures, window_Successes. cbn [buckets]. rewrite E.
  destruct w as [[|b bs] bt la]; [done|]. cbn in Hz |- *. apply Forall_cons in Hz as [_ Hz].
  assert (forall g, (forall b, b = mkBucket 0 0 -> g b = 0) -> Forall (fun b => g b = 0) (bucket_Reset <$> bs)) as Hg
    by (intros g Hg; eapply Forall_impl; [exact Hz|exact Hg]).
  change (swrap64 (0 + 0)) with 0. change (swrap64 (0 + swrap64 (0 + 1))) with 1.
  split; [apply (foldl_keep b_failure)|apply (foldl_keep b_success)]; (lia || (apply Hg; by intros ? ->)).
Qed.

Lemma circuit_retry_step d i r cb :
  circuit_ok cb -> tripped cb = 1 -> nextBackOff cb < since_failure (t_ready r) cb ->
  exists b next, NextBackOff (t_ready r) (BackOff cb) = (b, next) /\ circuit_ok (set_BackOff b next cb) /\
    circuit_Call d i r cb =
      match guarded_result d i with
      | Some e => (circuit_Fail r (set_BackOff b next cb), (Some e, true))
      | None => (circuit_Success r (set_BackOff b next cb), (None, true))
      end.
Proof.
  intros Hok Ht Hs. destruct (Ready_cases (t_ready r) cb Hok) as [(? & _)|[(_ & ? & _)|(_ & _ & b & next & E & HR)]];
    [congruence|unfold since_failure in Hs; lia|].
  exists b, next. split; [done|]. pose proof (Ready_ok (t_ready r) cb Hok) as Hok'.
  unfold circuit_Call. rewrite HR in Hok' |- *. by split.
Qed.

(** Retry of an open breaker, after any history of calls and for each of
    the three trip functions: a call made when the waiting time is over
    starts its function.  If it fails the breaker stays open, with the time of
    this failure and the policy's next waiting time; if it succeeds later than
    750 ms after the last failure the breaker is closed with all counters as
    after one success. *)
Theorem circuit_retry f d rnd t1 t2 cs i r :
  unit_draws rnd ->
  let cb := (run_circuit d cs (NewBreakerWithOptions f rnd t1 t2)).1 in
  tripped cb = 1 -> nextBackOff cb < since_failure (t_ready r) cb ->
  (circuit_Call d i r cb).2 = (guarded_result d i, true) /\
  let cb' := (circuit_Call d i r cb).1 in
  match guarded_result d i with
  | Some _ =>
      tripped cb' = 1 /\ nextBackOff cb' = (NextBackOff (t_ready r) (BackOff cb)).2 /\
      currentInterval (BackOff cb) / 2 <= nextBackOff cb' /\
      (lastFailure cb' = UnixNano (t_fail r) \/ lastFailure cb' = UnixNano (t_trip r))
  | None =>
      first_backoff_max < since_failure (t_state r) cb ->
      tripped cb' = 0 /\ consecFailures cb' = 0 /\ window_Failures (counts cb') = 0 /\
      window_Successes (counts cb') = 1
  end.
Proof.
  intros Hrnd cb Ht Hs.
  assert (circuit_ok cb) as Hok by (apply run_circuit_ok; by apply NewBreakerWithOptions_ok).
  destruct (circuit_retry_step d i r cb Hok Ht Hs) as (b & next & E & Hok' & EC). rewrite EC, E.
  destruct (NextBackOff_ok _ _ _ _ (co_backoff _ Hok) E) as (_ & _ & _ & [Hd _]).
  destruct (guarded_result d i) as [e|]; cbn [fst snd]; (split; [done|]).
  - unfold circuit_Fail. destruct (should_trip _); cbn -[window_Fail]; repeat split; auto.
  - intros Hlate. destruct (circuit_Success_cases r _ Hok') as (b1 & n1 & _ & Hn1 & _ & [([?|Hle] & _)|(_ & _ & b' & n' & _ & _ & ->)]).
    + cbn in *. congruence.
    + unfold since_failure in Hlate. cbn in Hle. lia.
    + split; [done|]. split; [done|]. cbn [counts]. apply window_Success_Reset.
      pose proof (co_buckets _ Hok') as Hl. by destruct (buckets (counts _)).
Qed.

(** A successful retry need not close the breaker: [Success] first draws a
    new waiting time and compares the time since the last failure with that;
    when it is longer than the one that admitted the retry, the breaker stays
    open and goes on refusing calls although the last one succeeded. *)
Theorem retry_success_may_not_close d i r cb b next b' next' :
  circuit_ok cb -> tripped cb = 1 -> guarded_result d i = None ->
  nextBackOff cb < since_failure (t_ready r) cb ->
  NextBackOff (t_ready r) (BackOff cb) = (b, next) ->
  NextBackOff (t_reset r) (backoff_Reset (t_reset r) b) = (b', next') ->
  since_failure (t_state r) cb <= next' ->
  (circuit_Call d i r cb).2 = (None, true) /\
  let cb' := (circuit_Call d i r cb).1 in
  tripped cb' = 1 /\
  (forall i' r', since_failure (t_ready r') cb <= next' -> circuit_Call d i' r' cb' = (cb', (Some ErrBreakerOpen, false))).
Proof.
  intros Hok Ht Hg Hs E E' Hlate.
  destruct (circuit_retry_step d i r cb Hok Ht Hs) as (b0 & n0 & E0 & Hok' & EC). rewrite E in E0. simplify_eq.
  rewrite EC, Hg. split; [done|]. cbn [fst]. pose proof (circuit_Success_ok r _ Hok') as Hok2. revert Hok2.
  destruct (circuit_Success_cases r _ Hok') as (b1 & n1 & _ & _ & E1 & [(_ & ->)|(_ & Hlt & _)]); cbn in E1; rewrite E' in E1; simplify_eq.
  - intros Hok2. split; [done|]. intros i' r' Hr'. unfold circuit_Call.
    destruct (Ready_cases (t_ready r') _ Hok2) as [(Hc & _)|[(_ & _ & ->)|(_ & Hc & _)]]; cbn in Hc || idtac.
    + congruence.
    + done.
    + unfold since_failure in Hr'. cbn in Hc. lia.
  - unfold since_failure in Hlate. cbn in Hlt. lia.
Qed.

(** ** Witnesses *)

(** A generator that draws 0 first and the largest number below one ever after. *)
Definition sample_rand : rand := mkRand (fun n => if n is O then f64_of_Z 0 else mkF64 (2 ^ 53 - 1) (-53)) 0.
Lemma sample_rand_unit : unit_draws sample_rand.
Proof. intros [|n]; vm_compute; split; congruence. Qed.

(** A call all of whose readings are [ms] milliseconds after the epoch. *)
Definition at_ms (ms : Z) : readings :=
  let t := unixEpoch + ms * Millisecond in mkReadings t t t t t t t.
Definition call_ok (ms : Z) : call_input * readings := (mkCallInput None false 0 0 0, at_ms ms).
Definition call_bad (ms : Z) : call_input * readings :=
  (mkCallInput (Some (errorString (str "refused"))) false 0 0 0, at_ms ms).
Definition sample_calls : list (call_input * readings) := [call_bad 1; call_ok 2; call_bad 3; call_bad 4].
Definition sample_breaker : CircuitBreaker := NewConsecutiveBreaker 2 sample_rand unixEpoch unixEpoch.

Lemma consecutive_breaker_refines_witness :
  (run_circuit 0 (sample_calls ++ [call_ok 100; call_ok 254]) sample_breaker).2 =
    [(Some (errorString (str "refused")), true); (None, true); (Some (errorString (str "refused")), true);
     (Some (errorString (str "refused")), true); (Some ErrBreakerOpen, false); (Some ErrBreakerOpen, false)].
Proof.
  unfold sample_breaker. rewrite (consecutive_breaker_refines 2 0 sample_rand unixEpoch unixEpoch).
  - vm_compute. reflexivity.
  - lia.
  - apply sample_rand_unit.
  - vm_compute. repeat split; congruence.
Defined.

(** A retry at 0.9 s closes the breaker. *)
Lemma circuit_retry_witness :
  let cb := (run_circuit 0 sample_calls sample_breaker).1 in
  (circuit_Call 0 (call_ok 900).1 (at_ms 900) cb).2 = (None, true) /\
  tripped (circuit_Call 0 (call_ok 900).1 (at_ms 900) cb).1 = 0.
Proof.
  destruct (circuit_retry (ConsecutiveTripFunc 2) 0 sample_rand unixEpoch unixEpoch sample_calls (call_ok 900).1 (at_ms 900))
    as [H1 H2]; [apply sample_rand_unit|vm_compute; reflexivity..|].
  split; [exact H1|]. apply H2. vm_compute. reflexivity.
Defined.

(** A first breaker that waits only 250 ms is retried after 300 ms. *)
Definition tripped_breaker : CircuitBreaker :=
  (run_circuit 0 [call_bad 1] (NewConsecutiveBreaker 1 sample_rand unixEpoch unixEpoch)).1.

Lemma retry_success_may_not_close_witness :
  (circuit_Call 0 (call_ok 301).1 (at_ms 301) tripped_breaker).2 = (None, true) /\
  tripped (circuit_Call 0 (call_ok 301).1 (at_ms 301) tripped_breaker).1 = 1.
Proof.
  destruct (NextBackOff (t_ready (at_ms 301)) (BackOff tripped_breaker)) as [b next] eqn:E.
  destruct (NextBackOff (t_reset (at_ms 301)) (backoff_Reset (t_reset (at_ms 301)) b)) as [b' next'] eqn:E'.
  destruct (retry_success_may_not_close 0 (call_ok 301).1 (at_ms 301) tripped_breaker b next b' next') as (H1 & H2 & _);
    [|reflexivity| reflexivity |vm_compute; reflexivity|exact E|exact E'| |by split].
  - apply run_circuit_ok, NewBreakerWithOptions_ok, sample_rand_unit.
  - replace next' with (NextBackOff (t_reset (at_ms 301)) (backoff_Reset (t_reset (at_ms 301))
      (NextBackOff (t_ready (at_ms 301)) (BackOff tripped_breaker)).1)).2 by (rewrite E; cbn [fst]; by rewrite E').
    vm_compute. congruence.
Defined.
