(* ===== verification/Overlap.v ===== *)
(** * Overlapping calls of a library breaker
    (src/vendor/github.com/rubyist/circuitbreaker/circuitbreaker.go, behind the
    three breakers of src/circuit)

    [Circuit] makes the calls of a breaker one after the other.  Here any
    number of goroutines call it at once, and a step is one atomic operation
    or one critical section: a load or store of a field, a section under
    [backoffLock], an update or a sum under the window's lock.  A call that
    runs alone is the [circuit_Call] of Circuit ([alone_is_call]), so its
    theorems hold whenever nothing overlaps. *)
From S2P Require Import Prelude GoTime Float64 Backoff Breaker Circuit.

(** [state()] is called by [Ready] and by [Success]. *)
Inductive caller := InReady | InSuccess.

(** What a goroutine does next. *)
Inductive pc :=
| PTripped (c : caller)
| PBroken (c : caller)
| PSince (c : caller)
| PLock (c : caller) (since : Z)
| PState (c : caller) (st : cstate)
| PRun
| PFail (e : error)
| PFailConsec (e : error)
| PFailLast (e : error)
| PTest (e : error)
| PTestSuccesses (e : error) (failures : Z)
| PTestRate (e : error) (samples : Z)
| PTrip (e : error)
| PTripLast (e : error)
| PPolicy
| PResetTripped
| PResetHalf
| PResetConsec
| PResetCounts
| PConsec
| PCount
| PDone (err : option error) (ran : bool).

(** What the outside contributes to a step: the clock, and the result of the
    guarded function. *)
Record tick := mkTick { k_now : Z; k_access : Z; k_result : option error }.

Definition micro (x : tick) (p : pc) (cb : CircuitBreaker) : CircuitBreaker * pc :=
  match p with
  | PTripped c => (cb, if tripped cb =? 1 then PBroken c else PState c closed)
  | PBroken c => (cb, if broken cb =? 1 then PState c open else PSince c)
  | PSince c => (cb, PLock c (time_Sub (k_now x) (time_Unix0 (lastFailure cb))))
  | PLock c since =>
      if negb (nextBackOff cb =? Stop) && (nextBackOff cb <? since) then
        if halfOpens cb =? 0 then
          let cb := set_halfOpens 1 cb in
          let '(b, next) := NextBackOff (k_now x) (BackOff cb) in
          (set_BackOff b next cb, PState c halfopen)
        else (cb, PState c open)
      else (cb, PState c open)
  | PState InReady halfopen => (set_halfOpens 0 cb, PRun)
  | PState InReady closed => (cb, PRun)
  | PState InReady open => (cb, PDone (Some ErrBreakerOpen) false)
  | PRun => (cb, match k_result x with Some e => PFail e | None => PPolicy end)
  | PFail e => (set_counts (window_Fail (k_now x) (k_access x) (counts cb)) cb, PFailConsec e)
  | PFailConsec e => (set_consecFailures (swrap64 (consecFailures cb + 1)) cb, PFailLast e)
  | PFailLast e => (set_lastFailure (UnixNano (k_now x)) cb, PTest e)
  | PTest e =>
      (cb, match ShouldTrip cb with
           | ThresholdTripFunc threshold =>
               if window_Failures (counts cb) =? threshold then PTrip e else PDone (Some e) true
           | ConsecutiveTripFunc threshold =>
               if consecFailures cb =? threshold then PTrip e else PDone (Some e) true
           | RateTripFunc _ _ => PTestSuccesses e (window_Failures (counts cb))
           end)
  | PTestSuccesses e failures => (cb, PTestRate e (swrap64 (failures + window_Successes (counts cb))))
  | PTestRate e samples =>
      (cb, match ShouldTrip cb with
           | RateTripFunc rate minSamples =>
               if (minSamples <=? samples) && f64_leb rate (window_ErrorRate (counts cb)) then PTrip e else PDone (Some e) true
           | _ => PDone (Some e) true
           end)
  | PTrip e => (set_tripped 1 cb, PTripLast e)
  | PTripLast e => (set_lastFailure (UnixNano (k_now x)) cb, PDone (Some e) true)
  | PPolicy =>
      let '(b, next) := NextBackOff (k_now x) (backoff_Reset (k_now x) (BackOff cb)) in
      (set_BackOff b next cb, PTripped InSuccess)
  | PState InSuccess halfopen => (set_broken 0 cb, PResetTripped)
  | PState InSuccess _ => (cb, PConsec)
  | PResetTripped => (set_tripped 0 cb, PResetHalf)
  | PResetHalf => (set_halfOpens 0 cb, PResetConsec)
  | PResetConsec => (set_consecFailures 0 cb, PResetCounts)
  | PResetCounts => (set_counts (window_Reset (counts cb)) cb, PConsec)
  | PConsec => (set_consecFailures 0 cb, PCount)
  | PCount => (set_counts (window_Success (k_now x) (k_access x) (counts cb)) cb, PDone None true)
  | PDone _ _ => (cb, p)
  end.

Definition is_done (p : pc) : bool := match p with PDone _ _ => true | _ => false end.

(** ** A call on its own *)

(** The clock readings of a call, by what it does next. *)
Definition tick_at (d : Z) (i : call_input) (r : readings) (p : pc) : tick :=
  let now :=
    match p with
    | PSince InReady | PLock InReady _ => t_ready r
    | PSince InSuccess | PLock InSuccess _ => t_state r
    | PFail _ | PCount => t_bucket r
    | PFailLast _ => t_fail r
    | PTripLast _ => t_trip r
    | PPolicy => t_reset r
    | _ => 0
    end in
  mkTick now (t_access r) (guarded_result d i).

Fixpoint alone (n : nat) (d : Z) (i : call_input) (r : readings) (p : pc) (cb : CircuitBreaker) : CircuitBreaker * pc :=
  match n with
  | O => (cb, p)
  | S n' => let '(cb', p') := micro (tick_at d i r p) p cb in alone n' d i r p' cb'
  end.

(** ** Many calls *)

Record world := mkWorld { w_breaker : CircuitBreaker; w_calls : gmap nat pc }.

Inductive overlap_step : world -> world -> Prop :=
| overlap_start cb cs i :
    cs !! i = None -> overlap_step (mkWorld cb cs) (mkWorld cb (<[i := PTripped InReady]> cs))
| overlap_micro cb cs i p x cb' p' :
    cs !! i = Some p -> is_done p = false -> micro x p cb = (cb', p') ->
    overlap_step (mkWorld cb cs) (mkWorld cb' (<[i := p']> cs)).

Definition new_world (cb : CircuitBreaker) : world := mkWorld cb ∅.

(** All calls have returned. *)
Definition quiescent (w : world) : Prop := forall i p, w_calls w !! i = Some p -> is_done p = true.

(** ** Proofs *)

Lemma alone_S n d i r p cb :
  alone (S n) d i r p cb = alone n d i r (micro (tick_at d i r p) p cb).2 (micro (tick_at d i r p) p cb).1.
Proof. cbn. by destruct (micro _ p cb). Qed.

Lemma alone_done n d i r cb e b : alone n d i r (PDone e b) cb = (cb, PDone e b).
Proof. induction n as [|n IH]; [done|]. rewrite alone_S. exact IH. Qed.

Lemma alone_add n m d i r : forall p cb,
  alone (n + m) d i r p cb = alone m d i r (alone n d i r p cb).2 (alone n d i r p cb).1.
Proof. induction n as [|n IH]; intros p cb; [done|]. change (S n + m)%nat with (S (n + m)). by rewrite !alone_S, IH. Qed.

(** [state()] takes four steps at most. *)
Lemma alone_state d i r c cb :
  let now := match c with InReady => t_ready r | InSuccess => t_state r end in
  exists n, (n <= 4)%nat /\ alone n d i r (PTripped c) cb = ((state now cb).1, PState c (state now cb).2).
Proof.
  intros now. unfold state. destruct (tripped cb =? 1) eqn:E1; [|exists 1%nat; split; [lia|]; cbn; by rewrite E1].
  destruct (broken cb =? 1) eqn:E2; [exists 2%nat; split; [lia|]; cbn; rewrite E1; cbn; by rewrite E2|].
  exists 4%nat. split; [lia|]. destruct c; subst now; cbn; rewrite E1; cbn; rewrite E2; cbn.
  all: destruct (_ && _); [|done]; destruct (halfOpens cb =? 0); [|done].
  all: by destruct (NextBackOff _ (BackOff cb)).
Qed.

Lemma alone_Fail d i r e cb :
  exists n, (n <= 8)%nat /\ alone n d i r (PFail e) cb = (circuit_Fail r cb, PDone (Some e) true).
Proof.
  unfold circuit_Fail, should_trip. cbn -[window_Fail window_Failures window_Successes window_ErrorRate].
  set (cb1 := set_lastFailure _ _).
  assert (alone 3 d i r (PFail e) cb = (cb1, PTest e)) as H3 by done.
  destruct (ShouldTrip cb) as [th|th|rate mins] eqn:E.
  - destruct (window_Failures _ =? th) eqn:Et.
    + exists 6%nat. split; [lia|]. rewrite (alone_add 3 3), H3. cbn -[window_Fail window_Failures]. rewrite E. cbn -[window_Fail window_Failures].
      by rewrite Et.
    + exists 4%nat. split; [lia|]. rewrite (alone_add 3 1), H3. cbn -[window_Fail window_Failures]. by rewrite E, Et.
  - destruct (_ =? th) eqn:Et.
    + exists 6%nat. split; [lia|]. rewrite (alone_add 3 3), H3. cbn -[window_Fail window_Failures]. rewrite E. cbn -[window_Fail window_Failures].
      by rewrite Et.
    + exists 4%nat. split; [lia|]. rewrite (alone_add 3 1), H3. cbn -[window_Fail window_Failures]. by rewrite E, Et.
  - destruct (_ && _) eqn:Et.
    + exists 8%nat. split; [lia|]. rewrite (alone_add 3 5), H3.
      cbn -[window_Fail window_Failures window_Successes window_ErrorRate]. rewrite E.
      cbn -[window_Fail window_Failures window_Successes window_ErrorRate]. by rewrite E, Et.
    + exists 6%nat. split; [lia|]. rewrite (alone_add 3 3), H3.
      cbn -[window_Fail window_Failures window_Successes window_ErrorRate]. rewrite E.
      cbn -[window_Fail window_Failures window_Successes window_ErrorRate]. by rewrite E, Et.
Qed.

Lemma alone_seq n m d i r p cb cb' p' : alone n d i r p cb = (cb', p') -> alone (n + m) d i r p cb = alone m d i r p' cb'.
Proof. intros H. by rewrite alone_add, H. Qed.

Lemma alone_Success d i r cb :
  exists n, (n <= 12)%nat /\ alone n d i r PPolicy cb = (circuit_Success r cb, PDone None true).
Proof.
  unfold circuit_Success. destruct (NextBackOff (t_reset r) (backoff_Reset (t_reset r) (BackOff cb))) as [b next] eqn:E.
  assert (alone 1 d i r PPolicy cb = (set_BackOff b next cb, PTripped InSuccess)) as H1 by (cbn; by rewrite E).
  destruct (alone_state d i r InSuccess (set_BackOff b next cb)) as (n & Hn & H2). cbn zeta in H2.
  destruct (state (t_state r) (set_BackOff b next cb)) as [cb1 st]. cbn [fst snd] in H2.
  destruct (bool_decide (st = halfopen)) eqn:Eh.
  - apply bool_decide_eq_true in Eh as ->. exists (1 + (n + 7))%nat. split; [lia|].
    rewrite (alone_seq _ _ _ _ _ _ _ _ _ H1), (alone_seq _ _ _ _ _ _ _ _ _ H2). done.
  - exists (1 + (n + 3))%nat. split; [lia|].
    rewrite (alone_seq _ _ _ _ _ _ _ _ _ H1), (alone_seq _ _ _ _ _ _ _ _ _ H2). by destruct st.
Qed.

(** A call that nothing overlaps is a call of Circuit. *)
Lemma alone_call d i r cb :
  exists n, (n <= 18)%nat /\ alone n d i r (PTripped InReady) cb =
    ((circuit_Call d i r cb).1, PDone (circuit_Call d i r cb).2.1 (circuit_Call d i r cb).2.2).
Proof.
  destruct (alone_state d i r InReady cb) as (n & Hn & H1). cbn zeta in H1. unfold circuit_Call, Ready.
  destruct (state (t_ready r) cb) as [cb1 st]. cbn [fst snd] in H1.
  assert (forall cb2, (st = closed \/ st = halfopen) -> micro (tick_at d i r (PState InReady st)) (PState InReady st) cb1 = (cb2, PRun) ->
    exists n, (n <= 18)%nat /\ alone n d i r (PTripped InReady) cb =
      match guarded_result d i with
      | Some e => (circuit_Fail r cb2, PDone (Some e) true)
      | None => (circuit_Success r cb2, PDone None true)
      end) as Hrun.
  { intros cb2 _ Hm. assert (alone 1 d i r (PState InReady st) cb1 = (cb2, PRun)) as H2 by (rewrite alone_S, Hm; done).
    destruct (guarded_result d i) as [e|] eqn:Eg.
    - destruct (alone_Fail d i r e cb2) as (m & Hm' & H3). exists (n + (1 + (1 + m)))%nat. split; [lia|].
      rewrite (alone_seq _ _ _ _ _ _ _ _ _ H1), (alone_seq _ _ _ _ _ _ _ _ _ H2), alone_S. cbn [micro fst snd tick_at k_result]. by rewrite Eg.
    - destruct (alone_Success d i r cb2) as (m & Hm' & H3). exists (n + (1 + (1 + m)))%nat. split; [lia|].
      rewrite (alone_seq _ _ _ _ _ _ _ _ _ H1), (alone_seq _ _ _ _ _ _ _ _ _ H2), alone_S. cbn [micro fst snd tick_at k_result]. by rewrite Eg. }
  destruct st; cbn.
  - exists (n + 1)%nat. split; [lia|]. by rewrite (alone_seq _ _ _ _ _ _ _ _ _ H1).
  - destruct (Hrun (set_halfOpens 0 cb1)) as (m & Hm & E); [by right|done|]. exists m. rewrite E. by destruct (guarded_result d i).
  - destruct (Hrun cb1) as (m & Hm & E); [by left|done|]. exists m. rewrite E. by destruct (guarded_result d i).
Qed.

(** The interleaving model extends the sequential one: twenty steps of a
    call that nothing overlaps leave the breaker as [circuit_Call] does and
    return its result, in every state and for each trip function. *)
Theorem alone_is_call d i r cb :
  alone 20 d i r (PTripped InReady) cb =
    ((circuit_Call d i r cb).1, PDone (circuit_Call d i r cb).2.1 (circuit_Call d i r cb).2.2).
Proof.
  destruct (alone_call d i r cb) as (n & Hn & H). replace 20%nat with (n + (20 - n))%nat by lia.
  by rewrite (alone_seq _ _ _ _ _ _ _ _ _ H), alone_done.
Qed.

(** ** The claim of a retry *)

(** Between winning the compare-and-swap on [halfOpens] and setting it back. *)
Definition holder (p : pc) : bool :=
  match p with PState _ halfopen | PResetTripped | PResetHalf => true | _ => false end.

(** [circuit_ok] without the claim. *)
Record sound (cb : CircuitBreaker) : Prop := {
  so_backoff : backoff_ok (BackOff cb);
  so_next : 250 * Millisecond <= nextBackOff cb <= 90 * Second + 2;
  so_broken : broken cb = 0;
  so_tripped : tripped cb = 0 \/ tripped cb = 1;
  so_buckets : length (buckets (counts cb)) = DefaultWindowBuckets
}.

(** What every step keeps: the claim is held by at most one call. *)
Record overlap_inv (w : world) : Prop := {
  oi_sound : sound (w_breaker w);
  oi_claim : halfOpens (w_breaker w) = 0 \/ halfOpens (w_breaker w) = 1;
  oi_free : halfOpens (w_breaker w) = 0 -> forall i p, w_calls w !! i = Some p -> holder p = false;
  oi_held : halfOpens (w_breaker w) = 1 -> exists i p, w_calls w !! i = Some p /\ holder p = true /\
    forall j q, w_calls w !! j = Some q -> holder q = true -> j = i
}.

Lemma micro_sound x p cb : sound cb -> sound (micro x p cb).1.
Proof.
  intros [Hb Hn Hbr Ht Hl].
  assert (forall cb', BackOff cb' = BackOff cb -> nextBackOff cb' = nextBackOff cb -> broken cb' = 0 ->
    tripped cb' = 0 \/ tripped cb' = 1 -> length (buckets (counts cb')) = DefaultWindowBuckets -> sound cb') as Hs.
  { intros cb' E1 E2 E3 E4 E5. split; by rewrite ?E1, ?E2. }
  destruct p as [c|c|c|c since|c st| | | | | | | | | | | | | | | | |]; cbn -[window_Fail window_Success window_Reset]; try (by apply Hs; auto).
  - destruct (_ && _); [|by apply Hs]. destruct (halfOpens cb =? 0); [|by apply Hs].
    destruct (NextBackOff _ (BackOff cb)) as [b next] eqn:E. destruct (NextBackOff_bounds _ _ _ _ Hb E). by split.
  - destruct c, st; by apply Hs; auto.
  - apply Hs; auto. cbn -[getLatestBucket]. by rewrite length_ring_update, length_getLatestBucket.
  - destruct (NextBackOff _ (backoff_Reset _ _)) as [b next] eqn:E.
    destruct (NextBackOff_bounds _ _ _ _ (backoff_Reset_ok _ _ Hb) E). by split.
  - apply Hs; auto. cbn. by rewrite length_fmap.
  - apply Hs; auto. cbn -[getLatestBucket]. by rewrite length_ring_update, length_getLatestBucket.
Qed.

(** The claim is taken by one who sees it free and given back by its holder. *)
Lemma micro_claim x p cb :
  let '(cb', p') := micro x p cb in
  (halfOpens cb' = halfOpens cb /\ holder p' = holder p) \/
  (halfOpens cb = 0 /\ halfOpens cb' = 1 /\ holder p' = true) \/
  (holder p = true /\ halfOpens cb' = 0 /\ holder p' = false).
Proof.
  destruct p as [c|c|c|c since|c st| |e|e|e|e|e f|e s|e|e| | | | | | | |]; cbn -[window_Fail window_Success window_Reset]; auto.
  - destruct (tripped cb =? 1); auto.
  - destruct (broken cb =? 1); auto.
  - destruct (_ && _); [|auto]. destruct (halfOpens cb =? 0) eqn:E; zbool; [|auto].
    destruct (NextBackOff _ (BackOff cb)) as [b next]. cbn. auto.
  - destruct c, st; cbn; auto.
  - destruct (k_result x); auto.
  - destruct (ShouldTrip cb) as [th|th|rate mins]; [destruct (_ =? th)|destruct (_ =? th)|]; auto.
  - destruct (ShouldTrip cb) as [th|th|rate mins]; [| |destruct (_ && _)]; auto.
  - destruct (NextBackOff _ (backoff_Reset _ _)). auto.
Qed.

Lemma overlap_step_inv w w' : overlap_inv w -> overlap_step w w' -> overlap_inv w'.
Proof.
  intros [Hs Hc Hf Hh] Hstep. destruct Hstep as [cb cs i Hi|cb cs i p x cb' p' Hi Hd Hm]; cbn in *.
  - assert (forall j q, <[i := PTripped InReady]> cs !! j = Some q -> holder q = true -> cs !! j = Some q) as Hnew.
    { intros j q. rewrite lookup_insert. case_decide; [by intros [= <-]|done]. }
    split; cbn; [done|done| |].
    + intros H0 j q Hj. destruct (holder q) eqn:E; [|done]. by rewrite <- E, (Hf H0 j q (Hnew j q Hj E)).
    + intros H1. destruct (Hh H1) as (j & q & Hj & Hq & Hu). exists j, q. split; [|eauto].
      rewrite lookup_insert_ne; [done|]. intros <-. congruence.
  - pose proof (micro_sound x p cb Hs) as Hs'. pose proof (micro_claim x p cb) as Hcl. rewrite Hm in Hs', Hcl. cbn in Hs'.
    assert (forall j q, <[i := p']> cs !! j = Some q -> j = i /\ q = p' \/ j <> i /\ cs !! j = Some q) as Hlk.
    { intros j q. rewrite lookup_insert. case_decide; [intros [= <-]; by left|by right]. }
    destruct Hcl as [[Eh Ep]|[(E0 & E1 & Ep)|(Ep & E0 & Ep')]]; split; cbn; try done; try (by auto).
    + rewrite Eh. exact Hc.
    + intros H0 j q Hj. rewrite Eh in H0. destruct (Hlk _ _ Hj) as [[-> ->]|[_ Hj']]; [rewrite Ep|]; by eapply Hf.
    + intros H1. rewrite Eh in H1. destruct (Hh H1) as (j & q & Hj & Hq & Hu). destruct (decide (j = i)) as [->|Hne].
      * exists i, p'. rewrite lookup_insert_eq. split; [done|]. split; [congruence|]. intros k q' Hk Hq'.
        destruct (Hlk _ _ Hk) as [[-> _]|[_ Hk']]; [done|by eapply Hu].
      * exists j, q. rewrite lookup_insert_ne by done. split; [done|]. split; [done|]. intros k q' Hk Hq'.
        destruct (Hlk _ _ Hk) as [[-> ->]|[_ Hk']]; [eapply Hu; [done|congruence]|by eapply Hu].
    + intros H0. congruence.
    + intros _. exists i, p'. rewrite lookup_insert_eq. split; [done|]. split; [done|]. intros k q' Hk Hq'.
      destruct (Hlk _ _ Hk) as [[-> _]|[_ Hk']]; [done|]. rewrite (Hf E0 _ _ Hk') in Hq'. done.
    + intros _ j q Hj. destruct (Hlk _ _ Hj) as [[-> ->]|[Hne Hj']]; [done|]. destruct (holder q) eqn:E; [|done].
      destruct Hc as [Hc|Hc]; [rewrite (Hf Hc _ _ Hi) in Ep; done|]. destruct (Hh Hc) as (k & ? & _ & _ & Hu).
      by rewrite (Hu _ _ Hj' E), (Hu _ _ Hi Ep) in Hne.
    + intros H1. congruence.
Qed.

Lemma overlap_reachable cb w : circuit_ok cb -> rtc overlap_step (new_world cb) w -> overlap_inv w.
Proof.
  intros Hok Hr. assert (overlap_inv (new_world cb)) as H0.
  { destruct Hok as [? ? Hh ? ? ?]. split; cbn; [by split|by left|done|by rewrite Hh]. }
  clear Hok. induction Hr as [|a b c Hab _ IH]; [done|]. by apply IH, (overlap_step_inv a).
Qed.

Lemma quiescent_ok w : overlap_inv w -> quiescent w -> circuit_ok (w_breaker w).
Proof.
  intros [[] Hc Hf Hh] Hq. destruct Hc as [Hc|Hc]; [by split|]. destruct (Hh Hc) as (i & p & Hi & Hp & _).
  specialize (Hq _ _ Hi). by destruct p.
Qed.

(** C31.  A retry is claimed by one call at a time and the claim is never lost:
    however the calls of any number of goroutines on a library breaker
    overlap, at most one of them is between winning the compare-and-swap on
    [halfOpens] and setting it back; and whenever no call is in progress the
    breaker is as sequential calls leave it, so that a call after the waiting
    time starts its function and a call within 250 ms of the last failure of
    an open breaker does not. *)
Theorem retry_claim_exclusive f rnd t1 t2 w :
  unit_draws rnd -> rtc overlap_step (new_world (NewBreakerWithOptions f rnd t1 t2)) w ->
  (forall i j p q, w_calls w !! i = Some p -> w_calls w !! j = Some q -> holder p = true -> holder q = true -> i = j) /\
  (quiescent w -> tripped (w_breaker w) = 1 -> forall d i r,
     (nextBackOff (w_breaker w) < since_failure (t_ready r) (w_breaker w) ->
        (circuit_Call d i r (w_breaker w)).2 = (guarded_result d i, true)) /\
     (t_ready r <= time_Unix0 (lastFailure (w_breaker w)) + 250 * Millisecond ->
        circuit_Call d i r (w_breaker w) = (w_breaker w, (Some ErrBreakerOpen, false)))).
Proof.
  intros Hrnd Hr. assert (overlap_inv w) as Hinv by (eapply overlap_reachable; [by apply NewBreakerWithOptions_ok|exact Hr]).
  split.
  - intros i j p q Hi Hj Hp Hq. destruct (oi_claim _ Hinv) as [H0|H1].
    + by rewrite (oi_free _ Hinv H0 _ _ Hi) in Hp.
    + destruct (oi_held _ Hinv H1) as (k & _ & _ & _ & Hu). by rewrite (Hu _ _ Hi Hp), (Hu _ _ Hj Hq).
  - intros Hq Ht d i r. pose proof (quiescent_ok w Hinv Hq) as Hok. split.
    + intros Hs. destruct (circuit_retry_step d i r _ Hok Ht Hs) as (b & next & _ & _ & ->). by destruct (guarded_result d i).
    + intros Hs. eapply (open_refuses d i r (time_Unix0 (lastFailure (w_breaker w)))); try done. unfold time_Unix0. lia.
Qed.

(** ** A trip that is missed *)

(** A world with two calls. *)
Definition two (cb : CircuitBreaker) (p q : pc) : world := mkWorld cb (<[0%nat := p]> {[1%nat := q]}).

Lemma two_alone n d i r : forall cb p q,
  rtc overlap_step (two cb p q) (two (alone n d i r p cb).1 (alone n d i r p cb).2 q) /\
  rtc overlap_step (two cb q p) (two (alone n d i r p cb).1 q (alone n d i r p cb).2).
Proof.
  induction n as [|n IH]; intros cb p q; [by split; apply rtc_refl|]. rewrite alone_S.
  destruct (is_done p) eqn:Ed.
  { destruct p; try discriminate Ed. cbn. rewrite alone_done. split; apply rtc_refl. }
  destruct (micro (tick_at d i r p) p cb) as [cb' p'] eqn:E. cbn [fst snd]. destruct (IH cb' p' q) as [H0 H1].
  split; (eapply rtc_l; [|done]); unfold two.
  - pose proof (overlap_micro cb (<[0%nat := p]> {[1%nat := q]}) 0 p _ _ _ ltac:(apply lookup_insert_eq) Ed E) as H.
    by rewrite insert_insert_eq in H.
  - pose proof (overlap_micro cb (<[0%nat := q]> {[1%nat := p]}) 1 p _ _ _ ltac:(by vm_compute) Ed E) as H.
    by rewrite insert_insert_ne, insert_singleton_eq in H by done.
Qed.

(** Past its threshold a consecutive breaker does not open. *)
Lemma past_threshold_never_opens threshold d cs : forall cb,
  circuit_ok cb -> ShouldTrip cb = ConsecutiveTripFunc threshold -> tripped cb = 0 -> threshold < consecFailures cb ->
  - 2 ^ 63 <= threshold -> consecFailures cb + Z.of_nat (length cs) < 2 ^ 63 ->
  Forall (fun c => guarded_result d c.1 <> None) cs ->
  (run_circuit d cs cb).2 = (fun c => (guarded_result d c.1, true)) <$> cs.
Proof.
  induction cs as [|[i r] cs IH]; intros cb Hok Hf Ht Hth Hmin Hlim Hbad; [done|]. apply Forall_cons in Hbad as [Hi Hbad].
  cbn [run_circuit fmap list_fmap length fst] in *. pose proof (circuit_Call_ok d i r cb Hok) as Hok'.
  destruct (guarded_result d i) as [e|] eqn:Eg; [|done].
  assert (circuit_Call d i r cb = (circuit_Fail r cb, (Some e, true))) as EC.
  { unfold circuit_Call. destruct (Ready_cases (t_ready r) cb Hok) as [(_ & ->)|[(? & _)|(? & _)]]; [|congruence..]. cbn. by rewrite Eg. }
  assert (circuit_Fail r cb = set_lastFailure (UnixNano (t_fail r)) (set_consecFailures (consecFailures cb + 1)
    (set_counts (window_Fail (t_bucket r) (t_access r) (counts cb)) cb))) as EF.
  { unfold circuit_Fail, should_trip. cbn -[window_Fail]. rewrite Hf, swrap64_small by lia.
    by rewrite (proj2 (Z.eqb_neq _ _)) by lia. }
  rewrite EC in *. cbn [fst] in Hok'. rewrite EF in *.
  specialize (IH _ Hok' Hf Ht ltac:(cbn; lia) Hmin ltac:(cbn; lia) Hbad).
  destruct (run_circuit d cs _) as [cb'' xs]. cbn in *. by rewrite IH.
Qed.

(** C39.  Overlapping failures can keep a consecutive breaker from ever opening:
    its trip function compares the count with the threshold for equality, so
    when two calls that fail both count before either compares, the count has
    passed the threshold unseen.  From a breaker one failure short of its
    threshold two overlapping calls lead there; both return their error, the
    breaker is closed, and every later failing call is started as well. *)
Theorem overlapping_failures_never_trip threshold d cb i e cs :
  circuit_ok cb -> ShouldTrip cb = ConsecutiveTripFunc threshold -> tripped cb = 0 ->
  consecFailures cb = threshold - 1 -> 0 < threshold < 2 ^ 62 -> guarded_result d i = Some e ->
  Forall (fun c => guarded_result d c.1 <> None) cs -> Z.of_nat (length cs) < 2 ^ 62 ->
  exists w, rtc overlap_step (new_world cb) w /\ quiescent w /\
    w_calls w !! 0%nat = Some (PDone (Some e) true) /\ w_calls w !! 1%nat = Some (PDone (Some e) true) /\
    tripped (w_breaker w) = 0 /\
    (run_circuit d cs (w_breaker w)).2 = (fun c => (guarded_result d c.1, true)) <$> cs.
Proof.
  intros Hok Hf Ht Hc Hth Hg Hbad Hlen. set (r := readings_of i).
  set (bump cb := set_consecFailures (swrap64 (consecFailures cb + 1)) (set_counts (window_Fail (t_bucket r) (t_access r) (counts cb)) cb)).
  set (mark cb := set_lastFailure (UnixNano (t_fail r)) cb).
  assert (forall cb, tripped cb = 0 -> alone 5 d i r (PTripped InReady) cb = (bump cb, PFailLast e)) as Hbump.
  { intros cb' Ht'. cbn -[window_Fail swrap64]. rewrite Ht'. cbn -[window_Fail swrap64]. by rewrite Hg. }
  assert (forall cb, ShouldTrip cb = ConsecutiveTripFunc threshold -> consecFailures cb = threshold + 1 ->
    alone 2 d i r (PFailLast e) cb = (mark cb, PDone (Some e) true)) as Htest.
  { intros cb' Hf' Hc'. cbn. rewrite Hf', Hc', (proj2 (Z.eqb_neq _ _)) by lia. done. }
  set (cb2 := bump (bump cb)).
  assert (consecFailures cb2 = threshold + 1) as Hc2.
  { unfold cb2, bump. cbn -[swrap64]. rewrite Hc, (swrap64_small (threshold - 1 + 1)), swrap64_small by lia. lia. }
  exists (two (mark (mark cb2)) (PDone (Some e) true) (PDone (Some e) true)).
  assert (rtc overlap_step (new_world cb) (two (mark (mark cb2)) (PDone (Some e) true) (PDone (Some e) true))) as Hr.
  { eapply rtc_l; [apply (overlap_start cb ∅ 1); done|]. eapply rtc_l; [apply (overlap_start cb _ 0); by vm_compute|].
    change (mkWorld cb _) with (two cb (PTripped InReady) (PTripped InReady)).
    etrans; [apply (proj1 (two_alone 5 d i r cb _ _))|]. rewrite Hbump by done. cbn [fst snd].
    etrans; [apply (proj2 (two_alone 5 d i r _ _ _))|]. rewrite Hbump by done. cbn [fst snd].
    etrans; [apply (proj1 (two_alone 2 d i r _ _ _))|]. rewrite Htest by done. cbn [fst snd].
    etrans; [apply (proj2 (two_alone 2 d i r _ _ _))|]. rewrite Htest by done. apply rtc_refl. }
  assert (quiescent (two (mark (mark cb2)) (PDone (Some e) true) (PDone (Some e) true))) as Hq.
  { intros k p. unfold two. cbn. rewrite lookup_insert. case_decide; [by intros [= <-]|]. rewrite lookup_singleton.
    case_decide; [by intros [= <-]|done]. }
  split; [done|]. split; [done|]. split; [done|]. split; [by vm_compute|]. split; [done|].
  apply (past_threshold_never_opens threshold); try done; try lia.
  - eapply quiescent_ok; [by eapply overlap_reachable|done].
  - cbn -[cb2] in *. change (consecFailures (w_breaker _)) with (consecFailures cb2). lia.
  - change (consecFailures (w_breaker _)) with (consecFailures cb2). lia.
Qed.

(** ** Witnesses *)

(** A call of a new breaker with threshold one has failed and tripped it. *)
Definition tripped_world : world :=
  let cb := NewConsecutiveBreaker 1 sample_rand unixEpoch unixEpoch in
  let x := alone 20 0 (call_bad 1).1 (at_ms 1) (PTripped InReady) cb in
  mkWorld x.1 {[0%nat := x.2]}.

Lemma tripped_reachable : rtc overlap_step (new_world (NewConsecutiveBreaker 1 sample_rand unixEpoch unixEpoch)) tripped_world.
Proof.
  eapply rtc_l; [apply (overlap_start _ ∅ 0); done|]. unfold tripped_world. generalize 20%nat.
  generalize (PTripped InReady), (NewConsecutiveBreaker 1 sample_rand unixEpoch unixEpoch).
  intros p cb n. revert p cb. induction n as [|n IH]; intros p cb; [apply rtc_refl|]. rewrite alone_S.
  destruct (is_done p) eqn:Ed.
  { destruct p; try discriminate Ed. cbn. rewrite alone_done. apply rtc_refl. }
  destruct (micro _ p cb) as [cb' p'] eqn:E. eapply rtc_l; [|apply IH].
  pose proof (overlap_micro cb {[0%nat := p]} 0 p _ _ _ ltac:(by rewrite lookup_singleton_eq) Ed E) as H.
  by rewrite insert_singleton_eq in H.
Qed.

Lemma retry_claim_exclusive_witness :
  (circuit_Call 0 (call_ok 900).1 (at_ms 900) (w_breaker tripped_world)).2 = (None, true) /\
  (circuit_Call 0 (call_ok 200).1 (at_ms 200) (w_breaker tripped_world)).2 = (Some ErrBreakerOpen, false).
Proof.
  destruct (retry_claim_exclusive (ConsecutiveTripFunc 1) sample_rand unixEpoch unixEpoch tripped_world) as [_ H].
  - apply sample_rand_unit.
  - apply tripped_reachable.
  - assert (quiescent tripped_world) as Hq.
    { intros i p. unfold tripped_world. cbn [w_calls]. rewrite lookup_singleton. case_decide; [|done].
      intros [= <-]. vm_compute. reflexivity. }
    split.
    + apply (proj1 (H Hq ltac:(vm_compute; reflexivity) 0 (call_ok 900).1 (at_ms 900))). vm_compute. reflexivity.
    + rewrite (proj2 (H Hq ltac:(vm_compute; reflexivity) 0 (call_ok 200).1 (at_ms 200))); [reflexivity|]. vm_compute. discriminate.
Defined.

Lemma overlapping_failures_never_trip_witness :
  exists w, rtc overlap_step (new_world (NewConsecutiveBreaker 1 sample_rand unixEpoch unixEpoch)) w /\ quiescent w /\
    tripped (w_breaker w) = 0 /\
    (run_circuit 0 [call_bad 5; call_bad 6] (w_breaker w)).2 =
      [(Some (errorString (str "refused")), true); (Some (errorString (str "refused")), true)].
Proof.
  destruct (overlapping_failures_never_trip 1 0 (NewConsecutiveBreaker 1 sample_rand unixEpoch unixEpoch)
    (call_bad 1).1 (errorString (str "refused")) [call_bad 5; call_bad 6]) as (w & H1 & H2 & _ & _ & H3 & H4).
  - apply NewBreakerWithOptions_ok, sample_rand_unit.
  - reflexivity.
  - reflexivity.
  - reflexivity.
  - lia.
  - reflexivity.
  - repeat constructor; discriminate.
  - cbn. lia.
  - exists w. auto.
Defined.
