(* ===== verification/Window.v ===== *)
(** * The window of a library breaker (src/vendor/github.com/rubyist/circuitbreaker/window.go)

    What the ring of ten buckets of a second holds while all calls lie within
    ten seconds: no bucket that has counted anything is used again, so each
    counter of the buckets sums up to what has been counted since the start. *)
From S2P Require Import Prelude GoTime Circuit.

Definition zero_bucket : bucket := mkBucket 0 0.

(** The sum of a counter over the buckets. *)
Definition sum_of (g : bucket -> Z) (bs : list bucket) : Z := foldr (fun b n => g b + n) 0 bs.

Lemma sum_of_cons g b bs : sum_of g (b :: bs) = g b + sum_of g bs.
Proof. done. Qed.

Lemma sum_of_app g l l' : sum_of g (l ++ l') = sum_of g l + sum_of g l'.
Proof. induction l as [|b l IH]; [done|]. cbn [app]. rewrite !sum_of_cons. lia. Qed.

Lemma sum_of_nonneg g l : Forall (fun b => 0 <= g b) l -> 0 <= sum_of g l.
Proof. induction 1 as [|b l Hb _ IH]; [done|]. rewrite sum_of_cons. lia. Qed.

(** After [a] advances the next [9 - a] buckets are still unused. *)
Record ring_unused (a : nat) (bs : list bucket) : Prop := {
  ru_length : length bs = 10%nat;
  ru_advances : (a <= 9)%nat;
  ru_unused : Forall (eq zero_bucket) (take (9 - a) (tail bs))
}.

(** A counter has counted [n]. *)
Record counted (g : bucket -> Z) (n : Z) (bs : list bucket) : Prop := {
  cd_nonneg : Forall (fun b => 0 <= g b) bs;
  cd_sum : sum_of g bs = n
}.

(** One advance reuses an unused bucket and leaves every counter as it is. *)
Lemma ring_step a bs :
  (a < 9)%nat -> ring_unused a bs ->
  let bs' := ring_update bucket_Reset (ring_Next bs) in
  ring_unused (S a) bs' /\ forall g n, g zero_bucket = 0 -> counted g n bs -> counted g n bs'.
Proof.
  intros Ha [Hl _ Hu]. destruct bs as [|x [|y bs]]; [done|done|]. cbn in Hu, Hl |- *.
  destruct (9 - a)%nat as [|k] eqn:Hk; [lia|]. cbn in Hu. apply Forall_cons in Hu as [<- Hu]. split.
  - split; cbn; [rewrite length_app; cbn; lia|lia|]. rewrite take_app_le by lia. by replace (8 - a)%nat with k by lia.
  - intros g n Hg [Hn Hs]. apply Forall_cons in Hn as [Hx Hn]. apply Forall_cons in Hn as [_ Hn]. split.
    + constructor; [change (0 <= g zero_bucket); lia|]. apply Forall_app. split; [done|by constructor].
    + rewrite !sum_of_cons in Hs. rewrite sum_of_cons, sum_of_app, sum_of_cons.
      change (bucket_Reset zero_bucket) with zero_bucket. cbn [sum_of foldr]. lia.
Qed.

Lemma advance_counts fuel : forall a e bs,
  ring_unused a bs -> Second <= e < 2 ^ 63 -> Z.of_nat a * Second + e < 10 * Second ->
  exists a', ring_unused a' (advance fuel Second e bs) /\ (Z.of_nat a' - Z.of_nat a) * Second <= e /\
    forall g n, g zero_bucket = 0 -> counted g n bs -> counted g n (advance fuel Second e bs).
Proof.
  induction fuel as [|fuel IH]; intros a e bs Hr He Hlim; cbn [advance].
  { exists a. split; [done|]. split; [unfold Second in *; lia|done]. }
  assert (a < 9)%nat as Ha by (unfold Second in *; lia).
  destruct (ring_step a bs Ha Hr) as [Hr1 Hc1]. rewrite swrap64_small by (unfold Second in *; lia).
  destruct (e - Second <? Second) eqn:E; zbool.
  - exists (S a). split; [done|]. split; [unfold Second in *; lia|done].
  - destruct (IH (S a) (e - Second) _ Hr1) as (a' & Hr' & Hle & Hc'); [unfold Second in *; lia..|].
    exists a'. split; [done|]. split; [unfold Second in *; lia|]. intros g n Hg Hn. by apply Hc', Hc1.
Qed.

(** The window at time [t], whose first bucket was made at [t0]. *)
Definition window_unused (t0 t : Z) (w : bucket_window) : Prop :=
  bucketTime w = Second /\ exists a, ring_unused a (buckets w) /\ t0 + Z.of_nat a * Second <= lastAccess w <= t.

Lemma newWindow_unused now :
  window_unused now now (newWindow DefaultWindowTime DefaultWindowBuckets now) /\
  forall g, g zero_bucket = 0 -> counted g 0 (buckets (newWindow DefaultWindowTime DefaultWindowBuckets now)).
Proof.
  split.
  - split; [reflexivity|]. exists 0%nat. split; [|cbn; lia]. split; cbn; try done; repeat constructor.
  - intros g Hg. assert (0 <= g zero_bucket) by lia. split.
    + repeat constructor; done.
    + cbn. fold zero_bucket. lia.
Qed.

Lemma getLatestBucket_counts t0 t w now access :
  window_unused t0 t w -> t <= now <= access -> access < t0 + 10 * Second ->
  window_unused t0 access (getLatestBucket now access w) /\
  forall g n, g zero_bucket = 0 -> counted g n (buckets w) -> counted g n (buckets (getLatestBucket now access w)).
Proof.
  intros (Hb & a & Hr & Ht) Hnow Hlim. unfold getLatestBucket. rewrite Hb, time_Sub_exact by (unfold Second in *; lia).
  destruct (Second <? now - lastAccess w) eqn:E; zbool; [|split; [split; [done|]; exists a; split; [done|lia]|done]].
  destruct (advance_counts (length (buckets w)) a (now - lastAccess w) (buckets w) Hr) as (a' & Hr' & Hle & Hc');
    [unfold Second in *; lia..|]. split; [|exact Hc']. split; [done|]. exists a'. split; [done|]. cbn. lia.
Qed.

(** Counting in the current bucket. *)
Lemma ring_update_unused a bs f : ring_unused a bs -> ring_unused a (ring_update f bs).
Proof. intros [Hl Ha Hu]. destruct bs as [|x bs]; [done|]. by split. Qed.

Lemma counted_update g n m f bs :
  bs <> [] -> counted g n bs -> (forall x, 0 <= g x <= n -> g (f x) = g x + m) -> 0 <= m ->
  counted g (n + m) (ring_update f bs).
Proof.
  intros Hne [Hn Hs] Hf Hm. destruct bs as [|x bs]; [done|]. apply Forall_cons in Hn as [Hx Hn]. rewrite sum_of_cons in Hs.
  pose proof (sum_of_nonneg g bs Hn). specialize (Hf x ltac:(lia)). cbn. split.
  - constructor; [lia|done].
  - rewrite sum_of_cons. lia.
Qed.

Lemma ring_unused_nonempty a bs : ring_unused a bs -> bs <> [].
Proof. intros [Hl _ _] ->. done. Qed.

(** The effect of [Fail] and [Success] on the window. *)
Lemma window_update_unused t0 t w f : window_unused t0 t w -> window_unused t0 t (window_update f w).
Proof. intros (Hb & a & Hr & Ht). split; [done|]. exists a. split; [by apply ring_update_unused|done]. Qed.

Lemma window_counts_Fail t0 t w now access n :
  window_unused t0 t w -> t <= now <= access -> access < t0 + 10 * Second -> n < 2 ^ 63 - 1 ->
  counted b_failure n (buckets w) ->
  window_unused t0 access (window_Fail now access w) /\ counted b_failure (n + 1) (buckets (window_Fail now access w)) /\
  forall s, counted b_success s (buckets w) -> counted b_success s (buckets (window_Fail now access w)).
Proof.
  intros Hw Hnow Hlim Hn Hc. destruct (getLatestBucket_counts t0 t w now access Hw Hnow Hlim) as [Hw' Hc'].
  pose proof Hw' as (_ & a & Hr & _). pose proof (ring_unused_nonempty _ _ Hr) as Hne.
  split; [by apply window_update_unused|]. split.
  - apply counted_update; [done|by apply Hc'| |lia]. intros x Hx. cbn. apply swrap64_small. lia.
  - intros s Hs. rewrite <- (Z.add_0_r s). apply counted_update; [done|by apply Hc'| |lia]. intros x _. cbn. lia.
Qed.

Lemma window_counts_Success t0 t w now access :
  window_unused t0 t w -> t <= now <= access -> access < t0 + 10 * Second ->
  window_unused t0 access (window_Success now access w) /\
  (forall n, counted b_failure n (buckets w) -> counted b_failure n (buckets (window_Success now access w))) /\
  forall s, s < 2 ^ 63 - 1 -> counted b_success s (buckets w) -> counted b_success (s + 1) (buckets (window_Success now access w)).
Proof.
  intros Hw Hnow Hlim. destruct (getLatestBucket_counts t0 t w now access Hw Hnow Hlim) as [Hw' Hc'].
  pose proof Hw' as (_ & a & Hr & _). pose proof (ring_unused_nonempty _ _ Hr) as Hne.
  split; [by apply window_update_unused|]. split.
  - intros n Hn. rewrite <- (Z.add_0_r n). apply counted_update; [done|by apply Hc'| |lia]. intros x _. cbn. lia.
  - intros s Hs Hc. apply counted_update; [done|by apply Hc'| |lia]. intros x Hx. cbn. apply swrap64_small. lia.
Qed.

(** What the window reports. *)
Lemma foldl_counted g bs : forall m, Forall (fun b => 0 <= g b) bs -> 0 <= m -> m + sum_of g bs < 2 ^ 63 ->
  foldl (fun n b => swrap64 (n + g b)) m bs = m + sum_of g bs.
Proof.
  induction bs as [|b bs IH]; intros m Hbs Hm Hlim; [cbn; lia|]. rewrite sum_of_cons in *. apply Forall_cons in Hbs as [Hb Hbs].
  pose proof (sum_of_nonneg g bs Hbs). cbn. rewrite swrap64_small by lia. rewrite IH by (done || lia). lia.
Qed.

Lemma counted_nonneg g n bs : counted g n bs -> 0 <= n.
Proof. intros [Hn Hs]. rewrite <- Hs. by apply sum_of_nonneg. Qed.

Lemma window_Failures_counted n w : n < 2 ^ 63 -> counted b_failure n (buckets w) -> window_Failures w = n.
Proof. intros Hn [Hg Hs]. unfold window_Failures. rewrite foldl_counted by (done || lia). lia. Qed.

Lemma window_Successes_counted n w : n < 2 ^ 63 -> counted b_success n (buckets w) -> window_Successes w = n.
Proof. intros Hn [Hg Hs]. unfold window_Successes. rewrite foldl_counted by (done || lia). lia. Qed.
