(* ===== verification/Threshold.v ===== *)
(** * The threshold breaker (src/circuit/breaker_threshold.go)

    A [ThresholdBreaker] counts the failures of the last ten seconds in a ring
    of ten buckets.  Its contract counts failures, in a row or not: the one that
    makes [threshold] opens the breaker.  The refinement holds as long as the
    calls lie within one window, so that no bucket with failures is reused. *)
From S2P Require Import Prelude GoTime Float64 Backoff Breaker Circuit Window.

(** ** The contract *)

Definition count_Call (threshold d : Z) (i : call_input) (r : readings) (a : contract)
    : contract * (option error * bool) :=
  match a with
  | COpen _ => (a, (Some ErrBreakerOpen, false))
  | CClosed n =>
      match guarded_result d i with
      | None => (CClosed n, (None, true))
      | Some e => (if n + 1 =? threshold then COpen (t_trip r) else CClosed (n + 1), (Some e, true))
      end
  end.

Fixpoint run_count (threshold d : Z) (cs : list (call_input * readings)) (a : contract) : list (option error * bool) :=
  match cs with
  | [] => []
  | (i, r) :: cs' => let '(a', x) := count_Call threshold d i r a in x :: run_count threshold d cs' a'
  end.

(** The readings of a call that the window sees: not before [t], in order, and
    before [limit]. *)
Definition timed (t limit : Z) (r : readings) : Prop := t <= t_bucket r <= t_access r /\ t_access r < limit.

(** The calls the contract speaks about, from time [t] on. *)
Fixpoint window_scope (threshold d limit t : Z) (cs : list (call_input * readings)) (a : contract) : Prop :=
  match cs with
  | [] => True
  | (i, r) :: cs' =>
      in_scope r a /\ match a with CClosed _ => timed t limit r | COpen _ => True end /\
      window_scope threshold d limit (t_access r) cs' (count_Call threshold d i r a).1
  end.

(** ** The refinement *)

Record counts_failures (threshold t0 t : Z) (a : contract) (cb : CircuitBreaker) : Prop := {
  cf_ok : circuit_ok cb;
  cf_trip : ShouldTrip cb = ThresholdTripFunc threshold;
  cf_state :
    match a with
    | CClosed n => tripped cb = 0 /\ 0 <= n < threshold /\ window_unused t0 t (counts cb) /\ counted b_failure n (buckets (counts cb))
    | COpen s => tripped cb = 1 /\ lastFailure cb = s - unixEpoch
    end
}.

Lemma counts_failures_Call threshold d t0 t i r a cb :
  0 < threshold < 2 ^ 63 -> counts_failures threshold t0 t a cb -> in_scope r a ->
  match a with CClosed _ => timed t (t0 + 10 * Second) r | COpen _ => True end ->
  (circuit_Call d i r cb).2 = (count_Call threshold d i r a).2 /\
  counts_failures threshold t0 (t_access r) (count_Call threshold d i r a).1 (circuit_Call d i r cb).1.
Proof.
  intros Hth [Hok Hf Hst] Hs Htm. pose proof (circuit_Call_ok d i r cb Hok) as Hok'. revert Hok'.
  unfold count_Call. destruct a as [n|s].
  2: { destruct Hst as [Ht Hl]. rewrite (open_refuses d i r s) by done. cbn. intros _. split; [done|]. by split. }
  destruct Hst as (Ht & Hr & Hw & Hc). destruct Htm as [Hnow Hlim].
  unfold circuit_Call. destruct (Ready_cases (t_ready r) cb Hok) as [(_ & ->)|[(Ht' & _)|(Ht' & _)]]; [|congruence..].
  cbn [negb]. destruct (guarded_result d i) as [e|]; cbn; intros Hok'; (split; [done|]).
  - destruct (window_counts_Fail t0 t (counts cb) (t_bucket r) (t_access r) n) as (Hw' & Hc' & _); [done|done|done|lia|done|].
    revert Hok'. unfold circuit_Fail, should_trip. cbn -[window_Fail window_Failures]. rewrite Hf.
    rewrite (window_Failures_counted (n + 1)) by (done || lia).
    destruct (n + 1 =? threshold) eqn:E; zbool; intros Hok'.
    + split; [done|done|]. split; [done|]. cbn. unfold UnixNano. apply swrap64_small. cbn in Hs. lia.
    + split; [done|done|]. cbn -[window_Fail]. split; [done|]. split; [lia|done].
  - split; [done|by rewrite ShouldTrip_Success|].
    destruct (window_counts_Success t0 t (counts cb) (t_bucket r) (t_access r)) as (Hw' & Hc' & _); [done..|].
    destruct (circuit_Success_cases r cb Hok) as (? & ? & _ & _ & _ & [(_ & ->)|(Ht' & _)]); [|congruence].
    cbn -[window_Success]. split; [done|]. split; [done|]. split; [done|]. by apply Hc'.
Qed.

Lemma run_circuit_counts threshold d t0 cs : forall t a cb,
  0 < threshold < 2 ^ 63 -> counts_failures threshold t0 t a cb ->
  window_scope threshold d (t0 + 10 * Second) t cs a ->
  (run_circuit d cs cb).2 = run_count threshold d cs a.
Proof.
  induction cs as [|[i r] cs IH]; intros t a cb Hth Hr Hs; [done|]. destruct Hs as (Hs & Htm & Hcs).
  destruct (counts_failures_Call threshold d t0 t i r a cb Hth Hr Hs Htm) as [Hx Hr']. cbn.
  destruct (circuit_Call d i r cb) as [cb' x], (count_Call threshold d i r a) as [a' x']. cbn in *. subst x'.
  specialize (IH (t_access r) a' cb' Hth Hr' Hcs). destruct (run_circuit d cs cb') as [cb'' xs]. cbn in *. by rewrite IH.
Qed.

(** C16.  A [ThresholdBreaker] refines its contract: over any sequence of calls
    within ten seconds of its creation, each function is started and its
    error passed on until [threshold] of them have failed, whatever succeeded
    in between; from then on calls return [ErrBreakerOpen] without starting
    anything, for at least 250 ms. *)
Theorem threshold_breaker_refines threshold d rnd t1 t2 cs :
  0 < threshold < 2 ^ 63 -> unit_draws rnd -> window_scope threshold d (t2 + 10 * Second) t2 cs (CClosed 0) ->
  (run_circuit d cs (th_breaker (new_ThresholdBreaker threshold rnd t1 t2))).2 = run_count threshold d cs (CClosed 0).
Proof.
  intros Hth Hrnd Hs. apply (run_circuit_counts threshold d t2 cs t2); [done| |done].
  destruct (NewBreakerWithOptions_ok (ThresholdTripFunc threshold) rnd t1 t2 Hrnd) as (Hok & Ht & _ & Hf).
  split; [done|done|]. cbn [th_breaker new_ThresholdBreaker]. split; [done|]. split; [lia|].
  unfold NewThresholdBreaker, NewBreakerWithOptions. destruct (NextBackOff _ _) as [b next].
  destruct (newWindow_unused t2) as [Hw Hc]. split; [done|by apply Hc].
Qed.

(** ** Witnesses *)

Lemma threshold_breaker_refines_witness :
  (run_circuit 0 [call_bad 1; call_ok 2; call_bad 3; call_ok 4]
     (th_breaker (new_ThresholdBreaker 2 sample_rand unixEpoch unixEpoch))).2 =
    [(Some (errorString (str "refused")), true); (None, true); (Some (errorString (str "refused")), true);
     (Some ErrBreakerOpen, false)].
Proof.
  apply (threshold_breaker_refines 2 0 sample_rand unixEpoch unixEpoch [call_bad 1; call_ok 2; call_bad 3; call_ok 4]).
  - lia.
  - exact sample_rand_unit.
  - vm_compute. repeat split; discriminate.
Defined.
