(* ===== verification/Rate.v ===== *)
(** * The rate breaker (src/circuit/breaker_rate.go)

    A [RateBreaker] opens when, at a failure, there have been enough calls in
    the last ten seconds and the share of failures among them has reached its
    rate.  Its contract counts failures and successes and compares the share
    with the rate as fractions; that the code compares rounded quotients of
    doubles makes no difference while fewer than 2^26 calls are in the window
    (Rounding). *)
From S2P Require Import Prelude GoTime Float64 Rounding Backoff Breaker Circuit Window Threshold.

(** ** The contract *)

Inductive rate_contract := RClosed (failures successes : Z) | ROpen (since : Z).

(** The rate is [p / q]. *)
Definition rate_reached (p q minSamples f s : Z) : bool := (minSamples <=? f + s) && (p * (f + s) <=? q * f).

Definition rate_Call (p q minSamples d : Z) (i : call_input) (r : readings) (a : rate_contract)
    : rate_contract * (option error * bool) :=
  match a with
  | ROpen _ => (a, (Some ErrBreakerOpen, false))
  | RClosed f s =>
      match guarded_result d i with
      | None => (RClosed f (s + 1), (None, true))
      | Some e => (if rate_reached p q minSamples (f + 1) s then ROpen (t_trip r) else RClosed (f + 1) s, (Some e, true))
      end
  end.

Fixpoint run_rate (p q minSamples d : Z) (cs : list (call_input * readings)) (a : rate_contract)
    : list (option error * bool) :=
  match cs with
  | [] => []
  | (i, r) :: cs' => let '(a', x) := rate_Call p q minSamples d i r a in x :: run_rate p q minSamples d cs' a'
  end.

(** The calls the contract speaks about, from time [t] on: within one window,
    fewer than 2^26, and within 250 ms once the breaker is open. *)
Definition rate_in_scope (limit t : Z) (r : readings) (a : rate_contract) : Prop :=
  match a with
  | RClosed f s => - 2 ^ 62 <= t_trip r - unixEpoch < 2 ^ 62 /\ timed t limit r /\ f + s + 1 < 2 ^ 26
  | ROpen t => t_ready r <= t + 250 * Millisecond
  end.

Fixpoint rate_scope (p q minSamples d limit t : Z) (cs : list (call_input * readings)) (a : rate_contract) : Prop :=
  match cs with
  | [] => True
  | (i, r) :: cs' =>
      rate_in_scope limit t r a /\
      rate_scope p q minSamples d limit (t_access r) cs' (rate_Call p q minSamples d i r a).1
  end.

(** The double of a fraction: what a decimal literal of the source stands for. *)
Definition rate_of (p q : Z) : f64 := f64_div (f64_of_int64 p) (f64_of_int64 q).

(** ** The test *)

Lemma window_ErrorRate_counted f s w :
  0 < f + s < 2 ^ 63 -> counted b_failure f (buckets w) -> counted b_success s (buckets w) ->
  window_ErrorRate w = f64_div (f64_of_int64 f) (f64_of_int64 (f + s)).
Proof.
  intros Hn Hf Hs. pose proof (counted_nonneg _ _ _ Hf). pose proof (counted_nonneg _ _ _ Hs).
  unfold window_ErrorRate. rewrite (window_Failures_counted f) by (done || lia).
  assert (foldl (fun n b => swrap64 (n + swrap64 (b_failure b + b_success b))) 0 (buckets w) = f + s) as ->.
  { destruct Hf as [Nf Sf], Hs as [Ns Ss].
    assert (forall bs m, Forall (fun b => 0 <= b_failure b) bs -> Forall (fun b => 0 <= b_success b) bs -> 0 <= m ->
      m + sum_of b_failure bs + sum_of b_success bs < 2 ^ 63 ->
      foldl (fun n b => swrap64 (n + swrap64 (b_failure b + b_success b))) m bs = m + sum_of b_failure bs + sum_of b_success bs) as H'.
    { intros bs. induction bs as [|b bs IH]; intros m Hbf Hbs Hm Hlim; [cbn; lia|].
      apply Forall_cons in Hbf as [? Hbf]. apply Forall_cons in Hbs as [? Hbs]. rewrite !sum_of_cons in *.
      pose proof (sum_of_nonneg _ _ Hbf). pose proof (sum_of_nonneg _ _ Hbs). cbn.
      rewrite (swrap64_small (b_failure b + b_success b)), swrap64_small by lia. rewrite IH by (done || lia). lia. }
    rewrite H' by (done || lia). lia. }
  by rewrite (proj2 (Z.eqb_neq _ _)) by lia.
Qed.

(** The code's test is the contract's. *)
Lemma should_trip_rate p q minSamples f s cb :
  0 < p < 2 ^ 26 -> 0 < q <= 2 ^ 53 -> ShouldTrip cb = RateTripFunc (rate_of p q) minSamples ->
  0 < f -> f + s < 2 ^ 26 -> counted b_failure f (buckets (counts cb)) -> counted b_success s (buckets (counts cb)) ->
  should_trip cb = rate_reached p q minSamples f s.
Proof.
  intros Hp Hq Htrip Hf Hn Cf Cs. pose proof (counted_nonneg _ _ _ Cs). unfold should_trip, rate_reached. rewrite Htrip.
  rewrite (window_Failures_counted f), (window_Successes_counted s), swrap64_small by (done || lia).
  rewrite (window_ErrorRate_counted f s) by (done || lia). unfold rate_of. by rewrite f64_div_compare by lia.
Qed.

(** ** The refinement *)

Record measures (p q minSamples t0 t : Z) (a : rate_contract) (cb : CircuitBreaker) : Prop := {
  me_ok : circuit_ok cb;
  me_trip : ShouldTrip cb = RateTripFunc (rate_of p q) minSamples;
  me_state :
    match a with
    | RClosed f s => tripped cb = 0 /\ window_unused t0 t (counts cb) /\
        counted b_failure f (buckets (counts cb)) /\ counted b_success s (buckets (counts cb))
    | ROpen s => tripped cb = 1 /\ lastFailure cb = s - unixEpoch
    end
}.

Lemma measures_Call p q minSamples d t0 t i r a cb :
  0 < p < 2 ^ 26 -> 0 < q <= 2 ^ 53 -> measures p q minSamples t0 t a cb -> rate_in_scope (t0 + 10 * Second) t r a ->
  (circuit_Call d i r cb).2 = (rate_Call p q minSamples d i r a).2 /\
  measures p q minSamples t0 (t_access r) (rate_Call p q minSamples d i r a).1 (circuit_Call d i r cb).1.
Proof.
  intros Hp Hq [Hok Hf Hst] Hs. pose proof (circuit_Call_ok d i r cb Hok) as Hok'. revert Hok'.
  unfold rate_Call. destruct a as [f s|s].
  2: { destruct Hst as [Ht Hl]. rewrite (open_refuses d i r s) by done. cbn. intros _. split; [done|]. by split. }
  destruct Hst as (Ht & Hw & Cf & Cs). destruct Hs as (Htrip & [Hnow Hlim] & Hn).
  pose proof (counted_nonneg _ _ _ Cf). pose proof (counted_nonneg _ _ _ Cs).
  unfold circuit_Call. destruct (Ready_cases (t_ready r) cb Hok) as [(_ & ->)|[(Ht' & _)|(Ht' & _)]]; [|congruence..].
  cbn [negb]. destruct (guarded_result d i) as [e|]; cbn; intros Hok'; (split; [done|]).
  - destruct (window_counts_Fail t0 t (counts cb) (t_bucket r) (t_access r) f) as (Hw' & Cf' & Cs'); [done|done|done|lia|done|].
    specialize (Cs' s Cs). revert Hok'. unfold circuit_Fail.
    rewrite (should_trip_rate p q minSamples (f + 1) s) by (done || lia).
    destruct (rate_reached p q minSamples (f + 1) s); intros Hok'.
    + split; [done|done|]. split; [done|]. cbn. unfold UnixNano. apply swrap64_small. lia.
    + split; [done|done|]. cbn -[window_Fail]. done.
  - split; [done|by rewrite ShouldTrip_Success|].
    destruct (window_counts_Success t0 t (counts cb) (t_bucket r) (t_access r)) as (Hw' & Cf' & Cs'); [done..|].
    destruct (circuit_Success_cases r cb Hok) as (? & ? & _ & _ & _ & [(_ & ->)|(Ht' & _)]); [|congruence].
    cbn -[window_Success]. split; [done|]. split; [done|]. split; [by apply Cf'|]. apply Cs'; [lia|done].
Qed.

Lemma run_circuit_rate p q minSamples d t0 cs : forall t a cb,
  0 < p < 2 ^ 26 -> 0 < q <= 2 ^ 53 -> measures p q minSamples t0 t a cb ->
  rate_scope p q minSamples d (t0 + 10 * Second) t cs a ->
  (run_circuit d cs cb).2 = run_rate p q minSamples d cs a.
Proof.
  induction cs as [|[i r] cs IH]; intros t a cb Hp Hq Hm Hs; [done|]. destruct Hs as (Hs & Hcs).
  destruct (measures_Call p q minSamples d t0 t i r a cb Hp Hq Hm Hs) as [Hx Hm']. cbn.
  destruct (circuit_Call d i r cb) as [cb' x], (rate_Call p q minSamples d i r a) as [a' x']. cbn in *. subst x'.
  specialize (IH (t_access r) a' cb' Hp Hq Hm' Hcs). destruct (run_circuit d cs cb') as [cb'' xs]. cbn in *. by rewrite IH.
Qed.

(** C32.  A [RateBreaker] refines its contract, for the double of any fraction
    [p / q] as its rate: over calls within ten seconds of its creation and
    fewer than 2^26, each function is started and its error passed on until,
    at a failure, at least [minSamples] calls have been counted of which a
    share of [p / q] or more has failed, exactly; from then on calls return
    [ErrBreakerOpen] without starting anything, for at least 250 ms. *)
Theorem rate_breaker_refines p q minSamples d rnd t1 t2 cs :
  0 < p < 2 ^ 26 -> 0 < q <= 2 ^ 53 -> unit_draws rnd ->
  rate_scope p q minSamples d (t2 + 10 * Second) t2 cs (RClosed 0 0) ->
  (run_circuit d cs (ra_breaker (new_RateBreaker (rate_of p q) minSamples rnd t1 t2))).2 =
  run_rate p q minSamples d cs (RClosed 0 0).
Proof.
  intros Hp Hq Hrnd Hs. apply (run_circuit_rate p q minSamples d t2 cs t2); [done|done| |done].
  destruct (NewBreakerWithOptions_ok (RateTripFunc (rate_of p q) minSamples) rnd t1 t2 Hrnd) as (Hok & Ht & _ & Hf).
  split; [done|done|]. cbn [ra_breaker new_RateBreaker]. split; [done|].
  unfold NewRateBreaker, NewBreakerWithOptions. destruct (NextBackOff _ _) as [b next].
  destruct (newWindow_unused t2) as [Hw Hc]. split; [done|]. split; by apply Hc.
Qed.

(** ** Witnesses *)

(** Rate 0.1, at least ten samples: the tenth call fails, and it alone. *)
Definition nine_then_bad : list (call_input * readings) :=
  (call_ok <$> [1; 2; 3; 4; 5; 6; 7; 8; 9]) ++ [call_bad 10; call_ok 11].

Lemma rate_breaker_refines_witness :
  (run_circuit 0 nine_then_bad (ra_breaker (new_RateBreaker (rate_of 1 10) 10 sample_rand unixEpoch unixEpoch))).2 =
  replicate 9 (None, true) ++ [(Some (errorString (str "refused")), true); (Some ErrBreakerOpen, false)].
Proof.
  apply (rate_breaker_refines 1 10 10 0 sample_rand unixEpoch unixEpoch nine_then_bad).
  - lia.
  - lia.
  - exact sample_rand_unit.
  - vm_compute. repeat split; discriminate.
Defined.
