(* ===== verification/RateLimit.v ===== *)
(** * Connection rate limit (src/controller/ratelimit.go over juju/ratelimit)

    The token bucket the rate-limit controller embeds is vendored code the
    repository carries (src/vendor/github.com/juju/ratelimit/ratelimit.go); it
    is modelled with the controller because the limit is what it enforces.
    Every method takes the reading of the clock it makes; 64-bit arithmetic is
    written out. *)
From S2P Require Import Prelude GoTime.

#[local] Open Scope go_scope.

(** ** The bucket *)

Record Bucket := mkBucket {
  startTime : Z;
  capacity : Z;
  quantum : Z;
  fillInterval : Z;
  availableTokens : Z;
  latestTick : Z
}.

Definition set_tokens (tb : Bucket) (avail tick : Z) : Bucket :=
  mkBucket (startTime tb) (capacity tb) (quantum tb) (fillInterval tb) avail tick.

Definition NewBucketWithQuantumAndClock (now fill cap q : Z) : outcome Bucket :=
  if fill <=? 0 then Panic
  else if cap <=? 0 then Panic
  else if q <=? 0 then Panic
  else Val (mkBucket now cap q fill cap 0).

Definition NewBucket (now fill cap : Z) : outcome Bucket := NewBucketWithQuantumAndClock now fill cap 1.

Definition currentTick (tb : Bucket) (now : Z) : Z := Z.quot (time_Sub now (startTime tb)) (fillInterval tb).

Definition adjustavailableTokens (tb : Bucket) (tick : Z) : Bucket :=
  if capacity tb <=? availableTokens tb then tb
  else
    let avail := swrap64 (availableTokens tb + swrap64 (swrap64 (tick - latestTick tb) * quantum tb)) in
    let avail := if capacity tb <? avail then capacity tb else avail in
    set_tokens tb avail tick.

Definition takeAvailable (tb : Bucket) (now count : Z) : Bucket * Z :=
  if count <=? 0 then (tb, 0)
  else
    let tb := adjustavailableTokens tb (currentTick tb now) in
    if availableTokens tb <=? 0 then (tb, 0)
    else
      let count := if availableTokens tb <? count then availableTokens tb else count in
      (set_tokens tb (swrap64 (availableTokens tb - count)) (latestTick tb), count).

Definition Bucket_available (tb : Bucket) (now : Z) : Bucket * Z :=
  let tb := adjustavailableTokens tb (currentTick tb now) in (tb, availableTokens tb).

(** Returns the wait and whether the tokens were taken. *)
Definition Bucket_take (tb : Bucket) (now count maxWait : Z) : Bucket * (Z * bool) :=
  if count <=? 0 then (tb, (0, true))
  else
    let tick := currentTick tb now in
    let tb := adjustavailableTokens tb tick in
    let avail := swrap64 (availableTokens tb - count) in
    if 0 <=? avail then (set_tokens tb avail (latestTick tb), (0, true))
    else
      let endTick := swrap64 (tick + Z.quot (swrap64 (- avail + quantum tb - 1)) (quantum tb)) in
      let endTime := time_Add (startTime tb) (swrap64 (endTick * fillInterval tb)) in
      let waitTime := time_Sub endTime now in
      if maxWait <? waitTime then (tb, (0, false))
      else (set_tokens tb avail (latestTick tb), (waitTime, true)).

Definition infinityDuration : Z := maxDuration.
Definition Take (tb : Bucket) (now count : Z) : Bucket * Z :=
  let '(tb', (d, _)) := Bucket_take tb now count infinityDuration in (tb', d).

(** ** The controller *)

Record RateLimit := mkRateLimit { FillInterval : Z; Capacity : Z; bucket : Bucket }.

Definition NewConnConcurrentLimit (now fill cap : Z) : outcome RateLimit :=
  let? tb := NewBucket now fill cap in
  Val (mkRateLimit fill cap tb).

(** Whether the connection is admitted; the connection itself is returned
    unchanged on both branches. *)
Definition ratelimit_HandleConn (r : RateLimit) (now : Z) : RateLimit * bool :=
  let '(tb', i) := takeAvailable (bucket r) now 1 in
  (mkRateLimit (FillInterval r) (Capacity r) tb', 0 <? i).

(** Connections arriving at the given times: the verdicts, in order. *)
Fixpoint admit_all (r : RateLimit) (times : list Z) : RateLimit * list bool :=
  match times with
  | [] => (r, [])
  | now :: times' =>
      let '(r', ok) := ratelimit_HandleConn r now in
      let '(r'', oks) := admit_all r' times' in
      (r'', ok :: oks)
  end.

(** The number of admitted connections. *)
Definition admitted (oks : list bool) : Z := len (filter (fun b => b = true) oks).

(** ** Proofs *)

(** Clock readings that do not go backwards, from [t0] on. *)
Fixpoint ascending (t0 : Z) (times : list Z) : Prop :=
  match times with
  | [] => True
  | t :: times' => t0 <= t /\ ascending t times'
  end.

(** The invariant of a bucket of the controller that was last used at [now];
    the bounds keep 64-bit arithmetic exact for about 146 years of uptime. *)
Record bucket_ok (tb : Bucket) (now : Z) : Prop := {
  ok_quantum : quantum tb = 1;
  ok_fill : 0 < fillInterval tb;
  ok_cap : 0 < capacity tb < 2 ^ 62;
  ok_clock : 0 <= now - startTime tb < 2 ^ 62;
  ok_avail : 0 <= availableTokens tb <= capacity tb;
  ok_tick : 0 <= latestTick tb <= currentTick tb now
}.

Lemma currentTick_mono tb t t' :
  0 < fillInterval tb -> startTime tb <= t -> t <= t' -> currentTick tb t <= currentTick tb t'.
Proof.
  intros Hf Hs Ht. unfold currentTick. apply Z.quot_le_mono; [done|]. by apply time_Sub_mono.
Qed.

Lemma currentTick_bound tb t :
  0 < fillInterval tb -> 0 <= t - startTime tb < 2 ^ 62 -> 0 <= currentTick tb t < 2 ^ 62.
Proof.
  intros Hf Ht. unfold currentTick. rewrite time_Sub_exact by lia.
  split; [apply Z.quot_pos; lia|]. rewrite Z.quot_div_nonneg by lia.
  apply Z.le_lt_trans with (t - startTime tb); [|lia]. apply Z.div_le_upper_bound; nia.
Qed.

Lemma currentTick_exact tb t :
  0 < fillInterval tb -> 0 <= t - startTime tb < 2 ^ 62 ->
  currentTick tb t = (t - startTime tb) / fillInterval tb.
Proof. intros Hf Ht. unfold currentTick. rewrite time_Sub_exact, Z.quot_div_nonneg by lia. done. Qed.

(** What one arrival does, in plain integers. *)
Definition arrival (cap avail latest tick : Z) : Z * Z * bool :=
  if avail =? cap then (cap - 1, latest, true)
  else
    let a := Z.min cap (avail + (tick - latest)) in
    if a <=? 0 then (a, tick, false) else (a - 1, tick, true).

Lemma takeAvailable_arrival tb t now :
  bucket_ok tb t -> t <= now -> now - startTime tb < 2 ^ 62 ->
  let '(avail, latest, ok) := arrival (capacity tb) (availableTokens tb) (latestTick tb) (currentTick tb now) in
  takeAvailable tb now 1 = (set_tokens tb avail latest, if ok then 1 else 0) /\
  bucket_ok (set_tokens tb avail latest) now.
Proof.
  intros [Hq Hf Hc Hclk Ha Ht] Hle Hnow.
  pose proof (currentTick_mono tb t now Hf ltac:(lia) Hle) as Hm.
  pose proof (currentTick_bound tb now Hf ltac:(lia)) as Hb.
  unfold arrival, takeAvailable, adjustavailableTokens. change (1 <=? 0) with false.
  set (T := currentTick tb now) in *.
  destruct (availableTokens tb =? capacity tb) eqn:E; zbool.
  - rewrite (proj2 (Z.leb_le (capacity tb) _)) by lia. cbn zeta.
    rewrite (proj2 (Z.leb_gt _ 0)), (proj2 (Z.ltb_ge _ 1)), swrap64_small by lia.
    split; [by rewrite E|]. split; cbn; try done; try lia.
    unfold currentTick in *. cbn. fold T. lia.
  - rewrite (proj2 (Z.leb_gt (capacity tb) _)) by lia. rewrite Hq, Z.mul_1_r.
    rewrite (swrap64_small (T - _)), (swrap64_small (T - _)), (swrap64_small (_ + _)) by lia.
    cbn [availableTokens set_tokens capacity latestTick startTime quantum fillInterval].
    assert ((if capacity tb <? availableTokens tb + (T - latestTick tb) then capacity tb
             else availableTokens tb + (T - latestTick tb))
            = Z.min (capacity tb) (availableTokens tb + (T - latestTick tb))) as ->.
    { destruct (_ <? _) eqn:E2; zbool; lia. }
    set (a := Z.min _ _) in *. assert (0 <= a <= capacity tb) as Har by (unfold a; lia).
    destruct (a <=? 0) eqn:E3; zbool.
    + split; [done|]. split; cbn; try done; try lia. unfold currentTick in *. cbn. fold T. lia.
    + rewrite (proj2 (Z.ltb_ge _ 1)), swrap64_small by lia. split; [done|].
      split; cbn; try done; try lia. unfold currentTick in *. cbn. fold T. lia.
Qed.

(** The tick of a limiter at a time. *)
Definition tick_of (r : RateLimit) (t : Z) : Z := currentTick (bucket r) t.

Lemma admitted_cons b oks : admitted (b :: oks) = (if b then 1 else 0) + admitted oks.
Proof.
  unfold admitted. rewrite filter_cons. destruct b; cbn [decide]; [rewrite decide_True|rewrite decide_False];
    rewrite ?len_cons; done || lia.
Qed.

(** One arrival: ticks are kept, and admissions are paid with tokens or with
    the ticks that have passed. *)
Lemma HandleConn_step r t now :
  bucket_ok (bucket r) t -> t <= now -> now - startTime (bucket r) < 2 ^ 62 ->
  exists r' ok, ratelimit_HandleConn r now = (r', ok) /\ bucket_ok (bucket r') now /\
    capacity (bucket r') = capacity (bucket r) /\ startTime (bucket r') = startTime (bucket r) /\
    (forall u, tick_of r' u = tick_of r u) /\
    availableTokens (bucket r') < capacity (bucket r) /\
    (if ok then 1 else 0) + (availableTokens (bucket r') - latestTick (bucket r'))
      <= availableTokens (bucket r) - latestTick (bucket r) /\
    (availableTokens (bucket r) < capacity (bucket r) ->
       latestTick (bucket r') = tick_of r now /\
       (if ok then 1 else 0) + availableTokens (bucket r') <= capacity (bucket r)) /\
    (tick_of r t < tick_of r now -> ok = true).
Proof.
  intros Hok Hle Hnow. pose proof (takeAvailable_arrival (bucket r) t now Hok Hle Hnow) as Harr.
  unfold arrival, ratelimit_HandleConn, tick_of in *.
  pose proof (ok_avail _ _ Hok). pose proof (ok_tick _ _ Hok). pose proof (ok_cap _ _ Hok).
  destruct (_ =? _) eqn:E; zbool; cbn zeta in Harr.
  2: destruct (_ <=? 0) eqn:E2; zbool; cbn zeta in Harr.
  all: destruct Harr as [-> Hok']; eexists _, _; split; [done|].
  all: cbn in *; repeat (split; [done|]); cbn; repeat split; try done; try lia.
Qed.

Lemma admit_all_cons r now times r' ok :
  ratelimit_HandleConn r now = (r', ok) ->
  admit_all r (now :: times) = ((admit_all r' times).1, ok :: (admit_all r' times).2).
Proof. intros H. cbn. rewrite H. by destruct (admit_all r' times). Qed.

(** The last of the times, [t] if there is none. *)
Fixpoint end_time (t : Z) (times : list Z) : Z :=
  match times with [] => t | t' :: times' => end_time t' times' end.

Lemma ascending_end t times : ascending t times -> t <= end_time t times.
Proof. revert t. induction times as [|t' times IH]; cbn; intros t H; [lia|]. destruct H as [? H]. apply IH in H. lia. Qed.

Lemma ascending_app t l k : ascending t (l ++ k) <-> ascending t l /\ ascending (end_time t l) k.
Proof. revert t. induction l as [|t' l IH]; cbn; intros t; [tauto|]. rewrite IH. tauto. Qed.

(** A run of arrivals: every admission is paid, and the bucket stays valid. *)
Lemma admit_all_paid times : forall r t,
  bucket_ok (bucket r) t -> ascending t times -> end_time t times - startTime (bucket r) < 2 ^ 62 ->
  exists r' oks, admit_all r times = (r', oks) /\
  bucket_ok (bucket r') (end_time t times) /\
  capacity (bucket r') = capacity (bucket r) /\ startTime (bucket r') = startTime (bucket r) /\
  (forall u, tick_of r' u = tick_of r u) /\
  (times <> [] \/ availableTokens (bucket r) < capacity (bucket r) ->
     availableTokens (bucket r') < capacity (bucket r)) /\
  admitted oks + (availableTokens (bucket r') - latestTick (bucket r'))
    <= availableTokens (bucket r) - latestTick (bucket r).
Proof.
  induction times as [|now times IH]; intros r t Hok Hasc Hend.
  - exists r, []. split; [done|]. cbn. do 4 (split; [done|]). split; [by intros [?|?]|]. change (admitted []) with 0. lia.
  - cbn in Hasc, Hend |- *. destruct Hasc as [Hle Hasc]. pose proof (ascending_end _ _ Hasc).
    destruct (HandleConn_step r t now Hok Hle ltac:(lia)) as (r1 & ok & -> & Hok1 & Hc1 & Hs1 & Ht1 & Ha1 & Hp1 & _).
    rewrite <- Hs1 in Hend.
    destruct (IH r1 now Hok1 Hasc Hend) as (r2 & oks & -> & Hok2 & Hc2 & Hs2 & Ht2 & Ha2 & Hp2).
    exists r2, (ok :: oks). rewrite admitted_cons. split; [done|]. split; [done|].
    split; [congruence|]. split; [congruence|]. split; [intros u; by rewrite Ht2|]. split; [|lia].
    intros _. rewrite <- Hc1. apply Ha2. right. by rewrite Hc1.
Qed.

Lemma admit_all_length times : forall r r' oks, admit_all r times = (r', oks) -> length oks = length times.
Proof.
  induction times as [|t times IH]; intros r r' oks H; cbn in H; [by injection H as <- <-|].
  destruct (ratelimit_HandleConn r t) as [r1 ok]. destruct (admit_all r1 times) as [r2 oks2] eqn:E.
  injection H as <- <-. cbn. f_equal. by eapply IH.
Qed.

Lemma NewConnConcurrentLimit_fill start fill cap r :
  NewConnConcurrentLimit start fill cap = Val r -> fillInterval (bucket r) = fill.
Proof.
  unfold NewConnConcurrentLimit, NewBucket, NewBucketWithQuantumAndClock. intros H.
  destruct (fill <=? 0); [discriminate|]. destruct (cap <=? 0); [discriminate|]. by injection H as <-.
Qed.

(** From a bucket that is not full, a run admits at most [capacity] plus the
    ticks from its first arrival to its last. *)
Lemma admit_all_window r t now times :
  bucket_ok (bucket r) t -> availableTokens (bucket r) < capacity (bucket r) ->
  t <= now -> ascending now times -> end_time now times - startTime (bucket r) < 2 ^ 62 ->
  exists r' oks, admit_all r (now :: times) = (r', oks) /\
    admitted oks <= capacity (bucket r) + (tick_of r (end_time now times) - tick_of r now).
Proof.
  intros Hok Hnf Hle Hasc Hend. pose proof (ascending_end _ _ Hasc).
  destruct (HandleConn_step r t now Hok Hle ltac:(lia)) as (r1 & ok & H1 & Hok1 & Hc1 & Hs1 & Ht1 & _ & _ & Hw & _).
  destruct (Hw Hnf) as [Hl1 Hp1]. rewrite <- Hs1 in Hend.
  destruct (admit_all_paid times r1 now Hok1 Hasc Hend) as (r2 & oks & H2 & Hok2 & Hc2 & Hs2 & Ht2 & _ & Hp2).
  exists r2, (ok :: oks). split; [cbn; by rewrite H1, H2|]. rewrite admitted_cons.
  destruct (ok_tick _ _ Hok2) as [_ Htk]. fold (tick_of r2 (end_time now times)) in Htk.
  rewrite Ht2, Ht1 in Htk. pose proof (ok_avail _ _ Hok2). lia.
Qed.

Lemma NewConnConcurrentLimit_ok start fill cap r :
  NewConnConcurrentLimit start fill cap = Val r -> cap < 2 ^ 62 -> 
  bucket_ok (bucket r) start /\ startTime (bucket r) = start /\ capacity (bucket r) = cap /\
  availableTokens (bucket r) = cap /\ latestTick (bucket r) = 0.
Proof.
  unfold NewConnConcurrentLimit, NewBucket, NewBucketWithQuantumAndClock. intros H Hc.
  destruct (fill <=? 0) eqn:E1; [discriminate|]. destruct (cap <=? 0) eqn:E2; [discriminate|].
  injection H as <-. zbool. cbn. split; [|done]. split; cbn; try lia.
  unfold currentTick. cbn [startTime fillInterval latestTick]. rewrite time_Sub_exact, Z.sub_diag by lia.
  rewrite Z.quot_0_l by lia. lia.
Qed.

(** The rate limit holds from the start: of the connections that have
    arrived since the limiter was made, no more were admitted than its
    capacity plus the whole fill intervals that have passed. *)
Theorem ratelimit_total start fill cap r times :
  NewConnConcurrentLimit start fill cap = Val r -> cap < 2 ^ 62 ->
  ascending start times -> end_time start times - start < 2 ^ 62 ->
  exists r' oks, admit_all r times = (r', oks) /\ length oks = length times /\
    admitted oks <= cap + (end_time start times - start) / fill.
Proof.
  intros Hnew Hc Hasc Hend. destruct (NewConnConcurrentLimit_ok _ _ _ _ Hnew Hc) as (Hok & Hs & Hcap & Ha & Hl).
  rewrite <- Hs in Hend at 2.
  destruct (admit_all_paid times r start Hok Hasc Hend) as (r' & oks & H & Hok' & Hc' & Hs' & Ht' & _ & Hp).
  exists r', oks. split; [done|]. split; [by apply (admit_all_length times r r')|].
  destruct (ok_tick _ _ Hok') as [_ Htk]. fold (tick_of r' (end_time start times)) in Htk. rewrite Ht' in Htk.
  unfold tick_of in Htk. pose proof (ok_avail _ _ Hok'). pose proof (ascending_end _ _ Hasc).
  rewrite currentTick_exact in Htk by (rewrite ?Hs in *; by apply (ok_fill _ _ Hok) || lia).
  rewrite (NewConnConcurrentLimit_fill _ _ _ _ Hnew), Hs in Htk. lia.
Qed.

(** The rate limit holds in every window: of the connections that arrive
    from one moment to another, at most the capacity plus the ticks in between
    are admitted, and one more if the window opens with the first connection
    ever (which does not advance the bucket's clock). *)
Theorem ratelimit_window start fill cap r before now times :
  NewConnConcurrentLimit start fill cap = Val r -> cap < 2 ^ 62 ->
  ascending start (before ++ now :: times) -> end_time now times - start < 2 ^ 62 ->
  exists r1 oks1 r2 oks2, admit_all r before = (r1, oks1) /\ admit_all r1 (now :: times) = (r2, oks2) /\
    admitted oks2 <= cap + (tick_of r (end_time now times) - tick_of r now) +
      match before with [] => 1 | _ => 0 end.
Proof.
  intros Hnew Hc Hasc Hend. destruct (NewConnConcurrentLimit_ok _ _ _ _ Hnew Hc) as (Hok & Hs & Hcap & Ha & Hl).
  apply ascending_app in Hasc as [Hb Hasc]. cbn in Hasc. destruct Hasc as [Hle Hasc].
  pose proof (ascending_end _ _ Hb). pose proof (ascending_end _ _ Hasc).
  destruct (admit_all_paid before r start Hok Hb ltac:(lia)) as (r1 & oks1 & H1 & Hok1 & Hc1 & Hs1 & Ht1 & Hnf & _).
  destruct before as [|b before].
  - clear r1 oks1 H1 Hok1 Hc1 Hs1 Ht1 Hnf. exists r, [].
    destruct (HandleConn_step r start now Hok Hle ltac:(lia)) as (r1 & ok & H1 & Hok1 & Hc1' & Hs1' & Ht1' & Ha1 & _).
    destruct times as [|t times].
    + exists r1, [ok]. split; [done|]. split; [cbn; by rewrite H1|]. cbn [end_time]. rewrite Z.sub_diag, admitted_cons.
      change (admitted []) with 0. pose proof (ok_cap _ _ Hok). destruct ok; lia.
    + destruct Hasc as [Hle2 Hasc].
      destruct (admit_all_window r1 now t times Hok1 ltac:(lia) Hle2 Hasc) as (r2 & oks & H2 & Hw).
      { cbn in Hend. rewrite Hs1'. lia. }
      exists r2, (ok :: oks). split; [done|]. split; [rewrite (admit_all_cons _ _ _ _ _ H1), H2; done|].
      rewrite admitted_cons. cbn [end_time] in *. rewrite !Ht1' in Hw.
      pose proof (currentTick_mono (bucket r) now t (ok_fill _ _ Hok) ltac:(lia) Hle2) as Hm.
      unfold tick_of in *. destruct ok; lia.
  - destruct (admit_all_window r1 _ now times Hok1 ltac:(rewrite Hc1; apply Hnf; by left) Hle Hasc) as (r2 & oks2 & H2 & Hw).
    { rewrite Hs1. lia. }
    exists r1, oks1, r2, oks2. split; [done|]. split; [done|]. rewrite !Ht1 in Hw. lia.
Qed.

(** The limiter does not starve: a connection that arrives in a later fill
    interval than the one before it (or than the creation of the limiter) is
    admitted, whatever was admitted before. *)
Theorem ratelimit_admits_next_tick start fill cap r before now :
  NewConnConcurrentLimit start fill cap = Val r -> cap < 2 ^ 62 ->
  ascending start (before ++ [now]) -> now - start < 2 ^ 62 ->
  tick_of r (end_time start before) < tick_of r now ->
  exists r1 oks1 r2, admit_all r before = (r1, oks1) /\ ratelimit_HandleConn r1 now = (r2, true).
Proof.
  intros Hnew Hc Hasc Hend Htick. destruct (NewConnConcurrentLimit_ok _ _ _ _ Hnew Hc) as (Hok & Hs & Hcap & Ha & Hl).
  apply ascending_app in Hasc as [Hb [Hle _]]. pose proof (ascending_end _ _ Hb).
  destruct (admit_all_paid before r start Hok Hb ltac:(lia)) as (r1 & oks1 & H1 & Hok1 & Hc1 & Hs1 & Ht1 & _).
  destruct (HandleConn_step r1 _ now Hok1 Hle ltac:(lia)) as (r2 & ok & H2 & _ & _ & _ & _ & _ & _ & _ & Hadm).
  rewrite !Ht1 in Hadm. rewrite (Hadm Htick) in H2. by exists r1, oks1, r2.
Qed.

(** ** Witnesses *)

(** Capacity 2, one token per second: a burst long after the start. *)
Lemma ratelimit_total_witness :
  exists r' oks, admit_all (mkRateLimit Second 2 (mkBucket 0 2 1 Second 2 0))
      [10 * Second; 10 * Second; 10 * Second; 10 * Second] = (r', oks) /\
    length oks = 4%nat /\ admitted oks <= 2 + (10 * Second - 0) / Second.
Proof.
  apply (ratelimit_total 0 Second 2 _ [10 * Second; 10 * Second; 10 * Second; 10 * Second]).
  - reflexivity.
  - lia.
  - vm_compute. intuition discriminate.
  - vm_compute. reflexivity.
Defined.

(** The extra admission of the first window: three connections at once. *)
Lemma ratelimit_window_witness :
  exists r1 oks1 r2 oks2,
    admit_all (mkRateLimit Second 2 (mkBucket 0 2 1 Second 2 0)) [] = (r1, oks1) /\
    admit_all r1 [10 * Second; 10 * Second; 10 * Second] = (r2, oks2) /\
    admitted oks2 <= 2 + (10 - 10) + 1.
Proof.
  apply (ratelimit_window 0 Second 2 (mkRateLimit Second 2 (mkBucket 0 2 1 Second 2 0)) []
    (10 * Second) [10 * Second; 10 * Second]).
  - reflexivity.
  - lia.
  - vm_compute. intuition discriminate.
  - vm_compute. reflexivity.
Defined.

Example ratelimit_extra_burst :
  (admit_all (mkRateLimit Second 2 (mkBucket 0 2 1 Second 2 0))
    [10 * Second; 10 * Second; 10 * Second; 10 * Second]).2 = [true; true; true; false].
Proof. vm_compute. reflexivity. Qed.

Lemma ratelimit_admits_next_tick_witness :
  exists r1 oks1 r2,
    admit_all (mkRateLimit Second 1 (mkBucket 0 1 1 Second 1 0)) [5; 6] = (r1, oks1) /\
    ratelimit_HandleConn r1 Second = (r2, true).
Proof.
  apply (ratelimit_admits_next_tick 0 Second 1 _ [5; 6] Second).
  - reflexivity.
  - lia.
  - vm_compute. intuition discriminate.
  - vm_compute. reflexivity.
  - vm_compute. reflexivity.
Defined.
