(* ===== verification/TokenBucket.v ===== *)
(** * The rest of the token bucket (src/vendor/github.com/juju/ratelimit/ratelimit.go)

    [RateLimit] embeds a bucket, so its other methods are the controller's as
    well: taking tokens ahead of time and waiting for them, and the
    constructor that looks for a quantum whose rate is close to a given one.
    [Sleep] is what a call returns: how long the caller sleeps. *)
From S2P Require Import Prelude GoTime Float64 RateLimit.

#[local] Open Scope go_scope.

(** ** Taking and waiting *)

Definition TakeMaxDuration (tb : Bucket) (now count maxWait : Z) : Bucket * (Z * bool) := Bucket_take tb now count maxWait.

(** The bucket and how long the caller sleeps. *)
Definition Wait (tb : Bucket) (now count : Z) : Bucket * Z :=
  let '(tb', d) := Take tb now count in (tb', if 0 <? d then d else 0).

Definition WaitMaxDuration (tb : Bucket) (now count maxWait : Z) : Bucket * (Z * bool) :=
  let '(tb', (d, ok)) := TakeMaxDuration tb now count maxWait in (tb', (if 0 <? d then d else 0, ok)).

Definition TakeAvailable (tb : Bucket) (now count : Z) : Bucket * Z := takeAvailable tb now count.
Definition Available (tb : Bucket) (now : Z) : Bucket * Z := Bucket_available tb now.
Definition Bucket_Capacity (tb : Bucket) : Z := capacity tb.

(** ** Constructors *)

Definition NewBucketWithQuantum (now fill cap q : Z) : outcome Bucket := NewBucketWithQuantumAndClock now fill cap q.

Definition Rate (tb : Bucket) : f64 :=
  f64_div (f64_mul (f64_of_Z 1000000000) (f64_of_int64 (quantum tb))) (f64_of_int64 (fillInterval tb)).

Definition nextQuantum (q : Z) : Z :=
  let q1 := Z.quot (swrap64 (q * 11)) 10 in
  if q1 =? q then q1 + 1 else q1.

(** [int64(x)] of a positive double; a value out of range becomes the least
    integer, as on amd64. *)
Definition f64_to_int64 (x : f64) : Z := if f64_trunc x <? 2 ^ 63 then f64_trunc x else - 2 ^ 63.

(** [math.Abs(x - y)] *)
Definition f64_dist (x y : f64) : f64 := if f64_leb y x then f64_sub x y else f64_sub y x.

(** The double nearest to 0.01. *)
Definition rateMargin : f64 := f64_div (f64_of_Z 1) (f64_of_Z 100).

(** The loop over the quanta, for a positive rate; [None] when the fuel is
    used up. *)
Fixpoint rate_loop (fuel : nat) (rate : f64) (q : Z) (tb : Bucket) : option (outcome Bucket) :=
  match fuel with
  | O => None
  | S fuel' =>
      if q <? 2 ^ 50 then
        let fill := f64_to_int64 (f64_div (f64_mul (f64_of_Z 1000000000) (f64_of_int64 q)) rate) in
        if fill <=? 0 then rate_loop fuel' rate (nextQuantum q) tb
        else
          let tb := mkBucket (startTime tb) (capacity tb) q fill (availableTokens tb) (latestTick tb) in
          if f64_leb (f64_div (f64_dist (Rate tb) rate) rate) rateMargin then Some (Val tb)
          else rate_loop fuel' rate (nextQuantum q) tb
      else Some Panic
  end.

(** Fewer than four hundred quanta are tried. *)
Definition NewBucketWithRate (now : Z) (rate : f64) (cap : Z) : outcome Bucket :=
  let? tb := NewBucketWithQuantumAndClock now 1 cap 1 in
  match rate_loop 400 rate 1 tb with Some o => o | None => Panic end.

(** ** The constructor returns *)

Lemma nextQuantum_grows q : 1 <= q < 2 ^ 50 -> q < nextQuantum q.
Proof.
  intros Hq. unfold nextQuantum. rewrite swrap64_small, Z.quot_div_nonneg by lia.
  assert (q <= q * 11 / 10) by (apply Z.div_le_lower_bound; lia). destruct (_ =? _) eqn:E; zbool; lia.
Qed.

(** The quanta that are tried, counted. *)
Fixpoint quanta (fuel : nat) (q : Z) : bool :=
  match fuel with O => false | S fuel' => if q <? 2 ^ 50 then quanta fuel' (nextQuantum q) else true end.

Lemma quanta_400 : quanta 400 1 = true.
Proof. vm_compute. reflexivity. Qed.

(** What a bucket of a given rate looks like. *)
Record rate_bucket (now : Z) (rate : f64) (cap : Z) (tb : Bucket) : Prop := {
  rb_start : startTime tb = now;
  rb_capacity : capacity tb = cap;
  rb_full : availableTokens tb = cap /\ latestTick tb = 0;
  rb_quantum : 1 <= quantum tb < 2 ^ 50;
  rb_fill : 0 < fillInterval tb < 2 ^ 63;
  rb_rate : f64_leb (f64_div (f64_dist (Rate tb) rate) rate) rateMargin = true
}.

Lemma rate_loop_returns fuel now rate cap : forall q tb,
  quanta fuel q = true -> 1 <= q -> startTime tb = now -> capacity tb = cap -> availableTokens tb = cap -> latestTick tb = 0 ->
  exists o, rate_loop fuel rate q tb = Some o /\ (o = Panic \/ exists tb', o = Val tb' /\ rate_bucket now rate cap tb').
Proof.
  induction fuel as [|fuel IH]; intros q tb Hq H1 Hs Hc Ha Hl; [discriminate|]. cbn -[Rate f64_div f64_mul] in Hq |- *.
  destruct (q <? 2 ^ 50) eqn:E; zbool; [|eauto]. pose proof (nextQuantum_grows q ltac:(lia)) as Hg.
  set (fill := f64_to_int64 _). destruct (fill <=? 0) eqn:Ef; zbool; [apply IH; (done || lia)|].
  destruct (f64_leb _ rateMargin) eqn:Er; [|apply IH; (done || lia)].
  eexists. split; [done|]. right. eexists. split; [done|]. split; cbn; try done.
  split; [done|]. unfold fill, f64_to_int64. destruct (_ <? _) eqn:E2; zbool; lia.
Qed.

(** The constructor by rate returns for every positive rate: after fewer than
    400 attempts it panics for want of a suitable quantum or gives a full
    bucket with positive quantum and interval whose rate is within one per
    cent of the given one, as doubles compare. *)
Theorem NewBucketWithRate_returns now rate cap :
  0 < cap -> (exists tb, rate_loop 400 rate 1 (mkBucket now cap 1 1 cap 0) = Some (Val tb) /\
                NewBucketWithRate now rate cap = Val tb /\ rate_bucket now rate cap tb) \/
             (rate_loop 400 rate 1 (mkBucket now cap 1 1 cap 0) = Some Panic /\ NewBucketWithRate now rate cap = Panic).
Proof.
  intros Hc. unfold NewBucketWithRate, NewBucketWithQuantumAndClock. rewrite (proj2 (Z.leb_gt cap 0)) by done.
  change (1 <=? 0) with false. cbn [outcome_bind].
  destruct (rate_loop_returns 400 now rate cap 1 (mkBucket now cap 1 1 cap 0) quanta_400) as (o & -> & [->|(tb & -> & Ht)]);
    try done; [by right|]. left. by exists tb.
Qed.

(** ** The wait is right *)

(** The tokens a look at the bucket shows; negative when they are owed. *)
Definition tokens_at (tb : Bucket) (t : Z) : Z := (Available tb t).2.

(** Moments at which 64-bit arithmetic is exact. *)
Definition moment (tb : Bucket) (t : Z) : Prop :=
  0 <= t - startTime tb < 2 ^ 61 /\ currentTick tb t * quantum tb < 2 ^ 60.

Record lends (tb : Bucket) (now : Z) : Prop := {
  le_quantum : 0 < quantum tb < 2 ^ 60;
  le_fill : 0 < fillInterval tb;
  le_cap : 0 < capacity tb < 2 ^ 60;
  le_avail : - 2 ^ 60 < availableTokens tb <= capacity tb;
  le_tick : 0 <= latestTick tb <= currentTick tb now;
  le_now : moment tb now
}.

Lemma tick_bounds tb t :
  0 < fillInterval tb -> 0 < quantum tb -> moment tb t ->
  0 <= currentTick tb t < 2 ^ 61 /\ currentTick tb t * fillInterval tb <= t - startTime tb < (currentTick tb t + 1) * fillInterval tb.
Proof.
  intros Hf Hq [Ht _]. rewrite currentTick_exact by lia. pose proof (Z.div_mod (t - startTime tb) (fillInterval tb) ltac:(lia)).
  pose proof (Z.mod_pos_bound (t - startTime tb) (fillInterval tb) Hf).
  assert (0 <= (t - startTime tb) / fillInterval tb) by (apply Z.div_pos; lia).
  split; [split; [done|]; apply Z.div_lt_upper_bound; nia|nia].
Qed.

(** Adjusting in plain integers. *)
Lemma adjust_exact tb t tick0 :
  0 < quantum tb -> 0 < fillInterval tb -> capacity tb < 2 ^ 60 -> - 2 ^ 61 < availableTokens tb ->
  0 <= latestTick tb <= tick0 -> tick0 <= currentTick tb t -> moment tb t -> availableTokens tb < capacity tb ->
  adjustavailableTokens tb (currentTick tb t) =
  set_tokens tb (Z.min (capacity tb) (availableTokens tb + (currentTick tb t - latestTick tb) * quantum tb)) (currentTick tb t).
Proof.
  intros Hq Hf Hc Ha Hl Ht Hm Hlt. destruct (tick_bounds tb t Hf Hq Hm) as [Hb _]. destruct Hm as [_ Hm].
  unfold adjustavailableTokens. rewrite (proj2 (Z.leb_gt _ _)) by done.
  set (T := currentTick tb t) in *. assert (0 <= (T - latestTick tb) * quantum tb <= T * quantum tb) by nia.
  rewrite (swrap64_small (T - _)), (swrap64_small (_ * _)), swrap64_small by lia. f_equal.
  destruct (_ <? _) eqn:E; zbool; lia.
Qed.

Lemma tokens_exact tb t tick0 :
  0 < quantum tb -> 0 < fillInterval tb -> capacity tb < 2 ^ 60 -> - 2 ^ 61 < availableTokens tb ->
  0 <= latestTick tb <= tick0 -> tick0 <= currentTick tb t -> moment tb t -> availableTokens tb < capacity tb ->
  tokens_at tb t = Z.min (capacity tb) (availableTokens tb + (currentTick tb t - latestTick tb) * quantum tb).
Proof.
  intros. unfold tokens_at, Available, Bucket_available. cbn [snd]. by rewrite (adjust_exact tb t tick0).
Qed.

(** What an adjustment leaves, full or not. *)
Lemma adjust_lends tb now :
  lends tb now ->
  exists a l, adjustavailableTokens tb (currentTick tb now) = set_tokens tb a l /\
    availableTokens tb <= a <= capacity tb /\ 0 <= l <= currentTick tb now /\
    (availableTokens tb < capacity tb -> l = currentTick tb now).
Proof.
  intros [Hq Hf Hc Ha Hl Hm]. destruct (Z.lt_ge_cases (availableTokens tb) (capacity tb)) as [Hlt|Hge].
  - eexists _, _. split; [apply (adjust_exact tb now (currentTick tb now)); (done || lia)|]. split; [nia|]. split; [lia|done].
  - exists (availableTokens tb), (latestTick tb). unfold adjustavailableTokens. rewrite (proj2 (Z.leb_le _ _)) by lia.
    split; [by destruct tb|]. split; [lia|]. split; [done|lia].
Qed.

(** The ticks that are missing. *)
Lemma missing_ticks owed q : 0 < owed -> 0 < q ->
  let n := Z.quot (owed + q - 1) q in 1 <= n <= owed /\ (n - 1) * q < owed <= n * q.
Proof.
  intros Ho Hq n. unfold n. rewrite Z.quot_div_nonneg by lia.
  pose proof (Z.div_mod (owed + q - 1) q ltac:(lia)). pose proof (Z.mod_pos_bound (owed + q - 1) q Hq).
  set (k := (owed + q - 1) / q) in *. assert (1 <= k) by (unfold k; apply Z.div_le_lower_bound; lia). nia.
Qed.

(** Tokens taken ahead of time are there after the wait that [take] returns: at
    no moment from then on does the bucket owe any; and if it was not full, it
    owes some at every moment before, so the wait is no longer than needed.
    When the wait would be longer than allowed, no token is taken. *)
Theorem take_wait_exact tb now count maxWait tb' d ok :
  lends tb now -> 0 < count < 2 ^ 60 ->
  (currentTick tb now + (count - availableTokens tb) + 1) * fillInterval tb < 2 ^ 61 ->
  Bucket_take tb now count maxWait = (tb', (d, ok)) ->
  if ok then
    0 <= d /\ (d = 0 \/ d <= maxWait) /\
    (forall t, now + d <= t -> moment tb t -> 0 <= tokens_at tb' t) /\
    (availableTokens tb < capacity tb -> forall t, now <= t < now + d -> moment tb t -> tokens_at tb' t < 0)
  else tb' = adjustavailableTokens tb (currentTick tb now) /\ d = 0.
Proof.
  intros Hlend Hcount Hlim H. destruct (adjust_lends tb now Hlend) as (a & l & Hadj & Ha & Hl & Hfull).
  destruct Hlend as [Hq Hf Hc Hav Htk Hm]. destruct (tick_bounds tb now Hf ltac:(lia) Hm) as [HT HT'].
  pose proof Hm as [Hnow _]. unfold Bucket_take in H. rewrite (proj2 (Z.leb_gt count 0)), Hadj in H by lia.
  cbn [availableTokens set_tokens quantum startTime fillInterval capacity latestTick] in H.
  rewrite (swrap64_small (a - count)) in H by lia. set (T := currentTick tb now) in *.
  assert (forall t, moment tb t -> T <= currentTick tb t -> a - count < capacity tb ->
    tokens_at (set_tokens tb (a - count) l) t = Z.min (capacity tb) (a - count + (currentTick tb t - l) * quantum tb)) as Htok.
  { intros t Hmt Htt Hlt. apply (tokens_exact (set_tokens tb (a - count) l) t T); cbn; (done || lia). }
  assert (forall t, now <= t -> T <= currentTick tb t) as Hmono by (intros t Ht; apply currentTick_mono; (done || lia)).
  destruct (0 <=? a - count) eqn:E0; zbool.
  - injection H as <- <- <-. split; [done|]. split; [by left|]. split; [|lia]. intros t Ht Hmt.
    rewrite Htok by (done || lia || (apply Hmono; lia)). specialize (Hmono t ltac:(lia)). nia.
  - destruct (missing_ticks (count - a) (quantum tb) ltac:(lia) ltac:(lia)) as [Hn Hn'].
    replace (- (a - count) + quantum tb - 1) with (count - a + quantum tb - 1) in H by lia.
    rewrite (swrap64_small (count - a + _ - 1)) in H by lia. set (n := Z.quot (count - a + quantum tb - 1) (quantum tb)) in *.
    assert ((T + n) * fillInterval tb <= (T + (count - availableTokens tb) + 1) * fillInterval tb) by (apply Z.mul_le_mono_nonneg_r; lia).
    assert (0 <= (T + n) * fillInterval tb) by (apply Z.mul_nonneg_nonneg; lia).
    assert (0 < fillInterval tb * n) by (apply Z.mul_pos_pos; lia).
    rewrite (swrap64_small (T + n)), swrap64_small in H by lia. unfold time_Add in H.
    rewrite time_Sub_exact in H by lia. set (w := startTime tb + (T + n) * fillInterval tb - now) in *.
    assert ((T + 1) * fillInterval tb <= (T + n) * fillInterval tb) by (apply Z.mul_le_mono_nonneg_r; lia).
    assert (0 < w) by (unfold w; lia).
    destruct (maxWait <? w) eqn:Ew; zbool; injection H as <- <- <-; [done|].
    split; [lia|]. split; [by right|]. split.
    + intros t Ht Hmt. destruct (tick_bounds tb t Hf ltac:(lia) Hmt) as [_ Htt].
      rewrite Htok by (done || lia || (apply Hmono; lia)).
      assert (T + n < currentTick tb t + 1) by (apply (Z.mul_lt_mono_pos_r (fillInterval tb)); unfold w in Ht; lia).
      assert (n * quantum tb <= (currentTick tb t - l) * quantum tb) by (apply Z.mul_le_mono_nonneg_r; lia). lia.
    + intros Hnf t Ht Hmt. destruct (tick_bounds tb t Hf ltac:(lia) Hmt) as [_ Htt]. rewrite (Hfull Hnf) in *.
      specialize (Hmono t ltac:(lia)). rewrite Htok by (done || lia).
      assert (currentTick tb t < T + n) by (apply (Z.mul_lt_mono_pos_r (fillInterval tb)); unfold w in Ht; lia).
      assert ((currentTick tb t - T) * quantum tb <= (n - 1) * quantum tb) by (apply Z.mul_le_mono_nonneg_r; lia). lia.
Qed.

(** ** Witnesses *)

(** An empty bucket that gets three tokens a second lends eight, at 0.5 s. *)
Definition lending : Bucket := mkBucket 0 10 3 Second 0 0.

Lemma take_wait_exact_witness :
  (Wait lending (Second / 2) 8).2 = 5 * Second / 2 /\
  tokens_at (Wait lending (Second / 2) 8).1 (3 * Second) >= 0 /\
  tokens_at (Wait lending (Second / 2) 8).1 (3 * Second - 1) < 0.
Proof.
  split; [reflexivity|].
  destruct (take_wait_exact lending (Second / 2) 8 maxDuration (Wait lending (Second / 2) 8).1 (5 * Second / 2) true)
    as (_ & _ & H1 & H2).
  - split; try (vm_compute; intuition congruence).
  - lia.
  - vm_compute. reflexivity.
  - vm_compute. reflexivity.
  - split; [apply Z.le_ge, H1|apply H2]; vm_compute; intuition congruence.
Defined.

Lemma NewBucketWithRate_returns_witness :
  exists tb, NewBucketWithRate 0 (f64_of_Z 100) 5 = Val tb /\ quantum tb = 1 /\ fillInterval tb = 10 * Millisecond.
Proof.
  destruct (NewBucketWithRate_returns 0 (f64_of_Z 100) 5 ltac:(lia)) as [(tb & H1 & H2 & _)|[H1 _]].
  - exists tb. split; [exact H2|]. vm_compute in H1. injection H1 as <-. split; reflexivity.
  - vm_compute in H1. discriminate.
Defined.
