(* ===== verification/Controller.v ===== *)
(** * Controllers and their chain (src/controller, src/server/server_controller.go)

    The [Controller] interface as a class, its three implementations and the
    chain the server runs.  The metrics registry and the trace package are
    outside the repository's own code: a controller's calls of them are
    recorded as the list of samples and trace lines it emits.  A connection is
    an identifier. *)
From S2P Require Import Prelude GoStd GoTime Header Message Core RateLimit.

Definition conn := Z.

(** ** The interface *)

(** The time of [time.Now] and the request's start time, for the hooks that
    read them. *)
Record hook_ctx := mkHook { hk_now : Z; hk_start : Z }.

Class Controller (C : Type) := {
  ctl_Register : gostring -> C -> C * option error;
  ctl_HandleConn : Z -> conn -> C -> C * (conn * bool);
  ctl_PostRequest : Message -> option error -> C -> C * option error;
  ctl_PostResponse : hook_ctx -> Message -> Message -> option error -> C -> C * option error
}.

(** ** Metric *)

(** One call of the metrics library. *)
Inductive sample :=
| CounterInc (name : gostring) (n : Z)
| MeterMark (name : gostring) (n : Z)
| HistogramUpdate (name : gostring) (v : Z).

Record Metric := mkMetric { Prefix : gostring; samples : list sample }.

Definition NewMetric : Metric := mkMetric [] [].
Definition withPrefix (m : Metric) (s : gostring) : gostring := Prefix m ++ s.
Definition emit (m : Metric) (s : sample) : Metric := mkMetric (Prefix m) (samples m ++ [s]).

Definition metric_Register (name : gostring) (m : Metric) : Metric * option error :=
  (emit m (CounterInc (withPrefix m (str "serviceCounter")) 1), None).

Definition metric_HandleConn (now : Z) (c : conn) (m : Metric) : Metric * (conn * bool) :=
  (emit m (MeterMark (withPrefix m (str "clientMeter")) 1), (c, true)).

Definition service_metric (m : Metric) (msg : Message) (suffix : gostring) : gostring :=
  withPrefix m (str "service." ++ ServicePath msg ++ str "." ++ ServiceMethod msg ++ suffix).

Definition metric_PostRequest (req : Message) (e : option error) (m : Metric) : Metric * option error :=
  if bool_decide (ServicePath req = []) then (m, None)
  else (emit m (MeterMark (service_metric m req (str ".Read_Qps")) 1), None).

Definition metric_PostResponse (h : hook_ctx) (req res : Message) (e : option error) (m : Metric)
    : Metric * option error :=
  if bool_decide (ServicePath res = []) then (m, None)
  else
    let m := emit m (MeterMark (service_metric m res (str ".Write_Qps")) 1) in
    let t := hk_start h in
    if 0 <? t then
      let t := swrap64 (hk_now h - t) in
      if t <? 30 * 60 * Second then (emit m (HistogramUpdate (service_metric m res (str ".CallTime")) t), None)
      else (m, None)
    else (m, None).

#[export] Instance Metric_Controller : Controller Metric := {
  ctl_Register := metric_Register;
  ctl_HandleConn := metric_HandleConn;
  ctl_PostRequest := metric_PostRequest;
  ctl_PostResponse := metric_PostResponse
}.

(** *** Reporters

    Each starts work of a library on the registry in the background and returns
    the controller; [resolve] is [net.ResolveTCPAddr], whose error is dropped
    (the address is then nil). *)
Inductive background :=
| RegisterMemStats
| CaptureMemStats (freq : Z)
| LogMetrics (freq : Z)
| SendGraphite (freq : Z) (prefix : gostring) (addr : option gostring)
| SendInfluxDB (freq : Z) (url database username password : gostring)
| ServeHTTPOn (addr : gostring).

Definition CaptureRunTimeStats (m : Metric) : Metric * list background :=
  (m, [RegisterMemStats; CaptureMemStats Second]).
Definition metric_Log (freq : Z) (m : Metric) : Metric * list background := (m, [LogMetrics freq]).
Definition metric_Graphite (resolve : gostring -> option gostring) (freq : Z) (prefix url : gostring) (m : Metric)
    : Metric * list background :=
  (m, [SendGraphite freq prefix (resolve url)]).
Definition metric_InfluxDB (freq : Z) (url database username password : gostring) (m : Metric)
    : Metric * list background :=
  (m, [SendInfluxDB freq url database username password]).

(** ** Trace *)

(** The events of a trace: family title, and the fields its line prints. *)
Inductive trace_line :=
| TraceRegister (name : gostring)
| TraceAccept (c : conn)
| TraceRead (path method : gostring) (seq : Z)
| TraceWrite (path method : gostring) (seq : Z) (failed : bool).

Record Trace := mkTrace { trace_lines : list trace_line }.

Definition NewTrace : Trace := mkTrace [].

(** [ExportListner] listens on port 8088, whatever the address it is given. *)
Definition ExportListner (addr : gostring) (t : Trace) : Trace * list background := (t, [ServeHTTPOn (str ":8088")]).

Definition trace_emit (t : Trace) (l : trace_line) : Trace := mkTrace (trace_lines t ++ [l]).

Definition trace_Register (name : gostring) (t : Trace) : Trace * option error :=
  (trace_emit t (TraceRegister name), None).
Definition trace_HandleConn (now : Z) (c : conn) (t : Trace) : Trace * (conn * bool) :=
  (trace_emit t (TraceAccept c), (c, true)).
Definition trace_PostRequest (req : Message) (e : option error) (t : Trace) : Trace * option error :=
  (trace_emit t (TraceRead (ServicePath req) (ServiceMethod req) (Seq (msg_Header req))), None).
Definition trace_PostResponse (h : hook_ctx) (req res : Message) (e : option error) (t : Trace)
    : Trace * option error :=
  (trace_emit t (TraceWrite (ServicePath req) (ServiceMethod req) (Seq (msg_Header req))
     (match e with None => false | Some _ => true end)), None).

#[export] Instance Trace_Controller : Controller Trace := {
  ctl_Register := trace_Register;
  ctl_HandleConn := trace_HandleConn;
  ctl_PostRequest := trace_PostRequest;
  ctl_PostResponse := trace_PostResponse
}.

(** ** RateLimit *)

Definition ratelimit_Register (name : gostring) (r : RateLimit) : RateLimit * option error := (r, None).
Definition ratelimit_PostRequest (req : Message) (e : option error) (r : RateLimit)
    : RateLimit * option error := (r, None).
Definition ratelimit_PostResponse (h : hook_ctx) (req res : Message) (e : option error) (r : RateLimit)
    : RateLimit * option error := (r, None).

#[export] Instance RateLimit_Controller : Controller RateLimit := {
  ctl_Register := ratelimit_Register;
  ctl_HandleConn := fun now c r => let '(r', ok) := ratelimit_HandleConn r now in (r', (c, ok));
  ctl_PostRequest := ratelimit_PostRequest;
  ctl_PostResponse := ratelimit_PostResponse
}.

(** ** The server's chain *)

(** A value of the interface type with its dynamic type. *)
Inductive controller :=
| CMetric (m : Metric)
| CTrace (t : Trace)
| CRateLimit (r : RateLimit).

Definition wrap_res {A} (k : A -> controller) {B} (r : A * B) : controller * B := (k r.1, r.2).

#[export] Instance controller_Controller : Controller controller := {
  ctl_Register := fun name c => match c with
    | CMetric m => wrap_res CMetric (ctl_Register name m)
    | CTrace t => wrap_res CTrace (ctl_Register name t)
    | CRateLimit r => wrap_res CRateLimit (ctl_Register name r) end;
  ctl_HandleConn := fun now cn c => match c with
    | CMetric m => wrap_res CMetric (ctl_HandleConn now cn m)
    | CTrace t => wrap_res CTrace (ctl_HandleConn now cn t)
    | CRateLimit r => wrap_res CRateLimit (ctl_HandleConn now cn r) end;
  ctl_PostRequest := fun req e c => match c with
    | CMetric m => wrap_res CMetric (ctl_PostRequest req e m)
    | CTrace t => wrap_res CTrace (ctl_PostRequest req e t)
    | CRateLimit r => wrap_res CRateLimit (ctl_PostRequest req e r) end;
  ctl_PostResponse := fun h req res e c => match c with
    | CMetric m => wrap_res CMetric (ctl_PostResponse h req res e m)
    | CTrace t => wrap_res CTrace (ctl_PostResponse h req res e t)
    | CRateLimit r => wrap_res CRateLimit (ctl_PostResponse h req res e r) end
}.

Section chain.
Context {C : Type} `{Controller C}.

(** Every controller is called; the errors are collected. *)
Fixpoint chain_Register_loop (name : gostring) (cs : list C) : list C * list error :=
  match cs with
  | [] => ([], [])
  | c :: cs' =>
      let '(c', e) := ctl_Register name c in
      let '(cs'', es) := chain_Register_loop name cs' in
      (c' :: cs'', match e with Some e => e :: es | None => es end)
  end.

Definition chain_Register (name : gostring) (cs : list C) : list C * option error :=
  let '(cs', es) := chain_Register_loop name cs in
  (cs', match es with [] => None | _ => Some (NewMultiError es) end).

(** The first refusal closes the connection and stops; the result tells
    whether the connection is accepted and which connection was closed. *)
Fixpoint chain_HandleConn (now : Z) (cn : conn) (cs : list C) : list C * (conn * bool * list conn) :=
  match cs with
  | [] => ([], (cn, true, []))
  | c :: cs' =>
      let '(c', (cn', flag)) := ctl_HandleConn now cn c in
      if negb flag then (c' :: cs', (cn', false, [cn']))
      else let '(cs'', r) := chain_HandleConn now cn' cs' in (c' :: cs'', r)
  end.

(** The first error stops the chain. *)
Fixpoint chain_PostRequest (req : Message) (err : option error) (cs : list C) : list C * option error :=
  match cs with
  | [] => ([], None)
  | c :: cs' =>
      let '(c', e) := ctl_PostRequest req err c in
      match e with
      | Some e => (c' :: cs', Some e)
      | None => let '(cs'', e') := chain_PostRequest req err cs' in (c' :: cs'', e')
      end
  end.

Fixpoint chain_PostResponse (h : hook_ctx) (req res : Message) (err : option error) (cs : list C)
    : list C * option error :=
  match cs with
  | [] => ([], None)
  | c :: cs' =>
      let '(c', e) := ctl_PostResponse h req res err c in
      match e with
      | Some e => (c' :: cs', Some e)
      | None => let '(cs'', e') := chain_PostResponse h req res err cs' in (c' :: cs'', e')
      end
  end.
End chain.

(** ** The gate *)

(** Connections offered to the chain one after the other: who was accepted. *)
Fixpoint accept_all (arrivals : list (Z * conn)) (cs : list controller) : list controller * list bool :=
  match arrivals with
  | [] => (cs, [])
  | (now, cn) :: arrivals' =>
      let '(cs', (_, ok, _)) := chain_HandleConn now cn cs in
      let '(cs'', oks) := accept_all arrivals' cs' in
      (cs'', ok :: oks)
  end.

(** The chain asks the first controller, and the others only if it accepts. *)
Lemma chain_HandleConn_cons now cn (c : controller) cs :
  exists c' cn' flag, ctl_HandleConn now cn c = (c', (cn', flag)) /\ cn' = cn /\
    (flag = true -> chain_HandleConn now cn (c :: cs) =
       (c' :: (chain_HandleConn now cn cs).1, (chain_HandleConn now cn cs).2)) /\
    (flag = false -> chain_HandleConn now cn (c :: cs) = (c' :: cs, (cn, false, [cn]))).
Proof.
  destruct (ctl_HandleConn now cn c) as [c' [cn' flag]] eqn:E. exists c', cn', flag. split; [done|].
  assert (cn' = cn) as ->.
  { destruct c as [m|t|r]; cbn in E; unfold wrap_res in E; [by injection E|by injection E|].
    destruct (ratelimit_HandleConn r now). cbn in E. by injection E. }
  split; [done|]. cbn [chain_HandleConn]. rewrite E. split; intros ->; cbn [negb]; [|done].
  by destruct (chain_HandleConn now cn cs).
Qed.

(** The chain returns the connection it was given, and closes it exactly when
    it refuses it. *)
Lemma chain_HandleConn_conn now cn (cs : list controller) : (chain_HandleConn now cn cs).2.1.1 = cn.
Proof.
  induction cs as [|c cs IH]; [done|].
  destruct (chain_HandleConn_cons now cn c cs) as (c' & cn' & [] & _ & _ & Ht & Hf); [by rewrite Ht|by rewrite Hf].
Qed.

Lemma chain_HandleConn_closed now cn (cs : list controller) :
  (chain_HandleConn now cn cs).2.2 = if (chain_HandleConn now cn cs).2.1.2 then [] else [cn].
Proof.
  induction cs as [|c cs IH]; [done|].
  destruct (chain_HandleConn_cons now cn c cs) as (c' & cn' & [] & _ & _ & Ht & Hf); [by rewrite Ht|by rewrite Hf].
Qed.

(** What happens to a rate limiter inside a chain: either an earlier controller
    refused and the limiter is untouched, or it was asked, and the chain
    accepts only if it admits. *)
Lemma chain_HandleConn_limiter now cn r post : forall pre,
  exists pre' r' post' ok cl,
    chain_HandleConn now cn (pre ++ CRateLimit r :: post) = (pre' ++ CRateLimit r' :: post', (cn, ok, cl)) /\
    (r' = r /\ ok = false \/ exists adm, ratelimit_HandleConn r now = (r', adm) /\ (ok = true -> adm = true)).
Proof.
  induction pre as [|c pre IH]; cbn [app].
  - destruct (chain_HandleConn_cons now cn (CRateLimit r) post) as (c' & cn' & flag & Hc & -> & Ht & Hf).
    cbn in Hc. unfold wrap_res in Hc. destruct (ratelimit_HandleConn r now) as [r' adm] eqn:E.
    cbn in Hc. injection Hc as <- <-. destruct adm.
    + rewrite Ht by done. destruct (chain_HandleConn now cn post) as [post' [[cn2 ok] cl]] eqn:E2.
      pose proof (chain_HandleConn_conn now cn post) as Hcn. rewrite E2 in Hcn. cbn in Hcn. subst cn2.
      exists [], r', post', ok, cl. split; [done|]. right. by exists true.
    + rewrite Hf by done. exists [], r', post, false, [cn]. split; [done|]. right. by exists false.
  - destruct (chain_HandleConn_cons now cn c (pre ++ CRateLimit r :: post)) as (c' & cn' & [] & _ & _ & Ht & Hf).
    + rewrite Ht by done. destruct IH as (pre' & r' & post' & ok & cl & -> & Hr).
      by exists (c' :: pre'), r', post', ok, cl.
    + rewrite Hf by done. exists (c' :: pre), r, post, false, [cn]. split; [done|]. by left.
Qed.

Lemma bucket_ok_later tb t now :
  bucket_ok tb t -> t <= now -> now - startTime tb < 2 ^ 62 -> bucket_ok tb now.
Proof.
  intros [? ? ? ? ? ?] Hle Hb. split; try done; [lia|].
  pose proof (currentTick_mono tb t now ltac:(done) ltac:(lia) Hle). lia.
Qed.

Lemma accept_all_paid arrivals : forall pre r post t,
  bucket_ok (bucket r) t -> ascending t (map fst arrivals) ->
  end_time t (map fst arrivals) - startTime (bucket r) < 2 ^ 62 ->
  exists pre' r' post' oks, accept_all arrivals (pre ++ CRateLimit r :: post) = (pre' ++ CRateLimit r' :: post', oks) /\
    bucket_ok (bucket r') (end_time t (map fst arrivals)) /\ (forall u, tick_of r' u = tick_of r u) /\
    admitted oks + (availableTokens (bucket r') - latestTick (bucket r'))
      <= availableTokens (bucket r) - latestTick (bucket r).
Proof.
  induction arrivals as [|[now cn] arrivals IH]; intros pre r post t Hok Hasc Hend.
  - exists pre, r, post, []. do 3 (split; [done|]). change (admitted []) with 0. lia.
  - cbn in Hasc, Hend |- *. destruct Hasc as [Hle Hasc]. pose proof (ascending_end _ _ Hasc).
    destruct (chain_HandleConn_limiter now cn r post pre) as (pre1 & r1 & post1 & ok & cl & -> & Hr).
    assert (bucket_ok (bucket r1) now /\ startTime (bucket r1) = startTime (bucket r) /\
      (forall u, tick_of r1 u = tick_of r u) /\
      (if ok then 1 else 0) + (availableTokens (bucket r1) - latestTick (bucket r1))
        <= availableTokens (bucket r) - latestTick (bucket r)) as (Hok1 & Hs1 & Ht1 & Hp1).
    { destruct Hr as [[-> ->]|(adm & Hadm & Hokadm)].
      - split; [apply bucket_ok_later with t; done || lia|]. do 2 (split; [done|]). lia.
      - destruct (HandleConn_step r t now Hok Hle ltac:(lia)) as (r2 & adm' & H2 & ? & _ & ? & ? & _ & ? & _).
        rewrite Hadm in H2. injection H2 as <- <-. do 3 (split; [done|]).
        destruct ok; [rewrite Hokadm in * by done|destruct adm]; lia. }
    destruct (IH pre1 r1 post1 now Hok1 Hasc ltac:(lia)) as (pre2 & r2 & post2 & oks & -> & Hok2 & Ht2 & Hp2).
    exists pre2, r2, post2, (ok :: oks). split; [done|]. split; [done|]. split; [intros u; by rewrite Ht2|].
    rewrite admitted_cons. lia.
Qed.

(** C21.  A rate limit holds for the server whatever other controllers its chain
    has, before or after it: of the connections offered to the chain since the
    limiter was made, no more are accepted than its capacity plus the whole
    fill intervals that have passed. *)
Theorem chain_rate_limited start fill cap r pre post arrivals :
  NewConnConcurrentLimit start fill cap = Val r -> cap < 2 ^ 62 ->
  ascending start (map fst arrivals) -> end_time start (map fst arrivals) - start < 2 ^ 62 ->
  admitted (accept_all arrivals (pre ++ CRateLimit r :: post)).2
    <= cap + (end_time start (map fst arrivals) - start) / fill.
Proof.
  intros Hnew Hc Hasc Hend. destruct (NewConnConcurrentLimit_ok _ _ _ _ Hnew Hc) as (Hok & Hs & Hcap & Ha & Hl).
  rewrite <- Hs in Hend at 2.
  destruct (accept_all_paid arrivals pre r post start Hok Hasc Hend) as (pre' & r' & post' & oks & -> & Hok' & Ht & Hp).
  cbn [snd]. destruct (ok_tick _ _ Hok') as [_ Htk]. pose proof (ok_avail _ _ Hok'). pose proof (ok_fill _ _ Hok).
  fold (tick_of r' (end_time start (map fst arrivals))) in Htk. rewrite Ht in Htk.
  unfold tick_of in Htk. pose proof (ascending_end _ _ Hasc).
  rewrite (currentTick_exact (bucket r)) in Htk by (rewrite ?Hs in *; done || lia).
  rewrite (NewConnConcurrentLimit_fill _ _ _ _ Hnew), Hs in Htk. lia.
Qed.

Lemma chain_rate_limited_witness :
  admitted (accept_all [(5, 1); (6, 2); (7, 3)]
    [CMetric NewMetric; CRateLimit (mkRateLimit Second 1 (mkBucket 0 1 1 Second 1 0)); CTrace (mkTrace [])]).2
    <= 1 + (7 - 0) / Second.
Proof.
  apply (chain_rate_limited 0 Second 1 _ [CMetric NewMetric] [CTrace (mkTrace [])] [(5, 1); (6, 2); (7, 3)]).
  - reflexivity.
  - lia.
  - vm_compute. intuition discriminate.
  - vm_compute. reflexivity.
Defined.
