(* ===== verification/Service.v ===== *)
(** * Services and their methods (src/server/service.go)

    Reflection is modelled by what the code asks of it: of a type, whether it
    is a pointer and to what, its name, package path and rendering, whether it
    implements [context.Context] and whether it is [error]; of a method, its
    name, package path, parameter and result types, and what calling it does.
    A user method is a function from the request metadata and the decoded
    argument to the reply, the error it returns and the response metadata it
    sets in its context; or it panics.  Whether a non-ASCII first rune is upper
    case (a Unicode table) is an argument. *)
From Stdlib Require Import Strings.Byte.
From S2P Require Import Prelude GoStd Header Message Core.

(** A pointer type or another type; [context] tells whether it implements
    [context.Context]. *)
Inductive rtype : Type :=
| Ptr (elem : rtype) (name pkgPath : gostring) (context : bool)
| NonPtr (name pkgPath : gostring) (context iserror : bool).

Definition t_Elem (t : rtype) : option rtype := match t with Ptr e _ _ _ => Some e | NonPtr _ _ _ _ => None end.
Definition t_Name (t : rtype) : gostring := match t with Ptr _ n _ _ | NonPtr n _ _ _ => n end.
Definition t_PkgPath (t : rtype) : gostring := match t with Ptr _ _ p _ | NonPtr _ p _ _ => p end.
Definition t_Context (t : rtype) : bool := match t with Ptr _ _ _ c | NonPtr _ _ c _ => c end.
Definition t_Error (t : rtype) : bool := match t with Ptr _ _ _ _ => false | NonPtr _ _ _ e => e end.

Definition is_ptr (t : rtype) : bool := match t_Elem t with Some _ => true | None => false end.

Section service.
Context {value : Type} (nonascii_upper : gostring -> bool).

(** What a call of a user method does. *)
Inductive user_result :=
| Returns (reply : value) (err : option error) (resMeta : metadata)
| Panics (r : gostring) (resMeta : metadata).

Record method := mkMethod {
  m_Name : gostring;
  m_PkgPath : gostring;
  m_In : list rtype;
  m_Out : list rtype;
  m_Func : option metadata -> value -> user_result
}.

Record methodType := mkMethodType {
  mt_method : method;
  mt_argType : rtype;
  mt_replyType : rtype;
  mt_numCalls : Z
}.

(** A receiver: the name of its type behind pointers, the rendering of the
    type, and its method set. *)
Record receiver := mkReceiver {
  rv_Name : gostring;
  rv_String : gostring;
  rv_methods : list method
}.

Record service := mkService {
  svc_name : gostring;
  svc_rcvr : receiver;
  svc_method : gmap gostring methodType
}.

(** ** Which methods are offered *)

Definition isExported (name : gostring) : bool :=
  match name with
  | [] => false
  | b :: _ => if byte_to_Z b <? 128 then (65 <=? byte_to_Z b) && (byte_to_Z b <=? 90) else nonascii_upper name
  end.

(** The type behind all pointers. *)
Fixpoint strip_ptr (t : rtype) : rtype :=
  match t with
  | Ptr e _ _ _ => strip_ptr e
  | NonPtr _ _ _ _ => t
  end.

Definition isExportedOrBuiltinType (t : rtype) : bool :=
  let t := strip_ptr t in
  isExported (t_Name t) || bool_decide (t_PkgPath t = []).

(** One round of the loop of [suitableMethods]. *)
Definition suitable_method (m : method) : option methodType :=
  if negb (bool_decide (m_PkgPath m = [])) then None
  else if negb (len (m_In m) =? 4) then None
  else
    match m_In m with
    | [_; ctxType; argType; replyType] =>
        if negb (t_Context ctxType) then None
        else if negb (isExportedOrBuiltinType argType) then None
        else if negb (is_ptr replyType) then None
        else if negb (isExportedOrBuiltinType replyType) then None
        else if negb (len (m_Out m) =? 1) then None
        else match m_Out m with
             | [returnType] =>
                 if negb (t_Error returnType) then None
                 else Some (mkMethodType m argType replyType 0)
             | _ => None
             end
    | _ => None
    end.

Definition suitableMethods (methods : list method) : gmap gostring methodType :=
  foldl (fun acc m => match suitable_method m with
                      | Some mt => <[m_Name m := mt]> acc
                      | None => acc
                      end) ∅ methods.

(** ** Registration *)

(** [sm] is [s.serviceMap]: [None] is the nil map. *)
Definition register (rcvr : receiver) (name : gostring) (useName : bool) (sm : option (gmap gostring service))
    : option (gmap gostring service) * option error :=
  let m := match sm with None => ∅ | Some m => m end in
  let sname := if useName then name else rv_Name rcvr in
  if bool_decide (sname = []) then
    (Some m, Some (errorString (str "frpc.Register: no service name for type " ++ rv_String rcvr)))
  else if negb useName && negb (isExported sname) then
    (Some m, Some (errorString (str "frpc.Register: type " ++ sname ++ str " is not exported")))
  else
    let methods := suitableMethods (rv_methods rcvr) in
    if Z.of_nat (size methods) =? 0 then
      (Some m, Some (errorString (str "frpc.Register: type " ++ sname
                                  ++ str " has no exported methods of suitable type")))
    else (Some (<[sname := mkService sname rcvr methods]> m), None).

(** ** Calling *)

(** [service.call]: the counter is incremented, a panic is turned into an
    error; the reply matters only when there is no error. *)
Definition call (mt : methodType) (reqMeta : option metadata) (arg : value)
    : methodType * (value + error) * metadata :=
  let mt' := mkMethodType (mt_method mt) (mt_argType mt) (mt_replyType mt) (wrap64 (mt_numCalls mt + 1)) in
  match m_Func (mt_method mt) reqMeta arg with
  | Returns reply None rm => (mt', inl reply, rm)
  | Returns _ (Some e) rm => (mt', inr e, rm)
  | Panics r rm => (mt', inr (errorString (str "internal error: " ++ r)), rm)
  end.
End service.
Arguments user_result : clear implicits.
Arguments method : clear implicits.
Arguments methodType : clear implicits.
Arguments receiver : clear implicits.
Arguments service : clear implicits.

(** The type of the field [serviceMap]. *)
Abbreviation serviceMap value := (option (gmap gostring (service value))).

(** ** Proofs *)

Section service_proofs.
Context {value : Type} (nonascii_upper : gostring -> bool).
Implicit Types (m : method value) (mt : methodType value).

(** A method signature the server offers, as documentation states it: exported,
    [func(recv, context.Context, arg, *reply) error] with exported or builtin
    argument and reply types. *)
Record suitable (m : method value) (arg reply : rtype) : Prop := {
  su_exported : m_PkgPath m = [];
  su_in : exists recv ctx, m_In m = [recv; ctx; arg; reply] /\ t_Context ctx = true;
  su_arg : isExportedOrBuiltinType nonascii_upper arg = true;
  su_ptr : exists e, t_Elem reply = Some e;
  su_reply : isExportedOrBuiltinType nonascii_upper reply = true;
  su_out : exists e, m_Out m = [e] /\ t_Error e = true
}.

Lemma suitable_method_spec m mt :
  suitable_method nonascii_upper m = Some mt <->
  exists arg reply, suitable m arg reply /\ mt = mkMethodType m arg reply 0.
Proof.
  unfold suitable_method. split.
  - intros H. destruct (bool_decide (m_PkgPath m = [])) eqn:E1; [|done]. apply bool_decide_eq_true in E1.
    destruct (len (m_In m) =? 4); [|done]. cbn in H.
    destruct (m_In m) as [|recv [|ctx [|arg [|reply [|]]]]] eqn:E2; try done.
    destruct (t_Context ctx) eqn:E3; [|done]. destruct (isExportedOrBuiltinType _ arg) eqn:E4; [|done].
    destruct (is_ptr reply) eqn:E5; [|done]. destruct (isExportedOrBuiltinType _ reply) eqn:E6; [|done].
    cbn in H. destruct (len (m_Out m) =? 1); [|done]. destruct (m_Out m) as [|o []] eqn:E7; try done.
    destruct (t_Error o) eqn:E8; [|done]. injection H as <-. exists arg, reply. split; [|done].
    unfold is_ptr in E5. destruct (t_Elem reply) eqn:E9; [|done]. split; eauto.
  - intros (arg & reply & [H1 (recv & ctx & H2 & H3) H4 [e H5] H6 (o & H7 & H8)] & ->).
    rewrite bool_decide_true, H2, H3, H4, H6, H7, H8 by done. cbn. unfold is_ptr. by rewrite H5.
Qed.

Lemma suitableMethods_app l k :
  suitableMethods nonascii_upper (l ++ k) =
  foldl (fun acc m => match suitable_method nonascii_upper m with
                      | Some mt => <[m_Name m := mt]> acc | None => acc end)
    (suitableMethods nonascii_upper l) k.
Proof. unfold suitableMethods. by rewrite foldl_app. Qed.

Lemma suitableMethods_lookup (l : list (method value)) name mt :
  NoDup (m_Name <$> l) ->
  suitableMethods nonascii_upper l !! name = Some mt <->
  exists m, m ∈ l /\ m_Name m = name /\ suitable_method nonascii_upper m = Some mt.
Proof.
  revert name mt. induction l as [|m l IH] using rev_ind; intros name mt Hnd.
  { split; [done|]. intros (m & Hm & _). by apply not_elem_of_nil in Hm. }
  rewrite fmap_app, NoDup_app in Hnd. destruct Hnd as (Hnd & Hdisj & _). specialize (IH name).
  rewrite suitableMethods_app. cbn [foldl].
  assert (forall m', m' ∈ l ++ [m] <-> m' ∈ l \/ m' = m) as Hin.
  { intros m'. by rewrite elem_of_app, list_elem_of_singleton. }
  assert (forall m', m' ∈ l -> m_Name m' <> m_Name m) as Hne.
  { intros m' Hm' E. apply (Hdisj (m_Name m)); [rewrite <- E; by apply list_elem_of_fmap_2|].
    by apply list_elem_of_singleton. }
  destruct (suitable_method nonascii_upper m) as [mt0|] eqn:E.
  - destruct (decide (m_Name m = name)) as [<-|Hn].
    + rewrite lookup_insert_eq. split.
      * intros [= <-]. exists m. rewrite Hin. auto.
      * intros (m' & Hm' & Hname & Hs). apply Hin in Hm' as [Hm'| ->]; [by apply Hne in Hm'|congruence].
    + rewrite lookup_insert_ne, IH by done. split.
      * intros (m' & Hm' & ?). exists m'. rewrite Hin. auto.
      * intros (m' & Hm' & Hname & Hs). apply Hin in Hm' as [Hm'| ->]; [eauto|done].
  - rewrite IH by done. split.
    + intros (m' & Hm' & ?). exists m'. rewrite Hin. auto.
    + intros (m' & Hm' & Hname & Hs). apply Hin in Hm' as [Hm'| ->]; [eauto|congruence].
Qed.

(** The methods a service offers are exactly the suitable ones: a name is in
    the method table if and only if the receiver has a method of that name
    with the required signature, and the entry carries its argument and reply
    types and a call count of zero. *)
Theorem suitableMethods_exact (l : list (method value)) (name : gostring) mt :
  NoDup (m_Name <$> l) ->
  suitableMethods nonascii_upper l !! name = Some mt <->
  exists m arg reply, m ∈ l /\ m_Name m = name /\ suitable m arg reply /\ mt = mkMethodType m arg reply 0.
Proof.
  intros Hnd. rewrite suitableMethods_lookup by done. split.
  - intros (m & Hm & Hn & Hs). apply suitable_method_spec in Hs as (arg & reply & Hs & ->). eauto 10.
  - intros (m & arg & reply & Hm & Hn & Hs & ->). exists m. repeat split; try done.
    apply suitable_method_spec. eauto.
Qed.

(** Registration is all or nothing: it adds one service under the given name
    and nothing else when the receiver has a suitable method and a name, and
    otherwise returns an error and leaves every registered service as it was. *)
Theorem register_atomic (rcvr : receiver value) (name : gostring) (useName : bool) (sm : serviceMap value) :
  let sname := if useName then name else rv_Name rcvr in
  let old := match sm with None => ∅ | Some m => m end in
  match register nonascii_upper rcvr name useName sm with
  | (sm', None) =>
      sm' = Some (<[sname := mkService sname rcvr (suitableMethods nonascii_upper (rv_methods rcvr))]> old) /\
      sname <> [] /\ suitableMethods nonascii_upper (rv_methods rcvr) <> ∅ /\
      (useName = false -> isExported nonascii_upper sname = true)
  | (sm', Some e) =>
      sm' = Some old /\
      (sname = [] \/ suitableMethods nonascii_upper (rv_methods rcvr) = ∅ \/
       useName = false /\ isExported nonascii_upper sname = false)
  end.
Proof.
  cbn zeta. unfold register. set (sname := if useName then name else rv_Name rcvr).
  destruct (bool_decide (sname = [])) eqn:E1; [apply bool_decide_eq_true in E1; by auto|].
  apply bool_decide_eq_false in E1.
  destruct (negb useName && negb (isExported nonascii_upper sname)) eqn:E2.
  { apply andb_true_iff in E2 as [Hu He]. split; [done|]. right. right.
    by destruct useName, (isExported nonascii_upper sname). }
  set (ms := suitableMethods nonascii_upper (rv_methods rcvr)).
  destruct (Z.of_nat (size ms) =? 0) eqn:E3; zbool.
  { split; [done|]. right. left. apply map_size_empty_inv. lia. }
  repeat split; try done.
  - intros E. rewrite E, map_size_empty in E3. lia.
  - intros ->. by destruct (isExported nonascii_upper sname).
Qed.
End service_proofs.

(** ** Witnesses *)

Definition ty_context : rtype := NonPtr (str "Context") (str "context") true false.
Definition ty_error : rtype := NonPtr (str "error") [] false true.
Definition ty_recv : rtype := Ptr (NonPtr (str "Arith") (str "main") false false) [] [] false.
Definition ty_args : rtype := NonPtr (str "Args") (str "main") false false.
Definition ty_reply : rtype := Ptr (NonPtr (str "Reply") (str "main") false false) [] [] false.

(** Values are their own encoding; the method answers with the argument. *)
Definition echo : method bytes :=
  mkMethod (str "Echo") [] [ty_recv; ty_context; ty_args; ty_reply] [ty_error]
    (fun md arg => Returns arg None ∅).
Definition no_reply : method bytes :=
  mkMethod (str "Log") [] [ty_recv; ty_context; ty_args; ty_args] [ty_error] (fun md arg => Returns arg None ∅).
Definition sample_rcvr : receiver bytes := mkReceiver (str "Arith") (str "*main.Arith") [echo; no_reply].

Lemma suitableMethods_exact_witness :
  suitableMethods (fun _ => false) [echo; no_reply] !! str "Echo" = Some (mkMethodType echo ty_args ty_reply 0) <->
  exists m arg reply, m ∈ [echo; no_reply] /\ m_Name m = str "Echo" /\ suitable (fun _ => false) m arg reply /\
    mkMethodType echo ty_args ty_reply 0 = mkMethodType m arg reply 0.
Proof.
  apply (suitableMethods_exact (fun _ => false) [echo; no_reply] (str "Echo")
    (mkMethodType echo ty_args ty_reply 0)).
  apply (bool_decide_unpack _). vm_compute. done.
Defined.

Example suitableMethods_sample :
  map_to_list (mt_numCalls <$> suitableMethods (fun _ => false) (rv_methods sample_rcvr)) = [(str "Echo", 0)].
Proof. vm_compute. reflexivity. Qed.
