(* ===== verification/Server.v ===== *)
(** * The server (src/server/server.go, listener.go, option.go)

    The server's state, the handling of one request ([handleRequest] and the
    goroutine [serveConn] starts for it), the reading loop of a connection,
    the accept loop with its backoff, and closing.  Network and scheduler are
    inputs: the bytes a connection delivers, what [Accept] returns, clock
    readings.  [iterate] is the order in which a [range] visits a metadata
    map; the codec libraries and the Unicode table are arguments. *)
From Stdlib Require Import Strings.Byte.
From S2P Require Import Prelude GoStd GoTime Header Message Pool Core RateLimit Controller Service.

#[local] Open Scope go_scope.

(** protocol.ServiceError *)
Definition ServiceErrorKey : gostring := str "__frpc_error__".

Section server.
Context {value : Type} (nonascii_upper : gostring -> bool) (libs : codec_libs value rtype).
Context (iterate : option metadata -> list (gostring * gostring)).

(** ** Handling a request *)

Definition handleError (res : Message) (err : error) : Message * option error :=
  let res := set_Header (SetMessageStatusType (msg_Header res) StatusError) res in
  let md := match Metadata res with None => ∅ | Some md => md end in
  (set_Metadata (Some (<[ServiceErrorKey := Error err]> md)) res, Some err).

(** The type an argument is decoded into. *)
Definition target_type (t : rtype) : rtype := match t_Elem t with Some e => e | None => t end.

(** [s.serviceMap[serviceName]]; a nil map has no entries. *)
Definition find_service (sm : serviceMap value) (name : gostring) : option (service value) :=
  match sm with None => None | Some m => m !! name end.

(** The entry of a method with its call counter updated. *)
Definition record_call (sm : serviceMap value) (svc : service value) (name : gostring) (mt : methodType value)
    : serviceMap value :=
  match sm with
  | None => None
  | Some m => Some (<[svc_name svc := mkService (svc_name svc) (svc_rcvr svc) (<[name := mt]> (svc_method svc))]> m)
  end.

(** The part after the copy of the request has been made: the response, the
    error, and the response metadata the method has set. *)
Definition dispatch (res req : Message) (sm : serviceMap value)
    : serviceMap value * (Message * option error) * metadata :=
  match find_service sm (ServicePath res) with
  | None => (sm, handleError res (errorString (str "frpc: can't find service " ++ ServicePath res)), ∅)
  | Some svc =>
      match svc_method svc !! ServiceMethod res with
      | None => (sm, handleError res (errorString (str "frpc: can't find method " ++ ServiceMethod res)), ∅)
      | Some mtype =>
          match Codecs libs (getSerializeType (msg_Header req)) with
          | None => (sm, handleError res (errorString (str "can not find codec for "
                            ++ itoa (byte_to_Z (getSerializeType (msg_Header req))))), ∅)
          | Some codec =>
              match codec_Decode codec (Payload req) (target_type (mt_argType mtype)) with
              | inr err => (sm, handleError res err, ∅)
              | inl argv =>
                  let '(mtype', r, resMeta) := call mtype (Metadata req) argv in
                  let sm' := record_call sm svc (ServiceMethod res) mtype' in
                  match r with
                  | inr err => (sm', handleError res err, resMeta)
                  | inl replyv =>
                      match codec_Encode codec replyv with
                      | inr err => (sm', handleError res err, resMeta)
                      | inl data => (sm', (set_Payload data res, None), resMeta)
                      end
                  end
              end
          end
      end
  end.

Definition handleRequest (choice : option nat) (req : Message) (p : pool) (sm : serviceMap value)
    : pool * (serviceMap value * (Message * option error) * metadata) :=
  let '(res, p') := Copy choice req p in
  let res := set_Header (SetMessageType (msg_Header res) Response) res in
  (p', dispatch res req sm).

(** ** The goroutine of a request *)

(** Adding the metadata the method set in its context. *)
Definition merge_metadata (resMeta : metadata) (res : Message) : Message :=
  if bool_decide (resMeta = ∅) then res
  else match Metadata res with
       | None => set_Metadata (Some resMeta) res
       | Some meta => set_Metadata (Some (resMeta ∪ meta)) res
       end.

Record env := mkEnv {
  env_pool : pool;
  env_services : serviceMap value;
  env_controllers : list controller;
  env_written : list bytes
}.

(** What the goroutine started for a decoded request does to the shared state;
    [env_written] are the frames written to the connection, in order.  A
    heartbeat is answered from the request itself, which is not freed. *)
Definition serve_request (choice : option nat) (h : hook_ctx) (req : Message) (s : env) : outcome env :=
  if IsHeartbeat (msg_Header req) then
    let req := set_Header (SetMessageType (msg_Header req) Response) req in
    let? data := Encode req (iterate (Metadata req)) in
    Val (mkEnv (env_pool s) (env_services s) (env_controllers s) (env_written s ++ [data]))
  else
    let '(p, (sm, (res, err), resMeta)) := handleRequest choice req (env_pool s) (env_services s) in
    let finish res written :=
      let '(cs, _) := chain_PostResponse h req res err (env_controllers s) in
      Val (mkEnv (FreeMsg res (FreeMsg req p)) sm cs written) in
    if IsOneway (msg_Header req) then finish res (env_written s)
    else
      let res := merge_metadata resMeta res in
      let? data := Encode res (iterate (Metadata res)) in
      finish res (env_written s ++ [data]).

(** ** Reading a connection *)

(** One round of the loop of [serveConn]: read a request, or stop.  A panic of
    [Decode] is recovered by the deferred function, which ends the loop too. *)
Inductive read_result :=
| ReadRequest (req : Message) (r : reader)
| ReadStop.

Definition decodeRequest (MaxMessageLength : Z) (got : Message) (r : reader) (cs : list controller)
    : list controller * read_result :=
  match Decode MaxMessageLength (got, r) with
  | ((m, r'), Val _) => let '(cs', _) := chain_PostRequest m None cs in (cs', ReadRequest m r')
  | ((m, r'), Fail e) => let '(cs', _) := chain_PostRequest m (Some e) cs in (cs', ReadStop)
  | (_, Panic) => (cs, ReadStop)
  end.

(** The loop of [serveConn]: the requests it starts goroutines for before it
    stops.  [got] are the messages [GetMsgs] hands out, round by round.  Every
    decoded frame takes at least sixteen bytes off the stream, so one round
    more than there are bytes is enough. *)
Fixpoint serveConn_loop (fuel : nat) (MaxMessageLength : Z) (got : nat -> Message) (r : reader)
    (cs : list controller) : option (list Message * list controller) :=
  match fuel with
  | O => None
  | S fuel' =>
      match decodeRequest MaxMessageLength (got 0%nat) r cs with
      | (cs', ReadStop) => Some ([], cs')
      | (cs', ReadRequest m r') =>
          match serveConn_loop fuel' MaxMessageLength (fun i => got (S i)) r' cs' with
          | Some (ms, cs'') => Some (m :: ms, cs'')
          | None => None
          end
      end
  end.

Definition serveConn (MaxMessageLength : Z) (got : nat -> Message) (r : reader) (cs : list controller)
    : list Message * list controller :=
  match serveConn_loop (S (length (rd_bytes r))) MaxMessageLength got r cs with
  | Some x => x
  | None => ([], cs)
  end.
End server.
Arguments env : clear implicits.
Arguments mkEnv {value} _ _ _ _.

(** ** Proofs: the reading loop *)

Lemma Decode_shrinks MaxMessageLength m0 r0 m1 r1 :
  Decode MaxMessageLength (m0, r0) = ((m1, r1), Val tt) ->
  (length (rd_bytes r1) + 16 <= length (rd_bytes r0))%nat.
Proof.
  intros (raw & l4 & _ & _ & _ & Hr & _)%Decode_inv. rewrite Hr, !length_app, length_vec_to_list, length_be32. lia.
Qed.

Lemma decodeRequest_cases MaxMessageLength got r cs :
  exists cs', decodeRequest MaxMessageLength got r cs = (cs', ReadStop) \/
    exists m r', decodeRequest MaxMessageLength got r cs = (cs', ReadRequest m r') /\
      Decode MaxMessageLength (got, r) = ((m, r'), Val tt).
Proof.
  unfold decodeRequest. destruct (Decode MaxMessageLength (got, r)) as [[m r'] [[]|e|]].
  - destruct (chain_PostRequest m None cs) as [cs' e']. exists cs'. right. by exists m, r'.
  - destruct (chain_PostRequest m (Some e) cs) as [cs' e']. exists cs'. by left.
  - exists cs. by left.
Qed.

Lemma serveConn_loop_fuel MaxMessageLength fuel : forall got r cs,
  (length (rd_bytes r) < fuel)%nat ->
  exists x, serveConn_loop fuel MaxMessageLength got r cs = Some x.
Proof.
  induction fuel as [|fuel IH]; intros got r cs Hf; [lia|]. cbn.
  destruct (decodeRequest_cases MaxMessageLength (got 0%nat) r cs) as (cs' & [-> |(m & r' & -> & HD)]); [by eexists|].
  apply Decode_shrinks in HD.
  destruct (IH (fun i => got (S i)) r' cs' ltac:(lia)) as ([ms cs''] & ->). by eexists.
Qed.

(** More fuel does not change a result. *)
Lemma serveConn_loop_more MaxMessageLength fuel : forall fuel' got r cs x,
  (fuel <= fuel' \/ length (rd_bytes r) < fuel')%nat ->
  serveConn_loop fuel MaxMessageLength got r cs = Some x ->
  serveConn_loop fuel' MaxMessageLength got r cs = Some x.
Proof.
  induction fuel as [|fuel IH]; intros fuel' got r cs x Hf Hx; [discriminate|].
  destruct fuel' as [|fuel']; [lia|]. cbn in Hx |- *.
  destruct (decodeRequest_cases MaxMessageLength (got 0%nat) r cs) as (cs' & [H|(m & r' & H & HD)]); rewrite H in *; [done|].
  destruct (serveConn_loop fuel _ _ r' cs') as [[ms cs'']|] eqn:E; [|discriminate].
  apply Decode_shrinks in HD. by rewrite (IH fuel' (fun i => got (S i)) r' cs' _ ltac:(lia) E).
Qed.

(** A message that can be sent: its frame has fewer than 2^32 bytes and is
    within the receiver's limit. *)
Definition sendable (MaxMessageLength : Z) (iter : list (gostring * gostring)) (m : Message) (frame : bytes) : Prop :=
  ranges_over (Metadata m) iter /\ Encode m iter = Val frame /\ len frame - 16 < 2 ^ 32 /\
  (MaxMessageLength <= 0 \/ len frame - 16 <= MaxMessageLength).

(** What a receiver makes of a sent message: nothing is lost except that empty
    metadata arrives as nil; the buffer of the frame is kept. *)
Definition received (m : Message) (frame : bytes) : Message :=
  mkMessage (msg_Header m) (ServicePath m) (ServiceMethod m)
    (received_metadata None (Metadata m)) (Payload m) (drop 16 frame).

Lemma Decode_sendable MaxMessageLength iter m frame got rest e :
  sendable MaxMessageLength iter m frame -> Metadata got = None ->
  Decode MaxMessageLength (got, mkReader (frame ++ rest) e) = ((received m frame, mkReader rest e), Val tt).
Proof.
  intros (Hr & HE & Hl & Hmax) Hgot. rewrite (Decode_Encode _ m got iter) by done. by rewrite Hgot.
Qed.

Lemma decodeRequest_stop MaxMessageLength got cs e :
  exists cs', decodeRequest MaxMessageLength got (mkReader [] e) cs = (cs', ReadStop).
Proof.
  destruct (decodeRequest_cases MaxMessageLength got (mkReader [] e) cs) as (cs' & [H|(m & r' & _ & HD)]); [by exists cs'|].
  apply Decode_shrinks in HD. cbn in HD. lia.
Qed.

Lemma serveConn_loop_pipeline MaxMessageLength e sent : forall fuel got cs,
  (length sent < fuel)%nat -> (forall i, Metadata (got i) = None) ->
  Forall (fun '(iter, m, frame) => sendable MaxMessageLength iter m frame) sent ->
  exists cs', serveConn_loop fuel MaxMessageLength got (mkReader (concat (snd <$> sent)) e) cs =
    Some ((fun '(_, m, frame) => received m frame) <$> sent, cs').
Proof.
  induction sent as [|[[iter m] frame] sent IH]; intros [|fuel] got cs Hf Hgot Hs; try (cbn in Hf; lia).
  - cbn. destruct (decodeRequest_stop MaxMessageLength (got 0%nat) cs e) as (cs' & ->). by exists cs'.
  - apply Forall_cons in Hs as [Hm Hs]. cbn.
    pose proof (Decode_sendable _ _ _ _ (got 0%nat) (concat (snd <$> sent)) e Hm (Hgot 0%nat)) as HD.
    unfold decodeRequest. rewrite HD. destruct (chain_PostRequest _ _ cs) as [cs1 e1].
    destruct (IH fuel (fun i => got (S i)) cs1 ltac:(cbn in Hf; lia) ltac:(intros i; apply Hgot) Hs) as (cs' & ->).
    by exists cs'.
Qed.

Lemma sendable_length MaxMessageLength iter m frame :
  sendable MaxMessageLength iter m frame -> (16 <= length frame)%nat.
Proof.
  intros (_ & HE & _). rewrite Encode_layout in HE. injection HE as <-.
  unfold layout. rewrite !length_app, length_vec_to_list, length_be32. lia.
Qed.

Lemma concat_frames_length MaxMessageLength sent :
  Forall (fun '(iter, m, frame) => sendable MaxMessageLength iter m frame) sent ->
  (length sent <= length (concat (snd <$> sent)))%nat.
Proof.
  induction 1 as [|[[iter m] frame] sent Hm Hs IH]; cbn; [done|].
  apply sendable_length in Hm. rewrite length_app. lia.
Qed.

(** C19.  Pipelined requests are all read, in order: when a connection delivers
    the frames of any sequence of messages and then ends, the server starts a
    handler for exactly those messages, whatever pooled messages it decodes
    into and whatever controllers watch. *)
Theorem serveConn_pipeline MaxMessageLength sent got cs e :
  (forall i, clean (got i)) ->
  Forall (fun '(iter, m, frame) => sendable MaxMessageLength iter m frame) sent ->
  (serveConn MaxMessageLength got (mkReader (concat (snd <$> sent)) e) cs).1 =
  (fun '(_, m, frame) => received m frame) <$> sent.
Proof.
  intros Hgot Hs. unfold serveConn.
  destruct (serveConn_loop_pipeline MaxMessageLength e sent
    (S (length (concat (snd <$> sent)))) got cs) as (cs' & H).
  - pose proof (concat_frames_length _ _ Hs). lia.
  - intros i. by rewrite (Hgot i).
  - done.
  - cbn [rd_bytes]. by rewrite H.
Qed.

(** C20.  The reading loop terminates on every input: on a finite byte stream,
    well formed or not, it stops after at most one round per byte, so the
    deferred cleanup of the connection runs. *)
Theorem serveConn_terminates MaxMessageLength got r cs fuel :
  (length (rd_bytes r) < fuel)%nat ->
  serveConn_loop fuel MaxMessageLength got r cs = Some (serveConn MaxMessageLength got r cs).
Proof.
  intros Hf. destruct (serveConn_loop_fuel MaxMessageLength (S (length (rd_bytes r))) got r cs ltac:(lia)) as (x & Hx).
  unfold serveConn. rewrite Hx. apply (serveConn_loop_more MaxMessageLength (S (length (rd_bytes r)))); [by right|done].
Qed.

(** ** Proofs: answering a request *)

Section answers.
Context {value : Type} (libs : codec_libs value rtype) (iterate : option metadata -> list (gostring * gostring)).
Hypothesis iterate_ranges : forall md, ranges_over md (iterate md).

(** A returned error is the answer, a panic becomes one, a reply is encoded. *)
Inductive method_outcome (codec : Codec value rtype) : user_result value -> bytes + error -> metadata -> Prop :=
| called_error reply e rm : method_outcome codec (Returns reply (Some e) rm) (inr e) rm
| called_panic p rm : method_outcome codec (Panics p rm) (inr (errorString (str "internal error: " ++ p))) rm
| called_reply reply rm : method_outcome codec (Returns reply None rm) (codec_Encode codec reply) rm.

(** The contract of a call: what the answer to a request is, given the
    registered services.  [inl] is an encoded reply, [inr] an error reported to
    the caller; the metadata is what the method left in its context. *)
Inductive rpc_outcome (sm : serviceMap value) (req : Message) : bytes + error -> metadata -> Prop :=
| rpc_no_service :
    find_service sm (ServicePath req) = None ->
    rpc_outcome sm req (inr (errorString (str "frpc: can't find service " ++ ServicePath req))) ∅
| rpc_no_method svc :
    find_service sm (ServicePath req) = Some svc -> svc_method svc !! ServiceMethod req = None ->
    rpc_outcome sm req (inr (errorString (str "frpc: can't find method " ++ ServiceMethod req))) ∅
| rpc_no_codec svc mt :
    find_service sm (ServicePath req) = Some svc -> svc_method svc !! ServiceMethod req = Some mt ->
    Codecs libs (getSerializeType (msg_Header req)) = None ->
    rpc_outcome sm req (inr (errorString (str "can not find codec for "
      ++ itoa (byte_to_Z (getSerializeType (msg_Header req)))))) ∅
| rpc_bad_argument svc mt codec e :
    find_service sm (ServicePath req) = Some svc -> svc_method svc !! ServiceMethod req = Some mt ->
    Codecs libs (getSerializeType (msg_Header req)) = Some codec ->
    codec_Decode codec (Payload req) (target_type (mt_argType mt)) = inr e ->
    rpc_outcome sm req (inr e) ∅
| rpc_called svc mt codec arg r rm :
    find_service sm (ServicePath req) = Some svc -> svc_method svc !! ServiceMethod req = Some mt ->
    Codecs libs (getSerializeType (msg_Header req)) = Some codec ->
    codec_Decode codec (Payload req) (target_type (mt_argType mt)) = inl arg ->
    method_outcome codec (m_Func (mt_method mt) (Metadata req) arg) r rm ->
    rpc_outcome sm req r rm.

(** The response message for an answer. *)
Definition response_of (req : Message) (r : bytes + error) (rm : metadata) : Message :=
  let h := SetMessageType (msg_Header req) Response in
  match r with
  | inl data =>
      mkMessage h (ServicePath req) (ServiceMethod req) (if bool_decide (rm = ∅) then None else Some rm) data []
  | inr e =>
      mkMessage (SetMessageStatusType h StatusError) (ServicePath req) (ServiceMethod req)
        (Some (rm ∪ {[ServiceErrorKey := Error e]})) [] []
  end.

Definition respond (res : Message) (r : bytes + error) : Message * option error :=
  match r with inl data => (set_Payload data res, None) | inr e => handleError res e end.

Lemma dispatch_outcome res req sm :
  ServicePath res = ServicePath req -> ServiceMethod res = ServiceMethod req ->
  exists sm' r rm, dispatch libs res req sm = (sm', respond res r, rm) /\ rpc_outcome sm req r rm.
Proof.
  intros Hp Hm. unfold dispatch. rewrite Hp, Hm.
  destruct (find_service sm (ServicePath req)) as [svc|] eqn:E1; [|by eexists _, (inr _), _; split; [done|constructor]].
  destruct (svc_method svc !! ServiceMethod req) as [mt|] eqn:E2;
    [|by eexists _, (inr _), _; split; [done|eapply rpc_no_method]].
  destruct (Codecs libs _) as [codec|] eqn:E3; [|by eexists _, (inr _), _; split; [done|eapply rpc_no_codec]].
  destruct (codec_Decode codec _ _) as [arg|e] eqn:E4; [|by eexists _, (inr _), _; split; [done|eapply rpc_bad_argument]].
  unfold call. destruct (m_Func (mt_method mt) (Metadata req) arg) as [reply [e|] rm|p rm] eqn:E5.
  - eexists _, (inr _), _. split; [done|]. eapply rpc_called; try done. rewrite E5. constructor.
  - pose proof (called_reply codec reply rm) as Hc. rewrite <- E5 in Hc.
    destruct (codec_Encode codec reply) as [data|e].
    + eexists _, (inl data), _. split; [done|]. by eapply rpc_called.
    + eexists _, (inr e), _. split; [done|]. by eapply rpc_called.
  - eexists _, (inr _), _. split; [done|]. eapply rpc_called; try done. rewrite E5. constructor.
Qed.

Lemma Copy_clean choice m p : Forall clean p ->
  (Copy choice m p).1 = mkMessage (msg_Header m) (ServicePath m) (ServiceMethod m) None [] [].
Proof.
  intros Hp. destruct (GetMsgs_clean choice p Hp) as [Hc _]. unfold Copy.
  destruct (GetMsgs choice p) as [c p']. cbn in *. unfold clean in Hc. by rewrite Hc.
Qed.

Lemma merge_respond req res r rm :
  res = mkMessage (SetMessageType (msg_Header req) Response) (ServicePath req) (ServiceMethod req) None [] [] ->
  merge_metadata rm (respond res r).1 = response_of req r rm.
Proof.
  intros ->. unfold merge_metadata, response_of, respond, handleError.
  destruct r as [data|e]; cbn; destruct (bool_decide (rm = ∅)) eqn:E; try done;
    unfold set_Metadata; cbn; do 2 f_equal.
  apply bool_decide_eq_true in E. subst. by rewrite map_empty_union, insert_empty.
Qed.

Lemma response_type : forall a : byte, bor (bshr (band a x80) 7) (band Response x01) = Response.
Proof. byte_solve. Qed.

Lemma view_response_type h : bor (v_type (view h)) (band Response x01) = Response.
Proof. apply response_type. Qed.

(** The header of a response: the request's, as a response, with the error bit
    when the call failed; in particular the same sequence number. *)
Lemma response_view req r rm :
  view (msg_Header (response_of req r rm)) = let w := view (msg_Header req) in
    mkView (v_magic w) (v_version w) Response (v_heartbeat w) (v_oneway w) (v_compress w)
      (match r with inl _ => v_status w | inr _ => bor (v_status w) StatusError end) (v_serialize w) (v_seq w).
Proof.
  destruct r; cbn [response_of msg_Header]; rewrite ?view_SetMessageStatusType, view_SetMessageType; cbn zeta;
    by rewrite view_response_type.
Qed.

Lemma Encode_total m iter : exists frame, Encode m iter = Val frame.
Proof. rewrite Encode_layout. by eexists. Qed.

Lemma answers_request choice h req (s : env value) :
  Forall clean (env_pool s) -> IsHeartbeat (msg_Header req) = false -> IsOneway (msg_Header req) = false ->
  exists s' frame r rm,
    serve_request libs iterate choice h req s = Val s' /\
    env_written s' = env_written s ++ [frame] /\ Forall clean (env_pool s') /\
    rpc_outcome (env_services s) req r rm /\
    (let res := response_of req r rm in
     v_seq (view (msg_Header res)) = v_seq (view (msg_Header req)) /\
     v_type (view (msg_Header res)) = Response /\
     (len frame - 16 < 2 ^ 32 -> forall got rest e, clean got ->
        Decode 0 (got, mkReader (frame ++ rest) e) = ((received res frame, mkReader rest e), Val tt))).
Proof.
  intros Hp Hhb How. unfold serve_request. rewrite Hhb, How. unfold handleRequest.
  pose proof (Copy_clean choice req _ Hp) as HC.
  assert (Forall clean (Copy choice req (env_pool s)).2) as Hp' by (rewrite Copy_pool; by apply GetMsgs_clean).
  destruct (Copy choice req (env_pool s)) as [c p']. cbn [fst snd] in *. subst c. cbn [msg_Header].
  unfold set_Header. cbn [ServicePath ServiceMethod Metadata Payload msg_data].
  set (res0 := mkMessage (SetMessageType (msg_Header req) Response) (ServicePath req) (ServiceMethod req) None [] []).
  destruct (dispatch_outcome res0 req (env_services s) eq_refl eq_refl) as (sm' & r & rm & -> & Hout).
  destruct (respond res0 r) as [res err] eqn:Er.
  pose proof (merge_respond req res0 r rm eq_refl) as Hm. rewrite Er in Hm. cbn [fst] in Hm. rewrite Hm.
  destruct (Encode_total (response_of req r rm) (iterate (Metadata (response_of req r rm)))) as (frame & HE).
  rewrite HE. cbn [outcome_bind]. destruct (chain_PostResponse h req _ err (env_controllers s)) as [cs e].
  eexists _, frame, r, rm. split; [done|]. split; [done|]. split; [by repeat constructor|]. split; [done|].
  rewrite response_view. split; [done|]. split; [done|]. intros Hl got rest e0 Hgot.
  apply (Decode_sendable 0 (iterate (Metadata (response_of req r rm)))).
  - split; [apply iterate_ranges|]. split; [done|]. split; [done|]. left. lia.
  - unfold clean in Hgot. by rewrite Hgot.
Qed.

(** C6.  A request is answered, once, and with the right answer: for every
    request that is neither one-way nor a heartbeat, whatever is registered,
    pooled or controlled, the handler writes exactly one frame; the frame
    decodes, at any client, to the response the contract [rpc_outcome]
    prescribes: same path, method and sequence number, type [Response], the
    encoded reply or the error status with the error's text in the metadata,
    and the metadata the method set. *)
Theorem server_answers choice h req (s : env value) :
  Forall clean (env_pool s) -> IsHeartbeat (msg_Header req) = false -> IsOneway (msg_Header req) = false ->
  exists s' frame r rm,
    serve_request libs iterate choice h req s = Val s' /\
    env_written s' = env_written s ++ [frame] /\ Forall clean (env_pool s') /\
    rpc_outcome (env_services s) req r rm /\
    (let res := response_of req r rm in
     v_seq (view (msg_Header res)) = v_seq (view (msg_Header req)) /\
     v_type (view (msg_Header res)) = Response /\
     (len frame - 16 < 2 ^ 32 -> forall got rest e, clean got ->
        Decode 0 (got, mkReader (frame ++ rest) e) = ((received res frame, mkReader rest e), Val tt))).
Proof. apply answers_request. Qed.

(** Heartbeats and one-way requests: a heartbeat is echoed as a response
    without touching services, pool or controllers; a one-way request is
    executed but nothing is written. *)
Theorem server_heartbeat_oneway choice h req (s : env value) :
  (IsHeartbeat (msg_Header req) = true ->
     exists frame, serve_request libs iterate choice h req s =
       Val (mkEnv (env_pool s) (env_services s) (env_controllers s) (env_written s ++ [frame])) /\
       let res := set_Header (SetMessageType (msg_Header req) Response) req in
       Encode res (iterate (Metadata req)) = Val frame /\
       v_type (view (msg_Header res)) = Response /\ v_heartbeat (view (msg_Header res)) = true /\
       v_seq (view (msg_Header res)) = v_seq (view (msg_Header req))) /\
  (IsHeartbeat (msg_Header req) = false -> IsOneway (msg_Header req) = true ->
     exists s', serve_request libs iterate choice h req s = Val s' /\ env_written s' = env_written s /\
       env_services s' = (handleRequest libs choice req (env_pool s) (env_services s)).2.1.1).
Proof.
  unfold serve_request. split.
  - intros Hhb. rewrite Hhb.
    destruct (Encode_total (set_Header (SetMessageType (msg_Header req) Response) req) (iterate (Metadata req))) as (frame & HE).
    cbn [Metadata set_Header] in *. rewrite HE. exists frame. split; [done|]. split; [done|].
    cbn [set_Header msg_Header]. rewrite view_SetMessageType. cbn zeta. rewrite view_response_type.
    by repeat split.
  - intros Hhb How. rewrite Hhb, How.
    destruct (handleRequest libs choice req (env_pool s) (env_services s)) as [p [[sm [res err]] rm]].
    destruct (chain_PostResponse h req res err (env_controllers s)) as [cs e]. by eexists.
Qed.
End answers.

(** ** Witnesses *)

(** Codecs that copy bytes. *)
Definition copy_codec : Codec bytes rtype := mkCodec (fun v => inl v) (fun data _ => inl data).
Definition copy_libs : codec_libs bytes rtype :=
  mkLibs copy_codec (mkPb (fun _ => None) (fun _ => None) (fun _ => None) (fun _ => None)
    (fun _ => str "[]byte") (fun _ => str "[]byte")) copy_codec.
Definition list_iterate (md : option metadata) : list (gostring * gostring) :=
  match md with None => [] | Some m => map_to_list m end.

Lemma list_iterate_ranges md : ranges_over md (list_iterate md).
Proof. destruct md; cbn; done. Qed.

Definition sample_services : serviceMap bytes :=
  (register (fun _ => false) sample_rcvr (str "Arith") true None).1.
Definition sample_request : Message :=
  mkMessage (SetSeq newHeader 7) (str "Arith") (str "Echo") (Some {[str "k" := str "v"]}) (str "hello") [].
Definition bad_request : Message :=
  mkMessage (SetSeq newHeader 8) (str "Nobody") (str "Echo") None (str "hello") [].
Definition frame_of (m : Message) : bytes :=
  match Encode m (list_iterate (Metadata m)) with Val f => f | _ => [] end.
Definition sample_env : env bytes := mkEnv [] sample_services [] [].

Lemma serveConn_pipeline_witness :
  (serveConn 0 (fun _ => msgPool_New) (mkReader (frame_of sample_request ++ frame_of bad_request ++ []) EOF) []).1 =
  [received sample_request (frame_of sample_request); received bad_request (frame_of bad_request)].
Proof.
  apply (serveConn_pipeline 0
    [(list_iterate (Metadata sample_request), sample_request, frame_of sample_request);
     (list_iterate (Metadata bad_request), bad_request, frame_of bad_request)] (fun _ => msgPool_New) [] EOF).
  - intros _. apply New_clean.
  - constructor; [|constructor; [|constructor]];
      (split; [apply list_iterate_ranges|]; split; [vm_compute; reflexivity|];
       split; [vm_compute; reflexivity|left; lia]).
Defined.

Lemma serveConn_terminates_witness :
  serveConn_loop 5 0 (fun _ => msgPool_New) (mkReader [x01; x02; x03] EOF) [] =
  Some (serveConn 0 (fun _ => msgPool_New) (mkReader [x01; x02; x03] EOF) []).
Proof. apply (serveConn_terminates 0 (fun _ => msgPool_New) (mkReader [x01; x02; x03] EOF) [] 5). cbn. lia. Defined.

Lemma server_answers_witness :
  exists s' frame r rm,
    serve_request copy_libs list_iterate None (mkHook 0 0) sample_request sample_env = Val s' /\
    env_written s' = [] ++ [frame] /\ Forall clean (env_pool s') /\
    rpc_outcome copy_libs sample_services sample_request r rm /\
    (let res := response_of sample_request r rm in
     v_seq (view (msg_Header res)) = v_seq (view (msg_Header sample_request)) /\
     v_type (view (msg_Header res)) = Response /\
     (len frame - 16 < 2 ^ 32 -> forall got rest e, clean got ->
        Decode 0 (got, mkReader (frame ++ rest) e) = ((received res frame, mkReader rest e), Val tt))).
Proof.
  apply (server_answers copy_libs list_iterate list_iterate_ranges None (mkHook 0 0) sample_request sample_env).
  - constructor.
  - vm_compute. reflexivity.
  - vm_compute. reflexivity.
Defined.

(** The call is answered with the argument, the unknown service with its error. *)
Example server_answers_sample :
  (match serve_request copy_libs list_iterate None (mkHook 0 0) sample_request sample_env with
   | Val s' => env_written s' | _ => [] end) = [frame_of (response_of sample_request (inl (str "hello")) ∅)] /\
  (match serve_request copy_libs list_iterate None (mkHook 0 0) bad_request sample_env with
   | Val s' => env_written s' | _ => [] end) =
     [frame_of (response_of bad_request (inr (errorString (str "frpc: can't find service Nobody"))) ∅)].
Proof. vm_compute. done. Qed.

Lemma server_heartbeat_oneway_witness :
  exists s', serve_request copy_libs list_iterate None (mkHook 0 0)
      (set_Header (SetOneway (msg_Header sample_request) true) sample_request) sample_env = Val s' /\
    env_written s' = [] /\
    env_services s' = (handleRequest copy_libs None
      (set_Header (SetOneway (msg_Header sample_request) true) sample_request) [] sample_services).2.1.1.
Proof.
  apply (proj2 (server_heartbeat_oneway copy_libs list_iterate None (mkHook 0 0)
    (set_Header (SetOneway (msg_Header sample_request) true) sample_request) sample_env)); vm_compute; reflexivity.
Defined.
