(* ===== verification/Catalog.v ===== *)
(** * What stays true of the registered services

    The table of services changes when a service is registered and, by the call
    counter of a method, with every request that is served.  Through all of
    these steps it is well typed: each service is filed under its own name, each
    method under its own name with the signature the documentation demands.
    Tables that differ in call counters only offer the same methods
    ([same_services]) and give the same answers. *)
From Stdlib Require Import Strings.Byte.
From S2P Require Import Prelude GoStd GoTime Header Message Pool Core RateLimit Controller Service Server.

Section catalog.
Context {value : Type} (nonascii_upper : gostring -> bool) (libs : codec_libs value rtype).
Context (iterate : option metadata -> list (gostring * gostring)).
Implicit Types sm : serviceMap value.

(** ** Well-typed tables *)

Record service_wf (name : gostring) (svc : service value) : Prop := {
  sw_name : svc_name svc = name;
  sw_method : forall m mt, svc_method svc !! m = Some mt ->
    m_Name (mt_method mt) = m /\ suitable nonascii_upper (mt_method mt) (mt_argType mt) (mt_replyType mt)
}.

Definition services_wf sm : Prop := forall name svc, find_service sm name = Some svc -> service_wf name svc.

Lemma services_wf_empty : services_wf None.
Proof. by intros name svc. Qed.

Lemma services_wf_insert m name svc :
  services_wf (Some m) -> service_wf name svc -> services_wf (Some (<[name := svc]> m)).
Proof.
  intros Hm Hs name' svc' H. cbn in H. destruct (decide (name' = name)) as [->|Hne].
  - rewrite lookup_insert_eq in H. by injection H as <-.
  - rewrite lookup_insert_ne in H by done. by apply Hm.
Qed.

Lemma suitableMethods_typed ms : forall m mt,
  suitableMethods nonascii_upper ms !! m = Some mt ->
  m_Name (mt_method mt) = m /\ suitable (value := value) nonascii_upper (mt_method mt) (mt_argType mt) (mt_replyType mt).
Proof.
  induction ms as [|x ms IH] using rev_ind; intros m mt H; [done|].
  rewrite suitableMethods_app in H. cbn in H.
  destruct (suitable_method nonascii_upper x) as [mt0|] eqn:E; [|by apply IH].
  destruct (decide (m = m_Name x)) as [->|Hne]; [|rewrite lookup_insert_ne in H by done; by apply IH].
  rewrite lookup_insert_eq in H. injection H as <-.
  apply suitable_method_spec in E as (arg & reply & Hs & ->). done.
Qed.

Lemma register_wf rcvr name useName sm :
  services_wf sm -> services_wf (register nonascii_upper rcvr name useName sm).1.
Proof.
  intros Hsm. assert (services_wf (Some (match sm with None => ∅ | Some m => m end))) as H0.
  { destruct sm as [m|]; [done|]. intros n svc H. cbn in H. by rewrite lookup_empty in H. }
  unfold register. repeat case_match; cbn; try done; apply services_wf_insert; try done;
    (split; [done|apply suitableMethods_typed]).
Qed.

Lemma record_call_wf sm svc name mt mt' :
  services_wf sm -> find_service sm (svc_name svc) = Some svc -> svc_method svc !! name = Some mt ->
  mt_method mt' = mt_method mt -> mt_argType mt' = mt_argType mt -> mt_replyType mt' = mt_replyType mt ->
  services_wf (record_call sm svc name mt').
Proof.
  intros Hsm Hf Hm E1 E2 E3. destruct sm as [m|]; [|done]. apply services_wf_insert; [done|].
  destruct (Hsm _ _ Hf) as [_ Hmeth]. split; [done|]. intros n mt0 H. cbn in H.
  destruct (decide (n = name)) as [->|Hne].
  - rewrite lookup_insert_eq in H. injection H as <-. rewrite E1, E2, E3. by apply Hmeth.
  - rewrite lookup_insert_ne in H by done. by apply Hmeth.
Qed.

(** ** Tables that offer the same *)

(** The signature of a method, without its counter. *)
Definition signature (mt : methodType value) : method value * rtype * rtype :=
  (mt_method mt, mt_argType mt, mt_replyType mt).

Definition offered sm (name : gostring) : option (gmap gostring (method value * rtype * rtype)) :=
  (fun svc => signature <$> svc_method svc) <$> find_service sm name.

Definition same_services sm sm' : Prop := forall name, offered sm name = offered sm' name.

#[export] Instance same_services_equivalence : Equivalence same_services.
Proof.
  split.
  - by intros sm name.
  - intros sm sm' H name. by rewrite H.
  - intros sm1 sm2 sm3 H1 H2 name. by rewrite H1.
Qed.

Lemma record_call_same sm svc name mt mt' :
  find_service sm (svc_name svc) = Some svc -> svc_method svc !! name = Some mt -> signature mt' = signature mt ->
  same_services sm (record_call sm svc name mt').
Proof.
  intros Hf Hm Hsig. destruct sm as [m|]; [|done]. intros n. unfold offered. cbn in *.
  destruct (decide (n = svc_name svc)) as [->|Hne]; [|by rewrite lookup_insert_ne].
  rewrite lookup_insert_eq, Hf. cbn. f_equal. rewrite fmap_insert, Hsig. symmetry. apply insert_id.
  by rewrite lookup_fmap, Hm.
Qed.

Lemma offered_service sm sm' name svc :
  same_services sm sm' -> find_service sm name = Some svc ->
  exists svc', find_service sm' name = Some svc' /\ signature <$> svc_method svc = signature <$> svc_method svc'.
Proof.
  intros Hs Hf. specialize (Hs name). unfold offered in Hs. rewrite Hf in Hs. cbn in Hs.
  destruct (find_service sm' name) as [svc'|]; [|done]. cbn in Hs. apply (inj Some) in Hs. by exists svc'.
Qed.

Lemma offered_method svc svc' name mt :
  signature <$> svc_method svc = signature <$> svc_method svc' -> svc_method svc !! name = Some mt ->
  exists mt', svc_method svc' !! name = Some mt' /\ signature mt' = signature mt.
Proof.
  intros Hs Hm. pose proof (f_equal (fun g => g !! name) Hs) as E. cbn in E. rewrite !lookup_fmap, Hm in E. cbn in E.
  destruct (svc_method svc' !! name) as [mt'|]; [|done]. cbn in E. apply (inj Some) in E. by exists mt'.
Qed.

(** The answer to a request depends on what is offered only. *)
Lemma rpc_outcome_same sm sm' req r rm :
  same_services sm sm' -> rpc_outcome libs sm req r rm -> rpc_outcome libs sm' req r rm.
Proof.
  intros Hs H. destruct H as [Hf|svc Hf Hm|svc mt Hf Hm Hc|svc mt codec e Hf Hm Hc Hd|svc mt codec arg r rm Hf Hm Hc Hd Ho].
  - apply rpc_no_service. destruct (find_service sm' (ServicePath req)) as [svc'|] eqn:E; [|done].
    symmetry in Hs. destruct (offered_service _ _ _ _ Hs E) as (svc & ? & _). congruence.
  - destruct (offered_service _ _ _ _ Hs Hf) as (svc' & Hf' & E). apply (rpc_no_method _ _ _ svc'); [done|].
    destruct (svc_method svc' !! ServiceMethod req) as [mt'|] eqn:Em; [|done].
    symmetry in E. destruct (offered_method _ _ _ _ E Em) as (mt & ? & _). congruence.
  - destruct (offered_service _ _ _ _ Hs Hf) as (svc' & Hf' & E).
    destruct (offered_method _ _ _ _ E Hm) as (mt' & Hm' & _). by apply (rpc_no_codec _ _ _ svc' mt').
  - destruct (offered_service _ _ _ _ Hs Hf) as (svc' & Hf' & E).
    destruct (offered_method _ _ _ _ E Hm) as (mt' & Hm' & [= _ Ea _]).
    apply (rpc_bad_argument _ _ _ svc' mt' codec); try done. by rewrite Ea.
  - destruct (offered_service _ _ _ _ Hs Hf) as (svc' & Hf' & E).
    destruct (offered_method _ _ _ _ E Hm) as (mt' & Hm' & [= Em Ea _]).
    apply (rpc_called _ _ _ svc' mt' codec arg); try done; [by rewrite Ea|by rewrite Em].
Qed.

#[export] Instance rpc_outcome_proper :
  Proper (same_services ==> eq ==> eq ==> eq ==> iff) (rpc_outcome libs).
Proof. intros sm sm' Hs req ? <- r ? <- rm ? <-. split; apply rpc_outcome_same; [done|by symmetry]. Qed.

(** ** Serving a request *)

(** The table after a request: unchanged, or with one counter incremented. *)
Lemma dispatch_table res req sm :
  services_wf sm ->
  services_wf (dispatch libs res req sm).1.1 /\ same_services sm (dispatch libs res req sm).1.1.
Proof.
  intros Hsm. unfold dispatch.
  destruct (find_service sm (ServicePath res)) as [svc|] eqn:Hf; [|done].
  destruct (svc_method svc !! ServiceMethod res) as [mt|] eqn:Hm; [|done].
  destruct (Codecs libs _) as [codec|]; [|done]. destruct (codec_Decode codec _ _) as [arg|]; [|done].
  destruct (Hsm _ _ Hf) as [Hn _]. rewrite <- Hn in Hf.
  unfold call. destruct (m_Func _ _ _) as [reply [e|] rm|p rm]; [|destruct (codec_Encode codec reply)|];
    (split; [eapply record_call_wf; [done|exact Hf|exact Hm|done..]|eapply record_call_same; [exact Hf|exact Hm|done]]).
Qed.

Lemma serve_request_table choice h req (s s' : env value) :
  services_wf (env_services s) -> serve_request libs iterate choice h req s = Val s' ->
  services_wf (env_services s') /\ same_services (env_services s) (env_services s').
Proof.
  intros Hsm. unfold serve_request, handleRequest.
  destruct (IsHeartbeat (msg_Header req)).
  { destruct (Encode _ _); cbn; intros H; simplify_eq; by split. }
  destruct (Copy choice req (env_pool s)) as [c p].
  set (res := set_Header (SetMessageType (msg_Header c) Response) c).
  pose proof (dispatch_table res req (env_services s) Hsm) as Ht.
  destruct (dispatch libs res req (env_services s)) as [[sm' [res' err]] rm]. cbn in Ht.
  destruct (IsOneway (msg_Header req)).
  - destruct (chain_PostResponse _ _ _ _ _) as [cs e]. intros H. by simplify_eq.
  - destruct (Encode _ _); cbn; [|intros H; simplify_eq..].
    destruct (chain_PostResponse _ _ _ _ _) as [cs e]. intros H. by simplify_eq.
Qed.
End catalog.

(** ** The life of a server's table *)

(** A registration, or a request served by some goroutine (the steps of the
    service map's lock). *)
Inductive table_step {value} (nonascii_upper : gostring -> bool) (libs : codec_libs value rtype)
    : serviceMap value -> serviceMap value -> Prop :=
| table_register rcvr name useName sm :
    table_step nonascii_upper libs sm (register nonascii_upper rcvr name useName sm).1
| table_serve choice req p sm :
    table_step nonascii_upper libs sm (handleRequest libs choice req p sm).2.1.1.

Lemma table_reachable_wf {value} nonascii_upper (libs : codec_libs value rtype) sm :
  rtc (table_step nonascii_upper libs) None sm -> services_wf nonascii_upper sm.
Proof.
  assert (forall a b, rtc (table_step nonascii_upper libs) a b -> services_wf nonascii_upper a -> services_wf nonascii_upper b) as H.
  { induction 1 as [|a b c Hab _ IH]; [done|]. intros Ha. apply IH. destruct Hab as [rcvr name useName sm0|choice req p sm0].
    - by apply register_wf.
    - unfold handleRequest. destruct (Copy choice req p) as [c0 p']. cbn [snd fst]. by apply dispatch_table. }
  intros Hr. apply (H None sm Hr), services_wf_empty.
Qed.

(** ** What methods get to see *)

Section typed.
Context {value : Type} (libs : codec_libs value rtype).
Context (iterate : option metadata -> list (gostring * gostring)).
Implicit Types (sm : serviceMap value) (svc : service value) (mt : methodType value).

(** A value that some registered codec decodes into a type. *)
Definition decodable (t : rtype) (v : value) : Prop :=
  exists st codec data, Codecs libs st = Some codec /\ codec_Decode codec data t = inl v.

(** Methods that act alike on the arguments of their own argument type, and
    on any other value as they please. *)
Definition alike_method mt mt' : Prop :=
  mt_argType mt = mt_argType mt' /\
  forall md v, decodable (target_type (mt_argType mt)) v -> m_Func (mt_method mt) md v = m_Func (mt_method mt') md v.

Definition alike_service svc svc' : Prop :=
  svc_name svc = svc_name svc' /\ forall m, option_Forall2 alike_method (svc_method svc !! m) (svc_method svc' !! m).

Definition alike sm sm' : Prop := forall name, option_Forall2 alike_service (find_service sm name) (find_service sm' name).

Lemma alike_record sm sm' svc svc' name mt mt' :
  alike sm sm' -> alike_service svc svc' -> alike_method mt mt' -> is_Some sm -> is_Some sm' ->
  alike (record_call sm svc name mt) (record_call sm' svc' name mt').
Proof.
  intros Hsm [Hn Hs] Hm [x ->] [x' ->] n. cbn. rewrite <- Hn. destruct (decide (n = svc_name svc)) as [->|Hne].
  - rewrite !lookup_insert_eq. constructor. split; [done|]. intros m. cbn. destruct (decide (m = name)) as [->|].
    + rewrite !lookup_insert_eq. by constructor.
    + rewrite !lookup_insert_ne by done. apply Hs.
  - rewrite !lookup_insert_ne by done. apply Hsm.
Qed.

Lemma call_alike mt mt' md v :
  alike_method mt mt' -> decodable (target_type (mt_argType mt)) v ->
  (call mt md v).1.2 = (call mt' md v).1.2 /\ (call mt md v).2 = (call mt' md v).2 /\
  alike_method (call mt md v).1.1 (call mt' md v).1.1.
Proof.
  intros Hm Hv. pose proof (proj2 Hm md v Hv) as E. unfold call. rewrite <- E.
  by destruct (m_Func (mt_method mt) md v) as [reply [e|] rm|r rm].
Qed.

(** Tables that are alike answer every request alike. *)
Lemma dispatch_alike res req sm sm' :
  alike sm sm' ->
  (dispatch libs res req sm).1.2 = (dispatch libs res req sm').1.2 /\
  (dispatch libs res req sm).2 = (dispatch libs res req sm').2 /\
  alike (dispatch libs res req sm).1.1 (dispatch libs res req sm').1.1.
Proof.
  intros Hsm. unfold dispatch. pose proof (Hsm (ServicePath res)) as Hs.
  destruct (find_service sm (ServicePath res)) as [svc|] eqn:Ef, (find_service sm' (ServicePath res)) as [svc'|] eqn:Ef';
    inversion Hs as [? ? Hsvc|]; subst; [|done].
  pose proof (proj2 Hsvc (ServiceMethod res)) as Hm.
  destruct (svc_method svc !! ServiceMethod res) as [mt|], (svc_method svc' !! ServiceMethod res) as [mt'|];
    inversion Hm as [? ? Hmt|]; subst; [|done].
  destruct (Codecs libs _) as [codec|] eqn:Ec; [|done]. rewrite <- (proj1 Hmt).
  destruct (codec_Decode codec _ _) as [v|e] eqn:Ed; [|done].
  assert (decodable (target_type (mt_argType mt)) v) as Hv by (by eexists _, codec, _).
  destruct (call_alike mt mt' (Metadata req) v Hmt Hv) as (E1 & E2 & E3).
  destruct (call mt (Metadata req) v) as [[mt1 r1] rm1], (call mt' (Metadata req) v) as [[mt2 r2] rm2]. cbn in *. subst r2 rm2.
  assert (alike (record_call sm svc (ServiceMethod res) mt1) (record_call sm' svc' (ServiceMethod res) mt2)) as Hrec.
  { apply alike_record; try done; [by destruct sm|by destruct sm']. }
  destruct r1 as [reply|err]; [destruct (codec_Encode codec reply)|]; done.
Qed.

(** Serving any sequence of requests. *)
Fixpoint serve_all (reqs : list (option nat * hook_ctx * Message)) (s : env value) : outcome (env value) :=
  match reqs with
  | [] => Val s
  | (choice, h, req) :: reqs' =>
      match serve_request libs iterate choice h req s with
      | Val s' => serve_all reqs' s'
      | Fail e => Fail e
      | Panic => Panic
      end
  end.

(** Servers that differ in what methods do with values of a foreign type. *)
Definition alike_env (s s' : env value) : Prop :=
  env_pool s = env_pool s' /\ alike (env_services s) (env_services s') /\
  env_controllers s = env_controllers s' /\ env_written s = env_written s'.

Inductive alike_outcome : outcome (env value) -> outcome (env value) -> Prop :=
| alike_Val s s' : alike_env s s' -> alike_outcome (Val s) (Val s')
| alike_Fail e : alike_outcome (Fail e) (Fail e)
| alike_Panic : alike_outcome Panic Panic.

Lemma serve_request_alike choice h req s s' :
  alike_env s s' -> alike_outcome (serve_request libs iterate choice h req s) (serve_request libs iterate choice h req s').
Proof.
  destruct s as [p sm cs w], s' as [p' sm' cs' w']. intros (Hp & Hsm & Hc & Hw). cbn in *. subst p' cs' w'.
  unfold serve_request, handleRequest. cbn [env_pool env_services env_controllers env_written].
  destruct (IsHeartbeat (msg_Header req)).
  { destruct (Encode _ _); by constructor. }
  destruct (Copy choice req p) as [c0 p1]. set (res := set_Header _ c0).
  pose proof (dispatch_alike res req sm sm' Hsm) as (E1 & E2 & E3).
  destruct (dispatch libs res req sm) as [[sm1 [res1 err1]] rm1], (dispatch libs res req sm') as [[sm2 [res2 err2]] rm2].
  cbn in E1, E2, E3. injection E1 as <- <-. subst rm2.
  destruct (IsOneway (msg_Header req)); [|destruct (Encode _ _); cbn [outcome_bind]; try constructor];
    (destruct (chain_PostResponse _ _ _ _ _) as [cs1 e1]); by constructor.
Qed.

Lemma serve_all_alike reqs : forall s s', alike_env s s' -> alike_outcome (serve_all reqs s) (serve_all reqs s').
Proof.
  induction reqs as [|[[choice h] req] reqs IH]; intros s s' Hs; [by constructor|]. cbn [serve_all].
  destruct (serve_request_alike choice h req s s' Hs); [by apply IH|constructor..].
Qed.
End typed.

(** C12.  The server is type safe.  After any sequence of registrations and
    served requests every service is filed under its own name and every method
    under its own name with the documented signature.  And no method ever runs
    on a value that was not decoded into its own argument type: replacing the
    methods of a server by others that agree with them on such values, and do
    anything at all on every other value, changes nothing that any sequence of
    requests can observe: the frames written, controllers and pool are the
    same. *)
Theorem services_well_typed {value} nonascii_upper (libs : codec_libs value rtype) iterate (s s' : env value) reqs :
  rtc (table_step nonascii_upper libs) None (env_services s) -> alike_env libs s s' ->
  (forall name svc, find_service (env_services s) name = Some svc -> svc_name svc = name /\
     forall m mt, svc_method svc !! m = Some mt -> m_Name (mt_method mt) = m /\
       suitable nonascii_upper (mt_method mt) (mt_argType mt) (mt_replyType mt)) /\
  alike_outcome libs (serve_all libs iterate reqs s) (serve_all libs iterate reqs s').
Proof.
  intros Hr Hs. split; [|by apply serve_all_alike].
  intros name svc Hf. by destruct (table_reachable_wf _ _ _ Hr name svc Hf) as [Hn Hm].
Qed.

(** ** Witness *)

(** A codec whose values carry the name of the type they were decoded into, and
    a variant of the sample service whose method panics on values of any other
    type than its own. *)
Definition type_name (t : rtype) : gostring := match t with NonPtr n _ _ _ => n | Ptr _ n _ _ => n end.
Definition tagging_codec : Codec bytes rtype := mkCodec (fun v => inl v) (fun data t => inl (type_name t ++ data)).
Definition tagging_libs : codec_libs bytes rtype := mkLibs tagging_codec (lib_pb copy_libs) tagging_codec.
Definition strict_echo : method bytes :=
  mkMethod (m_Name echo) (m_PkgPath echo) (m_In echo) (m_Out echo)
    (fun md arg => if HasPrefix arg (type_name ty_args) then m_Func echo md arg else Panics (str "wrong type") ∅).
Definition strict_services : serviceMap bytes :=
  (register (fun _ => false) (mkReceiver (str "Arith") (str "*main.Arith") [strict_echo; no_reply]) (str "Arith") true None).1.
Definition strict_env : env bytes := mkEnv [] strict_services [] [].

Lemma tagging_decodable v : decodable tagging_libs ty_args v -> HasPrefix v (type_name ty_args) = true.
Proof.
  intros (st & codec & data & Hc & Hd). unfold Codecs in Hc.
  assert (codec = tagging_codec) as ->.
  { destruct (beqb st JSON); [by injection Hc as <-|]. destruct (beqb st ProtoBuffer).
    - injection Hc as <-. cbn in Hd. discriminate.
    - destruct (beqb st MsgPack); [by injection Hc as <-|discriminate]. }
  cbn [codec_Decode tagging_codec] in Hd. injection Hd as <-. reflexivity.
Qed.

Lemma sample_table : sample_services =
  Some {[str "Arith" := mkService (str "Arith") sample_rcvr {[str "Echo" := mkMethodType echo ty_args ty_reply 0]}]}.
Proof. reflexivity. Qed.

Lemma strict_table : strict_services =
  Some {[str "Arith" := mkService (str "Arith") (mkReceiver (str "Arith") (str "*main.Arith") [strict_echo; no_reply])
    {[str "Echo" := mkMethodType strict_echo ty_args ty_reply 0]}]}.
Proof. reflexivity. Qed.

Lemma services_well_typed_witness :
  alike_outcome tagging_libs (serve_all tagging_libs list_iterate [(None, mkHook 0 0, sample_request)] sample_env)
    (serve_all tagging_libs list_iterate [(None, mkHook 0 0, sample_request)] strict_env) /\
  is_Some (find_service (env_services sample_env) (str "Arith")).
Proof.
  split; [|cbn [env_services sample_env]; rewrite sample_table; by eexists].
  apply (services_well_typed (fun _ => false) tagging_libs list_iterate sample_env strict_env).
  - apply rtc_once. exact (table_register (fun _ => false) tagging_libs sample_rcvr (str "Arith") true None).
  - split; [done|]. split; [|done]. cbn [env_services sample_env strict_env]. rewrite sample_table, strict_table.
    intros name. cbn [find_service]. destruct (decide (name = str "Arith")) as [->|Hne].
    + rewrite !lookup_singleton_eq. constructor. split; [done|]. intros m. cbn [svc_method].
      destruct (decide (m = str "Echo")) as [->|Hm].
      * rewrite !lookup_singleton_eq. constructor. split; [done|]. intros md v Hv. cbn [mt_method m_Func strict_echo].
        by rewrite (tagging_decodable v Hv).
      * rewrite !lookup_singleton_ne by done. constructor.
    + rewrite !lookup_singleton_ne by done. constructor.
Defined.
