(* ===== verification/Registry.v ===== *)
(** * Registry and discovery (src/registry, src/client/client_registry.go)

    Registering a service at a key-value store, refreshing its entry,
    discovering the servers of a service, watching for changes and telling
    watchers, and what the client does with the changes.  The store (etcd or
    consul behind libkv) is a parameter: an interface of the operations the
    code calls, with the laws the code relies on ([StoreLaws]), which differ
    between the backends: how keys are spelled and what a directory lists.  The
    code of the two differs in a few lines, so one definition takes the
    backend. *)
From Stdlib Require Import Strings.Byte.
From S2P Require Import Prelude GoStd GoTime GoUrl Core Selector Weighted.

#[local] Open Scope go_scope.

Inductive RegistryMode := Etcd | Consul.

(** ** The store *)

(** [Put key value isDir ttl], [Get] and [List]; errors are values. *)
Class Store (St : Type) := {
  st_Put : gostring -> bytes -> bool -> Z -> St -> St * option error;
  st_Get : gostring -> St -> option bytes;
  st_List : gostring -> St -> list (gostring * bytes) + error
}.

(** *** Keys

    The backends spell keys in different ways: etcd's names of nodes begin with
    a slash, consul's do not.  A canonical key is a path in the backend's own
    spelling, so that equal nodes have equal keys: its components are not
    empty, not dots, not hidden (etcd does not list a name that begins with an
    underscore) and ASCII (keys and, at etcd, values travel as JSON strings). *)
Definition ascii (s : gostring) : Prop := Forall (fun b => byte_to_Z b < 128) s.

Record component (c : gostring) : Prop := mkComponent {
  comp_nonempty : c <> [];
  comp_no_slash : x2f ∉ c;
  comp_no_dot : c <> str "." /\ c <> str "..";
  comp_shown : head c <> Some x5f;
  comp_ascii : ascii c
}.

Definition path_of (mode : RegistryMode) (comps : list gostring) : gostring :=
  drop (match mode with Etcd => 0 | Consul => 1 end) (concat (map (cons x2f) comps)).

Definition canonical (mode : RegistryMode) (key : gostring) : Prop :=
  exists comps, comps <> [] /\ Forall component comps /\ key = path_of mode comps.

Definition storable (mode : RegistryMode) (v : bytes) : Prop :=
  match mode with Etcd => ascii v | Consul => True end.

(** What the code relies on of the store of a mode.  An accepted write of an
    entry whose time to live is not a fraction of a second is listed with its
    directory, when the directory can be listed.  Listing names no key twice, and at etcd it names the children of
    the directory, always with a leading slash; at consul it names the keys that
    begin with the directory's. *)
Class StoreLaws (mode : RegistryMode) (St : Type) `{Store St} := {
  Put_List : forall dir name v ttl s s', canonical mode dir -> component name -> storable mode v ->
    ttl <= 0 \/ Second <= ttl -> st_Put (dir ++ x2f :: name) v false ttl s = (s', None) ->
    forall l, st_List dir s' = inl l -> (dir ++ x2f :: name, v) ∈ l;
  List_keys : forall dir s l, canonical mode dir -> st_List dir s = inl l ->
    NoDup (map fst l) /\
    forall e, e ∈ l ->
      match mode with Etcd => exists name, e.1 = dir ++ x2f :: name | Consul => HasPrefix e.1 dir = true end;
  List_rooted : forall dir s l e, mode = Etcd -> st_List dir s = inl l -> e ∈ l -> head e.1 = Some x2f
}.

(** [KV]: a key and its value. *)
Definition KV : Type := gostring * gostring.

(** ** Registering *)

(** [EtcdRegister] and [ConsulRegister]; [connected] says whether [store] is set
    ([Options] stays nil). *)
Record register_t := mkRegister {
  ServiceAddress : gostring;
  registryAddr : list gostring;
  BasePath : gostring;
  Services : list gostring;
  metas : gmap gostring gostring;
  UpdateInterval : Z;
  connected : bool
}.

Definition new_register (basePath serviceAddress : gostring) (addrs : list gostring) (interval : Z) : register_t :=
  mkRegister serviceAddress addrs basePath [] ∅ interval false.

(** [strings.Contains] *)
Fixpoint contains (s sub : gostring) : bool :=
  HasPrefix s sub || match s with [] => false | _ :: s' => contains s' sub end.

Definition slash (a b : gostring) : gostring := a ++ x2f :: b.
Definition nodePath (p : register_t) (name : gostring) : gostring :=
  slash (slash (BasePath p) name) (ServiceAddress p).

Section registry.
Context {St : Type} `{Store St} (mode : RegistryMode).
(** [libkv.NewStore]'s error for a backend and its addresses, if any, and
    whether a name with non-ASCII bytes is blank. *)
Context (newStore : RegistryMode -> list gostring -> option error) (unicode_blank : gostring -> bool).

(** ["" == strings.TrimSpace(name)] *)
Definition blank (name : gostring) : bool :=
  if forallb (fun b => byte_to_Z b <? 128) name then
    forallb (fun b => (9 <=? byte_to_Z b) && (byte_to_Z b <=? 13) || (byte_to_Z b =? 32)) name
  else unicode_blank name.

Definition set_connected (p : register_t) : register_t :=
  mkRegister (ServiceAddress p) (registryAddr p) (BasePath p) (Services p) (metas p) (UpdateInterval p) true.
Definition set_BasePath (b : gostring) (p : register_t) : register_t :=
  mkRegister (ServiceAddress p) (registryAddr p) b (Services p) (metas p) (UpdateInterval p) (connected p).

(** Whether the error of creating a directory is fatal. *)
Definition fatal (tolerant : bool) (err : option error) : option error :=
  match err with
  | Some e => if tolerant && contains (Error e) (str "Not a file") then None else Some e
  | None => None
  end.

Definition tolerant_base : bool := match mode with Etcd => true | Consul => false end.

(** [Start] up to the refresh goroutine, which is [refresh] below. *)
Definition Start (p : register_t) (s : St) : outcome (register_t * St * option error) :=
  match (if connected p then None else newStore mode (registryAddr p)) with
  | Some e => Val (p, s, Some e)
  | None =>
      let p := set_connected p in
      let? p :=
        match mode with
        | Etcd => Val p
        | Consul => match BasePath p with
                    | [] => Panic
                    | b :: rest => Val (if bool_decide (b = x2f) then set_BasePath rest p else p)
                    end
        end in
      let '(s, err) := st_Put (BasePath p) (str "frpc_path") true 0 s in
      match fatal tolerant_base err with
      | Some e => Val (p, s, Some e)
      | None => Val (p, s, None)
      end
  end.

Definition Register (name metadata : gostring) (p : register_t) (s : St) : register_t * St * option error :=
  if blank name then (p, s, Some (errorString (str "Register service `name` can't be empty")))
  else
    match (if connected p then None else newStore mode (registryAddr p)) with
    | Some e => (p, s, Some e)
    | None =>
        let p := set_connected p in
        let '(s, err) := st_Put (BasePath p) (str "frpc_path") true 0 s in
        match fatal tolerant_base err with
        | Some e => (p, s, Some e)
        | None =>
            let '(s, err) := st_Put (slash (BasePath p) name) name true 0 s in
            match fatal true err with
            | Some e => (p, s, Some e)
            | None =>
                let '(s, err) := st_Put (nodePath p name) metadata false (swrap64 (UpdateInterval p * 2)) s in
                match err with
                | Some e => (p, s, Some e)
                | None =>
                    (mkRegister (ServiceAddress p) (registryAddr p) (BasePath p) (Services p ++ [name])
                       (<[name := metadata]> (metas p)) (UpdateInterval p) (connected p), s, None)
                end
            end
        end
    end.

(** What the refresh writes for an entry that is there. *)
Definition refreshed (value : gostring) : gostring :=
  let '(v, _) := ParseQuery value in values_Encode (values_Set v (str "tps") []).

Definition refresh_one (p : register_t) (s : St) (name : gostring) : St :=
  match st_Get (nodePath p name) s with
  | None =>
      let meta := match metas p !! name with Some m => m | None => [] end in
      (st_Put (nodePath p name) meta false (swrap64 (UpdateInterval p * 3)) s).1
  | Some value => (st_Put (nodePath p name) (refreshed value) false (swrap64 (UpdateInterval p * 3)) s).1
  end.

(** One tick of the goroutine of [Start]. *)
Definition refresh (p : register_t) (s : St) : St := foldl (refresh_one p) s (Services p).

(** ** Discovering *)

Record discovery := mkDiscovery {
  d_basePath : gostring;
  d_pairs : list KV;
  d_chans : list nat;
  d_retries : Z;
  d_closed : bool
}.

(** The base path without a trailing slash, for consul without a leading one. *)
Definition clean_path (basePath : gostring) : outcome gostring :=
  let? basePath :=
    match mode with
    | Etcd => Val basePath
    | Consul => match basePath with
                | [] => Panic
                | b :: rest => Val (if bool_decide (b = x2f) then rest else basePath)
                end
    end in
  Val (if (1 <? len basePath) && HasSuffix basePath (str "/") then take (length basePath - 1) basePath else basePath).

Definition trim_entries (basePath : gostring) (kv : list (gostring * bytes)) : list KV :=
  map (fun e => (TrimPrefix e.1 (basePath ++ str "/"), e.2)) kv.

(** [newEtcdDiscoveryStore]/[newConsulDiscoveryStore]: panics when the store
    cannot be listed. *)
Definition newDiscoveryStore (basePath : gostring) (s : St) : outcome discovery :=
  let? basePath := clean_path basePath in
  match st_List basePath s with
  | inr _ => Panic
  | inl kv => Val (mkDiscovery basePath (trim_entries basePath kv) [] (-1) false)
  end.

(** [NewEtcdDiscoveryOption]/[NewConsulDiscoveryOption] with nil options: panics
    when the store cannot be made. *)
Definition new_discovery (basePath servicePath : gostring) (addrs : list gostring) (s : St) : outcome discovery :=
  match newStore mode addrs with
  | Some _ => Panic
  | None => newDiscoveryStore (basePath ++ str "/" ++ servicePath) s
  end.

(** [Clone] *)
Definition clone (d : discovery) (servicePath : gostring) (s : St) : outcome discovery :=
  newDiscoveryStore (d_basePath d ++ str "/" ++ servicePath) s.

Definition GetServices (d : discovery) : list KV := d_pairs d.

(** [WatchService] with a new channel. *)
Definition WatchService (ch : nat) (d : discovery) : discovery :=
  mkDiscovery (d_basePath d) (d_pairs d) (d_chans d ++ [ch]) (d_retries d) (d_closed d).

Definition RemoveWatcher (ch : nat) (d : discovery) : discovery :=
  mkDiscovery (d_basePath d) (d_pairs d) (filter (fun c => c <> ch) (d_chans d)) (d_retries d) (d_closed d).

(** [Close]: closing [stopCh] a second time panics. *)
Definition close_discovery (d : discovery) : outcome discovery :=
  if d_closed d then Panic else Val (mkDiscovery (d_basePath d) (d_pairs d) (d_chans d) (d_retries d) true).

(** ** Watching *)

(** What the loop of [watch] sees: an error of [WatchTree], its success, a
    change, the end of the channel (nil), or [stopCh] when it is closed. *)
Inductive wevent :=
| WTreeError
| WTreeOk
| WChange (kv : list (gostring * bytes))
| WClosed
| WStop.

(** The loop: whether it is watching, its delay, the sleeps, the updates sent
    to each watcher, and whether it has returned. *)
Record watcher := mkWatcher {
  w_disc : discovery;
  w_watching : bool;
  w_delay : Z;
  w_slept : list Z;
  w_sent : list (nat * list KV);
  w_stopped : bool
}.

Definition watch_delay (d : Z) : Z :=
  let d := if d =? 0 then Second else swrap64 (d * 2) in
  if 30 * Second <? d then 30 * Second else d.

(** With [RetriesAfterWatchFailed == -1], the value the constructors set. *)
Definition watch_step (w : watcher) (ev : wevent) : watcher :=
  if w_stopped w then w
  else
    match ev, w_watching w with
    | WTreeError, false =>
        let d := watch_delay (w_delay w) in
        mkWatcher (w_disc w) false d (w_slept w ++ [d]) (w_sent w) false
    | WTreeOk, false => mkWatcher (w_disc w) true 0 (w_slept w) (w_sent w) false
    | WChange kv, true =>
        let pairs := trim_entries (d_basePath (w_disc w)) kv in
        mkWatcher (mkDiscovery (d_basePath (w_disc w)) pairs (d_chans (w_disc w)) (d_retries (w_disc w)) (d_closed (w_disc w)))
          true (w_delay w) (w_slept w) (w_sent w ++ map (fun ch => (ch, pairs)) (d_chans (w_disc w))) false
    | WClosed, true => mkWatcher (w_disc w) false 0 (w_slept w) (w_sent w) false
    | WStop, true => if negb (d_closed (w_disc w)) then w else mkWatcher (w_disc w) true (w_delay w) (w_slept w) (w_sent w) true
    | _, _ => w
    end.

Definition watch_run (w : watcher) (evs : list wevent) : watcher := foldl watch_step w evs.
End registry.

(** ** The two backends

    The source has one copy of the code above per backend. *)

Section backends.
Context {St : Type} `{Store St} (newStore : RegistryMode -> list gostring -> option error).
Context (unicode_blank : gostring -> bool).

Definition NewEtcdRegistry := new_register.
Definition EtcdRegister_Start : register_t -> St -> outcome (register_t * St * option error) := Start Etcd newStore.
Definition EtcdRegister_tick : register_t -> St -> St := refresh.
Definition EtcdRegister_Register := Register (St := St) Etcd newStore unicode_blank.
Definition NewEtcdDiscovery := new_discovery (St := St) Etcd newStore.
Definition newEtcdDiscoveryStore : gostring -> St -> outcome discovery := newDiscoveryStore Etcd.
Definition EtcdDiscovery_watch : watcher -> list wevent -> watcher := watch_run.
Definition EtcdDiscovery_Clone : discovery -> gostring -> St -> outcome discovery := clone Etcd.
Definition EtcdDiscovery_GetServices : discovery -> list KV := GetServices.
Definition EtcdDiscovery_WatchService : nat -> discovery -> discovery := WatchService.
Definition EtcdDiscovery_RemoveWatcher : nat -> discovery -> discovery := RemoveWatcher.
Definition EtcdDiscovery_Close : discovery -> outcome discovery := close_discovery.

Definition NewConsulRegistry := new_register.
Definition ConsulRegister_Start : register_t -> St -> outcome (register_t * St * option error) := Start Consul newStore.
Definition ConsulRegister_tick : register_t -> St -> St := refresh.
Definition ConsulRegister_Register := Register (St := St) Consul newStore unicode_blank.
Definition NewConsulDiscovery := new_discovery (St := St) Consul newStore.
Definition newConsulDiscoveryStore : gostring -> St -> outcome discovery := newDiscoveryStore Consul.
Definition ConsulDiscovery_watch : watcher -> list wevent -> watcher := watch_run.
Definition ConsulDiscovery_Clone : discovery -> gostring -> St -> outcome discovery := clone Consul.
Definition ConsulDiscovery_GetServices : discovery -> list KV := GetServices.
Definition ConsulDiscovery_WatchService : nat -> discovery -> discovery := WatchService.
Definition ConsulDiscovery_RemoveWatcher : nat -> discovery -> discovery := RemoveWatcher.
Definition ConsulDiscovery_Close : discovery -> outcome discovery := close_discovery.

(** ** The interfaces

    A [Registry] or [Discovery] value is one of the two backends; [None] is the
    nil interface.  [core.RegistryMode] is an int. *)
Definition mode_of (mode : Z) : option RegistryMode :=
  if mode =? 0 then Some Etcd else if mode =? 1 then Some Consul else None.

Definition registry_obj : Type := RegistryMode * register_t.

Definition NewRegistry (mode : Z) (basePath serviceAddress : gostring) (addrs : list gostring) (interval : Z)
    : option registry_obj :=
  match mode_of mode with
  | Some Etcd => Some (Etcd, NewEtcdRegistry basePath serviceAddress addrs interval)
  | Some Consul => Some (Consul, NewConsulRegistry basePath serviceAddress addrs interval)
  | None => None
  end.

Definition registry_Start (r : registry_obj) (s : St) : outcome (registry_obj * St * option error) :=
  let? (p, s, err) := match r.1 with Etcd => EtcdRegister_Start r.2 s | Consul => ConsulRegister_Start r.2 s end in
  Val ((r.1, p), s, err).

Definition registry_Register (name metadata : gostring) (r : registry_obj) (s : St) : registry_obj * St * option error :=
  let '(p, s, err) :=
    match r.1 with
    | Etcd => EtcdRegister_Register name metadata r.2 s
    | Consul => ConsulRegister_Register name metadata r.2 s
    end in
  ((r.1, p), s, err).

Definition discovery_obj : Type := RegistryMode * discovery.

Definition NewDiscovery (mode : Z) (basePath servicePath : gostring) (addrs : list gostring) (s : St)
    : outcome (option discovery_obj) :=
  match mode_of mode with
  | Some Etcd => let? d := NewEtcdDiscovery basePath servicePath addrs s in Val (Some (Etcd, d))
  | Some Consul => let? d := NewConsulDiscovery basePath servicePath addrs s in Val (Some (Consul, d))
  | None => Val None
  end.
End backends.

(** ** The client's side *)

(** [registryClient.servers] and the selector built from it. *)
Record registry_client (S : Type) := mkRegistryClient {
  rc_servers : gmap gostring gostring;
  rc_selector : S
}.
Arguments mkRegistryClient {S} _ _.
Arguments rc_servers {S} _.
Arguments rc_selector {S} _.

(** [servers[p.Key] = p.Value] for the pairs in order. *)
Definition servers_of (pairs : list (gostring * gostring)) : gmap gostring gostring :=
  foldl (fun m p => <[p.1 := p.2]> m) ∅ pairs.

(** One round of [watch] of the client: the selector is not told. *)
Definition client_watch {S} (pairs : list (gostring * gostring)) (c : registry_client S) : registry_client S :=
  mkRegistryClient (servers_of pairs) (rc_selector c).

(** ** Proofs *)

Section registry_proofs.
Context {St : Type} `{Store St} (newStore : RegistryMode -> list gostring -> option error).
Context (unicode_blank : gostring -> bool).

(** *** Canonical keys *)

Lemma path_of_snoc mode comps c : comps <> [] -> path_of mode (comps ++ [c]) = slash (path_of mode comps) c.
Proof.
  intros Hne. unfold path_of, slash. rewrite map_app, concat_app. cbn [map concat]. rewrite app_nil_r.
  destruct mode; [by rewrite !drop_0|]. destruct comps as [|d comps]; [done|]. by rewrite drop_app_le by (cbn; lia).
Qed.

Lemma canonical_slash mode dir c : canonical mode dir -> component c -> canonical mode (slash dir c).
Proof.
  intros (comps & Hne & Hall & ->) Hc. exists (comps ++ [c]). rewrite path_of_snoc by done.
  split; [by destruct comps|]. split; [|done]. apply Forall_app. split; [done|by constructor].
Qed.

Lemma canonical_nonempty mode key : canonical mode key -> key <> [].
Proof.
  intros ([|[|b c] comps] & Hne & Hall & ->); [done| |by destruct mode].
  by destruct (comp_nonempty _ (Forall_inv Hall)).
Qed.

Lemma canonical_etcd_head key : canonical Etcd key -> head key = Some x2f.
Proof. intros ([|c comps] & Hne & _ & ->); done. Qed.

Lemma canonical_consul_head key : canonical Consul key -> head key <> Some x2f.
Proof.
  intros ([|[|b c] comps] & Hne & Hall & ->); [done| |].
  - by destruct (comp_nonempty _ (Forall_inv Hall)).
  - cbn. intros [= ->]. apply (comp_no_slash _ (Forall_inv Hall)). by constructor.
Qed.

Lemma component_last c : component c -> last c <> Some x2f.
Proof.
  intros Hc Hl. apply (comp_no_slash c Hc). apply last_Some in Hl as (l & ->).
  apply elem_of_app. right. by constructor.
Qed.

Lemma HasSuffix_slash a : HasSuffix a (str "/") = true -> exists b, a = b ++ [x2f].
Proof.
  unfold HasSuffix. intros Hs. apply andb_true_iff in Hs as [Hl Hd].
  apply bool_decide_eq_true in Hd. exists (take (length a - 1) a).
  rewrite <- (take_drop (length a - 1) a) at 1. f_equal. exact Hd.
Qed.

(** The path of a service that has neither a trailing nor, for consul, a
    leading slash is used as it is. *)
Lemma clean_path_id mode path :
  path <> [] -> (mode = Consul -> head path <> Some x2f) -> last path <> Some x2f ->
  clean_path mode path = Val path.
Proof.
  intros Hne Hlead Htrail.
  assert ((1 <? len path) && HasSuffix path (str "/") = false) as Hsuf.
  { apply andb_false_iff. right. destruct (HasSuffix path (str "/")) eqn:E; [|done].
    apply HasSuffix_slash in E as (b & ->). by rewrite last_snoc in Htrail. }
  unfold clean_path. destruct mode; cbn [outcome_bind]; [by rewrite Hsuf|].
  destruct path as [|b rest]; [done|]. rewrite bool_decide_false; cbn [outcome_bind]; [by rewrite Hsuf|].
  intros ->. by apply Hlead.
Qed.

(** What a successful registration did: the last write went to the entry of
    this server, after the two directories. *)
Lemma Register_inv mode name metadata p p' (s s' : St) :
  Register mode newStore unicode_blank name metadata p s = (p', s', None) ->
  exists s1 s2 e1 e2,
    st_Put (BasePath p) (str "frpc_path") true 0 s = (s1, e1) /\
    st_Put (slash (BasePath p) name) name true 0 s1 = (s2, e2) /\
    st_Put (nodePath p name) metadata false (swrap64 (UpdateInterval p * 2)) s2 = (s', None) /\
    p' = mkRegister (ServiceAddress p) (registryAddr p) (BasePath p) (Services p ++ [name])
           (<[name := metadata]> (metas p)) (UpdateInterval p) true.
Proof.
  unfold Register. intros Hreg.
  destruct (blank unicode_blank name); [discriminate|].
  destruct (if connected p then None else newStore mode (registryAddr p)); [discriminate|].
  destruct (st_Put (BasePath (set_connected p)) _ _ _ s) as [s1 e1] eqn:E1.
  destruct (fatal (tolerant_base mode) e1); [discriminate|].
  destruct (st_Put (slash (BasePath (set_connected p)) name) _ _ _ s1) as [s2 e2] eqn:E2.
  destruct (fatal true e2); [discriminate|].
  destruct (st_Put (nodePath (set_connected p) name) _ _ _ s2) as [s3 e3] eqn:E3.
  destruct e3; [discriminate|]. injection Hreg as <- <-. by exists s1, s2, e1, e2.
Qed.

Lemma slash_last a b : b <> [] -> last (slash a b) = last b.
Proof.
  intros Hb. unfold slash. destruct b as [|x b]; [done|]. change (x2f :: x :: b) with ([x2f] ++ (x :: b)).
  rewrite app_assoc, last_app. destruct (last (x :: b)) eqn:E; [done|]. by apply last_None in E.
Qed.

(** A discovery of a base path and a service lists the directory of the
    service and names the entries relative to it. *)
Lemma new_discovery_list mode base name addrs l (s : St) :
  newStore mode addrs = None -> canonical mode base -> component name -> st_List (slash base name) s = inl l ->
  new_discovery mode newStore base name addrs s =
    Val (mkDiscovery (slash base name) (trim_entries (slash base name) l) [] (-1) false).
Proof.
  intros Hns Hbase Hname Hl. pose proof (canonical_slash _ _ _ Hbase Hname) as Hdir.
  unfold new_discovery, newDiscoveryStore. rewrite Hns.
  change (base ++ str "/" ++ name) with (slash base name). rewrite clean_path_id.
  - cbn [outcome_bind]. by rewrite Hl.
  - by eapply canonical_nonempty.
  - intros ->. by apply canonical_consul_head.
  - rewrite slash_last by apply (comp_nonempty _ Hname). by apply component_last.
Qed.

Lemma trim_entries_elem dir n v l : (slash dir n, v) ∈ l -> (n, v) ∈ trim_entries dir l.
Proof.
  intros Hin. unfold trim_entries. apply list_elem_of_fmap. eexists. split; [|exact Hin]. cbn [fst snd].
  change (slash dir n) with (dir ++ str "/" ++ n). by rewrite app_assoc, TrimPrefix_app.
Qed.

Lemma HasPrefix_inv k d : HasPrefix k d = true -> k = d ++ drop (length d) k.
Proof. unfold HasPrefix. intros Hp%bool_decide_eq_true. rewrite <- Hp at 1. by rewrite take_drop. Qed.

(** A name without a slash stands, after trimming, for one listed key. *)
Lemma trimmed_unique mode dir c (e : gostring * bytes) :
  x2f ∈ dir -> x2f ∉ c ->
  match mode with Etcd => exists name, e.1 = dir ++ x2f :: name | Consul => HasPrefix e.1 dir = true end ->
  TrimPrefix e.1 (dir ++ str "/") = c -> e.1 = slash dir c.
Proof.
  intros Hd Hc Hk Ht. destruct (HasPrefix e.1 (dir ++ str "/")) eqn:Hp.
  - pose proof (HasPrefix_inv _ _ Hp) as He. rewrite He, TrimPrefix_app in Ht. rewrite He, Ht, <- app_assoc. done.
  - unfold TrimPrefix in Ht. rewrite Hp in Ht. subst c. destruct mode.
    + destruct Hk as [name Hk]. rewrite Hk in Hc. destruct Hc. apply elem_of_app. by left.
    + apply HasPrefix_inv in Hk. rewrite Hk in Hc. destruct Hc. apply elem_of_app. by left.
Qed.

Lemma servers_of_app l l' : servers_of (l ++ l') = foldl (fun m p => <[p.1 := p.2]> m) (servers_of l) l'.
Proof. apply foldl_app. Qed.

Lemma servers_of_lookup (l : list KV) k v :
  (k, v) ∈ l -> (forall v', (k, v') ∈ l -> v' = v) -> servers_of l !! k = Some v.
Proof.
  induction l as [|[k' v'] l IH] using rev_ind; intros Hin Hu; [by apply not_elem_of_nil in Hin|].
  rewrite servers_of_app. cbn [foldl fst snd]. destruct (decide (k' = k)) as [->|Hne].
  - rewrite lookup_insert_eq. f_equal. apply Hu, elem_of_app. right. by constructor.
  - rewrite lookup_insert_ne by done. apply IH; [|intros w Hw; by apply Hu, elem_of_app; left].
    apply elem_of_app in Hin as [Hin|Hin%list_elem_of_singleton]; [done|by injection Hin as -> _].
Qed.

Lemma canonical_dir_slash mode base name : canonical mode base -> x2f ∈ slash base name.
Proof. intros _. unfold slash. apply elem_of_app. right. by constructor. Qed.

(** A listed entry of a service is found by a client, under its address and
    with its value. *)
Lemma listed_discovered mode `{!StoreLaws mode St} base name addr v addrs l (s : St) :
  newStore mode addrs = None -> canonical mode base -> component name -> component addr ->
  st_List (slash base name) s = inl l -> (slash (slash base name) addr, v) ∈ l ->
  exists d, new_discovery mode newStore base name addrs s = Val d /\
    (addr, v) ∈ GetServices d /\ servers_of (GetServices d) !! addr = Some v.
Proof.
  intros Hns Hbase Hname Haddr Hl Hin. rewrite (new_discovery_list mode _ _ addrs l) by done.
  eexists. split; [done|]. cbn [GetServices d_pairs]. apply trim_entries_elem in Hin as Hin'. split; [done|].
  apply servers_of_lookup; [done|]. intros v' (e & He & Hel)%list_elem_of_fmap. injection He as He ->.
  destruct (List_keys _ _ _ (canonical_slash _ _ _ Hbase Hname) Hl) as [Hnd Hk].
  pose proof (trimmed_unique mode _ addr e (canonical_dir_slash mode _ name Hbase) (comp_no_slash _ Haddr) (Hk e Hel) (eq_sym He)) as Hek.
  destruct e as [k w]. cbn in *. subst k. apply list_elem_of_lookup in Hin as [i Hi], Hel as [j Hj].
  assert (i = j) as ->; [|congruence]. eapply (NoDup_lookup (map fst l)); [done|..];
    change (map fst l) with (fst <$> l); rewrite list_lookup_fmap; [rewrite Hi|rewrite Hj]; done.
Qed.

Lemma registered_discovered mode `{!StoreLaws mode St} name metadata addrs l (p p' : register_t) (s s' : St) :
  Register mode newStore unicode_blank name metadata p s = (p', s', None) -> newStore mode addrs = None ->
  st_List (slash (BasePath p) name) s' = inl l -> canonical mode (BasePath p) ->
  component name -> component (ServiceAddress p) -> storable mode metadata ->
  Second <= UpdateInterval p -> UpdateInterval p * 2 < 2 ^ 63 ->
  exists d, new_discovery mode newStore (BasePath p) name addrs s' = Val d /\
    (ServiceAddress p, metadata) ∈ GetServices d /\ servers_of (GetServices d) !! ServiceAddress p = Some metadata.
Proof.
  intros Hreg Hns Hl Hbase Hname Haddr Hm Hi Hfit.
  apply Register_inv in Hreg as (s1 & s2 & e1 & e2 & _ & _ & E3 & ->). unfold Second in Hi.
  rewrite swrap64_small in E3 by lia.
  apply (Put_List (mode := mode)) with (l := l) in E3 as Hin;
    [|by apply canonical_slash|done|done|right; unfold Second; lia|done].
  by destruct (listed_discovered mode _ _ _ _ addrs _ _ Hns Hbase Hname Haddr Hl Hin) as (d & Hd & H1 & H2); exists d.
Qed.

(** What a server registers is what a client discovers: after a successful
    registration, a discovery of the same base path and service name lists the
    server's address with its metadata, at etcd and at consul (paths as the
    backend spells them; the store answers the listing). *)
Theorem register_then_discover mode `{!StoreLaws mode St} name metadata addrs l (p p' : register_t) (s s' : St) :
  Register mode newStore unicode_blank name metadata p s = (p', s', None) -> newStore mode addrs = None ->
  st_List (slash (BasePath p) name) s' = inl l -> canonical mode (BasePath p) -> component name -> component (ServiceAddress p) -> storable mode metadata ->
  Second <= UpdateInterval p -> UpdateInterval p * 2 < 2 ^ 63 ->
  exists d, new_discovery mode newStore (BasePath p) name addrs s' = Val d /\
    (ServiceAddress p, metadata) ∈ GetServices d /\ servers_of (GetServices d) !! ServiceAddress p = Some metadata /\
    Services p' = Services p ++ [name] /\ metas p' !! name = Some metadata.
Proof.
  intros Hreg Hns Hl Hbase Hname Haddr Hm Hi Hfit.
  destruct (registered_discovered mode _ _ addrs _ _ _ _ _ Hreg Hns Hl Hbase Hname Haddr Hm Hi Hfit) as (d & Hd & H1 & H2).
  apply Register_inv in Hreg as (? & ? & ? & ? & _ & _ & _ & ->).
  exists d. repeat split; [done..|apply lookup_insert_eq].
Qed.

(** *** What a refresh writes *)

Lemma QueryEscape_ascii s : ascii (QueryEscape s).
Proof.
  induction s as [|c s IH]; [constructor|]. apply Forall_app. split; [|exact IH].
  destruct c; cbn; repeat constructor.
Qed.

Lemma join_ascii sep l : byte_to_Z sep < 128 -> Forall ascii l -> ascii (join sep l).
Proof.
  intros Hs. induction 1 as [|s l Hl Hls IH]; [constructor|]. destruct l as [|s' l]; [done|].
  change (ascii (s ++ sep :: join sep (s' :: l))). apply Forall_app. split; [done|]. by constructor.
Qed.

Lemma refreshed_ascii value : ascii (refreshed value).
Proof.
  unfold refreshed. destruct (ParseQuery value) as [v _]. apply join_ascii; [done|]. apply Forall_forall.
  intros x (kv & -> & _)%list_elem_of_fmap. unfold encode_pair. apply Forall_app.
  split; [apply QueryEscape_ascii|]. constructor; [done|apply QueryEscape_ascii].
Qed.

(** Rewriting the stored query with an updated [tps] changes no other field. *)
Lemma refreshed_fields metadata :
  (ParseQuery metadata).2 = true ->
  metadata_weight (refreshed metadata) = metadata_weight metadata /\
  (forall key, key <> str "tps" ->
     values_Get (ParseQuery (refreshed metadata)).1 key = values_Get (ParseQuery metadata).1 key) /\
  (ParseQuery (refreshed metadata)).2 = true.
Proof.
  intros Hok. unfold refreshed. destruct (ParseQuery metadata) as [v ok] eqn:E. cbn in Hok. subst ok.
  destruct (ParseQuery_Encode (values_Set v (str "tps") [])) as [Hp Hg].
  destruct (ParseQuery (values_Encode (values_Set v (str "tps") []))) as [v' ok'] eqn:E'. cbn [fst snd] in *. subst ok'.
  assert (forall key, key <> str "tps" -> values_Get v' key = values_Get v key) as Hget.
  { intros key Hk. rewrite Hg, values_Get_Set, bool_decide_false by congruence. done. }
  split; [|done]. unfold metadata_weight. rewrite E, E', Hget by discriminate. done.
Qed.

Lemma refreshed_iter_fields metadata n :
  (ParseQuery metadata).2 = true ->
  let stored := Nat.iter n refreshed metadata in
  metadata_weight stored = metadata_weight metadata /\
  (forall key, key <> str "tps" ->
     values_Get (ParseQuery stored).1 key = values_Get (ParseQuery metadata).1 key) /\
  (ParseQuery stored).2 = true.
Proof.
  intros Hok. induction n as [|n IH]; [done|]. cbn zeta in *. rewrite Nat.iter_succ.
  destruct IH as (Hw & Hf & Hp). destruct (refreshed_fields _ Hp) as (Hw' & Hf' & Hp').
  split; [congruence|]. split; [|done]. intros key Hk. rewrite Hf', Hf; done.
Qed.

(** However often an entry is refreshed, it keeps its metadata: no field
    but [tps] changes, so the weight a client derives from the entry stays the
    same (for metadata that parses). *)
Theorem refresh_keeps_weight metadata n :
  (ParseQuery metadata).2 = true ->
  let stored := Nat.iter n refreshed metadata in
  metadata_weight stored = metadata_weight metadata /\
  (forall key, key <> str "tps" ->
     values_Get (ParseQuery stored).1 key = values_Get (ParseQuery metadata).1 key) /\
  (ParseQuery stored).2 = true.
Proof. apply refreshed_iter_fields. Qed.
End registry_proofs.

(** *** Watching *)

Definition watch_backoff_at (i : nat) : Z := Z.min (Second * 2 ^ Z.of_nat i) (30 * Second).

Lemma watch_delay_backoff i : watch_delay (watch_backoff_at i) = watch_backoff_at (S i).
Proof.
  assert (0 < 2 ^ Z.of_nat i) as Hp by (apply Z.pow_pos_nonneg; lia).
  unfold watch_delay, watch_backoff_at, Second in *. rewrite Nat2Z.inj_succ, Z.pow_succ_r by lia.
  rewrite (proj2 (Z.eqb_neq _ 0)), swrap64_small by lia. destruct (_ <? _) eqn:E; zbool; lia.
Qed.

Lemma watch_errors_run n : forall w i,
  w_stopped w = false -> w_watching w = false -> w_delay w = watch_backoff_at i ->
  let w' := watch_run w (replicate n WTreeError) in
  w_slept w' = w_slept w ++ (watch_backoff_at <$> seq (S i) n) /\ w_disc w' = w_disc w /\ w_stopped w' = false /\
  w_watching w' = false.
Proof.
  induction n as [|n IH]; intros w i Hs Hw Hd; [cbn; by rewrite app_nil_r|]. cbn [replicate].
  change (watch_run w (WTreeError :: replicate n WTreeError)) with (watch_run (watch_step w WTreeError) (replicate n WTreeError)).
  assert (watch_step w WTreeError = mkWatcher (w_disc w) false (watch_backoff_at (S i))
    (w_slept w ++ [watch_backoff_at (S i)]) (w_sent w) false) as ->.
  { unfold watch_step. by rewrite Hs, Hw, Hd, watch_delay_backoff. }
  destruct (IH (mkWatcher (w_disc w) false (watch_backoff_at (S i)) (w_slept w ++ [watch_backoff_at (S i)]) (w_sent w) false)
    (S i) eq_refl eq_refl eq_refl) as (-> & -> & -> & ->). cbn [w_slept w_disc seq]. by rewrite <- app_assoc, fmap_cons.
Qed.

Lemma watch_retries_run n w :
  w_stopped w = false -> w_watching w = false -> w_delay w = 0 ->
  let w' := watch_run w (replicate n WTreeError) in
  w_slept w' = w_slept w ++ (watch_backoff_at <$> seq 0 n) /\ w_disc w' = w_disc w /\ w_stopped w' = false /\
  w_watching w' = false.
Proof.
  intros Hs Hw Hd. destruct n as [|n]; [cbn; by rewrite app_nil_r|]. cbn [replicate].
  change (watch_run w (WTreeError :: replicate n WTreeError)) with (watch_run (watch_step w WTreeError) (replicate n WTreeError)).
  assert (watch_step w WTreeError = mkWatcher (w_disc w) false (watch_backoff_at 0)
    (w_slept w ++ [watch_backoff_at 0]) (w_sent w) false) as -> by (unfold watch_step; by rewrite Hs, Hw, Hd).
  destruct (watch_errors_run n (mkWatcher (w_disc w) false (watch_backoff_at 0) (w_slept w ++ [watch_backoff_at 0]) (w_sent w) false)
    0 eq_refl eq_refl eq_refl) as (Hs' & Hd' & Hst' & Hw'). rewrite Hs', Hd', Hst', Hw'. cbn [w_slept w_disc seq].
  by rewrite <- app_assoc, fmap_cons.
Qed.

(** The discovery keeps retrying a watch that cannot be established, sleeping
    one second, two, four and so on, never more than thirty, and keeps serving
    the last known servers meanwhile. *)
Theorem watch_retries w n :
  w_stopped w = false -> w_watching w = false -> w_delay w = 0 ->
  let w' := watch_run w (replicate n WTreeError) in
  w_slept w' = w_slept w ++ (watch_backoff_at <$> seq 0 n) /\
  GetServices (w_disc w') = GetServices (w_disc w) /\ w_stopped w' = false.
Proof. intros Hs Hw Hd. destruct (watch_retries_run n w Hs Hw Hd) as (H1 & H2 & H3 & _). cbn zeta in *. by rewrite H1, H2, H3. Qed.

Lemma watch_changes_run kvs : forall w,
  w_stopped w = false -> w_watching w = true ->
  let w' := watch_run w (WChange <$> kvs) in
  let base := d_basePath (w_disc w) in
  w_sent w' = w_sent w ++ concat (map (fun kv => map (fun ch => (ch, trim_entries base kv)) (d_chans (w_disc w))) kvs) /\
  d_pairs (w_disc w') = (match last kvs with Some kv => trim_entries base kv | None => d_pairs (w_disc w) end) /\
  w_stopped w' = false.
Proof.
  induction kvs as [|kv kvs IH]; intros w Hs Hw; cbn zeta; [cbn; by rewrite app_nil_r|].
  rewrite fmap_cons.
  change (watch_run w (WChange kv :: (WChange <$> kvs))) with (watch_run (watch_step w (WChange kv)) (WChange <$> kvs)).
  set (w1 := watch_step w (WChange kv)).
  assert (w1 = mkWatcher (mkDiscovery (d_basePath (w_disc w)) (trim_entries (d_basePath (w_disc w)) kv)
      (d_chans (w_disc w)) (d_retries (w_disc w)) (d_closed (w_disc w))) true (w_delay w) (w_slept w)
    (w_sent w ++ map (fun ch => (ch, trim_entries (d_basePath (w_disc w)) kv)) (d_chans (w_disc w))) false) as Hw1.
  { unfold w1, watch_step. by rewrite Hs, Hw. }
  destruct (IH w1) as (H1 & H2 & H3); [by rewrite Hw1|by rewrite Hw1|]. rewrite H1, H2, H3, Hw1.
  cbn [w_sent w_disc d_chans d_basePath d_pairs map concat]. rewrite <- app_assoc. split; [done|]. split; [|done].
  rewrite last_cons. by destruct (last kvs).
Qed.

(** Watchers see every change, in order, and only the watcher that is
    removed stops seeing them: after [RemoveWatcher], each later change is sent
    to exactly the other watchers, once each, and [GetServices] answers with
    the latest change. *)
Theorem watchers_notified w ch kvs :
  let d := RemoveWatcher ch (w_disc w) in
  let w0 := mkWatcher d true (w_delay w) (w_slept w) [] false in
  let w' := watch_run w0 (WChange <$> kvs) in
  (forall c, c ∈ d_chans d <-> c ∈ d_chans (w_disc w) /\ c <> ch) /\
  w_sent w' = concat (map (fun kv => map (fun c => (c, trim_entries (d_basePath d) kv)) (d_chans d)) kvs) /\
  (forall kv, last kvs = Some kv -> GetServices (w_disc w') = trim_entries (d_basePath d) kv).
Proof.
  intros d w0 w'. destruct (watch_changes_run kvs w0 eq_refl eq_refl) as (H1 & H2 & _). split; [|split].
  - intros c. unfold d, RemoveWatcher. cbn [d_chans]. rewrite list_elem_of_filter. tauto.
  - exact H1.
  - intros kv Hkv. unfold GetServices. fold w' in H2. rewrite H2, Hkv. done.
Qed.

Lemma watch_stopped_run evs w : w_stopped w = true -> watch_run w evs = w.
Proof.
  intros Hs. induction evs as [|ev evs IH]; [done|].
  change (watch_run w (ev :: evs)) with (watch_run (watch_step w ev) evs).
  assert (watch_step w ev = w) as -> by (unfold watch_step; by rewrite Hs). exact IH.
Qed.

(** Closing a discovery: a second [Close] panics.  A loop that is watching
    ends when it sees the closed channel, and from then on the servers stay
    as they were and nobody is told anything.  A loop that cannot establish
    its watch does not look at the channel: it goes on retrying. *)
Theorem close_discovery_effect w d' evs n :
  close_discovery (w_disc w) = Val d' -> w_stopped w = false ->
  let w' := mkWatcher d' (w_watching w) (w_delay w) (w_slept w) (w_sent w) (w_stopped w) in
  close_discovery d' = Panic /\
  (w_watching w = true ->
     let w2 := watch_run w' (WStop :: evs) in
     w_stopped w2 = true /\ w_sent w2 = w_sent w /\ GetServices (w_disc w2) = GetServices (w_disc w)) /\
  (w_watching w = false -> w_delay w = 0 ->
     let w2 := watch_run w' (replicate n WTreeError ++ [WStop]) in
     w_stopped w2 = false /\ length (w_slept w2) = (length (w_slept w) + n)%nat).
Proof.
  unfold close_discovery at 1. destruct (d_closed (w_disc w)); [discriminate|]. intros [= <-] Hs. cbn zeta. rewrite Hs.
  split; [done|]. split.
  - intros Hw. change (watch_run ?x (WStop :: evs)) with (watch_run (watch_step x WStop) evs).
    unfold watch_step. cbn. rewrite Hw. by rewrite watch_stopped_run.
  - intros Hw Hd. unfold watch_run. rewrite foldl_app.
    destruct (watch_retries_run n (mkWatcher (mkDiscovery (d_basePath (w_disc w)) (d_pairs (w_disc w)) (d_chans (w_disc w))
      (d_retries (w_disc w)) true) (w_watching w) (w_delay w) (w_slept w) (w_sent w) false)) as (H1 & H2 & H3 & H4); [done..|].
    cbn zeta in *. unfold watch_run in *. cbn [foldl]. unfold watch_step at 1 3. rewrite H3, H4.
    rewrite H1, length_app, length_fmap, length_seq. done.
Qed.

(** *** The client *)

(** Discovered changes do not reach the selector: however the set of servers
    changes, the client goes on selecting among the servers it knew when its
    selector was made. *)
Theorem client_watch_keeps_old_servers {S} `{SelectLaws S} (c : registry_client S) updates req :
  valid (rc_selector c) -> known (rc_selector c) <> [] -> 0 <= sr_rand req < 2 ^ 32 ->
  let c' := foldl (fun c pairs => client_watch pairs c) c updates in
  exists s' name, Select req (rc_selector c') = Val (s', name) /\ name ∈ known (rc_selector c) /\
    (forall pairs, last updates = Some pairs -> rc_servers c' = servers_of pairs).
Proof.
  intros Hv Hne Hr c'.
  assert (rc_selector c' = rc_selector c) as Hsel.
  { unfold c'. clear Hv Hne. revert c c'. induction updates as [|u us IH]; intros c c'; [done|]. cbn. apply (IH (client_watch u c)). }
  rewrite Hsel. destruct (Select_law req (rc_selector c) Hv Hr) as (s' & name & Hs & _ & _ & _ & Hin).
  exists s', name. split; [done|]. split; [by apply Hin|]. intros pairs Hlast. unfold c'.
  destruct updates as [|u us] using rev_ind; [done|]. rewrite last_snoc in Hlast. injection Hlast as <-.
  by rewrite foldl_snoc.
Qed.

(** ** Witnesses *)

(** A store in memory, with the clock and the entries; an entry may expire, and
    at consul it then keeps the time to live of its session.  Etcd names nodes
    from the root and lists the children of a directory, and gives leases of
    whole seconds; consul lists the keys that begin with the directory's, and a
    write renews the session there is. *)
Record mem_store (mode : RegistryMode) := mkMem { mem_now : Z; mem_map : gmap gostring (bytes * option (Z * Z)) }.
Arguments mkMem {mode} _ _.
Arguments mem_now {mode} _.
Arguments mem_map {mode} _.

Definition mem_key (mode : RegistryMode) (key : gostring) : gostring :=
  match mode with
  | Etcd => if bool_decide (head key = Some x2f) then key else x2f :: key
  | Consul => key
  end.

Definition mem_alive (now : Z) (e : bytes * option (Z * Z)) : bool :=
  match e.2 with None => true | Some (x, _) => now <? x end.

(** What an accepted write makes of the lease of an entry. *)
Definition mem_lease (mode : RegistryMode) (now ttl : Z) (old : option (bytes * option (Z * Z))) : option (Z * Z) :=
  match mode with
  | Etcd => if 0 <? ttl then Some (now + Second * (ttl / Second), ttl) else None
  | Consul =>
      match old with
      | Some (_, Some (x, session)) =>
          if now <? x then Some (if 0 <? ttl then now + Z.max 1 session else x, session)
          else if 0 <? ttl then Some (now + Z.max 1 (2 * (ttl / 2)), 2 * (ttl / 2)) else None
      | _ => if 0 <? ttl then Some (now + Z.max 1 (2 * (ttl / 2)), 2 * (ttl / 2)) else None
      end
  end.

Definition mem_lists (mode : RegistryMode) (dir key : gostring) : bool :=
  match mode with
  | Etcd => HasPrefix key (mem_key Etcd dir ++ [x2f]) && bool_decide (x2f ∉ drop (length (mem_key Etcd dir) + 1) key)
  | Consul => HasPrefix key dir && negb (str_eqb key dir)
  end.

#[export] Instance mem_Store mode : Store (mem_store mode) := {
  st_Put := fun key v isDir ttl s =>
    (match mode, isDir with
     | Etcd, true => s
     | _, _ =>
         let old := mem_map s !! mem_key mode key in
         mkMem (mem_now s) (<[mem_key mode key := (v, mem_lease mode (mem_now s) ttl old)]> (mem_map s))
     end, None);
  st_Get := fun key s =>
    match mem_map s !! mem_key mode key with
    | Some e => if mem_alive (mem_now s) e then Some e.1 else None
    | None => None
    end;
  st_List := fun dir s =>
    inl (map (fun e => (e.1, e.2.1))
      (filter (fun e => mem_lists mode dir e.1 && mem_alive (mem_now s) e.2 = true) (map_to_list (mem_map s))))
}.

Lemma mem_key_canonical mode key : canonical mode key -> mem_key mode key = key.
Proof. destruct mode; [|done]. intros Hk%canonical_etcd_head. unfold mem_key. by rewrite bool_decide_true. Qed.

Lemma HasPrefix_app a b : HasPrefix (a ++ b) a = true.
Proof. unfold HasPrefix. apply bool_decide_eq_true. apply take_app_length. Qed.

Lemma mem_lists_entry mode dir name : canonical mode dir -> component name -> mem_lists mode dir (slash dir name) = true.
Proof.
  intros Hd Hn. unfold mem_lists, slash. destruct mode.
  - rewrite mem_key_canonical by done. change (x2f :: name) with ([x2f] ++ name). rewrite app_assoc, HasPrefix_app.
    rewrite drop_app_length' by (rewrite length_app; cbn; lia). apply bool_decide_eq_true, (comp_no_slash _ Hn).
  - rewrite HasPrefix_app. apply negb_true_iff, bool_decide_eq_false. intros E. apply (f_equal length) in E.
    rewrite length_app in E. cbn in E. lia.
Qed.

Lemma mem_lease_alive mode now ttl old v :
  ttl <= 0 \/ Second <= ttl -> mem_alive now (v, mem_lease mode now ttl old) = true.
Proof.
  intros Ht. unfold mem_alive, mem_lease. cbn [snd]. destruct mode.
  - destruct (0 <? ttl) eqn:E; [|done]. apply Z.ltb_lt in E. apply Z.ltb_lt. unfold Second in *.
    assert (1 <= ttl / 1000000000) by (apply Z.div_le_lower_bound; lia). lia.
  - destruct old as [[w [[x session]|]]|]; [destruct (now <? x) eqn:Ex|..];
      destruct (0 <? ttl); try done; apply Z.ltb_lt; lia.
Qed.

Lemma mem_listed mode dir name v e (s : mem_store mode) :
  canonical mode dir -> component name -> mem_map s !! slash dir name = Some (v, e) -> mem_alive (mem_now s) (v, e) = true ->
  forall l, st_List dir s = inl l -> (slash dir name, v) ∈ l.
Proof.
  intros Hd Hn Hm Ha l [= <-]. apply list_elem_of_fmap. exists (slash dir name, (v, e)). split; [done|].
  apply list_elem_of_filter. cbn [fst snd]. rewrite mem_lists_entry, Ha by done. split; [done|]. by apply elem_of_map_to_list.
Qed.

#[export] Instance mem_StoreLaws mode : StoreLaws mode (mem_store mode).
Proof.
  split.
  - intros dir name v ttl s s' Hd Hn _ Ht Hput.
    pose proof (canonical_slash _ _ _ Hd Hn) as Hk. apply mem_key_canonical in Hk.
    cbn [st_Put mem_Store] in Hput. change (dir ++ x2f :: name) with (slash dir name) in *. rewrite Hk in Hput.
    destruct mode; apply (f_equal fst) in Hput; cbn [fst] in Hput; subst s'; intros l;
      (eapply mem_listed; [done|done|apply lookup_insert_eq|by apply mem_lease_alive]).
  - intros dir s l Hd [= <-]. split.
    + rewrite map_map. cbn. eapply (sublist_NoDup _ (fst <$> map_to_list (mem_map s))); [apply NoDup_fst_map_to_list|].
      apply (fmap_sublist fst), sublist_filter.
    + intros e ([k x] & -> & Hin)%list_elem_of_fmap. apply list_elem_of_filter in Hin as [Hp _]. cbn [fst snd] in *.
      apply andb_true_iff in Hp as [Hp _]. destruct mode; apply andb_true_iff in Hp as [Hp _]; [|done].
      rewrite mem_key_canonical in Hp by done. apply HasPrefix_inv in Hp. eexists. rewrite Hp at 1. rewrite <- app_assoc. reflexivity.
  - intros dir s l e -> [= <-] ([k x] & -> & Hin)%list_elem_of_fmap. apply list_elem_of_filter in Hin as [Hp _]. cbn [fst snd] in *.
    apply andb_true_iff in Hp as [Hp _]. apply andb_true_iff in Hp as [Hp _]. apply HasPrefix_inv in Hp. rewrite Hp.
    unfold mem_key. case_bool_decide as Hh; [|done]. by destruct dir.
Qed.

Definition open_store : RegistryMode -> list gostring -> option error := fun _ _ => None.
Definition sample_register : register_t :=
  new_register (str "/frpc") (str "tcp@10.0.0.1:8972") [str "127.0.0.1:2379"] (60 * Second).
Definition sample_metadata : gostring := str "weight=7&group=a".

(** Decides the conditions on a concrete component. *)
Ltac concrete_component := split; [discriminate|apply (bool_decide_unpack _); vm_compute; exact I|split; discriminate
  |discriminate|apply (bool_decide_unpack _); vm_compute; exact I].

Lemma sample_base : canonical Etcd (str "/frpc").
Proof. exists [str "frpc"]. split; [done|]. split; [|done]. repeat constructor; try discriminate; try (apply (bool_decide_unpack _); vm_compute; exact I). Qed.

Lemma sample_name : component (str "Arith").
Proof. concrete_component. Qed.

Lemma sample_address : component (str "tcp@10.0.0.1:8972").
Proof. concrete_component. Qed.

Lemma sample_storable mode : storable mode sample_metadata.
Proof. destruct mode; [|done]. apply (bool_decide_unpack _). vm_compute. exact I. Qed.

Definition sample_registered : register_t * mem_store Etcd * option error :=
  Register Etcd open_store (fun _ => false) (str "Arith") sample_metadata sample_register (mkMem 0 ∅).

Lemma register_then_discover_witness :
  exists d, new_discovery Etcd open_store (BasePath sample_register) (str "Arith") [] sample_registered.1.2 = Val d /\
    (ServiceAddress sample_register, sample_metadata) ∈ GetServices d /\
    servers_of (GetServices d) !! ServiceAddress sample_register = Some sample_metadata /\
    Services sample_registered.1.1 = Services sample_register ++ [str "Arith"] /\
    metas sample_registered.1.1 !! str "Arith" = Some sample_metadata.
Proof.
  apply (register_then_discover (St := mem_store Etcd) open_store (fun _ => false) Etcd (str "Arith") sample_metadata []
    (match st_List (slash (BasePath sample_register) (str "Arith")) sample_registered.1.2 with inl l => l | inr _ => [] end)
    sample_register sample_registered.1.1 (mkMem 0 ∅) sample_registered.1.2).
  - assert (sample_registered.2 = None) as E by (vm_compute; reflexivity). unfold sample_registered in *.
    destruct (Register _ _ _ _ _ _ _) as [[p' s'] e]. cbn in E |- *. by rewrite E.
  - reflexivity.
  - reflexivity.
  - apply sample_base.
  - apply sample_name.
  - apply sample_address.
  - apply sample_storable.
  - discriminate.
  - vm_compute. reflexivity.
Defined.

Lemma refresh_keeps_weight_witness :
  let stored := Nat.iter 3 refreshed sample_metadata in
  metadata_weight stored = metadata_weight sample_metadata /\
  (forall key, key <> str "tps" ->
     values_Get (ParseQuery stored).1 key = values_Get (ParseQuery sample_metadata).1 key) /\
  (ParseQuery stored).2 = true.
Proof. apply (refresh_keeps_weight sample_metadata 3). vm_compute. reflexivity. Defined.

(** Metadata that does not parse changes its meaning: the weight was ignored
    before the refresh and counts after it. *)
Example refresh_repairs_malformed :
  (metadata_weight (str "weight=7&group=%zz"), metadata_weight (refreshed (str "weight=7&group=%zz"))) = (1, 7).
Proof. vm_compute. reflexivity. Qed.

Definition sample_discovery : discovery := mkDiscovery (str "frpc/Arith") [] [1%nat; 2%nat] (-1) false.

Lemma watch_retries_witness :
  let w' := watch_run (mkWatcher sample_discovery false 0 [] [] false) (replicate 7 WTreeError) in
  w_slept w' = [] ++ (watch_backoff_at <$> seq 0 7) /\
  GetServices (w_disc w') = [] /\ w_stopped w' = false.
Proof. apply (watch_retries (mkWatcher sample_discovery false 0 [] [] false) 7); reflexivity. Defined.

Lemma close_discovery_effect_witness :
  let w := mkWatcher sample_discovery false 0 [] [] false in
  let w' := mkWatcher (mkDiscovery (str "frpc/Arith") [] [1%nat; 2%nat] (-1) true) false 0 [] [] false in
  let w2 := watch_run w' (replicate 5 WTreeError ++ [WStop]) in
  w_stopped w2 = false /\ length (w_slept w2) = (length (w_slept w) + 5)%nat.
Proof.
  destruct (close_discovery_effect (mkWatcher sample_discovery false 0 [] [] false)
    (mkDiscovery (str "frpc/Arith") [] [1%nat; 2%nat] (-1) true) [] 5) as (_ & _ & H);
    [reflexivity|reflexivity|]. apply H; reflexivity.
Defined.

Definition sample_rc : registry_client hashSelector := mkRegistryClient ∅ (newHashSelector [(str "old", [])]).

Lemma client_watch_keeps_old_servers_witness :
  let c' := foldl (fun c pairs => client_watch pairs c) sample_rc [[(str "new", [])]] in
  exists s' name, Select sample_req (rc_selector c') = Val (s', name) /\ name ∈ known (rc_selector sample_rc) /\
    (forall pairs, last [[(str "new", [])]] = Some pairs -> rc_servers c' = servers_of pairs).
Proof.
  apply (client_watch_keeps_old_servers sample_rc [[(str "new", [])]] sample_req).
  - done.
  - discriminate.
  - vm_compute. intuition discriminate.
Defined.
