(* ===== verification/Notify.v ===== *)
(** * Telling watchers of changes (src/registry/discovery_etcd.go, discovery_consul.go: watch;
    src/client/client_registry.go: watch)

    A discovery sends every change to each watcher in a goroutine of its own,
    which gives up after a minute in front of a full channel and recovers from
    the panic of a closed one.  Here these goroutines, the channels and their
    readers interleave; what has been sent, received and lost is recorded. *)
From S2P Require Import Prelude GoStd GoTime Core Selector Registry.

(** A channel of ten places. *)
Record chan_t := mkChan { ch_buf : list (list KV); ch_closed : bool }.
Definition chan_cap : nat := 10.

Record notify := mkNotify {
  nt_disc : discovery;
  nt_changes : list (list KV);
  nt_sending : list (nat * list KV);
  nt_chans : gmap nat chan_t;
  nt_got : list (nat * list KV);
  nt_lost : list (nat * list KV);
  nt_sent : list (nat * list KV)
}.

(** The goroutines a change starts. *)
Definition senders (d : discovery) (pairs : list KV) : list (nat * list KV) := map (fun ch => (ch, pairs)) (d_chans d).

Definition with_pairs (pairs : list KV) (d : discovery) : discovery :=
  mkDiscovery (d_basePath d) pairs (d_chans d) (d_retries d) (d_closed d).

(** [WatchService] with a new channel. *)
Definition watch_on (ch : nat) (w : notify) : notify :=
  mkNotify (WatchService ch (nt_disc w)) (nt_changes w) (nt_sending w) (<[ch := mkChan [] false]> (nt_chans w))
    (nt_got w) (nt_lost w) (nt_sent w).

(** A registration, a change that [watch] reads, a send that finds room, one
    that gives up or whose channel is closed, a round of the reader, and the
    two steps of [Client.Close]. *)
Inductive notify_step : notify -> notify -> Prop :=
| nt_watch w ch : nt_chans w !! ch = None -> notify_step w (watch_on ch w)
| nt_change d cg sn cs got lost sent kv :
    let pairs := trim_entries (d_basePath d) kv in
    notify_step (mkNotify d cg sn cs got lost sent)
      (mkNotify (with_pairs pairs d) (cg ++ [pairs]) (sn ++ senders d pairs) cs got lost (sent ++ senders d pairs))
| nt_deliver d cg l1 ch pairs l2 cs got lost sent buf :
    cs !! ch = Some (mkChan buf false) -> (length buf < chan_cap)%nat ->
    notify_step (mkNotify d cg (l1 ++ (ch, pairs) :: l2) cs got lost sent)
      (mkNotify d cg (l1 ++ l2) (<[ch := mkChan (buf ++ [pairs]) false]> cs) got lost sent)
| nt_give_up d cg l1 ch pairs l2 cs got lost sent buf closed :
    cs !! ch = Some (mkChan buf closed) -> closed = true \/ (chan_cap <= length buf)%nat ->
    notify_step (mkNotify d cg (l1 ++ (ch, pairs) :: l2) cs got lost sent)
      (mkNotify d cg (l1 ++ l2) cs got (lost ++ [(ch, pairs)]) sent)
| nt_receive d cg sn cs got lost sent ch pairs buf closed :
    cs !! ch = Some (mkChan (pairs :: buf) closed) ->
    notify_step (mkNotify d cg sn cs got lost sent)
      (mkNotify d cg sn (<[ch := mkChan buf closed]> cs) (got ++ [(ch, pairs)]) lost sent)
| nt_remove d cg sn cs got lost sent ch :
    notify_step (mkNotify d cg sn cs got lost sent) (mkNotify (RemoveWatcher ch d) cg sn cs got lost sent)
| nt_close d cg sn cs got lost sent ch buf :
    cs !! ch = Some (mkChan buf false) -> ch ∉ d_chans d ->
    notify_step (mkNotify d cg sn cs got lost sent)
      (mkNotify d cg sn (<[ch := mkChan buf true]> cs) got lost sent).

(** A discovery that nobody watches yet. *)
Definition new_notify (d : discovery) : notify := mkNotify d [] [] ∅ [] [] [].

(** What of a list concerns one channel. *)
Definition of_chan (ch : nat) (l : list (nat * list KV)) : list (list KV) := snd <$> filter (fun x => x.1 = ch) l.
Definition buffered (ch : nat) (w : notify) : list (list KV) :=
  match nt_chans w !! ch with Some c => ch_buf c | None => [] end.

Arguments of_chan : simpl never.
Arguments buffered : simpl never.

(** ** Proofs *)

Lemma of_chan_app ch l k : of_chan ch (l ++ k) = of_chan ch l ++ of_chan ch k.
Proof. unfold of_chan. by rewrite filter_app, fmap_app. Qed.
Lemma of_chan_eq ch p : of_chan ch [(ch, p)] = [p].
Proof. unfold of_chan. by rewrite filter_cons_True by done. Qed.
Lemma of_chan_ne ch ch' p : ch' <> ch -> of_chan ch [(ch', p)] = [].
Proof. intros H. unfold of_chan. by rewrite filter_cons_False by done. Qed.
Lemma of_chan_cons ch x l : of_chan ch (x :: l) = of_chan ch [x] ++ of_chan ch l.
Proof. apply (of_chan_app ch [x] l). Qed.

Lemma of_chan_senders d pairs ch : NoDup (d_chans d) ->
  of_chan ch (senders d pairs) = if bool_decide (ch ∈ d_chans d) then [pairs] else [].
Proof.
  unfold senders. induction (d_chans d) as [|c cs IH]; intros Hnd; [done|]. apply NoDup_cons in Hnd as [Hc Hnd].
  cbn [map]. rewrite of_chan_cons, (IH Hnd). destruct (decide (c = ch)) as [->|Hne].
  - rewrite of_chan_eq, (bool_decide_false (ch ∈ cs)), bool_decide_true; [done|by left|done].
  - rewrite of_chan_ne by done. cbn [app]. case_bool_decide as E; case_bool_decide as E'; try done.
    + destruct E'. by right.
    + apply elem_of_cons in E' as [->|?]; done.
Qed.

Record notify_inv (w : notify) : Prop := {
  ni_watchers : NoDup (d_chans (nt_disc w));
  ni_known : forall ch, ch ∈ d_chans (nt_disc w) -> exists c, nt_chans w !! ch = Some c /\ ch_closed c = false;
  ni_new : forall ch, nt_chans w !! ch = None -> of_chan ch (nt_sent w) = [];
  ni_kept : forall ch, of_chan ch (nt_sent w) ≡ₚ
    of_chan ch (nt_sending w) ++ buffered ch w ++ of_chan ch (nt_got w) ++ of_chan ch (nt_lost w);
  ni_room : forall ch, (length (buffered ch w) <= chan_cap)%nat;
  ni_last : forall p, last (nt_changes w) = Some p -> d_pairs (nt_disc w) = p
}.

Lemma buffered_insert d cg sn cs got lost sent ch c ch' :
  buffered ch' (mkNotify d cg sn (<[ch := c]> cs) got lost sent) =
  if decide (ch = ch') then ch_buf c else buffered ch' (mkNotify d cg sn cs got lost sent).
Proof. unfold buffered. cbn. rewrite lookup_insert. by case_decide. Qed.

(** A message that one goroutine or channel hands on. *)
Lemma of_chan_moved ch l1 ch' p l2 :
  of_chan ch (l1 ++ (ch', p) :: l2) ≡ₚ of_chan ch [(ch', p)] ++ of_chan ch (l1 ++ l2).
Proof. rewrite !of_chan_app, of_chan_cons. solve_Permutation. Qed.

Lemma watch_inv w ch : notify_inv w -> nt_chans w !! ch = None -> notify_inv (watch_on ch w).
Proof.
  destruct w as [d cg sn cs got lost sent]. unfold watch_on. intros [H1 H2 H3 H4 H6 H7] Hnew. cbn in *. split; cbn [nt_disc nt_changes nt_chans nt_sent nt_sending nt_got nt_lost d_chans WatchService d_pairs] in *.
  - apply NoDup_app. split; [done|]. split; [|apply NoDup_singleton]. intros c Hc ->%list_elem_of_singleton.
    destruct (H2 _ Hc) as (c' & Hc' & _). congruence.
  - intros c [Hc| ->%list_elem_of_singleton]%elem_of_app; [|exists (mkChan [] false); by rewrite lookup_insert_eq].
    destruct (H2 _ Hc) as (c' & Hc' & Ho). exists c'. rewrite lookup_insert_ne; [done|]. intros <-. congruence.
  - intros c Hc. apply H3. rewrite lookup_insert in Hc. by case_decide.
  - intros c. rewrite buffered_insert, H4. case_decide; [|done]. subst c. unfold buffered. cbn. by rewrite Hnew.
  - intros c. rewrite buffered_insert. case_decide; [cbn; lia|apply H6].
  - done.
Qed.

Lemma change_inv d cg sn cs got lost sent pairs :
  notify_inv (mkNotify d cg sn cs got lost sent) ->
  notify_inv (mkNotify (with_pairs pairs d) (cg ++ [pairs]) (sn ++ senders d pairs) cs got lost (sent ++ senders d pairs)).
Proof.
  intros [H1 H2 H3 H4 H6 H7]. cbn in *. split; cbn [nt_disc nt_changes nt_chans nt_sent nt_sending nt_got nt_lost d_chans with_pairs d_pairs] in *.
  - done.
  - done.
  - intros c Hc. rewrite of_chan_app, (H3 _ Hc), of_chan_senders by done. rewrite bool_decide_false; [done|].
    intros Hin. destruct (H2 _ Hin) as (? & ? & _). congruence.
  - intros c. rewrite !of_chan_app, H4. unfold buffered. cbn. solve_Permutation.
  - done.
  - intros p. rewrite last_snoc. by intros [= ->].
Qed.

(** A step that hands one message of a channel on. *)
Lemma moved_inv d cg sn sn' cs cs' got got' lost lost' sent :
  notify_inv (mkNotify d cg sn cs got lost sent) ->
  (forall c, (nt_chans (mkNotify d cg sn cs got lost sent)) !! c = None <-> cs' !! c = None) ->
  (forall c x, c ∈ d_chans d -> cs !! c = Some x -> ch_closed x = false -> exists x', cs' !! c = Some x' /\ ch_closed x' = false) ->
  (forall c, of_chan c sn ++ buffered c (mkNotify d cg sn cs got lost sent) ++ of_chan c got ++ of_chan c lost ≡ₚ
             of_chan c sn' ++ buffered c (mkNotify d cg sn' cs' got' lost' sent) ++ of_chan c got' ++ of_chan c lost') ->
  (forall c, (length (buffered c (mkNotify d cg sn' cs' got' lost' sent)) <= chan_cap)%nat) ->
  notify_inv (mkNotify d cg sn' cs' got' lost' sent).
Proof.
  intros [H1 H2 H3 H4 H6 H7] Hdom Hopen Hperm Hroom. cbn in *. split; cbn in *; try done.
  - intros c Hc. destruct (H2 _ Hc) as (x & Hx & Ho). by apply (Hopen c x).
  - intros c Hc. apply H3, Hdom, Hc.
  - intros c. rewrite H4. apply Hperm.
Qed.

Lemma insert_None (cs : gmap nat chan_t) ch x y c : cs !! ch = Some x -> cs !! c = None <-> <[ch := y]> cs !! c = None.
Proof. intros H. rewrite lookup_insert. case_decide as E; [subst; rewrite H; done|done]. Qed.

Lemma notify_step_inv w w' : notify_inv w -> notify_step w w' -> notify_inv w'.
Proof.
  intros Hinv Hstep. destruct Hstep as [w ch Hn|d cg sn cs got lost sent kv pairs
    |d cg l1 ch pairs l2 cs got lost sent buf Hc Hl|d cg l1 ch pairs l2 cs got lost sent buf closed Hc Hl
    |d cg sn cs got lost sent ch pairs buf closed Hc|d cg sn cs got lost sent ch|d cg sn cs got lost sent ch buf Hc Hd].
  - by apply watch_inv.
  - by apply change_inv.
  - pose proof Hinv as [_ _ _ _ H6 _]. apply (moved_inv _ _ _ _ _ _ _ _ _ _ _ Hinv).
    + intros c. by eapply insert_None.
    + intros c x _ Hx Ho. rewrite lookup_insert. case_decide; [by eexists|eauto].
    + intros c. rewrite of_chan_moved, buffered_insert. case_decide as E.
      * subst c. rewrite of_chan_eq. unfold buffered. cbn. rewrite Hc. cbn. solve_Permutation.
      * by rewrite of_chan_ne by done.
    + intros c. rewrite buffered_insert. case_decide; [cbn; rewrite length_app; cbn; lia|apply H6].
  - pose proof Hinv as [_ _ _ _ H6 _]. apply (moved_inv _ _ _ _ _ _ _ _ _ _ _ Hinv); [done|by eauto| |apply H6].
    intros c. rewrite of_chan_moved, (of_chan_app c lost). unfold buffered. cbn. solve_Permutation.
  - pose proof Hinv as [_ _ _ _ H6 _]. apply (moved_inv _ _ _ _ _ _ _ _ _ _ _ Hinv).
    + intros c. by eapply insert_None.
    + intros c x _ Hx Ho. rewrite lookup_insert. case_decide; [|eauto]. subst c. rewrite Hc in Hx. injection Hx as <-. by eexists.
    + intros c. rewrite buffered_insert, (of_chan_app c got). case_decide as E.
      * subst c. rewrite of_chan_eq. unfold buffered. cbn. rewrite Hc. cbn. solve_Permutation.
      * rewrite of_chan_ne, app_nil_r by done. done.
    + intros c. rewrite buffered_insert. case_decide; [|apply H6]. specialize (H6 ch). unfold buffered in H6. cbn in H6. rewrite Hc in H6. cbn in *. lia.
  - destruct Hinv as [H1 H2 H3 H4 H6 H7]. cbn in *. split; cbn; try done.
    + by apply NoDup_filter.
    + intros c [_ Hc]%list_elem_of_filter. by apply H2.
  - pose proof Hinv as [_ _ _ _ H6 _]. apply (moved_inv _ _ _ _ _ _ _ _ _ _ _ Hinv).
    + intros c. by eapply insert_None.
    + intros c x Hin Hx Ho. rewrite lookup_insert. case_decide; [by subst|eauto].
    + intros c. rewrite buffered_insert. case_decide; [|done]. subst c. unfold buffered. cbn. by rewrite Hc.
    + intros c. rewrite buffered_insert. case_decide; [|apply H6]. specialize (H6 ch). unfold buffered in H6. cbn in H6. by rewrite Hc in H6.
Qed.

Lemma new_notify_inv d : d_chans d = [] -> notify_inv (new_notify d).
Proof.
  intros E. split; cbn; rewrite ?E; try done.
  - apply NoDup_nil_2.
  - intros ch Hch. by apply not_elem_of_nil in Hch.
  - intros ch. unfold buffered. cbn. rewrite lookup_empty. cbn. lia.
Qed.

Lemma notify_steps_inv w w' : notify_inv w -> rtc notify_step w w' -> notify_inv w'.
Proof. intros Hinv Hs. revert Hinv. induction Hs; eauto using notify_step_inv. Qed.

(** While a channel is watched, all that changed since its registration has
    been sent to it. *)
Definition watched_since (k : nat) (ch : nat) (w : notify) : Prop :=
  is_Some (nt_chans w !! ch) /\
  (ch ∈ d_chans (nt_disc w) -> (k <= length (nt_changes w))%nat /\ of_chan ch (nt_sent w) = drop k (nt_changes w)).

Lemma watched_since_step k ch w w' :
  notify_inv w -> watched_since k ch w -> notify_step w w' -> watched_since k ch w'.
Proof.
  intros Hinv [Hs Ha] Hstep. destruct Hstep as [w c Hn|d cg sn cs got lost sent kv pairs
    |d cg l1 c pairs l2 cs got lost sent buf Hc Hl|d cg l1 c pairs l2 cs got lost sent buf closed Hc Hl
    |d cg sn cs got lost sent c pairs buf closed Hc|d cg sn cs got lost sent c|d cg sn cs got lost sent c buf Hc Hd];
    split; cbn [nt_disc nt_changes nt_chans nt_sent nt_sending nt_got nt_lost d_chans with_pairs watch_on WatchService RemoveWatcher] in *;
    try done; rewrite ?lookup_insert; try (case_decide; by eauto).
  - intros [Hin| ->%list_elem_of_singleton]%elem_of_app; [by apply Ha|]. rewrite Hn in Hs. by destruct Hs.
  - intros Hin. destruct (Ha Hin) as [Hk E]. rewrite length_app. split; [lia|].
    rewrite of_chan_app, E, of_chan_senders, bool_decide_true, drop_app_le by (done || apply (ni_watchers _ Hinv)). done.
  - intros [_ Hin]%list_elem_of_filter. by apply Ha.
Qed.

Lemma watched_since_steps k ch w w' :
  notify_inv w -> watched_since k ch w -> rtc notify_step w w' -> watched_since k ch w'.
Proof.
  intros Hinv Hw Hs. revert Hinv Hw. induction Hs; eauto using watched_since_step, notify_step_inv.
Qed.

Lemma watch_on_since ch w :
  notify_inv w -> nt_chans w !! ch = None -> watched_since (length (nt_changes w)) ch (watch_on ch w).
Proof.
  intros Hinv Hn. split; cbn; [by rewrite lookup_insert_eq|]. intros _. split; [done|].
  rewrite drop_all. by apply (ni_new _ Hinv).
Qed.

(** C33.  However the discovery, the goroutines that carry its changes and the
    readers interleave: while a channel is watched, the changes since it was
    registered are, each once, still being sent, in the channel, received, or
    lost to a full channel; the channel holds at most ten; and the discovery
    itself answers with the last change.  Once nothing is under way or lost the
    watcher has received every change since. *)
Theorem watchers_get_changes d w ch w' :
  d_chans d = [] -> rtc notify_step (new_notify d) w -> nt_chans w !! ch = None ->
  rtc notify_step (watch_on ch w) w' -> ch ∈ d_chans (nt_disc w') ->
  let since := drop (length (nt_changes w)) (nt_changes w') in
  of_chan ch (nt_sending w') ++ buffered ch w' ++ of_chan ch (nt_got w') ++ of_chan ch (nt_lost w') ≡ₚ since /\
  (length (buffered ch w') <= chan_cap)%nat /\
  (forall p, last (nt_changes w') = Some p -> GetServices (nt_disc w') = p) /\
  (of_chan ch (nt_sending w') = [] -> buffered ch w' = [] -> of_chan ch (nt_lost w') = [] ->
   of_chan ch (nt_got w') ≡ₚ since).
Proof.
  intros Hd Hr Hnew Hs Hin since.
  pose proof (notify_steps_inv _ _ (new_notify_inv d Hd) Hr) as Hinv.
  pose proof (watch_inv _ _ Hinv Hnew) as Hinv1. pose proof (notify_steps_inv _ _ Hinv1 Hs) as [_ _ _ Hkept Hroom Hlast].
  destruct (watched_since_steps _ _ _ _ Hinv1 (watch_on_since _ _ Hinv Hnew) Hs) as [_ Ha]. destruct (Ha Hin) as [_ E].
  specialize (Hkept ch). rewrite E in Hkept. split; [by symmetry|]. split; [done|]. split; [done|].
  intros E1 E2 E3. by rewrite E1, E2, E3, app_nil_r in Hkept.
Qed.

(** C40.  The goroutines of two changes may overtake each other: a run in which the
    client receives both, nothing is under way or lost, the discovery answers
    with the second change, and the client keeps the servers of the first. *)
Theorem stale_update_wins d ch kv1 kv2 :
  d_chans d = [] -> d_closed d = false ->
  exists w, rtc notify_step (new_notify d) w /\
    nt_sending w = [] /\ nt_lost w = [] /\ buffered ch w = [] /\
    GetServices (nt_disc w) = trim_entries (d_basePath d) kv2 /\
    (forall S (c : registry_client S),
       rc_servers (foldl (fun c pairs => client_watch pairs c) c (of_chan ch (nt_got w))) =
       servers_of (trim_entries (d_basePath d) kv1)).
Proof.
  intros Hd _. set (p1 := trim_entries (d_basePath d) kv1). set (p2 := trim_entries (d_basePath d) kv2).
  eexists. split.
  { eapply rtc_l; [apply (nt_watch _ ch); apply lookup_empty|]. unfold watch_on. cbn.
    eapply rtc_l; [apply (nt_change _ _ _ _ _ _ _ kv1)|]. cbn. eapply rtc_l; [apply (nt_change _ _ _ _ _ _ _ kv2)|].
    unfold senders. cbn. rewrite Hd. cbn. fold p1 p2.
    eapply rtc_l; [apply (nt_deliver _ _ [(ch, p1)] ch p2 []); [apply lookup_insert_eq|cbn; unfold chan_cap; lia]|]. cbn.
    eapply rtc_l; [apply (nt_deliver _ _ [] ch p1 []); [apply lookup_insert_eq|cbn; unfold chan_cap; lia]|]. cbn.
    eapply rtc_l; [eapply nt_receive; apply lookup_insert_eq|]. cbn.
    eapply rtc_l; [eapply nt_receive; apply lookup_insert_eq|]. cbn. apply rtc_refl. }
  cbn. unfold buffered. cbn. rewrite lookup_insert_eq. repeat split.
  intros S c. rewrite of_chan_cons, !of_chan_eq. done.
Qed.

(** ** Witnesses *)

Definition etcd_discovery : discovery := mkDiscovery (str "frpc/Arith") [] [] (-1) false.

Lemma watchers_get_changes_witness :
  exists w', rtc notify_step (watch_on 1 (new_notify etcd_discovery)) w' /\
    of_chan 1 (nt_sending w') ++ buffered 1 w' ++ of_chan 1 (nt_got w') ++ of_chan 1 (nt_lost w')
      ≡ₚ [trim_entries (str "frpc/Arith") [(str "frpc/Arith/tcp@a", [])]].
Proof.
  eexists. split.
  - eapply rtc_l; [apply (nt_change _ _ _ _ _ _ _ [(str "frpc/Arith/tcp@a", [])])|apply rtc_refl].
  - apply (watchers_get_changes etcd_discovery (new_notify etcd_discovery) 1).
    + reflexivity.
    + apply rtc_refl.
    + apply lookup_empty.
    + eapply rtc_l; [apply (nt_change _ _ _ _ _ _ _ [(str "frpc/Arith/tcp@a", [])])|apply rtc_refl].
    + cbn. by left.
Defined.

Lemma stale_update_wins_witness :
  exists w, rtc notify_step (new_notify etcd_discovery) w /\
    nt_sending w = [] /\ nt_lost w = [] /\ buffered 1 w = [] /\
    GetServices (nt_disc w) = trim_entries (str "frpc/Arith") [] /\
    (forall S (c : registry_client S),
       rc_servers (foldl (fun c pairs => client_watch pairs c) c (of_chan 1 (nt_got w))) =
       servers_of (trim_entries (str "frpc/Arith") [(str "frpc/Arith/tcp@a", [])])).
Proof. apply (stale_update_wins etcd_discovery 1 [(str "frpc/Arith/tcp@a", [])] []); reflexivity. Defined.
