(* ===== verification/Lease.v ===== *)
(** * Keeping a registration alive (src/registry/registry_etcd.go, registry_consul.go)

    A registered entry expires: [Register] writes it for twice the update
    interval, and the ticker goroutine of [Start] writes it again every interval
    for three intervals, or makes it anew when it is gone.  Here time passes in
    the store.  [Lease] states what the code relies on of a store whose entries
    expire; [life_step] are the things that happen to a registered server:
    waiting, a tick whose writes succeed or not, a registration that succeeds or
    not, and writes of others.  How long an accepted write lasts is known at
    etcd only: at consul the time to live is that of the session the entry
    already has, so the time asked for by a tick is not what it gets. *)
From Stdlib Require Import Strings.Byte.
From S2P Require Import Prelude GoStd GoTime GoUrl Core Selector Weighted Registry.

#[local] Open Scope go_scope.

(** A store with expiring entries.  [leased key v t s]: the key holds the value
    for at least [t] nanoseconds more unless it is written.  An expiring
    directory takes its entries with it, so the laws are about stores whose
    directories do not expire.  An accepted write lasts for some time, at etcd
    for the whole seconds of the time asked for; a write that is reported as
    failed may have been done at etcd, or not.  Reading and listing may fail; what
    they answer is what is there, and what a read answers changes by writes of
    the key (or below it: then it is a directory). *)
Class Lease (mode : RegistryMode) (St : Type) `{StoreLaws mode St} := {
  st_wait : Z -> St -> St;
  leased : gostring -> bytes -> Z -> St -> Prop;
  permanent_dirs : St -> Prop;
  permanent_Put : forall key v isDir ttl s s' e,
    (isDir = true -> ttl = 0) -> st_Put key v isDir ttl s = (s', e) -> permanent_dirs s -> permanent_dirs s';
  permanent_wait : forall dt s, 0 <= dt -> permanent_dirs s -> permanent_dirs (st_wait dt s);
  lease_Put : forall key v ttl s s', canonical mode key -> storable mode v -> permanent_dirs s -> Second <= ttl ->
    st_Put key v false ttl s = (s', None) ->
    exists t, 0 < t /\ (mode = Etcd -> Second * (ttl / Second) <= t) /\ leased key v t s';
  lease_Put_other : forall key key' v v' isDir ttl t s s' e, canonical mode key -> canonical mode key' ->
    key <> key' -> st_Put key' v' isDir ttl s = (s', e) -> leased key v t s -> leased key v t s';
  lease_Put_fail : forall key v v' ttl t s s' e, mode = Etcd -> canonical mode key -> storable mode v' ->
    permanent_dirs s -> Second <= ttl -> st_Put key v' false ttl s = (s', Some e) -> leased key v t s ->
    leased key v t s' \/ leased key v' (Second * (ttl / Second)) s';
  lease_weaken : forall key v t t' s, t' <= t -> leased key v t s -> leased key v t' s;
  lease_wait : forall key v t dt s, 0 <= dt < t -> leased key v t s -> leased key v (t - dt) (st_wait dt s);
  lease_Get : forall key v w t s, canonical mode key -> 0 < t -> leased key v t s -> st_Get key s = Some w -> w = v;
  Get_Put_other : forall key key' v isDir ttl s s' e, canonical mode key -> canonical mode key' ->
    key <> key' -> HasPrefix key' (key ++ str "/") = false ->
    st_Put key' v isDir ttl s = (s', e) -> st_Get key s' = st_Get key s;
  lease_List : forall dir name v t s, canonical mode dir -> component name -> 0 < t -> leased (slash dir name) v t s ->
    forall l, st_List dir s = inl l -> (slash dir name, v) ∈ l
}.

Lemma no_slash_split (a b x y : gostring) : x2f ∉ a -> x2f ∉ b -> a ++ x2f :: x = b ++ x2f :: y -> a = b /\ x = y.
Proof.
  revert b. induction a as [|c a IH]; intros [|d b] Ha Hb Heq; cbn in Heq; rewrite ?not_elem_of_cons in *; simplify_eq;
    try tauto. destruct (IH b) as [-> ->]; tauto.
Qed.

Section life.
Context {St : Type} (mode : RegistryMode) `{Lease mode St}.
Context (newStore : RegistryMode -> list gostring -> option error) (unicode_blank : gostring -> bool).

(** ** What happens to a registered server *)

(** The registry, the store, the time until the next tick, how many ticks
    the entries outlast (two after a tick, one after a registration), and the
    metadata given for each name so far. *)
Record life := mkLife {
  lf_reg : register_t;
  lf_store : St;
  lf_due : Z;
  lf_slack : Z;
  lf_given : list (gostring * gostring)
}.

(** The metadata a service is registered with. *)
Definition meta (p : register_t) (name : gostring) : bytes := match metas p !! name with Some m => m | None => [] end.

(** What a tick writes for a service. *)
Definition next_value (p : register_t) (s : St) (name : gostring) : bytes :=
  match st_Get (nodePath p name) s with
  | None => meta p name
  | Some value => refreshed value
  end.

Definition tick_put (p : register_t) (s : St) (name : gostring) : St * option error :=
  st_Put (nodePath p name) (next_value p s name) false (swrap64 (UpdateInterval p * 3)) s.

(** All writes of a tick succeed. *)
Fixpoint tick_ok (p : register_t) (s : St) (names : list gostring) : Prop :=
  match names with
  | [] => True
  | name :: names => (tick_put p s name).2 = None /\ tick_ok p (refresh_one p s name) names
  end.

Inductive life_step : life -> life -> Prop :=
| life_wait p s due slack given dt :
    0 <= dt <= due -> life_step (mkLife p s due slack given) (mkLife p (st_wait dt s) (due - dt) slack given)
| life_tick p s slack given :
    tick_ok p s (Services p) -> life_step (mkLife p s 0 slack given) (mkLife p (refresh p s) (UpdateInterval p) 2 given)
| life_tick_failed p s given :
    life_step (mkLife p s 0 2 given) (mkLife p (refresh p s) (UpdateInterval p) 1 given)
| life_register p p' s s' due slack given name metadata err :
    component name -> storable mode metadata ->
    Register mode newStore unicode_blank name metadata p s = (p', s', err) ->
    life_step (mkLife p s due slack given) (mkLife p' s' due 1 (given ++ [(name, metadata)]))
| life_other p s s' due slack given key v isDir ttl err :
    canonical mode key -> (forall n, n ∈ Services p -> nodePath p n <> key) -> (isDir = true -> ttl = 0) ->
    st_Put key v isDir ttl s = (s', err) ->
    life_step (mkLife p s due slack given) (mkLife p s' due slack given).

(** The conditions on the names and the times a registry is used with. *)
Record well_placed (p : register_t) : Prop := {
  wp_base : canonical mode (BasePath p);
  wp_address : component (ServiceAddress p);
  wp_services : Forall component (Services p);
  wp_metas : forall name m, metas p !! name = Some m -> storable mode m;
  wp_interval : Second <= UpdateInterval p;
  wp_fits : UpdateInterval p * 3 < 2 ^ 63
}.

(** ** Proofs *)

Lemma refresh_one_put p s name : refresh_one p s name = (tick_put p s name).1.
Proof. unfold refresh_one, tick_put, next_value. by destruct (st_Get (nodePath p name) s). Qed.

Lemma nodePath_inj p n n' : nodePath p n = nodePath p n' -> n = n'.
Proof.
  unfold nodePath, slash. rewrite <- !app_assoc. intros Heq. apply app_inv_head in Heq.
  cbn in Heq. injection Heq as Heq. by apply app_inv_tail in Heq.
Qed.

Section placed.
Context (p : register_t).
Hypothesis Hp : well_placed p.

Lemma nodePath_canonical name : component name -> canonical mode (nodePath p name).
Proof. intros Hn. apply canonical_slash; [apply canonical_slash; [apply Hp|done]|apply Hp]. Qed.

Lemma service_component name : name ∈ Services p -> component name.
Proof. intros Hin. exact (proj1 (Forall_forall _ _) (wp_services _ Hp) name Hin). Qed.

Lemma nodePath_base n : nodePath p n <> BasePath p.
Proof.
  intros Heq. apply (f_equal length) in Heq. unfold nodePath, slash in Heq. rewrite !length_app in Heq. cbn in Heq. lia.
Qed.

Lemma nodePath_dir n name : component name -> nodePath p n <> slash (BasePath p) name.
Proof.
  intros Hn Heq. unfold nodePath, slash in Heq. rewrite <- app_assoc in Heq. apply app_inv_head in Heq.
  cbn in Heq. injection Heq as <-. apply (comp_no_slash _ Hn). apply elem_of_app. right. by constructor.
Qed.

Lemma nodePath_apart n n' : component n -> component n' -> HasPrefix (nodePath p n') (nodePath p n ++ str "/") = false.
Proof.
  intros Hn Hn'. destruct (HasPrefix _ _) eqn:E; [|done]. apply HasPrefix_inv in E. exfalso.
  set (rest := drop _ _) in E. unfold nodePath, slash in E. rewrite <- !app_assoc in E. apply app_inv_head in E.
  cbn in E. injection E as E. rewrite <- ?app_assoc in E. cbn [app] in E.
  apply no_slash_split in E as [_ E]; [|apply Hn'|apply Hn]. apply (f_equal length) in E.
  rewrite !length_app in E. cbn in E. lia.
Qed.

Lemma next_value_storable s name : storable mode (next_value p s name).
Proof.
  unfold next_value. destruct (st_Get _ s) as [v|].
  - destruct mode; [apply refreshed_ascii|done].
  - unfold meta. destruct (metas p !! name) eqn:E; [by eapply (wp_metas _ Hp)|]. destruct mode; [constructor|done].
Qed.

Lemma tick_ttl : swrap64 (UpdateInterval p * 3) = UpdateInterval p * 3.
Proof. pose proof (wp_interval _ Hp). pose proof (wp_fits _ Hp). unfold Second in *. apply swrap64_small. lia. Qed.

Lemma tick_ttl_second : Second <= swrap64 (UpdateInterval p * 3).
Proof. rewrite tick_ttl. pose proof (wp_interval _ Hp). unfold Second in *. lia. Qed.

Lemma refresh_one_permanent s name : permanent_dirs s -> permanent_dirs (refresh_one p s name).
Proof.
  rewrite refresh_one_put. unfold tick_put. destruct (st_Put _ _ _ _ s) as [s' e] eqn:E.
  by eapply permanent_Put; [|exact E].
Qed.

Lemma refresh_permanent names s : permanent_dirs s -> permanent_dirs (foldl (refresh_one p) s names).
Proof. revert s. induction names as [|n names IH]; intros s Hs; [done|]. by apply IH, refresh_one_permanent. Qed.

(** A service whose entry is, refreshed some number of times, one of [G]. *)
Definition refreshed_from (G : bytes -> Prop) (t : Z) (name : gostring) (s : St) : Prop :=
  exists v n, G v /\ leased (nodePath p name) (Nat.iter n refreshed v) t s.

Lemma refreshed_from_weaken G t t' name s : t' <= t -> refreshed_from G t name s -> refreshed_from G t' name s.
Proof. intros Hle (v & n & Hv & Hn). exists v, n. split; [done|]. by eapply lease_weaken. Qed.

Lemma refreshed_from_mono (G G' : bytes -> Prop) t name s :
  (forall v, G v -> G' v) -> refreshed_from G t name s -> refreshed_from G' t name s.
Proof. intros HG (v & n & Hv & Hn). exists v, n. split; [by apply HG|done]. Qed.

(** What a tick writes over such an entry. *)
Lemma next_value_from (G : bytes -> Prop) t name s :
  component name -> 0 < t -> G (meta p name) -> refreshed_from G t name s ->
  exists v n, G v /\ next_value p s name = Nat.iter n refreshed v.
Proof.
  intros Hn Ht Hm (v & n & Hv & Hl). unfold next_value. destruct (st_Get _ s) as [w|] eqn:E; [|by exists (meta p name), 0%nat].
  rewrite (lease_Get _ _ w t s (nodePath_canonical name Hn) Ht Hl E). by exists v, (S n).
Qed.

Lemma refresh_other G t name name' s :
  component name -> component name' -> name' <> name ->
  refreshed_from G t name s -> refreshed_from G t name (refresh_one p s name').
Proof.
  intros Hn Hn' Hne (v & n & Hv & Hl). rewrite refresh_one_put. destruct (tick_put p s name') as [s' err] eqn:E.
  exists v, n. split; [done|]. eapply lease_Put_other; [by apply nodePath_canonical|by apply (nodePath_canonical name')| |exact E|done].
  intros Heq. by apply Hne, eq_sym, (nodePath_inj p).
Qed.

(** An accepted write of a tick. *)
Lemma refresh_accepted name s :
  component name -> permanent_dirs s -> (tick_put p s name).2 = None ->
  exists t, 0 < t /\ (mode = Etcd -> Second * (UpdateInterval p * 3 / Second) <= t) /\
    leased (nodePath p name) (next_value p s name) t (refresh_one p s name).
Proof.
  intros Hn Hs Hok. rewrite refresh_one_put. destruct (tick_put p s name) as [s' err] eqn:E. cbn in Hok. subst err.
  pose proof tick_ttl_second as Httl. unfold tick_put in E. rewrite <- tick_ttl.
  eapply lease_Put; [by apply nodePath_canonical|apply next_value_storable|exact Hs|exact Httl|exact E].
Qed.

(** After a tick whose writes succeed each service is there with what the tick
    makes of the entry it found; at etcd for three intervals. *)
Definition renewed (G : bytes -> Prop) (name : gostring) (s : St) : Prop :=
  exists t, 0 < t /\ (mode = Etcd -> Second * (UpdateInterval p * 3 / Second) <= t) /\ refreshed_from G t name s.

Lemma refresh_keeps_renewed (G : bytes -> Prop) name names s :
  component name -> Forall component names -> G (meta p name) -> permanent_dirs s -> tick_ok p s names ->
  renewed G name s -> renewed G name (foldl (refresh_one p) s names).
Proof.
  intros Hn Hall Hm. revert s. induction Hall as [|name' names Hn' Hall IH]; intros s Hs Hok Hr; [done|]. cbn [foldl].
  destruct Hok as [Hput Hok]. apply IH; [by apply refresh_one_permanent|done|]. destruct Hr as (t & Ht & Hetcd & Hl).
  destruct (decide (name' = name)) as [->|Hne].
  - destruct (refresh_accepted name s Hn Hs Hput) as (t' & Ht' & Hetcd' & Hl'). exists t'. split; [done|]. split; [done|].
    destruct (next_value_from G t name s Hn Ht Hm Hl) as (v & n & Hv & E). rewrite E in Hl'. by exists v, n.
  - exists t. split; [done|]. split; [done|]. by apply refresh_other.
Qed.

Lemma refresh_ok_renews name names s :
  Forall component names -> permanent_dirs s -> tick_ok p s names -> name ∈ names ->
  renewed (fun v => v = next_value p s name \/ v = meta p name) name (foldl (refresh_one p) s names).
Proof.
  intros Hall. revert s. induction Hall as [|name' names Hn' Hall IH]; intros s Hs; [intros _ Hin; by apply not_elem_of_nil in Hin|].
  intros [Hput Hok] Hin. cbn [foldl]. destruct (decide (name' = name)) as [->|Hne].
  - apply refresh_keeps_renewed; [done|done|by right|by apply refresh_one_permanent|done|].
    destruct (refresh_accepted name s Hn' Hs Hput) as (t & Ht & Hetcd & Hl). exists t. split; [done|]. split; [done|].
    exists (next_value p s name), 0%nat. split; [by left|done].
  - apply elem_of_cons in Hin as [->|Hin]; [done|].
    specialize (IH _ (refresh_one_permanent s name' Hs) Hok Hin). pose proof (proj1 (Forall_forall _ _) Hall name Hin) as Hn.
    destruct IH as (t & Ht & Hetcd & Hl). exists t. split; [done|]. split; [done|].
    eapply refreshed_from_mono; [|exact Hl]. intros v [->|Hv]; [left|by right].
    unfold next_value. rewrite refresh_one_put. destruct (tick_put p s name') as [s' err] eqn:E.
    erewrite Get_Put_other; [done|by apply nodePath_canonical|by apply (nodePath_canonical name')| | |exact E].
    + intros Heq. by apply Hne, eq_sym, (nodePath_inj p).
    + by apply nodePath_apart.
Qed.
End placed.

(** *** What a client sees *)

(** An entry that is there is found by a client, under the server's address. *)
Lemma leased_discovered p name addrs v t s l :
  newStore mode addrs = None -> st_List (slash (BasePath p) name) s = inl l -> canonical mode (BasePath p) -> component name -> component (ServiceAddress p) ->
  0 < t -> leased (nodePath p name) v t s ->
  exists d, new_discovery mode newStore (BasePath p) name addrs s = Val d /\
    servers_of (GetServices d) !! ServiceAddress p = Some v.
Proof.
  intros Hns Hlist Hb Hn Ha Ht Hl. apply lease_List with (l := l) in Hl as Hin; [|by apply canonical_slash|done|done|done].
  destruct (listed_discovered newStore mode _ _ _ _ addrs _ _ Hns Hb Hn Ha Hlist Hin) as (d & Hd & _ & Hlook). by exists d.
Qed.

(** C10.  The registry heals: whatever has happened to the entries of the store, after
    one tick whose writes succeed a client that can list the service's directory
    finds every registered service under this server's address: with what the
    store answered for it, refreshed, or with the metadata it was registered
    with when it answered nothing; a service registered twice may have been
    refreshed again.  At etcd and at consul, for paths as the backend spells
    them (at etcd the base path begins with a slash, at consul it does not)
    whose components are plain names, and a store whose directories do not
    expire. *)
Theorem refresh_heals p s name addrs l :
  well_placed p -> permanent_dirs s -> tick_ok p s (Services p) -> name ∈ Services p -> newStore mode addrs = None ->
  st_List (slash (BasePath p) name) (refresh p s) = inl l ->
  exists v n d, new_discovery mode newStore (BasePath p) name addrs (refresh p s) = Val d /\
    servers_of (GetServices d) !! ServiceAddress p = Some (Nat.iter n refreshed v) /\
    (v = match st_Get (nodePath p name) s with Some value => refreshed value | None => meta p name end \/ v = meta p name).
Proof.
  intros Hp Hs Hok Hin Hns Hlist.
  destruct (refresh_ok_renews p Hp name (Services p) s (wp_services _ Hp) Hs Hok Hin) as (t & Ht & _ & v & n & Hv & Hl).
  destruct (leased_discovered p name addrs _ t _ l Hns Hlist (wp_base _ Hp) (service_component p Hp name Hin) (wp_address _ Hp) Ht Hl)
    as (d & Hdisc & Hlook). by exists v, n, d.
Qed.
End life.

(** *** At etcd *)

Section alive.
Context {St : Type} `{Lease Etcd St}.
Context (newStore : RegistryMode -> list gostring -> option error) (unicode_blank : gostring -> bool).
Context (interval : Z) (base addr : gostring).
Hypothesis Hseconds : interval mod Second = 0.
Implicit Types (x y : life (St := St)).

Lemma whole_seconds k : Second * (interval * k / Second) = interval * k.
Proof.
  assert (interval * k mod Second = 0) as Hm by (rewrite Z.mul_mod, Hseconds by done; by rewrite Z.mul_0_l).
  pose proof (Z.div_mod (interval * k) Second ltac:(done)). lia.
Qed.

(** **** Registrations *)

Lemma Register_permanent name metadata p p' (s s' : St) err :
  Register Etcd newStore unicode_blank name metadata p s = (p', s', err) -> permanent_dirs s -> permanent_dirs s'.
Proof.
  unfold Register. intros Hreg Hs.
  destruct (blank unicode_blank name); [by simplify_eq|].
  destruct (if connected p then None else newStore Etcd (registryAddr p)); [by simplify_eq|].
  destruct (st_Put (BasePath (set_connected p)) _ _ _ s) as [s1 e1] eqn:E1.
  apply permanent_Put in E1; [|done|done]. destruct (fatal (tolerant_base Etcd) e1); [by simplify_eq|].
  destruct (st_Put (slash (BasePath (set_connected p)) name) _ _ _ s1) as [s2 e2] eqn:E2.
  apply permanent_Put in E2; [|done|done]. destruct (fatal true e2); [by simplify_eq|].
  destruct (st_Put (nodePath (set_connected p) name) _ _ _ s2) as [s3 [e3|]] eqn:E3; simplify_eq;
    by apply permanent_Put in E3.
Qed.

(** A registration keeps an entry of this server, except that the name's own
    entry may have been written. *)
Lemma Register_entry name metadata p p' (s s' : St) err n v t :
  Register Etcd newStore unicode_blank name metadata p s = (p', s', err) ->
  well_placed Etcd p -> UpdateInterval p = interval -> component name -> component n -> storable Etcd metadata -> permanent_dirs s ->
  leased (nodePath p n) v t s ->
  leased (nodePath p n) v t s' \/ (n = name /\ leased (nodePath p n) metadata (interval * 2) s').
Proof.
  unfold Register. intros Hreg Hp Hi Hname Hn Hm Hs Hl.
  assert (canonical Etcd (nodePath p n)) as Hkey by by apply nodePath_canonical.
  assert (canonical Etcd (slash (BasePath p) name)) as Hdir by (apply canonical_slash; [apply Hp|done]).
  destruct (blank unicode_blank name); [simplify_eq; by left|].
  destruct (if connected p then None else newStore Etcd (registryAddr p)); [simplify_eq; by left|].
  destruct (st_Put (BasePath (set_connected p)) _ _ _ s) as [s1 e1] eqn:E1.
  assert (leased (nodePath p n) v t s1) as Hl1
    by (eapply (lease_Put_other (mode := Etcd)); [done|apply (wp_base _ _ Hp)|apply nodePath_base|exact E1|done]).
  apply permanent_Put in E1; [|done|done]. destruct (fatal (tolerant_base Etcd) e1); [simplify_eq; by left|].
  destruct (st_Put (slash (BasePath (set_connected p)) name) _ _ _ s1) as [s2 e2] eqn:E2.
  assert (leased (nodePath p n) v t s2) as Hl2
    by (eapply (lease_Put_other (mode := Etcd)); [done|exact Hdir|by apply nodePath_dir|exact E2|done]).
  apply permanent_Put in E2; [|done|done]. destruct (fatal true e2); [simplify_eq; by left|].
  destruct (st_Put (nodePath (set_connected p) name) _ _ _ s2) as [s3 e3] eqn:E3.
  assert (s' = s3) as -> by (destruct e3; by simplify_eq). clear Hreg.
  change (nodePath (set_connected p) name) with (nodePath p name) in E3.
  destruct (decide (n = name)) as [->|Hne].
  - rewrite <- whole_seconds. change (UpdateInterval (set_connected p)) with (UpdateInterval p) in E3.
    pose proof (wp_interval _ _ Hp). pose proof (wp_fits _ _ Hp). unfold Second in *. rewrite Hi, swrap64_small in E3 by lia.
    destruct e3 as [e3|].
    + eapply (lease_Put_fail (mode := Etcd)) in E3; [|done|done|done|done|unfold Second; lia|exact Hl2].
      destruct E3; [by left|by right].
    + apply (lease_Put (mode := Etcd)) in E3 as (t' & _ & Ht' & Hl'); [|done|done|done|unfold Second; lia].
      right. split; [done|]. eapply lease_weaken; [|exact Hl']. by apply Ht'.
  - left. eapply (lease_Put_other (mode := Etcd)); [done|by apply (nodePath_canonical Etcd p Hp name)| |exact E3|done].
    intros Heq. by apply (nodePath_inj p) in Heq.
Qed.

(** What a registration does to the registry. *)
Lemma Register_registry name metadata p p' (s s' : St) err :
  Register Etcd newStore unicode_blank name metadata p s = (p', s', err) ->
  (err = None /\ p' = mkRegister (ServiceAddress p) (registryAddr p) (BasePath p) (Services p ++ [name])
     (<[name := metadata]> (metas p)) (UpdateInterval p) true) \/ p' = p \/ p' = set_connected p.
Proof.
  intros Hreg. destruct err; [right|apply Register_inv in Hreg as (? & ? & ? & ? & _ & _ & _ & ->); by left].
  unfold Register in Hreg. destruct (blank unicode_blank name); [simplify_eq; by left|].
  destruct (if connected p then None else newStore Etcd (registryAddr p)); [simplify_eq; by left|].
  destruct (st_Put (BasePath (set_connected p)) _ _ _ s) as [s1 e1].
  destruct (fatal (tolerant_base Etcd) e1); [simplify_eq; by right|].
  destruct (st_Put (slash (BasePath (set_connected p)) name) _ _ _ s1) as [s2 e2].
  destruct (fatal true e2); [simplify_eq; by right|].
  destruct (st_Put (nodePath (set_connected p) name) _ _ _ s2) as [s3 [e3|]]; simplify_eq. by right.
Qed.

(** The new entry of an accepted registration. *)
Lemma Register_accepted name metadata p p' (s s' : St) :
  Register Etcd newStore unicode_blank name metadata p s = (p', s', None) ->
  well_placed Etcd p -> UpdateInterval p = interval -> component name -> storable Etcd metadata -> permanent_dirs s ->
  leased (nodePath p name) metadata (interval * 2) s'.
Proof.
  intros Hreg Hp Hi Hname Hm Hs. apply Register_inv in Hreg as (s1 & s2 & e1 & e2 & E1 & E2 & E3 & _).
  apply permanent_Put in E1; [|done|done]. apply permanent_Put in E2; [|done|done].
  pose proof (wp_interval _ _ Hp). pose proof (wp_fits _ _ Hp). unfold Second in *. rewrite Hi, swrap64_small in E3 by lia.
  apply (lease_Put (mode := Etcd)) in E3 as (t & _ & Ht & Hl); [|by apply nodePath_canonical|done|done|unfold Second; lia].
  eapply lease_weaken; [|exact Hl]. rewrite <- whole_seconds. by apply Ht.
Qed.

(** **** The invariant *)

(** Every service is there with metadata it was given, refreshed some number of
    times, and outlasts the next tick. *)
Definition service_alive x (name : gostring) : Prop :=
  (name, meta (lf_reg x) name) ∈ lf_given x /\
  refreshed_from Etcd (lf_reg x) (fun m => (name, m) ∈ lf_given x) (lf_due x + interval * lf_slack x) name (lf_store x).

Definition life_frame x : Prop :=
  well_placed Etcd (lf_reg x) /\
  UpdateInterval (lf_reg x) = interval /\ BasePath (lf_reg x) = base /\ ServiceAddress (lf_reg x) = addr /\
  0 <= lf_due x <= interval /\ 1 <= lf_slack x <= 2 /\ permanent_dirs (lf_store x).

Definition life_inv x : Prop := life_frame x /\ forall name, name ∈ Services (lf_reg x) -> service_alive x name.

Lemma register_well_placed name metadata p p' (s s' : St) err :
  Register Etcd newStore unicode_blank name metadata p s = (p', s', err) ->
  component name -> storable Etcd metadata -> well_placed Etcd p -> well_placed Etcd p'.
Proof.
  intros Hreg Hn Hm Hp. destruct (Register_registry _ _ _ _ _ _ _ Hreg) as [[_ ->]|[->| ->]]; [|done|by split; apply Hp].
  split; try apply Hp; cbn.
  - apply Forall_app. split; [apply Hp|by constructor].
  - intros n m [[<- <-]|[_ Hl]]%lookup_insert_Some; [done|by eapply (wp_metas _ _ Hp)].
Qed.

Lemma life_step_frame x y : life_frame x -> life_step Etcd newStore unicode_blank x y -> life_frame y.
Proof.
  intros (Hp & Hi & Hb & Ha & Hd & Hs & Hperm) Hstep.
  destruct Hstep as [p s due slack given dt Hdt|p s slack given Hok|p s given
    |p p' s s' due slack given name metadata err Hname Hm Hreg|p s s' due slack given key v isDir ttl err Hkey Hne Hdir Hput];
    unfold life_frame in *; cbn in *.
  - do 4 (split; [done|]). split; [lia|]. split; [done|]. apply permanent_wait; [lia|done].
  - do 4 (split; [done|]). split; [lia|]. split; [lia|]. by apply refresh_permanent.
  - do 4 (split; [done|]). split; [lia|]. split; [lia|]. by apply refresh_permanent.
  - split; [by eapply register_well_placed|]. apply Register_permanent in Hreg as Hperm'; [|done].
    apply Register_registry in Hreg as [[_ ->]|[->| ->]]; cbn; (do 3 (split; [done|])); (split; [lia|]); by split.
  - do 6 (split; [done|]). by apply permanent_Put in Hput.
Qed.

(** One write of a tick keeps an entry's lease, whether it succeeds or not. *)
Lemma refresh_one_keeps p (G : bytes -> Prop) t name name' (s : St) :
  well_placed Etcd p -> UpdateInterval p = interval -> component name -> component name' -> G (meta p name) -> permanent_dirs s ->
  0 < t <= interval * 3 -> refreshed_from Etcd p G t name s -> refreshed_from Etcd p G t name (refresh_one p s name').
Proof.
  intros Hp Hi Hn Hn' Hm Hs [Ht Ht3] Hr. destruct (decide (name' = name)) as [->|Hne]; [|by apply (refresh_other Etcd p Hp)].
  destruct (next_value_from Etcd p Hp G t name s Hn Ht Hm Hr) as (w & k & Hw & Hv).
  destruct Hr as (v & n & HG & Hl). pose proof (nodePath_canonical Etcd p Hp name Hn) as Hkey.
  destruct (tick_put p s name) as [s' [e|]] eqn:E.
  - rewrite refresh_one_put, E. unfold tick_put in E. rewrite Hv in E.
    eapply (lease_Put_fail (mode := Etcd)) in E; [|done|done|rewrite <- Hv; by apply (next_value_storable Etcd p Hp)|done
      |by apply (tick_ttl_second Etcd p Hp)|exact Hl].
    destruct E as [E|E]; [by exists v, n|]. exists w, k. split; [done|]. eapply lease_weaken; [|exact E].
    rewrite (tick_ttl Etcd p Hp), Hi, whole_seconds. lia.
  - destruct (refresh_accepted Etcd p Hp name s Hn Hs) as (t' & _ & Ht' & Hl'); [by rewrite E|].
    exists w, k. split; [done|]. rewrite Hv in Hl'. eapply lease_weaken; [|exact Hl']. rewrite Hi, whole_seconds in Ht'.
    specialize (Ht' eq_refl). lia.
Qed.

Lemma refresh_keeps p (G : bytes -> Prop) t name names (s : St) :
  well_placed Etcd p -> UpdateInterval p = interval -> component name -> Forall component names -> G (meta p name) -> permanent_dirs s ->
  0 < t <= interval * 3 -> refreshed_from Etcd p G t name s -> refreshed_from Etcd p G t name (foldl (refresh_one p) s names).
Proof.
  intros Hp Hi Hn Hall Hm. revert s. induction Hall as [|name' names Hn' Hall IH]; intros s Hs Ht Hl; [done|].
  apply IH; [by apply refresh_one_permanent|done|by apply refresh_one_keeps].
Qed.

(** What a tick does to one service: an entry that outlasts it is kept. *)
Lemma tick_alive p (s : St) slack given name :
  life_frame (mkLife p s 0 slack given) -> name ∈ Services p -> service_alive (mkLife p s 0 slack given) name ->
  (tick_ok p s (Services p) -> service_alive (mkLife p (refresh p s) (UpdateInterval p) 2 given) name) /\
  (slack = 2 -> service_alive (mkLife p (refresh p s) (UpdateInterval p) 1 given) name).
Proof.
  intros (Hp & Hi & _ & _ & _ & Hs & Hperm) Hin (Hm & Hl). cbn in *.
  pose proof (wp_interval _ _ Hp) as Hpos. rewrite Hi in Hpos. unfold Second in Hpos.
  pose proof (service_component Etcd p Hp name Hin) as Hn. split.
  - intros Hok. split; [done|]. cbn. rewrite Hi.
    destruct (refresh_ok_renews Etcd p Hp name (Services p) s (wp_services _ _ Hp) Hperm Hok Hin) as (t & _ & Ht & v & k & Hv & Hk).
    assert (0 < 0 + interval * slack) as Hlong by nia. rewrite Hi, whole_seconds in Ht. specialize (Ht eq_refl).
    apply (refreshed_from_weaken Etcd p _ t); [lia|]. destruct Hv as [->| ->]; [|by exists (meta p name), k].
    destruct (next_value_from Etcd p Hp _ _ name s Hn Hlong Hm Hl) as (w & n & Hw & Hnext). exists w, (k + n)%nat.
    split; [done|]. by rewrite Nat.iter_add, <- Hnext.
  - intros ->. split; [done|]. cbn. rewrite Hi. apply refresh_keeps; [done|done|done|apply Hp|done|done|lia|].
    eapply refreshed_from_weaken; [|exact Hl]. lia.
Qed.

Lemma register_alive p p' (s s' : St) due slack given name metadata err n :
  life_frame (mkLife p s due slack given) -> component name -> storable Etcd metadata ->
  Register Etcd newStore unicode_blank name metadata p s = (p', s', err) ->
  (n ∈ Services p -> service_alive (mkLife p s due slack given) n) -> n ∈ Services p' ->
  service_alive (mkLife p' s' due 1 (given ++ [(name, metadata)])) n.
Proof.
  intros (Hp & Hi & _ & _ & Hd & Hs & Hperm) Hname Hm Hreg Hold Hin. unfold service_alive. cbn in *.
  assert (nodePath p' n = nodePath p n) as Hpath by (by destruct (Register_registry _ _ _ _ _ _ _ Hreg) as [[_ ->]|[->| ->]]).
  assert ((n, metadata) ∈ given ++ [(n, metadata)]) as Hnew by (apply elem_of_app; right; by constructor).
  assert (n ∈ Services p \/ n = name /\ err = None) as [Hin'|[-> ->]].
  { destruct (Register_registry _ _ _ _ _ _ _ Hreg) as [[-> ->]|[->| ->]]; [|by left|by left].
    cbn in Hin. apply elem_of_app in Hin as [?|?%list_elem_of_singleton]; [by left|by right]. }
  - destruct (Hold Hin') as (Hg & v & k & Hv & Hk). cbn in *. split.
    { apply elem_of_app. destruct (Register_registry _ _ _ _ _ _ _ Hreg) as [[-> ->]|[->| ->]]; [|by left|by left].
      unfold meta. cbn. destruct (decide (n = name)) as [->|Hne]; [right; rewrite lookup_insert_eq; by constructor|left].
      by rewrite lookup_insert_ne. }
    unfold refreshed_from. rewrite Hpath.
    destruct (Register_entry _ _ _ _ _ _ _ _ _ _ Hreg Hp Hi Hname (service_component Etcd p Hp n Hin') Hm Hperm Hk) as [Hl|[-> Hl]].
    + exists v, k. split; [apply elem_of_app; by left|]. eapply lease_weaken; [|exact Hl]. nia.
    + exists metadata, 0%nat. split; [done|]. eapply lease_weaken; [|exact Hl]. lia.
  - split.
    { apply Register_inv in Hreg as (? & ? & ? & ? & _ & _ & _ & ->). unfold meta. cbn. by rewrite lookup_insert_eq. }
    unfold refreshed_from. rewrite Hpath. exists metadata, 0%nat. split; [done|].
    eapply lease_weaken; [|by eapply Register_accepted]. lia.
Qed.

Lemma life_step_inv x y : life_inv x -> life_step Etcd newStore unicode_blank x y -> life_inv y.
Proof.
  intros [Hf Hall] Hstep. split; [by eapply life_step_frame|].
  destruct Hstep as [p s due slack given dt Hdt|p s slack given Hok|p s given
    |p p' s s' due slack given name metadata err Hname Hm Hreg|p s s' due slack given key v isDir ttl err Hkey Hne Hdir Hput];
    intros n Hin.
  - destruct (Hall n Hin) as (Hm & w & k & Hw & Hk). split; [done|]. exists w, k. split; [done|]. cbn in *.
    destruct Hf as (Hp & Hi & _ & _ & Hd & Hs & _). cbn in *. pose proof (wp_interval _ _ Hp) as Hpos. unfold Second in Hpos.
    replace (due - dt + interval * slack) with (due + interval * slack - dt) by lia. apply lease_wait; [nia|done].
  - by apply (tick_alive p s slack given n Hf Hin (Hall n Hin)).
  - by apply (tick_alive p s 2 given n Hf Hin (Hall n Hin)).
  - eapply register_alive; eauto.
  - destruct (Hall n Hin) as (Hm & w & k & Hw & Hk). split; [done|]. exists w, k. split; [done|]. cbn in *.
    destruct Hf as (Hp & _). cbn in Hp. eapply (lease_Put_other (mode := Etcd)); [|exact Hkey|by apply Hne|exact Hput|done].
    apply (nodePath_canonical Etcd p Hp), (service_component Etcd p Hp n Hin).
Qed.

(** A server that has been started: nothing is registered yet. *)
Definition started x : Prop :=
  UpdateInterval (lf_reg x) = interval /\ BasePath (lf_reg x) = base /\ ServiceAddress (lf_reg x) = addr /\
  Services (lf_reg x) = [] /\ metas (lf_reg x) = ∅ /\ lf_due x = interval /\ lf_slack x = 2 /\ lf_given x = [] /\
  permanent_dirs (lf_store x).

Hypothesis Hpositive : Second <= interval.
Hypothesis Hfits : interval * 3 < 2 ^ 63.
Hypothesis Hbase : canonical Etcd base.
Hypothesis Haddr : component addr.

Lemma life_reachable_inv x0 x : started x0 -> rtc (life_step Etcd newStore unicode_blank) x0 x -> life_inv x.
Proof.
  intros Hst Hr. assert (life_inv x0) as Hinv.
  { destruct x0 as [p s due slack given]. unfold started, life_inv, life_frame in *. cbn in *.
    destruct Hst as (Hi & Hb & Ha & Hs & Hm & -> & -> & -> & Hperm). unfold Second in Hpositive.
    split; [|intros name Hin; rewrite Hs in Hin; by apply not_elem_of_nil in Hin].
    split; [|do 3 (split; [done|]); (split; [lia|]); by split; [lia|]].
    split; rewrite ?Hi, ?Hb, ?Ha, ?Hs, ?Hm; done. }
  clear Hst. induction Hr as [x|x y z Hxy _ IH]; [done|]. by apply IH, (life_step_inv x).
Qed.

(** C9.  A registered service stays discoverable at etcd: from the start of the
    registry on, at every moment, while services are registered (successfully
    or not, also again), others write other keys, the ticker runs and even when
    a tick after a successful one fails (its writes done or not), a client that
    can list the directory of a registered service finds this server's address
    there with metadata the service was registered with, refreshed some number
    of times; its weight is that of those metadata (when they parse).  For an
    update interval of whole seconds, a base path that begins with a slash and
    plain names, ASCII metadata, and a store whose directories do not expire.
    (At consul a failing tick is not tolerated: nothing is claimed.) *)
Theorem registered_stays_discoverable x0 x name addrs l :
  started x0 -> rtc (life_step Etcd newStore unicode_blank) x0 x -> name ∈ Services (lf_reg x) -> newStore Etcd addrs = None ->
  st_List (slash base name) (lf_store x) = inl l ->
  exists m n d, (name, m) ∈ lf_given x /\
    new_discovery Etcd newStore base name addrs (lf_store x) = Val d /\
    servers_of (GetServices d) !! addr = Some (Nat.iter n refreshed m) /\
    ((ParseQuery m).2 = true -> metadata_weight (Nat.iter n refreshed m) = metadata_weight m).
Proof.
  intros Hst Hr Hin Hns Hlist. destruct (life_reachable_inv x0 x Hst Hr) as [(Hp & Hi & Hb & Ha & Hd & Hs & _) Hall].
  destruct (Hall name Hin) as (_ & m & n & Hm & Hl). unfold Second in Hpositive.
  assert (0 < lf_due x + interval * lf_slack x) as Ht by nia. rewrite <- Hb in Hlist.
  destruct (leased_discovered Etcd newStore (lf_reg x) name addrs _ _ _ l Hns Hlist (wp_base _ _ Hp) (service_component Etcd _ Hp name Hin)
    (wp_address _ _ Hp) Ht Hl) as (d & Hdisc & Hlook).
  exists m, n, d. rewrite <- Hb, <- Ha. do 3 (split; [done|]). intros Hpq. by apply refreshed_iter_fields.
Qed.
End alive.

(** ** Witnesses *)

(** The store in memory, whose clock can be moved. *)
Definition mem_leased mode (key : gostring) (v : bytes) (t : Z) (s : mem_store mode) : Prop :=
  exists e, mem_map s !! mem_key mode key = Some (v, e) /\ match e with None => True | Some (x, _) => mem_now s + t <= x end.

Lemma mem_leased_alive mode v e t (s : mem_store mode) :
  0 < t -> match e with None => True | Some (x, _) => mem_now s + t <= x end -> mem_alive (mem_now s) (v, e) = true.
Proof. intros Ht He. unfold mem_alive. cbn. destruct e as [[x y]|]; [|done]. apply Z.ltb_lt. lia. Qed.

Lemma mem_key_inj mode key key' : canonical mode key -> canonical mode key' -> mem_key mode key = mem_key mode key' -> key = key'.
Proof. intros Hk Hk'. by rewrite !mem_key_canonical. Qed.

Lemma mem_Put_lookup mode key key' v isDir ttl (s s' : mem_store mode) e :
  canonical mode key -> canonical mode key' -> key <> key' -> st_Put key' v isDir ttl s = (s', e) ->
  mem_map s' !! mem_key mode key = mem_map s !! mem_key mode key /\ mem_now s' = mem_now s.
Proof.
  intros Hk Hk' Hne Hput. apply (f_equal fst) in Hput. cbn [st_Put mem_Store fst] in Hput. subst s'.
  destruct mode, isDir; cbn [mem_map mem_now]; try done;
    (split; [|done]; rewrite lookup_insert_ne; [done|]; intros Heq; apply Hne; symmetry; by eapply mem_key_inj).
Qed.

Lemma mem_granted mode now ttl old (v : bytes) :
  Second <= ttl ->
  exists t, 0 < t /\ (mode = Etcd -> Second * (ttl / Second) <= t) /\
    match mem_lease mode now ttl old with None => True | Some (x, _) => now + t <= x end.
Proof.
  intros Ht. pose proof (mem_lease_alive mode now ttl old v (or_intror Ht)) as Ha. unfold mem_alive in Ha. cbn [snd] in Ha.
  destruct (mem_lease mode now ttl old) as [[x y]|] eqn:E.
  - apply Z.ltb_lt in Ha. exists (x - now). split; [lia|]. split; [|lia]. intros ->. cbn in E. unfold Second in *.
    rewrite (proj2 (Z.ltb_lt _ _)) in E by lia. injection E as <- _. lia.
  - exists (Z.max 1 (Second * (ttl / Second))). split; [lia|]. split; [lia|done].
Qed.

#[export, refine] Instance mem_Lease mode : Lease mode (mem_store mode) := {
  st_wait := fun dt s => mkMem (mem_now s + dt) (mem_map s);
  leased := mem_leased mode;
  permanent_dirs := fun _ => True
}.
Proof.
  - done.
  - done.
  - intros key v ttl s s' Hk _ _ Ht Hput. destruct (mem_granted mode (mem_now s) ttl (mem_map s !! mem_key mode key) v Ht) as (t & H1 & H2 & H3).
    exists t. split; [done|]. split; [done|]. apply (f_equal fst) in Hput. cbn [st_Put mem_Store fst] in Hput. subst s'.
    destruct mode; (eexists; split; [apply lookup_insert_eq|exact H3]).
  - intros key key' v v' isDir ttl t s s' e Hk Hk' Hne Hput (x & Hx & Ht).
    destruct (mem_Put_lookup _ _ _ _ _ _ _ _ _ Hk Hk' Hne Hput) as [Hl Hn]. exists x. by rewrite Hl, Hn.
  - intros key v v' ttl t s s' e -> _ _ _ _ Hput. apply (f_equal snd) in Hput. by cbn in Hput.
  - intros key v t t' s Hle (x & Hx & Ht). exists x. split; [done|]. destruct x as [[x y]|]; [lia|done].
  - intros key v t dt s Hdt (x & Hx & Ht). exists x. split; [done|]. destruct x as [[x y]|]; cbn; [lia|done].
  - intros key v w t s _ Ht (x & Hx & He) Hg. cbn [st_Get mem_Store] in Hg. rewrite Hx in Hg.
    rewrite (mem_leased_alive mode v x t s) in Hg by done. by injection Hg as <-.
  - intros key key' v isDir ttl s s' e Hk Hk' Hne _ Hput. destruct (mem_Put_lookup _ _ _ _ _ _ _ _ _ Hk Hk' Hne Hput) as [Hl Hn].
    cbn [st_Get mem_Store]. by rewrite Hl, Hn.
  - intros dir name v t s Hd Hn Ht (x & Hx & He). rewrite mem_key_canonical in Hx by by apply canonical_slash.
    eapply mem_listed; [done|done|exact Hx|by eapply mem_leased_alive].
Defined.

(** A server registers a service, an interval passes, the tick is due. *)
Definition life0 : life := mkLife sample_register (mkMem (mode := Etcd) 0 ∅) (60 * Second) 2 [].
Definition life1 : life :=
  let '(p, s, _) := Register (St := mem_store Etcd) Etcd open_store (fun _ => false) (str "Arith") sample_metadata
                      sample_register (mkMem 0 ∅) in
  mkLife p s (60 * Second) 1 [(str "Arith", sample_metadata)].
Definition life2 : life :=
  mkLife (lf_reg life1) (st_wait (mode := Etcd) (60 * Second) (lf_store life1)) 0 1 (lf_given life1).
Definition life3 : life := mkLife (lf_reg life2) (refresh (lf_reg life2) (lf_store life2)) (60 * Second) 2 (lf_given life2).

Lemma sample_life : rtc (life_step (St := mem_store Etcd) Etcd open_store (fun _ => false)) life0 life3.
Proof.
  apply (rtc_l _ _ life1).
  { unfold life1. destruct (Register _ _ _ _ _ _ _) as [[p s] e] eqn:E.
    apply (life_register Etcd open_store (fun _ => false) sample_register p (mkMem 0 ∅) s (60 * Second) 2 []
      (str "Arith") sample_metadata e); [apply sample_name|apply (sample_storable Etcd)|exact E]. }
  apply (rtc_l _ _ life2); [|apply rtc_once].
  - exact (life_wait Etcd open_store (fun _ => false) (lf_reg life1) (lf_store life1) (60 * Second) 1 (lf_given life1) (60 * Second)
      ltac:(unfold Second; lia)).
  - apply (life_tick Etcd open_store (fun _ => false) (lf_reg life2) (lf_store life2) 1 (lf_given life2)). vm_compute. by split.
Qed.

Lemma registered_stays_discoverable_witness :
  exists m n d, (str "Arith", m) ∈ lf_given life3 /\
    new_discovery Etcd open_store (str "/frpc") (str "Arith") [] (lf_store life3) = Val d /\
    servers_of (GetServices d) !! str "tcp@10.0.0.1:8972" = Some (Nat.iter n refreshed m) /\
    ((ParseQuery m).2 = true -> metadata_weight (Nat.iter n refreshed m) = metadata_weight m).
Proof.
  apply (registered_stays_discoverable (St := mem_store Etcd) open_store (fun _ => false) (60 * Second) (str "/frpc")
    (str "tcp@10.0.0.1:8972") eq_refl ltac:(done) eq_refl sample_base sample_address life0 life3 (str "Arith") []
    (match st_List (slash (str "/frpc") (str "Arith")) (lf_store life3) with inl l => l | inr _ => [] end)).
  - repeat split.
  - apply sample_life.
  - assert (Services (lf_reg life3) = [str "Arith"]) as -> by (vm_compute; reflexivity). by constructor.
  - reflexivity.
  - reflexivity.
Defined.

(** At consul, a long time later. *)
Definition consul_register : register_t :=
  new_register (str "frpc") (str "tcp@10.0.0.1:8972") [str "127.0.0.1:8500"] (60 * Second).
Definition consul_life : register_t * mem_store Consul :=
  (Register (St := mem_store Consul) Consul open_store (fun _ => false) (str "Arith") sample_metadata consul_register (mkMem 0 ∅)).1.
Definition expired_store : mem_store Consul := mkMem (2 ^ 40) (mem_map consul_life.2).

Lemma consul_placed : well_placed Consul consul_life.1.
Proof.
  split.
  - exists [str "frpc"]. split; [done|]. split; [|done]. constructor; [|done]. concrete_component.
  - apply sample_address.
  - assert (Services consul_life.1 = [str "Arith"]) as -> by (vm_compute; reflexivity). constructor; [apply sample_name|done].
  - done.
  - vm_compute. discriminate.
  - vm_compute. reflexivity.
Qed.

Lemma refresh_heals_witness :
  exists n d, new_discovery Consul open_store (BasePath consul_life.1) (str "Arith") [] (refresh consul_life.1 expired_store) = Val d /\
    servers_of (GetServices d) !! ServiceAddress consul_life.1 = Some (Nat.iter n refreshed sample_metadata).
Proof.
  assert (meta consul_life.1 (str "Arith") = sample_metadata) as Hm by (vm_compute; reflexivity).
  assert (st_Get (nodePath consul_life.1 (str "Arith")) expired_store = None) as Hg by (vm_compute; reflexivity).
  destruct (refresh_heals Consul open_store consul_life.1 expired_store (str "Arith") []
    (match st_List (slash (BasePath consul_life.1) (str "Arith")) (refresh consul_life.1 expired_store) with inl l => l | inr _ => [] end))
    as (v & n & d & Hd & Hl & Hv); [apply consul_placed|exact I|vm_compute; by split| |reflexivity|reflexivity|].
  - assert (Services consul_life.1 = [str "Arith"]) as -> by (vm_compute; reflexivity). by constructor.
  - assert (v = sample_metadata) as -> by (destruct Hv as [->| ->]; rewrite ?Hg; exact Hm). exists n, d. split; [exact Hd|exact Hl].
Defined.
