(* ===== verification/Listener.v ===== *)
(** * The life of a server (src/server/server.go, option.go, listener.go, service.go)

    Options, publishing at a registry, choosing a listener, the accept loop with its backoff, the set of
    active connections, and [Close].  What the network does is a sequence of
    events: [Accept] returns a connection, a temporary error or another error,
    a connection's handler ends, and [Close] is called by another goroutine. *)
From Stdlib Require Import Strings.Byte.
From S2P Require Import Prelude GoStd GoTime Header Message Core RateLimit Controller Service Server Registry.

#[local] Open Scope go_scope.

(** ** State *)

(** The channel [doneChan]: not made yet, open, closed. *)
Inductive done_chan := DoneNil | DoneOpen | DoneClosed.

Record option_t := mkOption {
  readTimeout : Z;
  writeTimeout : Z;
  tlsConfig : bool;
  rpcPath : gostring;
  blockCrypt : bool
}.

Section lifecycle.
Context {value : Type} (nonascii_upper : gostring -> bool).

Record server_t := mkServer {
  srv_option : option_t;
  srv_services : serviceMap value;
  srv_done : done_chan;
  srv_ln : bool;
  srv_active : option (gset Z);
  srv_registry : option registry_obj;
  srv_controllers : list controller;
  srv_address : gostring
}.

Definition newServer : server_t := mkServer (mkOption 0 0 false [] false) None DoneNil false None None [] [].

Definition set_option (o : option_t) (s : server_t) : server_t :=
  mkServer o (srv_services s) (srv_done s) (srv_ln s) (srv_active s) (srv_registry s) (srv_controllers s) (srv_address s).
Definition set_services (m : serviceMap value) (s : server_t) : server_t :=
  mkServer (srv_option s) m (srv_done s) (srv_ln s) (srv_active s) (srv_registry s) (srv_controllers s) (srv_address s).
Definition set_done (d : done_chan) (s : server_t) : server_t :=
  mkServer (srv_option s) (srv_services s) d (srv_ln s) (srv_active s) (srv_registry s) (srv_controllers s) (srv_address s).
Definition set_ln (b : bool) (s : server_t) : server_t :=
  mkServer (srv_option s) (srv_services s) (srv_done s) b (srv_active s) (srv_registry s) (srv_controllers s) (srv_address s).
Definition set_active (a : option (gset Z)) (s : server_t) : server_t :=
  mkServer (srv_option s) (srv_services s) (srv_done s) (srv_ln s) a (srv_registry s) (srv_controllers s) (srv_address s).
Definition set_controllers (cs : list controller) (s : server_t) : server_t :=
  mkServer (srv_option s) (srv_services s) (srv_done s) (srv_ln s) (srv_active s) (srv_registry s) cs (srv_address s).

(** ** Options and controllers *)

Definition ReadTimeout (t : Z) (s : server_t) : server_t :=
  let o := srv_option s in set_option (mkOption t (writeTimeout o) (tlsConfig o) (rpcPath o) (blockCrypt o)) s.
Definition WriteTimeout (t : Z) (s : server_t) : server_t :=
  let o := srv_option s in set_option (mkOption (readTimeout o) t (tlsConfig o) (rpcPath o) (blockCrypt o)) s.
Definition TLSConfig (cfg : bool) (s : server_t) : server_t :=
  let o := srv_option s in set_option (mkOption (readTimeout o) (writeTimeout o) cfg (rpcPath o) (blockCrypt o)) s.
Definition WithTlsConfig (cfg : bool) (s : server_t) : server_t := TLSConfig cfg s.
Definition RpcPath (p : gostring) (s : server_t) : server_t :=
  let o := srv_option s in set_option (mkOption (readTimeout o) (writeTimeout o) (tlsConfig o) p (blockCrypt o)) s.
Definition WithBlockCrypt (s : server_t) : server_t :=
  let o := srv_option s in set_option (mkOption (readTimeout o) (writeTimeout o) (tlsConfig o) (rpcPath o) true) s.
Definition add_controller (c : controller) (s : server_t) : server_t :=
  set_controllers (srv_controllers s ++ [c]) s.

(** ** Registration *)

Definition set_registry (r : option registry_obj) (s : server_t) : server_t :=
  mkServer (srv_option s) (srv_services s) (srv_done s) (srv_ln s) (srv_active s) r (srv_controllers s) (srv_address s).
Definition set_address (a : gostring) (s : server_t) : server_t :=
  mkServer (srv_option s) (srv_services s) (srv_done s) (srv_ln s) (srv_active s) (srv_registry s) (srv_controllers s) a.

Section publishing.
Context {St : Type} `{Store St} (newStore : RegistryMode -> list gostring -> option error).
Context (unicode_blank : gostring -> bool).

(** [Server.Registry]: an unknown mode gives the nil interface, on which [Start]
    panics; the error of [Start] is ignored. *)
Definition server_Registry (mode : Z) (basePath serviceAddress : gostring) (addrs : list gostring) (interval : Z)
    (s : server_t) (st : St) : outcome (server_t * St) :=
  let inner := NewRegistry mode basePath serviceAddress addrs interval in
  let s := set_registry inner (set_address serviceAddress s) in
  match inner with
  | None => Panic
  | Some r =>
      let? (r, st, _) := registry_Start newStore r st in
      Val (set_registry (Some r) s, st)
  end.

(** The errors of the registry and of the controllers are ignored. *)
Definition RegisterWithMeta (rcvr : receiver value) (name metadata : gostring) (s : server_t) (st : St)
    : server_t * St * option error :=
  let '(s, st) :=
    match srv_registry s with
    | None => (s, st)
    | Some r => let '(r, st, _) := registry_Register newStore unicode_blank name metadata r st in
                (set_registry (Some r) s, st)
    end in
  let '(cs, _) := chain_Register name (srv_controllers s) in
  let s := set_controllers cs s in
  let '(m, err) := register nonascii_upper rcvr name true (srv_services s) in
  (set_services m s, st, err).

Definition RegisterWithName (rcvr : receiver value) (name : gostring) (s : server_t) (st : St)
    : server_t * St * option error :=
  RegisterWithMeta rcvr name [] s st.

Definition Register (rcvr : receiver value) (s : server_t) (st : St) : server_t * St * option error :=
  RegisterWithMeta rcvr (rv_Name rcvr) [] s st.
End publishing.

(** ** Listeners *)

(** The network listeners, for an address. *)
Record net_ops := mkNet {
  net_tcp : gostring -> option error;
  net_quic : gostring -> option error;
  net_kcp : gostring -> option error
}.

Definition makeQuicListener (net : net_ops) (s : server_t) (address : gostring) : option error :=
  if negb (tlsConfig (srv_option s)) then Some (errorString (str "TLSConfig must be configured in server.Options"))
  else net_quic net address.

Definition makeKcpListener (net : net_ops) (s : server_t) (address : gostring) : option error :=
  if negb (blockCrypt (srv_option s)) then
    Some (errorString (str "KCP BlockCrypt must be configured in server.Options"))
  else net_kcp net address.

(** [None] is a listener, [Some] the error. *)
Definition makeListener (net : net_ops) (s : server_t) (network address : gostring) : option error :=
  if str_eqb network (str "tcp") || str_eqb network (str "http") then net_tcp net address
  else if str_eqb network (str "quic") then makeQuicListener net s address
  else if str_eqb network (str "kcp") then makeKcpListener net s address
  else Some (errorString (str "can not make listener for " ++ network)).

(** How [Serve] goes on: with an error, as an HTTP server, or with the accept
    loop. *)
Inductive serving := ServeError (e : error) | ServeHTTP (path : gostring) | ServeListener.

Definition DefaultRPCPath : gostring := str "/_fprc_".

Definition Serve (net : net_ops) (network address : gostring) (s : server_t) : serving :=
  match makeListener net s network address with
  | Some e => ServeError e
  | None =>
      if str_eqb network (str "http") then
        ServeHTTP (if str_eqb (rpcPath (srv_option s)) [] then DefaultRPCPath else rpcPath (srv_option s))
      else ServeListener
  end.

Definition ServeProxy (net : net_ops) (s : server_t) : serving :=
  if negb (str_eqb (srv_address s) []) then
    match split_first x40 (srv_address s) with
    | None => Serve net (str "tcp") (srv_address s) s
    | Some (network, address) => Serve net network address s
    end
  else ServeError (errorString (str "server must have serviceAddress first")).

(** ** The accept loop *)

Definition getDoneChan (s : server_t) : server_t * done_chan :=
  match srv_done s with
  | DoneNil => (set_done DoneOpen s, DoneOpen)
  | d => (s, d)
  end.

(** [close(ch)]: closing the nil channel or a closed one panics. *)
Definition close_chan (ch : done_chan) : outcome done_chan :=
  match ch with DoneOpen => Val DoneClosed | _ => Panic end.

(** A receive from a closed channel goes through at once; otherwise the
    default case closes it. *)
Definition closeDoneChanLocked (s : server_t) : outcome server_t :=
  let '(s, ch) := getDoneChan s in
  match ch with
  | DoneClosed => Val s
  | _ => let? d := close_chan ch in Val (set_done d s)
  end.

(** [Close]: the connections it closes, besides the new state. *)
Definition Close (s : server_t) : outcome (server_t * list Z) :=
  let? s := closeDoneChanLocked s in
  match srv_active s with
  | None => Val (s, [])
  | Some a => Val (set_active (Some ∅) s, elements a)
  end.

(** What can happen while the loop runs. *)
Inductive levent :=
| EvAccept (now : Z) (c : Z)
| EvTemporary (e : error)
| EvError (e : error)
| EvConnEnd (c : Z)
| EvClose.

(** The loop: the server, [tempDelay], the sleeps so far, the connections
    handed to [serveConn], the connections closed, the error returned, and
    whether a [Close] has panicked. *)
Record loop := mkLoop {
  lp_server : server_t;
  lp_delay : Z;
  lp_slept : list Z;
  lp_served : list Z;
  lp_closed : list Z;
  lp_returned : option error;
  lp_panicked : bool
}.

Definition start_loop (s : server_t) : loop :=
  let s := set_ln true s in
  let s := match srv_active s with None => set_active (Some ∅) s | Some _ => s end in
  mkLoop s 0 [] [] [] None false.

Definition next_delay (d : Z) : Z :=
  let d := if d =? 0 then 5 * Millisecond else swrap64 (d * 2) in
  if Second <? d then Second else d.

(** An error of [Accept] after the done channel was looked at. *)
Definition accept_error (temporary : bool) (e : error) (l : loop) : loop :=
  let '(s, ch) := getDoneChan (lp_server l) in
  match ch with
  | DoneClosed => mkLoop s (lp_delay l) (lp_slept l) (lp_served l) (lp_closed l) (Some ErrServerClosed) (lp_panicked l)
  | _ =>
      if temporary then
        let d := next_delay (lp_delay l) in
        mkLoop s d (lp_slept l ++ [d]) (lp_served l) (lp_closed l) None (lp_panicked l)
      else mkLoop s (lp_delay l) (lp_slept l) (lp_served l) (lp_closed l) (Some e) (lp_panicked l)
  end.

Definition add_active (c : Z) (a : option (gset Z)) : option (gset Z) :=
  match a with None => None | Some a => Some ({[c]} ∪ a) end.
Definition del_active (c : Z) (a : option (gset Z)) : option (gset Z) :=
  match a with None => None | Some a => Some (a ∖ {[c]}) end.

Definition accept_conn (now c : Z) (l : loop) : loop :=
  let s := set_active (add_active c (srv_active (lp_server l))) (lp_server l) in
  let '(cs, (c', ok, cl)) := chain_HandleConn now c (srv_controllers s) in
  let s := set_controllers cs s in
  if ok then mkLoop s 0 (lp_slept l) (lp_served l ++ [c']) (lp_closed l ++ cl) None (lp_panicked l)
  else mkLoop s 0 (lp_slept l) (lp_served l) (lp_closed l ++ cl) None (lp_panicked l).

(** One event; once the loop has returned, only [Close] and the end of a
    handler still act. *)
Definition lstep (l : loop) (ev : levent) : loop :=
  match ev, lp_returned l with
  | EvConnEnd c, _ =>
      mkLoop (set_active (del_active c (srv_active (lp_server l))) (lp_server l)) (lp_delay l) (lp_slept l)
        (lp_served l) (lp_closed l ++ [c]) (lp_returned l) (lp_panicked l)
  | EvClose, _ =>
      match Close (lp_server l) with
      | Val (s, cl) => mkLoop s (lp_delay l) (lp_slept l) (lp_served l) (lp_closed l ++ cl) (lp_returned l) (lp_panicked l)
      | _ => mkLoop (lp_server l) (lp_delay l) (lp_slept l) (lp_served l) (lp_closed l) (lp_returned l) true
      end
  | _, Some _ => l
  | EvAccept now c, None => accept_conn now c l
  | EvTemporary e, None => accept_error true e l
  | EvError e, None => accept_error false e l
  end.

Definition lrun (l : loop) (evs : list levent) : loop := foldl lstep l evs.
End lifecycle.
Arguments server_t : clear implicits.
Arguments loop : clear implicits.

(** ** Proofs *)

Section lifecycle_proofs.
Context {value : Type}.
Implicit Types l : loop value.

(** Delays in plain integers: doubling from 5 ms, capped at one second. *)
Definition backoff (i : nat) : Z := Z.min (5 * Millisecond * 2 ^ Z.of_nat i) Second.

Lemma backoff_range i : 5 * Millisecond <= backoff i <= Second.
Proof.
  unfold backoff, Millisecond, Second. assert (0 < 2 ^ Z.of_nat i) by (apply Z.pow_pos_nonneg; lia). lia.
Qed.

Lemma next_delay_backoff i : next_delay (backoff i) = backoff (S i).
Proof.
  pose proof (backoff_range i) as Hr. unfold next_delay, Millisecond, Second in *.
  rewrite (proj2 (Z.eqb_neq _ 0)), swrap64_small by lia.
  unfold backoff, Millisecond, Second in *. rewrite Nat2Z.inj_succ, Z.pow_succ_r by lia.
  assert (0 < 2 ^ Z.of_nat i) by (apply Z.pow_pos_nonneg; lia).
  destruct (_ <? _) eqn:E; zbool; lia.
Qed.

(** Running and not closed. *)
Definition running l : Prop := lp_returned l = None /\ srv_done (lp_server l) <> DoneClosed.

Lemma temporary_step l e :
  running l -> running (lstep l (EvTemporary e)) /\
    lp_delay (lstep l (EvTemporary e)) = next_delay (lp_delay l) /\
    lp_slept (lstep l (EvTemporary e)) = lp_slept l ++ [next_delay (lp_delay l)] /\
    lp_served (lstep l (EvTemporary e)) = lp_served l.
Proof.
  intros [Hr Hd]. unfold lstep. rewrite Hr. unfold accept_error, getDoneChan.
  destruct (srv_done (lp_server l)) eqn:E; [| |done]; cbn; rewrite ?E; repeat split; cbn; by rewrite ?E.
Qed.

Lemma temporary_run es : forall l i,
  running l -> lp_delay l = backoff i ->
  running (lrun l (EvTemporary <$> es)) /\
  lp_slept (lrun l (EvTemporary <$> es)) = lp_slept l ++ (backoff <$> seq (S i) (length es)) /\
  lp_served (lrun l (EvTemporary <$> es)) = lp_served l.
Proof.
  induction es as [|e es IH]; intros l i Hr Hd; [cbn; by rewrite app_nil_r|].
  rewrite fmap_cons. unfold lrun in *. cbn [foldl length seq].
  destruct (temporary_step l e Hr) as (Hr' & Hd' & Hs' & Hv'). rewrite Hd, next_delay_backoff in *.
  destruct (IH _ (S i) Hr' Hd') as (Hr'' & Hs'' & Hv''). split; [done|].
  rewrite Hs'', Hs', <- app_assoc, fmap_cons. by rewrite Hv''.
Qed.

(** Backoff of the accept loop: after a successful accept (or at the
    start), [n] temporary errors in a row make the loop sleep 5 ms, 10 ms, 20
    ms and so on, doubling up to one second and no further, and it goes on
    running without having lost a connection. *)
Theorem accept_backoff l es :
  running l -> lp_delay l = 0 ->
  let l' := lrun l (EvTemporary <$> es) in
  running l' /\ lp_slept l' = lp_slept l ++ (backoff <$> seq 0 (length es)) /\ lp_served l' = lp_served l.
Proof.
  intros Hr Hd. destruct es as [|e es]; cbn zeta; [cbn; by rewrite app_nil_r|].
  rewrite fmap_cons. cbn [length seq].
  change (lrun l (EvTemporary e :: (EvTemporary <$> es))) with (lrun (lstep l (EvTemporary e)) (EvTemporary <$> es)).
  destruct (temporary_step l e Hr) as (Hr' & Hd' & Hs' & Hv'). rewrite Hd in *.
  change (next_delay 0) with (backoff 0) in *.
  destruct (temporary_run es _ 0%nat Hr' Hd') as (Hr'' & Hs'' & Hv''). split; [done|].
  rewrite Hs'', Hs', <- app_assoc, fmap_cons. by rewrite Hv''.
Qed.

(** *** Closing *)

(** [Close] never panics: it leaves the channel closed and the set of active
    connections empty. *)
Lemma Close_spec (s : server_t value) : exists s' cl,
  Close s = Val (s', cl) /\ srv_done s' = DoneClosed /\
  match srv_active s with
  | None => srv_active s' = None /\ cl = []
  | Some a => srv_active s' = Some ∅ /\ cl = elements a
  end.
Proof.
  unfold Close, closeDoneChanLocked, getDoneChan.
  destruct (srv_done s) eqn:E; cbn [outcome_bind close_chan];
    (destruct (srv_active s) as [a|] eqn:Ea; cbn; rewrite ?Ea; eexists _, _; (split; [done|]); cbn; by rewrite ?E, ?Ea).
Qed.

Lemma lstep_close l : exists s cl,
  lstep l EvClose = mkLoop s (lp_delay l) (lp_slept l) (lp_served l) (lp_closed l ++ cl) (lp_returned l) (lp_panicked l) /\
  srv_done s = DoneClosed /\
  match srv_active (lp_server l) with
  | None => srv_active s = None /\ cl = []
  | Some a => srv_active s = Some ∅ /\ cl = elements a
  end.
Proof.
  destruct (Close_spec (lp_server l)) as (s & cl & E & Hd & Ha). exists s, cl. unfold lstep. by rewrite E.
Qed.

Lemma lstep_panicked l ev : lp_panicked (lstep l ev) = lp_panicked l.
Proof.
  destruct ev as [now c|e|e|c|]; [| | | |destruct (lstep_close l) as (s & cl & -> & _); done]; unfold lstep.
  - destruct (lp_returned l); [done|]. unfold accept_conn. by destruct (chain_HandleConn _ _ _) as [cs [[c' []] cl]].
  - destruct (lp_returned l); [done|]. unfold accept_error. by destruct (getDoneChan _) as [s []].
  - destruct (lp_returned l); [done|]. unfold accept_error. by destruct (getDoneChan _) as [s []].
  - done.
Qed.

Lemma lrun_panicked evs : forall l, lp_panicked (lrun l evs) = lp_panicked l.
Proof.
  induction evs as [|ev evs IH]; intros l; [done|]. change (lrun l (ev :: evs)) with (lrun (lstep l ev) evs).
  by rewrite IH, lstep_panicked.
Qed.

Lemma lstep_done l ev :
  srv_done (lp_server l) = DoneClosed -> srv_done (lp_server (lstep l ev)) = DoneClosed.
Proof.
  intros Hd. destruct ev as [now c|e|e|c|]; unfold lstep.
  - destruct (lp_returned l); [done|]. unfold accept_conn.
    destruct (chain_HandleConn _ _ _) as [cs [[c' []] cl]]; done.
  - destruct (lp_returned l); [done|]. unfold accept_error, getDoneChan. by rewrite Hd.
  - destruct (lp_returned l); [done|]. unfold accept_error, getDoneChan. by rewrite Hd.
  - done.
  - destruct (lstep_close l) as (s & cl & E & Hs & _). change (srv_done (lp_server (lstep l EvClose)) = DoneClosed). by rewrite E.
Qed.

Lemma lrun_done evs : forall l,
  srv_done (lp_server l) = DoneClosed -> srv_done (lp_server (lrun l evs)) = DoneClosed.
Proof. induction evs as [|ev evs IH]; intros l Hd; [done|]. apply IH. by apply lstep_done. Qed.

(** The connections handed to a handler and not closed yet are in the set of
    active connections. *)
Definition tracked l : Prop := exists a, srv_active (lp_server l) = Some a /\
  forall c, c ∈ lp_served l -> c ∉ lp_closed l -> c ∈ a.

Lemma lstep_tracked l ev : tracked l -> tracked (lstep l ev).
Proof.
  intros (a & Ha & Ht). destruct ev as [now c|e|e|c|]; unfold lstep.
  - destruct (lp_returned l); [by exists a|]. unfold accept_conn. cbn [srv_controllers set_active].
    pose proof (chain_HandleConn_conn now c (srv_controllers (lp_server l))) as Hc.
    destruct (chain_HandleConn _ _ _) as [cs [[c' []] cl]]; cbn in Hc; subst c'; exists ({[c]} ∪ a); cbn;
      rewrite Ha; (split; [done|]); intros d; rewrite ?elem_of_app; set_solver.
  - destruct (lp_returned l); [by exists a|]. unfold accept_error, getDoneChan.
    destruct (srv_done (lp_server l)); by exists a.
  - destruct (lp_returned l); [by exists a|]. unfold accept_error, getDoneChan.
    destruct (srv_done (lp_server l)); by exists a.
  - exists (a ∖ {[c]}). cbn. rewrite Ha. split; [done|]. intros d. rewrite elem_of_app. set_solver.
  - change (tracked (lstep l EvClose)). destruct (lstep_close l) as (s & cl & -> & _ & Hs). rewrite Ha in Hs.
    destruct Hs as [Hs ->]. exists ∅. cbn. split; [done|]. intros d. rewrite elem_of_app, elem_of_elements. set_solver.
Qed.

Lemma lrun_tracked evs : forall l, tracked l -> tracked (lrun l evs).
Proof. induction evs as [|ev evs IH]; intros l H; [done|]. apply IH. by apply lstep_tracked. Qed.

Lemma start_tracked (s : server_t value) : tracked (start_loop s).
Proof.
  unfold start_loop. cbn. destruct (srv_active s) as [a|] eqn:E; cbn; rewrite ?E; eexists;
    (split; [by rewrite ?E|]); intros c Hc; cbn in Hc; by apply not_elem_of_nil in Hc.
Qed.

(** C25.  Closing a server closes every connection that is being served, whatever
    happened before (accepts, refusals, errors, ended handlers, earlier
    closes); no [Close], however many there are, panics by closing the done
    channel twice; and from then on an error of [Accept], temporary or not,
    makes the loop return [ErrServerClosed]. *)
Theorem close_closes_all (s : server_t value) before after e temporary :
  let l := lrun (start_loop s) (before ++ [EvClose]) in
  (forall c, c ∈ lp_served l -> c ∈ lp_closed l) /\
  srv_active (lp_server l) = Some ∅ /\
  lp_panicked (lrun l after) = false /\
  (lp_returned (lrun l after) = None ->
   lp_returned (lstep (lrun l after) (if temporary : bool then EvTemporary e else EvError e)) = Some ErrServerClosed).
Proof.
  cbn zeta. set (l0 := lrun (start_loop s) before).
  assert (lrun (start_loop s) (before ++ [EvClose]) = lstep l0 EvClose) as -> by (unfold lrun; by rewrite foldl_app).
  assert (tracked l0) as Ht by (apply lrun_tracked, start_tracked).
  pose proof (lstep_tracked l0 EvClose Ht) as (a' & Ha' & Ht').
  assert (srv_active (lp_server (lstep l0 EvClose)) = Some ∅) as Hempty.
  { destruct Ht as (a & Ha & _). destruct (lstep_close l0) as (s' & cl & -> & _ & Hs). rewrite Ha in Hs. apply Hs. }
  split; [|split; [done|split]].
  - intros c Hc. destruct (decide (c ∈ lp_closed (lstep l0 EvClose))) as [|Hn]; [done|].
    specialize (Ht' c Hc Hn). rewrite Hempty in Ha'. injection Ha' as <-. set_solver.
  - by rewrite lrun_panicked, lstep_panicked; unfold l0; rewrite lrun_panicked.
  - intros Hret. set (l1 := lrun (lstep l0 EvClose) after) in *.
    assert (srv_done (lp_server l1) = DoneClosed) as Hd.
    { apply lrun_done. by destruct (lstep_close l0) as (s' & cl & -> & Hs & _). }
    destruct temporary; unfold lstep; rewrite Hret; unfold accept_error, getDoneChan; by rewrite Hd.
Qed.

Lemma leak_step l ev c :
  ev <> EvClose -> ev <> EvConnEnd c ->
  (c ∈ lp_closed l /\ exists a, srv_active (lp_server l) = Some a /\ c ∈ a) ->
  c ∈ lp_closed (lstep l ev) /\ exists a, srv_active (lp_server (lstep l ev)) = Some a /\ c ∈ a.
Proof.
  intros Hev1 Hev2 (Hc & a & Ha & Hin). destruct ev as [now d|e|e|d|]; unfold lstep; [| | | |done].
  - destruct (lp_returned l); [eauto|]. unfold accept_conn.
    destruct (chain_HandleConn _ _ _) as [cs [[c' []] cl]]; cbn; rewrite Ha; rewrite elem_of_app;
      (split; [by left|]); eexists; (split; [done|]); set_solver.
  - destruct (lp_returned l); [eauto|]. unfold accept_error, getDoneChan.
    destruct (srv_done (lp_server l)); cbn; eauto.
  - destruct (lp_returned l); [eauto|]. unfold accept_error, getDoneChan.
    destruct (srv_done (lp_server l)); cbn; eauto.
  - cbn. rewrite Ha, elem_of_app. split; [by left|]. eexists. split; [done|].
    assert (d <> c) by congruence. set_solver.
Qed.

(** A connection a controller refuses leaks: it is closed but stays in the
    set of active connections, and no later event other than closing the whole
    server removes it, because no handler runs for it. *)
Theorem refused_conn_leaks l now c evs :
  lp_returned l = None -> tracked l ->
  (chain_HandleConn now c (srv_controllers (lp_server l))).2.1.2 = false ->
  Forall (fun ev => ev <> EvClose /\ ev <> EvConnEnd c) evs ->
  let l' := lrun (lstep l (EvAccept now c)) evs in
  c ∈ lp_closed l' /\ exists a, srv_active (lp_server l') = Some a /\ c ∈ a.
Proof.
  intros Hr (a & Ha & _) Href Hevs. cbn zeta.
  assert (c ∈ lp_closed (lstep l (EvAccept now c)) /\
    exists a, srv_active (lp_server (lstep l (EvAccept now c))) = Some a /\ c ∈ a) as H0.
  { unfold lstep. rewrite Hr. unfold accept_conn. cbn [srv_controllers set_active].
    pose proof (chain_HandleConn_closed now c (srv_controllers (lp_server l))) as Hcl. rewrite Href in Hcl.
    destruct (chain_HandleConn _ _ _) as [cs [[c' ok] cl]]. cbn in *. subst ok cl. cbn. rewrite Ha.
    split; [rewrite elem_of_app, list_elem_of_singleton; by right|]. eexists. split; [done|]. set_solver. }
  revert H0. generalize (lstep l (EvAccept now c)). clear Hr Ha Href. induction Hevs as [|ev evs [Hev1 Hev2] Hevs IH];
    intros l1 H1; [done|]. apply IH. by apply leak_step.
Qed.
End lifecycle_proofs.

(** ** Witnesses *)

Definition sample_server : server_t bytes :=
  add_controller (CRateLimit (mkRateLimit Second 1 (mkBucket 0 1 1 Second 1 0))) newServer.

Lemma accept_backoff_witness :
  let l' := lrun (start_loop (newServer (value := bytes))) (EvTemporary <$> replicate 10 (ExternalError [])) in
  running l' /\ lp_slept l' = [] ++ (backoff <$> seq 0 10) /\ lp_served l' = [].
Proof.
  apply (accept_backoff (start_loop (newServer (value := bytes))) (replicate 10 (ExternalError []))).
  - split; done.
  - done.
Defined.

Example backoff_values : (fun d => d / Millisecond) <$> (backoff <$> seq 0 10) =
  [5; 10; 20; 40; 80; 160; 320; 640; 1000; 1000].
Proof. vm_compute. reflexivity. Qed.

Lemma close_closes_all_witness :
  lp_returned (lstep (lrun (lrun (start_loop sample_server) ([EvAccept 5 1; EvAccept 6 2] ++ [EvClose])) [])
    (EvError EOF)) = Some ErrServerClosed.
Proof.
  apply (proj2 (proj2 (proj2 (close_closes_all sample_server [EvAccept 5 1; EvAccept 6 2] [] EOF false)))).
  vm_compute. reflexivity.
Defined.

Lemma refused_conn_leaks_witness :
  let l' := lrun (lstep (lstep (start_loop sample_server) (EvAccept 5 1)) (EvAccept 6 2)) [EvConnEnd 1] in
  2 ∈ lp_closed l' /\ exists a, srv_active (lp_server l') = Some a /\ 2 ∈ a.
Proof.
  apply (refused_conn_leaks (lstep (start_loop sample_server) (EvAccept 5 1)) 6 2 [EvConnEnd 1]).
  - vm_compute. reflexivity.
  - apply lstep_tracked, start_tracked.
  - vm_compute. reflexivity.
  - repeat constructor; discriminate.
Defined.
