(* ===== verification/Client.v ===== *)
(** * A client connection (src/client/client.go: Call, Go, send, handleResponse, call, close)

    The state that the mutex of a [Client] protects (sequence counter, pending
    calls, the closing and shutdown flags) together with the [Call] objects it
    points to, and one operation per critical section: registering a call,
    writing its request, handling one decoded response, the end of the
    response loop, cancellation, and [close]; what a goroutine does to a call
    after its unlock belongs to the operation (Link takes it apart).
    [cl_done] counts the calls of [done()].  Interleavings of goroutines are
    sequences of these operations ([client_step]).  Codecs and gzip are
    arguments. *)
From Stdlib Require Import Strings.Byte.
From S2P Require Import Prelude GoStd Header Message Pool Core Service Server.

#[local] Open Scope go_scope.

Section client.
Context {value : Type} (libs : codec_libs value rtype).
Context (iterate : option metadata -> list (gostring * gostring)).
Context (Zip Unzip : bytes -> bytes + error).

Record call_t := mkCall {
  cl_servicePath : gostring;
  cl_serviceMethod : gostring;
  cl_metadata : option metadata;
  cl_args : value;
  cl_replyType : rtype;
  cl_reply : option value;
  cl_Error : option error;
  cl_resMetadata : option metadata;
  cl_done : Z
}.

Definition set_Error (e : option error) (c : call_t) : call_t :=
  mkCall (cl_servicePath c) (cl_serviceMethod c) (cl_metadata c) (cl_args c) (cl_replyType c)
    (cl_reply c) e (cl_resMetadata c) (cl_done c).
Definition set_reply (v : option value) (c : call_t) : call_t :=
  mkCall (cl_servicePath c) (cl_serviceMethod c) (cl_metadata c) (cl_args c) (cl_replyType c)
    v (cl_Error c) (cl_resMetadata c) (cl_done c).
Definition set_resMetadata (md : option metadata) (c : call_t) : call_t :=
  mkCall (cl_servicePath c) (cl_serviceMethod c) (cl_metadata c) (cl_args c) (cl_replyType c)
    (cl_reply c) (cl_Error c) md (cl_done c).
(** [call.done()] *)
Definition done_call (c : call_t) : call_t :=
  mkCall (cl_servicePath c) (cl_serviceMethod c) (cl_metadata c) (cl_args c) (cl_replyType c)
    (cl_reply c) (cl_Error c) (cl_resMetadata c) (cl_done c + 1).

(** A new [Call], as [Go] fills it in. *)
Definition new_call (path method : gostring) (md : option metadata) (args : value) (rt : rtype) : call_t :=
  mkCall path method md args rt None None None 0.

Record client_t := mkClient {
  serializeType : SerializeType;
  compressType : CompressType;
  seq : Z;
  pending : gmap Z nat;
  closing : bool;
  shutdown : bool;
  calls : gmap nat call_t;
  written : list bytes
}.

Definition set_calls (m : gmap nat call_t) (c : client_t) : client_t :=
  mkClient (serializeType c) (compressType c) (seq c) (pending c) (closing c) (shutdown c) m (written c).
Definition set_pending (p : gmap Z nat) (c : client_t) : client_t :=
  mkClient (serializeType c) (compressType c) (seq c) p (closing c) (shutdown c) (calls c) (written c).
Definition update_call (id : nat) (f : call_t -> call_t) (c : client_t) : client_t :=
  set_calls (alter f id (calls c)) c.

(** ** Sending *)

(** The critical section of [send]: the sequence number of a registered call. *)
Definition send_register (id : nat) (call : call_t) (c : client_t) : client_t * option Z :=
  let c := set_calls (<[id := call]> (calls c)) c in
  if shutdown c || closing c then
    (update_call id (fun k => done_call (set_Error (Some ErrShutdown) k)) c, None)
  else
    match Codecs libs (serializeType c) with
    | None => (update_call id (fun k => done_call (set_Error (Some ErrUnsupportedCodec) k)) c, None)
    | Some _ =>
        let sq := seq c in
        (mkClient (serializeType c) (compressType c) (wrap64 (sq + 1)) (<[sq := id]> (pending c))
           (closing c) (shutdown c) (calls c) (written c), Some sq)
    end.

(** The request message built from a pooled one, or the error of encoding or
    compressing the arguments. *)
Definition build_request (got : Message) (c : client_t) (sq : Z) (call : call_t) : Message + error :=
  let req := set_Header (SetSeq (SetMessageType (msg_Header got) Request) sq) got in
  if str_eqb (cl_servicePath call) [] && str_eqb (cl_serviceMethod call) [] then
    inl (set_Header (SetHeartbeat (msg_Header req) true) req)
  else
    let req := set_Header (SetSerializeType (msg_Header req) (serializeType c)) req in
    let req := match cl_metadata call with None => req | Some md => set_Metadata (Some md) req end in
    let req := set_ServicePath (cl_servicePath call) req in
    let req := set_ServiceMethod (cl_serviceMethod call) req in
    match Codecs libs (serializeType c) with
    | None => inr ErrUnsupportedCodec
    | Some codec =>
        match codec_Encode codec (cl_args call) with
        | inr e => inr e
        | inl data =>
            if (1024 <? len data) && beqb (compressType c) Gzip then
              match Zip data with
              | inr e => inr e
              | inl data => inl (set_Payload data (set_Header (SetCompressType (msg_Header req) (compressType c)) req))
              end
            else inl (set_Payload data req)
        end
    end.

(** Taking a call out of the pending map and completing it, when it is there. *)
Definition complete (sq : Z) (f : call_t -> call_t) (c : client_t) : client_t :=
  match pending c !! sq with
  | None => set_pending (delete sq (pending c)) c
  | Some id => update_call id (fun k => done_call (f k)) (set_pending (delete sq (pending c)) c)
  end.

(** The rest of [send] for a call registered under [sq]; [werr] is the error of
    [conn.Write].  An encoding error completes the call but leaves it in the
    pending map. *)
Definition send_write (got : Message) (werr : option error) (id : nat) (sq : Z) (c : client_t) : outcome client_t :=
  match calls c !! id with
  | None => Val c
  | Some call =>
      match build_request got c sq call with
      | inr e => Val (update_call id (fun k => done_call (set_Error (Some e) k)) c)
      | inl req =>
          let? data := Encode req (iterate (Metadata req)) in
          match werr with
          | Some e => Val (complete sq (set_Error (Some e)) c)
          | None => Val (mkClient (serializeType c) (compressType c) (seq c) (pending c) (closing c) (shutdown c)
                           (calls c) (written c ++ [data]))
          end
      end
  end.

(** The end of [send], after [FreeMsg]: [freed] is what the message it has given
    back to the pool holds when [IsOneway] reads it, the reset message or
    whatever its next owner has put there. *)
Definition send_release (freed : Message) (sq : Z) (c : client_t) : client_t :=
  if IsOneway (msg_Header freed) then complete sq (fun k => k) c else c.

(** ** Receiving *)

(** The default case of the switch: the call after decoding the payload, and
    the value of the loop's [err]. *)
Definition decode_reply (res : Message) (call : call_t) : call_t * option error :=
  let data := Payload res in
  if 0 <? len data then
    let '(data, err, call) :=
      if beqb (getCompressType (msg_Header res)) Gzip then
        match Unzip data with
        | inl d => (d, None, call)
        | inr e => ([], Some e, set_Error (Some (ServiceError (str "unzip payload: " ++ Error e))) call)
        end
      else (data, None, call) in
    match Codecs libs (getSerializeType (msg_Header res)) with
    | None => (set_Error (Some (ServiceError (Error ErrUnsupportedCodec))) call, err)
    | Some codec =>
        match codec_Decode codec data (cl_replyType call) with
        | inl v => (set_reply (Some v) call, None)
        | inr e => (set_Error (Some (ServiceError (Error e))) call, Some e)
        end
    end
  else (call, None).

(** The text of the error a response carries; a missing entry is the empty
    string. *)
Definition service_error (res : Message) : gostring :=
  match Metadata res with
  | None => []
  | Some md => match md !! ServiceErrorKey with Some s => s | None => [] end
  end.

Definition is_server_message (res : Message) : bool :=
  beqb (getMessageType (msg_Header res)) Request && negb (IsHeartbeat (msg_Header res)) && IsOneway (msg_Header res).

(** One round of the loop of [handleResponse] after a successful [Decode] into
    [res]: the client, the loop's [err], and the message as the next round
    finds it (a server message is not reset). *)
Definition handle_message (res : Message) (c : client_t) : client_t * option error * Message :=
  if is_server_message res then (c, None, res)
  else
    let sq := Seq (msg_Header res) in
    let c' := set_pending (delete sq (pending c)) c in
    match pending c !! sq with
    | None => (c', None, Reset res)
    | Some id =>
        match calls c !! id with
        | None => (c', None, Reset res)
        | Some call =>
            if beqb (getMessageStatusType (msg_Header res)) StatusError then
              (update_call id (fun k => done_call (set_resMetadata (Metadata res)
                 (set_Error (Some (ServiceError (service_error res))) k))) c', None, Reset res)
            else if IsHeartbeat (msg_Header res) then
              (update_call id (fun k => done_call (set_resMetadata (Metadata res) k)) c', None, Reset res)
            else
              let '(call', err) := decode_reply res call in
              (update_call id (fun _ => done_call (set_resMetadata (Metadata res) call')) c', err, Reset res)
        end
    end.

(** Completing every pending call with [f]. *)
Definition complete_all (f : call_t -> call_t) (p : gmap Z nat) (m : gmap nat call_t) : gmap nat call_t :=
  map_fold (fun _ id acc => alter (fun k => done_call (f k)) id acc) m p.

(** After the loop: the pending calls fail with the error; they stay in the
    pending map. *)
Definition finish_responses (err : option error) (c : client_t) : client_t :=
  let err := match err with
             | Some EOF => Some (if closing c then ErrShutdown else ErrUnexpectedEOF)
             | e => e
             end in
  mkClient (serializeType c) (compressType c) (seq c) (pending c) (closing c) true
    (complete_all (set_Error err) (pending c) (calls c)) (written c).

(** [handleResponse] on a stream, without interference: [fuel] rounds.  A panic
    of [Decode] is not recovered. *)
Fixpoint handleResponse (fuel : nat) (MaxMessageLength : Z) (res : Message) (r : reader) (c : client_t)
    : option (outcome client_t) :=
  match fuel with
  | O => None
  | S fuel' =>
      match Decode MaxMessageLength (res, r) with
      | ((res', r'), Val _) =>
          match handle_message res' c with
          | (c', None, res'') => handleResponse fuel' MaxMessageLength res'' r' c'
          | (c', Some e, _) => Some (Val (finish_responses (Some e) c'))
          end
      | (_, Fail e) => Some (Val (finish_responses (Some e) c))
      | (_, Panic) => Some Panic
      end
  end.

(** ** Cancellation and closing *)

(** The branch of [call] for a context that is done: the address of the
    sequence number never reaches [send] (the derived context is dropped), so
    [*seq] is zero. *)
Definition cancel (ctxErr : error) (c : client_t) : client_t := complete 0 (set_Error (Some ctxErr)) c.

(** [close]: the error, when the connection is not closed by it. *)
Definition close (c : client_t) : client_t * option error :=
  let cs := complete_all (set_Error (Some ErrShutdown)) (pending c) (calls c) in
  if closing c || shutdown c then
    (mkClient (serializeType c) (compressType c) (seq c) ∅ (closing c) (shutdown c) cs (written c), Some ErrShutdown)
  else
    (mkClient (serializeType c) (compressType c) (seq c) ∅ true (shutdown c) cs (written c), None).

(** ** Interleavings *)

(** One critical section of one of the goroutines that use the connection. *)
Inductive event :=
| EvSend (id : nat) (call : call_t)
| EvWrite (got : Message) (werr : option error) (id : nat) (sq : Z)
| EvRelease (freed : Message) (sq : Z)
| EvMessage (res : Message)
| EvLoopEnd (err : error)
| EvCancel (ctxErr : error)
| EvClose.

Definition client_step (c : client_t) (ev : event) : client_t :=
  match ev with
  | EvSend id call => (send_register id call c).1
  | EvWrite got werr id sq =>
      match send_write got werr id sq c with Val c' => c' | _ => c end
  | EvRelease freed sq => send_release freed sq c
  | EvMessage res =>
      match handle_message res c with
      | (c', None, _) => c'
      | (c', Some e, _) => finish_responses (Some e) c'
      end
  | EvLoopEnd err => finish_responses (Some err) c
  | EvCancel e => cancel e c
  | EvClose => (close c).1
  end.

Definition new_client (st : SerializeType) (ct : CompressType) : client_t :=
  mkClient st ct 0 ∅ false false ∅ [].
End client.
Arguments call_t : clear implicits.
Arguments client_t : clear implicits.
Arguments event : clear implicits.

(** ** Proofs: no call is lost *)

Section client_proofs.
Context {value : Type} (libs : codec_libs value rtype).
Context (iterate : option metadata -> list (gostring * gostring)).
Context (Zip Unzip : bytes -> bytes + error).
Implicit Types (c : client_t value) (k : call_t value) (p : gmap Z nat).

Definition injective_map p : Prop := forall s1 s2 id, p !! s1 = Some id -> p !! s2 = Some id -> s1 = s2.

Lemma injective_delete p s : injective_map p -> injective_map (delete s p).
Proof. intros Hi s1 s2 id H1 H2. apply lookup_delete_Some in H1 as [_ H1], H2 as [_ H2]. by eapply Hi. Qed.

(** Completing all pending calls touches each of them once and no other. *)
Lemma complete_all_lookup f p (m : gmap nat (call_t value)) id :
  injective_map p ->
  ((exists s, p !! s = Some id) -> complete_all f p m !! id = (fun k => done_call (f k)) <$> m !! id) /\
  ((forall s, p !! s <> Some id) -> complete_all f p m !! id = m !! id).
Proof.
  unfold complete_all. revert p.
  apply (map_fold_weak_ind (fun r p => injective_map p ->
    ((exists s, p !! s = Some id) -> r !! id = (fun k => done_call (f k)) <$> m !! id) /\
    ((forall s, p !! s <> Some id) -> r !! id = m !! id))).
  - intros _. split; [|done]. by intros (s & Hs).
  - intros s j p r Hs IH Hi.
    assert (injective_map p) as Hip.
    { intros s1 s2 i H1 H2. apply (Hi s1 s2 i); rewrite lookup_insert_ne; try done; intros <-; congruence. }
    destruct (IH Hip) as [IHin IHout]. clear IH. destruct (decide (j = id)) as [->|Hne].
    + assert (forall t, p !! t <> Some id) as Hno.
      { intros t Ht. assert (s = t) as <-; [|congruence].
        apply (Hi s t id); [by rewrite lookup_insert_eq|]. rewrite lookup_insert_ne; [done|]. intros <-. congruence. }
      split.
      * intros _. rewrite lookup_alter_eq. by rewrite IHout.
      * intros Hall. exfalso. apply (Hall s). by rewrite lookup_insert_eq.
    + rewrite lookup_alter_ne by done. split.
      * intros (t & Ht). apply IHin. rewrite lookup_insert in Ht. case_decide; [congruence|]. by exists t.
      * intros Hall. apply IHout. intros t Ht. apply (Hall t). rewrite lookup_insert_ne; [done|]. intros <-. congruence.
Qed.

Lemma pending_or p id : (exists s, p !! s = Some id) \/ (forall s, p !! s <> Some id).
Proof.
  destruct (decide (Exists (fun x => x.2 = id) (map_to_list p))) as [Hex|Hnex].
  - left. apply Exists_exists in Hex as ([s j] & Hin & Hj). cbn in Hj. subst j.
    exists s. by apply elem_of_map_to_list.
  - right. intros s Hs. apply Hnex, Exists_exists. exists (s, id). by rewrite elem_of_map_to_list.
Qed.

(** The invariant of a connection: pending numbers are below the counter and
    belong to distinct existing calls, and every call is pending or has been
    completed. *)
Record client_inv c : Prop := {
  ci_seq : forall s id, pending c !! s = Some id -> 0 <= s < seq c;
  ci_call : forall s id, pending c !! s = Some id -> is_Some (calls c !! id);
  ci_inj : injective_map (pending c);
  ci_done : forall id k, calls c !! id = Some k -> 0 <= cl_done k;
  ci_kept : forall id k, calls c !! id = Some k -> (exists s, pending c !! s = Some id) \/ 1 <= cl_done k
}.

(** New calls get a new identity, and the counter does not wrap around. *)
Definition event_ok c (ev : event value) : Prop :=
  match ev with
  | EvSend id k => calls c !! id = None /\ cl_done k = 0 /\ seq c < 2 ^ 64 - 1
  | _ => True
  end.

(** An update of one call that does not take completions back. *)
Lemma inv_update c id f :
  client_inv c -> (forall k, cl_done k <= cl_done (f k)) -> client_inv (update_call id f c).
Proof.
  intros [H1 H2 H3 H4 H5] Hf. split; cbn; try done.
  - intros s j Hs. apply H2 in Hs as [k Hk]. destruct (decide (j = id)) as [->|Hne].
    + rewrite lookup_alter_eq, Hk. by eexists.
    + rewrite lookup_alter_ne by done. by eexists.
  - intros j k Hk. destruct (decide (j = id)) as [->|Hne].
    + rewrite lookup_alter_eq in Hk. destruct (calls c !! id) as [k0|] eqn:E; [|done]. injection Hk as <-.
      specialize (Hf k0). specialize (H4 _ _ E). lia.
    + rewrite lookup_alter_ne in Hk by done. by eapply H4.
  - intros j k Hk. destruct (decide (j = id)) as [->|Hne].
    + rewrite lookup_alter_eq in Hk. destruct (calls c !! id) as [k0|] eqn:E; [|done]. injection Hk as <-.
      specialize (Hf k0). destruct (H5 _ _ E) as [?|?]; [by left|right; lia].
    + rewrite lookup_alter_ne in Hk by done. by eapply H5.
Qed.

(** Removing an entry is safe when its call is completed at the same time. *)
Lemma inv_remove c sq id f :
  client_inv c -> pending c !! sq = Some id -> (forall k, 0 <= cl_done k -> 1 <= cl_done (f k)) ->
  client_inv (update_call id f (set_pending (delete sq (pending c)) c)).
Proof.
  intros [H1 H2 H3 H4 H5] Hp Hf. split; cbn.
  - intros s j Hs. apply lookup_delete_Some in Hs as [_ Hs]. by eapply H1.
  - intros s j Hs. apply lookup_delete_Some in Hs as [_ Hs]. apply H2 in Hs as [k Hk].
    destruct (decide (j = id)) as [->|Hne]; [rewrite lookup_alter_eq|rewrite lookup_alter_ne by done]; rewrite Hk; by eexists.
  - by apply injective_delete.
  - intros j k Hk. destruct (decide (j = id)) as [->|Hne].
    + rewrite lookup_alter_eq in Hk. destruct (calls c !! id) as [k0|] eqn:E; [|done]. injection Hk as <-.
      specialize (Hf k0 (H4 _ _ E)). lia.
    + rewrite lookup_alter_ne in Hk by done. by eapply H4.
  - intros j k Hk. destruct (decide (j = id)) as [->|Hne].
    + rewrite lookup_alter_eq in Hk. destruct (calls c !! id) as [k0|] eqn:E; [|done]. injection Hk as <-.
      right. by apply Hf, (H4 id).
    + rewrite lookup_alter_ne in Hk by done. destruct (H5 _ _ Hk) as [(s & Hs)|?]; [|by right].
      left. exists s. rewrite lookup_delete_ne; [done|]. intros <-. congruence.
Qed.

Lemma inv_remove_none c sq : client_inv c -> pending c !! sq = None -> set_pending (delete sq (pending c)) c = c.
Proof. intros _ Hp. unfold set_pending. rewrite delete_id by done. by destruct c. Qed.

Lemma complete_inv c sq f :
  client_inv c -> (forall k, cl_done k <= cl_done (f k)) -> client_inv (complete sq f c).
Proof.
  intros Hi Hf. unfold complete. destruct (pending c !! sq) as [id|] eqn:E.
  - apply inv_remove; [done..|]. intros k Hk. cbn. specialize (Hf k). lia.
  - by rewrite inv_remove_none.
Qed.

Lemma complete_all_inv c f p' sd cl w :
  client_inv c -> (forall k, cl_done (f k) = cl_done k) -> p' = pending c \/ p' = ∅ ->
  client_inv (mkClient (serializeType c) (compressType c) (seq c) p' cl sd
    (complete_all f (pending c) (calls c)) w) /\
  forall id k, complete_all f (pending c) (calls c) !! id = Some k -> 1 <= cl_done k.
Proof.
  intros [H1 H2 H3 H4 H5] Hf Hp'.
  assert (forall id k, complete_all f (pending c) (calls c) !! id = Some k -> 1 <= cl_done k) as Hdone.
  { intros id k Hk. destruct (complete_all_lookup f (pending c) (calls c) id H3) as [Hin Hout].
    destruct (calls c !! id) as [k0|] eqn:E.
    - destruct (H5 _ _ E) as [Hpd|Hd].
      + rewrite Hin in Hk by done. injection Hk as <-. cbn. rewrite Hf. specialize (H4 _ _ E). lia.
      + destruct (pending_or (pending c) id) as [Hex|Hnex].
        * rewrite Hin in Hk by done. injection Hk as <-. cbn. rewrite Hf. lia.
        * rewrite Hout in Hk by done. congruence.
    - destruct (pending_or (pending c) id) as [Hex|Hnex];
        [rewrite Hin in Hk by done|rewrite Hout in Hk by done]; discriminate. }
  split; [|done]. split; cbn.
  - intros s id Hs. destruct Hp' as [-> | ->]; [by eapply H1|by apply lookup_empty_Some in Hs].
  - intros s id Hs. destruct Hp' as [-> | ->]; [|by apply lookup_empty_Some in Hs].
    destruct (complete_all_lookup f (pending c) (calls c) id H3) as [Hin _]. rewrite Hin by eauto.
    destruct (H2 _ _ Hs) as [k ->]. by eexists.
  - destruct Hp' as [-> | ->]; [done|]. intros s1 s2 id Hs. by apply lookup_empty_Some in Hs.
  - intros id k Hk. specialize (Hdone _ _ Hk). lia.
  - intros id k Hk. right. by eapply Hdone.
Qed.

Lemma send_register_inv c id k :
  client_inv c -> calls c !! id = None -> cl_done k = 0 -> seq c < 2 ^ 64 - 1 -> 0 <= seq c ->
  client_inv (send_register libs id k c).1.
Proof.
  intros Hinv Hid Hk Hseq Hs0. pose proof Hinv as [H1 H2 H3 H4 H5]. unfold send_register. cbn [shutdown closing set_calls].
  assert (forall e, client_inv (update_call id (fun k => done_call (set_Error (Some e) k)) (set_calls (<[id := k]> (calls c)) c))) as Herr.
  { intros e. split; cbn.
    - done.
    - intros s j Hs. destruct (decide (j = id)) as [->|Hne].
      + rewrite lookup_alter_eq, lookup_insert_eq. by eexists.
      + rewrite lookup_alter_ne, lookup_insert_ne by done. by eapply H2.
    - done.
    - intros j k' Hk'. destruct (decide (j = id)) as [->|Hne].
      + rewrite lookup_alter_eq, lookup_insert_eq in Hk'. injection Hk' as <-. cbn. lia.
      + rewrite lookup_alter_ne, lookup_insert_ne in Hk' by done. by eapply H4.
    - intros j k' Hk'. destruct (decide (j = id)) as [->|Hne].
      + rewrite lookup_alter_eq, lookup_insert_eq in Hk'. injection Hk' as <-. cbn. right. lia.
      + rewrite lookup_alter_ne, lookup_insert_ne in Hk' by done. by eapply H5. }
  destruct (shutdown c || closing c); [apply Herr|]. cbn [serializeType set_calls].
  destruct (Codecs libs (serializeType c)); [|apply Herr]. cbn [fst]. split; cbn; rewrite ?wrap64_small by lia.
  - intros s j Hs. rewrite lookup_insert in Hs. case_decide; [lia|]. apply H1 in Hs. lia.
  - intros s j Hs. rewrite lookup_insert in Hs. case_decide; simplify_eq; [rewrite lookup_insert_eq; by eexists|].
    destruct (decide (j = id)) as [->|]; [rewrite lookup_insert_eq; by eexists|rewrite lookup_insert_ne by done; by eapply H2].
  - intros s1 s2 j. rewrite !lookup_insert. repeat case_decide; intros Hs1 Hs2; simplify_eq; try done.
    + apply H2 in Hs2 as [? ?]. congruence.
    + apply H2 in Hs1 as [? ?]. congruence.
    + by eapply H3.
  - intros j k' Hk'. rewrite lookup_insert in Hk'. case_decide; simplify_eq; [lia|by eapply H4].
  - intros j k' Hk'. rewrite lookup_insert in Hk'. case_decide; simplify_eq.
    + left. exists (seq c). by rewrite lookup_insert_eq.
    + destruct (H5 _ _ Hk') as [(s & Hs)|?]; [|by right]. left. exists s. rewrite lookup_insert_ne; [done|].
      intros <-. apply H1 in Hs. lia.
Qed.

Lemma send_write_inv c got werr id sq c' :
  client_inv c -> send_write libs iterate Zip got werr id sq c = Val c' -> client_inv c'.
Proof.
  intros Hinv. unfold send_write. destruct (calls c !! id) as [k|] eqn:E; [|by intros [= <-]].
  destruct (build_request libs Zip got c sq k) as [req|e].
  - destruct (Encode req _) as [data|e|]; [|discriminate..]. cbn [outcome_bind].
    destruct werr as [e|]; intros [= <-]; [by apply complete_inv|]. by destruct Hinv.
  - intros [= <-]. apply inv_update; [done|]. intros k'. cbn. lia.
Qed.

Lemma finish_responses_inv c err : client_inv c ->
  client_inv (finish_responses err c) /\ forall id k, calls (finish_responses err c) !! id = Some k -> 1 <= cl_done k.
Proof. intros Hinv. apply (complete_all_inv c); [done|done|by left]. Qed.

Lemma close_inv c : client_inv c ->
  client_inv (close c).1 /\ forall id k, calls (close c).1 !! id = Some k -> 1 <= cl_done k.
Proof.
  intros Hinv. unfold close. destruct (closing c || shutdown c); apply (complete_all_inv c); try done; by right.
Qed.

Lemma decode_reply_done res k : cl_done (decode_reply libs Unzip res k).1 = cl_done k.
Proof. unfold decode_reply. split_matches; simplify_eq; done. Qed.

Lemma handle_message_inv c res : client_inv c -> client_inv (handle_message libs Unzip res c).1.1.
Proof.
  intros Hinv. unfold handle_message. destruct (is_server_message res); [done|].
  destruct (pending c !! Seq (msg_Header res)) as [id|] eqn:Ep; [|cbn; by rewrite inv_remove_none].
  destruct (calls c !! id) as [k|] eqn:Ek; [|destruct (ci_call _ Hinv _ _ Ep); congruence].
  destruct (beqb _ _); [apply inv_remove; [done..|]; cbn; lia|].
  destruct (IsHeartbeat _); [apply inv_remove; [done..|]; cbn; lia|].
  pose proof (decode_reply_done res k) as Hd. destruct (decode_reply libs Unzip res k) as [k' err]. cbn in *.
  apply inv_remove; [done..|]. intros ? _. cbn. pose proof (ci_done _ Hinv _ _ Ek). lia.
Qed.

Lemma client_step_inv c ev :
  client_inv c -> 0 <= seq c -> event_ok c ev -> client_inv (client_step libs iterate Zip Unzip c ev).
Proof.
  intros Hinv Hs Hok. destruct ev as [id k|got werr id sq|freed sq|res|err|e|]; cbn.
  - destruct Hok as (? & ? & ?). by apply send_register_inv.
  - destruct (send_write _ _ _ _ _ _ _ c) as [c'|e|] eqn:E; [|done..]. by eapply send_write_inv.
  - unfold send_release. destruct (IsOneway _); [|done]. by apply complete_inv.
  - pose proof (handle_message_inv c res Hinv) as H. destruct (handle_message libs Unzip res c) as [[c' [e|]] m]; cbn in *; [|done].
    by apply finish_responses_inv.
  - by apply finish_responses_inv.
  - apply complete_inv; [done|]. intros k. cbn. lia.
  - by apply close_inv.
Qed.

Lemma client_step_seq c ev : 0 <= seq c -> 0 <= seq (client_step libs iterate Zip Unzip c ev).
Proof.
  intros Hs. destruct ev as [id k|got werr id sq|freed sq|res|err|e|]; cbn.
  - unfold send_register. cbn. destruct (shutdown c || closing c); [done|].
    destruct (Codecs libs (serializeType c)); [|done]. cbn. apply wrap64_range.
  - unfold send_write, complete. destruct (calls c !! id); [|done].
    destruct (build_request _ _ _ _ _ _); [|done]. destruct (Encode _ _); [|done..]. cbn [outcome_bind].
    destruct werr; [|done]. by destruct (pending c !! sq).
  - unfold send_release, complete. destruct (IsOneway _); [|done]. by destruct (pending c !! sq).
  - destruct (handle_message libs Unzip res c) as [[c' [e|]] m] eqn:E; cbn;
      unfold handle_message in E; split_matches; simplify_eq; done.
  - done.
  - unfold cancel, complete. by destruct (pending c !! 0).
  - unfold close. by destruct (closing c || shutdown c).
Qed.

Fixpoint trace_ok c (evs : list (event value)) : Prop :=
  match evs with
  | [] => True
  | ev :: evs' => event_ok c ev /\ trace_ok (client_step libs iterate Zip Unzip c ev) evs'
  end.

Definition run c (evs : list (event value)) : client_t value := foldl (client_step libs iterate Zip Unzip) c evs.

Lemma run_inv evs : forall c, client_inv c -> 0 <= seq c -> trace_ok c evs -> client_inv (run c evs).
Proof.
  induction evs as [|ev evs IH]; intros c Hinv Hs Hok; [done|]. destruct Hok as [Hev Hok].
  apply IH; [by apply client_step_inv|by apply client_step_seq|done].
Qed.

Lemma new_client_inv st ct : client_inv (new_client (value := value) st ct).
Proof. split; cbn; try done; intros *; rewrite ?lookup_empty; done. Qed.

(** C7.  No call is lost: in every interleaving of sends, writes (failing or
    not), responses of any content, cancellations, the end of the response
    loop and closes, each call that was started is still pending or has been
    completed; and when the connection is closed or its response loop ends,
    every call has been completed. *)
Theorem no_call_lost st ct evs :
  trace_ok (new_client st ct) evs ->
  let c := run (new_client st ct) evs in
  (forall id k, calls c !! id = Some k -> (exists s, pending c !! s = Some id) \/ 1 <= cl_done k) /\
  (forall e id k, calls (client_step libs iterate Zip Unzip c (EvLoopEnd e)) !! id = Some k -> 1 <= cl_done k) /\
  (forall id k, calls (client_step libs iterate Zip Unzip c EvClose) !! id = Some k -> 1 <= cl_done k).
Proof.
  intros Hok c. assert (client_inv c) as Hinv by (apply run_inv; [apply new_client_inv|done|done]).
  split; [apply (ci_kept _ Hinv)|]. split.
  - intros e. by apply finish_responses_inv.
  - by apply close_inv.
Qed.

(** The response loop returns on every finite stream within one round per
    byte (or panics inside [Decode]); the connection is then shut down and
    every call has been completed. *)
Theorem handleResponse_returns MaxMessageLength : forall fuel res r c,
  client_inv c -> (length (rd_bytes r) < fuel)%nat ->
  handleResponse libs Unzip fuel MaxMessageLength res r c = Some Panic \/
  exists c', handleResponse libs Unzip fuel MaxMessageLength res r c = Some (Val c') /\
    shutdown c' = true /\ client_inv c' /\ forall id k, calls c' !! id = Some k -> 1 <= cl_done k.
Proof.
  induction fuel as [|fuel IH]; intros res r c Hinv Hf; [lia|]. cbn [handleResponse].
  destruct (Decode MaxMessageLength (res, r)) as [[res' r'] [[]|e|]] eqn:ED; [| |by left].
  - apply Decode_shrinks in ED. pose proof (handle_message_inv c res' Hinv) as Hinv'.
    destruct (handle_message libs Unzip res' c) as [[c' [e|]] res''] eqn:EH; cbn in Hinv'; [|apply IH; [done|lia]].
    right. eexists. split; [done|]. split; [done|]. by apply finish_responses_inv.
  - right. eexists. split; [done|]. split; [done|]. by apply finish_responses_inv.
Qed.

(** ** Proofs: exactly once *)

(** The events of a healthy connection: arguments can be encoded, replies
    decoded, and nobody has closed it. *)
Definition normal_event c (ev : event value) : Prop :=
  event_ok c ev /\
  match ev with
  | EvSend _ _ | EvRelease _ _ | EvCancel _ => True
  | EvWrite got werr id sq => forall k e, calls c !! id = Some k -> build_request libs Zip got c sq k <> inr e
  | EvMessage res => (handle_message libs Unzip res c).1.2 = None
  | EvLoopEnd _ | EvClose => False
  end.

Fixpoint normal_trace c (evs : list (event value)) : Prop :=
  match evs with
  | [] => True
  | ev :: evs' => normal_event c ev /\ normal_trace (client_step libs iterate Zip Unzip c ev) evs'
  end.

(** A call is pending as long as it is not completed, and completed once. *)
Definition once c : Prop := forall id k, calls c !! id = Some k ->
  ((exists s, pending c !! s = Some id) -> cl_done k = 0) /\ cl_done k <= 1.

Lemma complete_once c sq f :
  client_inv c -> once c ->
  (forall id k, pending c !! sq = Some id -> calls c !! id = Some k -> cl_done (f k) = cl_done k) ->
  once (complete sq f c).
Proof.
  intros Hinv Ho Hf. unfold complete. destruct (pending c !! sq) as [id|] eqn:E; [|by rewrite inv_remove_none].
  intros j k Hk. cbn in *. destruct (decide (j = id)) as [->|Hne].
  - rewrite lookup_alter_eq in Hk. destruct (calls c !! id) as [k0|] eqn:Ek; [|done]. injection Hk as <-.
    destruct (Ho _ _ Ek) as [Hz _]. specialize (Hz (ex_intro _ sq E)). cbn. rewrite (Hf id k0), Hz by done. split; [|lia].
    intros (s & Hs). apply lookup_delete_Some in Hs as [Hne Hs]. by destruct Hne; apply (ci_inj _ Hinv sq s id).
  - rewrite lookup_alter_ne in Hk by done. destruct (Ho _ _ Hk) as [Hz Hle]. split; [|done].
    intros (s & Hs). apply lookup_delete_Some in Hs as [_ Hs]. eauto.
Qed.

Lemma handle_message_complete c res c' m :
  client_inv c -> handle_message libs Unzip res c = (c', None, m) ->
  c' = c \/ exists f, c' = complete (Seq (msg_Header res)) f c /\
    forall id k, pending c !! Seq (msg_Header res) = Some id -> calls c !! id = Some k -> cl_done (f k) = cl_done k.
Proof.
  intros Hinv. unfold handle_message, complete. destruct (is_server_message res); [intros [= <- <-]; by left|].
  destruct (pending c !! Seq (msg_Header res)) as [id|] eqn:Ep.
  2: { rewrite inv_remove_none by done. intros [= <- <-]. by left. }
  destruct (calls c !! id) as [k|] eqn:Ek; [|destruct (ci_call _ Hinv _ _ Ep); congruence].
  destruct (beqb _ _); [intros [= <- <-]; right; by eexists|].
  destruct (IsHeartbeat _); [intros [= <- <-]; right; by eexists|].
  pose proof (decode_reply_done res k) as Hd. destruct (decode_reply libs Unzip res k) as [k' err]. cbn in Hd.
  intros [= <- -> <-]. right. exists (fun _ => set_resMetadata (Metadata res) k'). split; [done|].
  intros id' k0 [= <-] Hk0. rewrite Ek in Hk0. injection Hk0 as <-. done.
Qed.

Lemma client_step_once c ev :
  client_inv c -> once c -> 0 <= seq c -> normal_event c ev -> once (client_step libs iterate Zip Unzip c ev).
Proof.
  intros Hinv Ho Hs [Hok Hn]. destruct ev as [id k|got werr id sq|freed sq|res|err|e|]; cbn; try done.
  - destruct Hok as (Hid & Hk & Hsq). unfold send_register. cbn [shutdown closing set_calls].
    assert (forall e, once (update_call id (fun k => done_call (set_Error (Some e) k)) (set_calls (<[id := k]> (calls c)) c))) as Herr.
    { intros e j k' Hk'. cbn in *. destruct (decide (j = id)) as [->|Hne].
      - rewrite lookup_alter_eq, lookup_insert_eq in Hk'. injection Hk' as <-. cbn. split; [|lia].
        intros (s & Hp). apply (ci_call _ Hinv) in Hp as [? ?]. congruence.
      - rewrite lookup_alter_ne, lookup_insert_ne in Hk' by done. by apply Ho. }
    destruct (shutdown c || closing c); [apply Herr|]. cbn [serializeType set_calls].
    destruct (Codecs libs (serializeType c)); [|apply Herr]. intros j k' Hk'. cbn in *.
    rewrite lookup_insert in Hk'. case_decide; simplify_eq; [split; lia|].
    destruct (Ho _ _ Hk') as [Hz Hle]. split; [|done]. intros (s & Hp). rewrite lookup_insert in Hp.
    case_decide; simplify_eq. eauto.
  - unfold send_write. destruct (calls c !! id) as [k|] eqn:E; [|done]. specialize (Hn k).
    destruct (build_request libs Zip got c sq k) as [req|e]; [|by destruct (Hn e)].
    destruct (Encode req _) as [data|e|]; [|done..]. cbn [outcome_bind].
    destruct werr as [e|]; [|done]. by apply complete_once.
  - unfold send_release. destruct (IsOneway _); [|done]. by apply complete_once.
  - destruct (handle_message libs Unzip res c) as [[c' err] m] eqn:E. cbn in Hn. subst err.
    apply handle_message_complete in E as [-> |(f & -> & Hf)]; [done| |done]. by apply complete_once.
  - by apply complete_once.
Qed.

Lemma normal_run evs : forall c, client_inv c -> once c -> 0 <= seq c -> normal_trace c evs ->
  client_inv (run c evs) /\ once (run c evs).
Proof.
  induction evs as [|ev evs IH]; intros c Hinv Ho Hs Hn; [done|]. destruct Hn as [Hev Hn].
  apply IH; [|by apply client_step_once|by apply client_step_seq|done].
  apply client_step_inv; [done..|]. apply Hev.
Qed.

(** Ending a connection completes exactly what was pending. *)
Lemma complete_all_exact c f id k :
  client_inv c -> once c -> (forall k, cl_done (f k) = cl_done k) ->
  complete_all f (pending c) (calls c) !! id = Some k -> cl_done k = 1.
Proof.
  intros Hinv Ho Hf Hk. destruct (complete_all_lookup f (pending c) (calls c) id (ci_inj _ Hinv)) as [Hin Hout].
  destruct (pending_or (pending c) id) as [Hex|Hnex].
  - rewrite Hin in Hk by done. destruct (calls c !! id) as [k0|] eqn:E; [|done]. injection Hk as <-.
    cbn. rewrite Hf. destruct (Ho _ _ E) as [Hz _]. rewrite Hz by done. lia.
  - rewrite Hout in Hk by done. destruct (Ho _ _ Hk) as [_ Hle].
    destruct (ci_kept _ Hinv _ _ Hk) as [(s & Hs)|?]; [by destruct (Hnex s)|]. lia.
Qed.

(** C5.  Exactly once: on a connection where arguments encode and replies decode,
    under every interleaving of sends, writes, released requests, responses
    (also duplicated, unknown and unsolicited ones) and cancellations, no call is completed
    twice and no pending call has been completed; when the connection then
    ends, by [close] or by the end of the response loop, every call has been
    completed exactly once. *)
Theorem calls_complete_exactly_once st ct evs :
  normal_trace (new_client st ct) evs ->
  let c := run (new_client st ct) evs in
  (forall id k, calls c !! id = Some k ->
     ((exists s, pending c !! s = Some id) -> cl_done k = 0) /\ 0 <= cl_done k <= 1) /\
  (forall e id k, calls (client_step libs iterate Zip Unzip c (EvLoopEnd e)) !! id = Some k -> cl_done k = 1) /\
  (forall id k, calls (client_step libs iterate Zip Unzip c EvClose) !! id = Some k -> cl_done k = 1).
Proof.
  intros Hn c. destruct (normal_run evs (new_client st ct)) as [Hinv Ho]; [apply new_client_inv|by intros ? ?|done|done|].
  fold c in Hinv, Ho. split; [|split].
  - intros id k Hk. destruct (Ho _ _ Hk) as [Hz Hle]. split; [done|]. split; [by apply (ci_done _ Hinv id)|done].
  - intros e id k Hk. cbn in Hk. by apply (complete_all_exact c) in Hk.
  - intros id k Hk. cbn in Hk. unfold close in Hk. destruct (closing c || shutdown c); cbn in Hk; by apply (complete_all_exact c) in Hk.
Qed.

(** ** Proofs: what does not work *)

(** A call can be completed twice: when the response loop ends while a call
    is pending, the call is completed with the loop's error but stays in the
    pending map, and a later [close] completes it again and overwrites its
    error with [ErrShutdown]. *)
Theorem loop_end_then_close_completes_twice c e s id k :
  client_inv c -> pending c !! s = Some id -> calls c !! id = Some k ->
  exists k1 k2,
    calls (client_step libs iterate Zip Unzip c (EvLoopEnd e)) !! id = Some k1 /\ cl_done k1 = cl_done k + 1 /\
    calls (client_step libs iterate Zip Unzip (client_step libs iterate Zip Unzip c (EvLoopEnd e)) EvClose) !! id = Some k2 /\
    cl_done k2 = cl_done k + 2 /\ cl_Error k2 = Some ErrShutdown.
Proof.
  intros Hinv Hp Hk. cbn [client_step].
  set (c1 := finish_responses (Some e) c).
  assert (exists k1, calls c1 !! id = Some k1 /\ cl_done k1 = cl_done k + 1) as (k1 & Hk1 & Hd1).
  { unfold c1, finish_responses. cbn. rewrite (proj1 (complete_all_lookup _ _ _ id (ci_inj _ Hinv))) by eauto.
    rewrite Hk. cbn. eexists. split; [done|]. done. }
  exists k1. assert (exists k2, calls (close c1).1 !! id = Some k2 /\ cl_done k2 = cl_done k1 + 1 /\ cl_Error k2 = Some ErrShutdown)
    as (k2 & Hk2 & Hd2 & He2).
  { destruct (finish_responses_inv c (Some e) Hinv) as [Hinv1 _]. fold c1 in Hinv1.
    unfold close. change (closing c1 || shutdown c1) with (closing c || true). rewrite orb_true_r. cbn [fst calls].
    rewrite (proj1 (complete_all_lookup _ _ _ id (ci_inj _ Hinv1))) by (cbn; eauto).
    rewrite Hk1. cbn. by eexists. }
  exists k2. split; [done|]. split; [done|]. split; [done|]. split; [lia|done].
Qed.

(** Cancelling a call cancels another one: the branch taken when a call's
    context is done removes and fails whatever call has sequence number zero;
    the cancelled call itself, if its number is not zero, stays pending and
    unchanged. *)
Theorem cancel_hits_call_zero c ctxErr s id id0 k0 :
  client_inv c -> pending c !! 0 = Some id0 -> calls c !! id0 = Some k0 -> pending c !! s = Some id -> s <> 0 ->
  let c' := client_step libs iterate Zip Unzip c (EvCancel ctxErr) in
  pending c' !! s = Some id /\ calls c' !! id = calls c !! id /\
  pending c' !! 0 = None /\
  calls c' !! id0 = Some (done_call (set_Error (Some ctxErr) k0)).
Proof.
  intros Hinv H0 Hk0 Hs Hne. cbn. unfold cancel, complete. rewrite H0. cbn.
  rewrite lookup_delete_ne, lookup_delete_eq by done. rewrite lookup_alter_eq, Hk0, lookup_alter_ne.
  - done.
  - intros <-. apply Hne. by apply (ci_inj _ Hinv s 0 id0).
Qed.

(** [send] asks a message for its one-way bit after giving it back to the pool.
    As long as nobody has taken it from there the answer is no and nothing
    happens, whatever the request was; but when another goroutine of the
    process has decoded a one-way message into it, the call of this [send] is
    completed without an error and without a reply, and the response of the
    server finds no call any more. *)
Theorem released_request_completes_call c freed sq id k res :
  client_inv c -> pending c !! sq = Some id -> calls c !! id = Some k -> cl_done k = 0 ->
  (forall req, client_step libs iterate Zip Unzip c (EvRelease (Reset req) sq) = c) /\
  (IsOneway (msg_Header freed) = true -> is_server_message res = false -> Seq (msg_Header res) = sq ->
   let c' := client_step libs iterate Zip Unzip c (EvRelease freed sq) in
   calls c' !! id = Some (done_call k) /\ pending c' !! sq = None /\
   client_step libs iterate Zip Unzip c' (EvMessage res) = c').
Proof.
  intros Hinv Hp Hk Hd. split.
  - intros req. cbn [client_step]. unfold send_release.
    change (IsOneway (msg_Header (Reset req))) with false. done.
  - intros Ho Hs Hsq c'. assert (c' = complete sq (fun k => k) c) as Hc' by (unfold c'; cbn [client_step]; unfold send_release; by rewrite Ho).
    assert (client_inv c') as Hinv' by (rewrite Hc'; by apply complete_inv).
    assert (pending c' !! sq = None) as Hn by (rewrite Hc'; unfold complete; rewrite Hp; apply lookup_delete_eq).
    split; [rewrite Hc'; unfold complete; rewrite Hp; cbn; by rewrite lookup_alter_eq, Hk|]. split; [done|].
    cbn [client_step]. unfold handle_message. rewrite Hs, Hsq, Hn. by apply inv_remove_none.
Qed.
End client_proofs.

(** ** Witnesses *)

Definition no_zip (b : bytes) : bytes + error := inl b.
Definition sample_call : call_t bytes := new_call (str "Arith") (str "Echo") None (str "hello") ty_args.
Definition sample_client : client_t bytes := new_client JSON CompressNone.

(** Two calls in flight; the second is answered, its response repeated. *)
Definition sample_response : Message :=
  mkMessage (SetSeq (SetMessageType newHeader Response) 1) (str "Arith") (str "Echo") None (str "world") [].
Definition sample_trace : list (event bytes) :=
  [EvSend 0 sample_call; EvSend 1 sample_call; EvWrite msgPool_New None 1 1;
   EvWrite msgPool_New (Some (ExternalError (str "broken pipe"))) 0 0; EvRelease msgPool_New 0;
   EvMessage sample_response; EvMessage sample_response; EvSend 2 sample_call].

Lemma sample_trace_normal : normal_trace copy_libs list_iterate no_zip no_zip sample_client sample_trace.
Proof.
  unfold sample_trace, sample_client. cbn [normal_trace].
  repeat (split; [split; [try (by vm_compute); vm_compute; auto|]|]); try done.
  - intros k e Hk. vm_compute in Hk. injection Hk as <-. vm_compute. discriminate.
  - intros k e Hk. vm_compute in Hk. injection Hk as <-. vm_compute. discriminate.
Qed.

Lemma no_call_lost_witness :
  (exists s, pending (run copy_libs list_iterate no_zip no_zip sample_client sample_trace) !! s = Some 2%nat) /\
  (forall id k, calls (client_step copy_libs list_iterate no_zip no_zip
      (run copy_libs list_iterate no_zip no_zip sample_client sample_trace) EvClose) !! id = Some k -> 1 <= cl_done k).
Proof.
  destruct (no_call_lost copy_libs list_iterate no_zip no_zip JSON CompressNone sample_trace) as (H1 & _ & H2).
  - unfold sample_trace. cbn [trace_ok]. repeat (split; [by vm_compute|]). done.
  - split; [|exact H2].
    destruct (H1 2%nat sample_call) as [H|H]; [vm_compute; reflexivity|exact H|exfalso; revert H; vm_compute; intros H; by apply H].
Defined.

Lemma calls_complete_exactly_once_witness :
  let c := run copy_libs list_iterate no_zip no_zip sample_client sample_trace in
  is_Some (calls c !! 2%nat) /\
  (forall id k, calls (client_step copy_libs list_iterate no_zip no_zip c EvClose) !! id = Some k -> cl_done k = 1).
Proof.
  split; [vm_compute; eauto|].
  apply (calls_complete_exactly_once copy_libs list_iterate no_zip no_zip JSON CompressNone sample_trace).
  apply sample_trace_normal.
Defined.

Lemma sample_run_inv evs : trace_ok copy_libs list_iterate no_zip no_zip sample_client evs ->
  client_inv (run copy_libs list_iterate no_zip no_zip sample_client evs).
Proof. intros H. apply run_inv; [apply new_client_inv|done|done]. Qed.

Lemma loop_end_then_close_completes_twice_witness :
  let c := run copy_libs list_iterate no_zip no_zip sample_client [EvSend 0 sample_call] in
  exists k1 k2,
    calls (client_step copy_libs list_iterate no_zip no_zip c (EvLoopEnd EOF)) !! 0%nat = Some k1 /\ cl_done k1 = 0 + 1 /\
    calls (client_step copy_libs list_iterate no_zip no_zip
      (client_step copy_libs list_iterate no_zip no_zip c (EvLoopEnd EOF)) EvClose) !! 0%nat = Some k2 /\
    cl_done k2 = 0 + 2 /\ cl_Error k2 = Some ErrShutdown.
Proof.
  apply (loop_end_then_close_completes_twice copy_libs list_iterate no_zip no_zip
    (run copy_libs list_iterate no_zip no_zip sample_client [EvSend 0 sample_call]) EOF 0 0 sample_call).
  - apply sample_run_inv. cbn [trace_ok]. split; [by vm_compute|done].
  - vm_compute. reflexivity.
  - vm_compute. reflexivity.
Defined.

Lemma cancel_hits_call_zero_witness :
  let c := run copy_libs list_iterate no_zip no_zip sample_client [EvSend 0 sample_call; EvSend 1 sample_call] in
  let c' := client_step copy_libs list_iterate no_zip no_zip c (EvCancel (ContextError (str "context canceled"))) in
  pending c' !! 1 = Some 1%nat /\ calls c' !! 1%nat = calls c !! 1%nat /\
  pending c' !! 0 = None /\
  calls c' !! 0%nat = Some (done_call (set_Error (Some (ContextError (str "context canceled"))) sample_call)).
Proof.
  apply (cancel_hits_call_zero copy_libs list_iterate no_zip no_zip
    (run copy_libs list_iterate no_zip no_zip sample_client [EvSend 0 sample_call; EvSend 1 sample_call])
    (ContextError (str "context canceled")) 1 1%nat 0%nat sample_call).
  - apply sample_run_inv. cbn [trace_ok]. repeat (split; [by vm_compute|]). done.
  - vm_compute. reflexivity.
  - vm_compute. reflexivity.
  - vm_compute. reflexivity.
  - lia.
Defined.

(** A goroutine of the same process has decoded a one-way message into the
    request of call 1 before its [send] asks. *)
Definition oneway_message : Message := mkMessage (SetOneway newHeader true) (str "Arith") (str "Echo") None [] [].

Lemma released_request_completes_call_witness :
  let c := run copy_libs list_iterate no_zip no_zip sample_client [EvSend 0 sample_call; EvSend 1 sample_call] in
  let c' := client_step copy_libs list_iterate no_zip no_zip c (EvRelease oneway_message 1) in
  calls c' !! 1%nat = Some (done_call sample_call) /\ pending c' !! 1 = None /\
  client_step copy_libs list_iterate no_zip no_zip c' (EvMessage sample_response) = c'.
Proof.
  apply (released_request_completes_call copy_libs list_iterate no_zip no_zip
    (run copy_libs list_iterate no_zip no_zip sample_client [EvSend 0 sample_call; EvSend 1 sample_call])
    oneway_message 1 1%nat sample_call sample_response).
  - apply sample_run_inv. cbn [trace_ok]. repeat (split; [by vm_compute|]). done.
  - vm_compute. reflexivity.
  - vm_compute. reflexivity.
  - reflexivity.
  - reflexivity.
  - reflexivity.
  - vm_compute. reflexivity.
Defined.
