(* ===== verification/EndToEnd.v ===== *)
(** * A call from client to server and back

    The composition of the client's [send], the wire format, the server's
    request handler and the client's response handler: what a caller of the
    client gets is what the server's contract prescribes for the request it
    sent. *)
From Stdlib Require Import Strings.Byte.
From S2P Require Import Prelude GoStd Header Message Pool Core RateLimit Controller Service Server Client.

Section end_to_end.
Context {value : Type} (libs : codec_libs value rtype).
Context (iterate : option metadata -> list (gostring * gostring)).
Context (Zip Unzip : bytes -> bytes + error).
Hypothesis iterate_ranges : forall md, ranges_over md (iterate md).

(** ** The request on the wire *)

Lemma registered_nibble st codec : Codecs libs st = Some codec -> band st x0f = st /\ bor x00 (band st x0f) = st.
Proof.
  unfold Codecs. intros H. destruct (beqb st JSON) eqn:E1; [apply beqb_true in E1 as ->; done|].
  destruct (beqb st ProtoBuffer) eqn:E2; [apply beqb_true in E2 as ->; done|].
  destruct (beqb st MsgPack) eqn:E3; [apply beqb_true in E3 as ->; done|]. discriminate.
Qed.

(** The request [send] builds for an ordinary call, uncompressed. *)
Lemma build_request_spec got (c : client_t value) sq (k : call_t value) codec data :
  clean got -> 0 <= sq < 2 ^ 64 -> Codecs libs (serializeType c) = Some codec ->
  cl_servicePath k <> [] -> codec_Encode codec (cl_args k) = inl data ->
  beqb (compressType c) Gzip = false \/ len data <= 1024 ->
  exists req, build_request libs Zip got c sq k = inl req /\
    view (msg_Header req) = mkView (msg_Header got !!! 0%fin) x00 Request false false CompressNone Normal
                              (serializeType c) sq /\
    ServicePath req = cl_servicePath k /\ ServiceMethod req = cl_serviceMethod k /\
    Metadata req = cl_metadata k /\ Payload req = data.
Proof.
  intros Hgot Hsq Hcodec Hpath Henc Hzip. unfold build_request.
  unfold str_eqb. rewrite (bool_decide_false (cl_servicePath k = [])) by done. cbn [andb].
  rewrite Hcodec, Henc.
  assert ((1024 <? len data) && beqb (compressType c) Gzip = false) as ->.
  { apply andb_false_iff. destruct Hzip as [?|?]; [by right|left; by apply Z.ltb_ge]. }
  destruct (registered_nibble _ _ Hcodec) as [_ Hn].
  pose proof (clean_view got Hgot) as Hv.
  eexists. split; [done|].
  destruct (cl_metadata k) as [md|]; cbn [set_Payload set_ServiceMethod set_ServicePath set_Metadata set_Header
    msg_Header ServicePath ServiceMethod Metadata Payload].
  all: split; [|repeat split; by rewrite Hgot].
  all: rewrite view_SetSerializeType, view_SetSeq, view_SetMessageType, Hv; cbn zeta.
  all: cbn [v_magic v_version v_type v_heartbeat v_oneway v_compress v_status v_serialize v_seq].
  all: rewrite wrap64_small by lia; change JSON with x00; rewrite Hn; done.
Qed.

(** ** The response at the client *)

Lemma view_fields h w : view h = w ->
  getMessageType h = v_type w /\ IsHeartbeat h = v_heartbeat w /\ IsOneway h = v_oneway w /\
  getCompressType h = v_compress w /\ getMessageStatusType h = v_status w /\
  getSerializeType h = v_serialize w /\ Seq h = v_seq w.
Proof. intros <-. done. Qed.

(** The error text survives the trip; metadata of the method takes precedence. *)
Lemma service_error_received req e rm frame :
  service_error (received (response_of req (inr e) rm) frame) =
  match rm !! ServiceErrorKey with Some s => s | None => Error e end.
Proof.
  unfold service_error, received_metadata, received, response_of. cbn [Metadata meta_size].
  generalize ServiceErrorKey. intros key. unfold received_metadata, meta_size.
  assert ((rm ∪ {[key := Error e]}) !! key = Some (match rm !! key with Some s => s | None => Error e end)) as Hl.
  { rewrite lookup_union, lookup_singleton_eq. by destruct (rm !! key). }
  rewrite (proj2 (Nat.eqb_neq _ _)); [by rewrite Hl|].
  intros Hz. apply map_size_empty_inv in Hz. by rewrite Hz, lookup_empty in Hl.
Qed.

(** What the client makes of the response to its request. *)
Lemma handle_response_spec (c : client_t value) sq id k req r rm frame magic codec :
  view (msg_Header req) = mkView magic x00 Request false false CompressNone Normal (serializeType c) sq ->
  Codecs libs (serializeType c) = Some codec ->
  pending c !! sq = Some id -> calls c !! id = Some k -> cl_reply k = None -> cl_Error k = None ->
  exists c' err k',
    handle_message libs Unzip (received (response_of req r rm) frame) c =
      (c', err, Reset (received (response_of req r rm) frame)) /\
    calls c' !! id = Some k' /\ pending c' !! sq = None /\ cl_done k' = cl_done k + 1 /\
    (forall e, r = inr e -> err = None /\ cl_reply k' = None /\
       cl_Error k' = Some (ServiceError (match rm !! ServiceErrorKey with Some s => s | None => Error e end))) /\
    (forall data v, r = inl data -> data <> [] -> codec_Decode codec data (cl_replyType k) = inl v ->
       err = None /\ cl_reply k' = Some v /\ cl_Error k' = None).
Proof.
  intros Hview Hcodec Hp Hk Hrep Herr.
  pose proof (response_view req r rm) as Hrv. rewrite Hview in Hrv. cbn zeta in Hrv.
  cbn [v_magic v_version v_type v_heartbeat v_oneway v_compress v_status v_serialize v_seq] in Hrv.
  destruct (view_fields _ _ Hrv) as (Ht & Hhb & How & Hct & Hst & Hse & Hsq).
  cbn [v_magic v_version v_type v_heartbeat v_oneway v_compress v_status v_serialize v_seq] in *.
  unfold handle_message, is_server_message. cbn [received msg_Header]. rewrite Ht, Hhb, How, Hsq, Hp, Hk.
  change (beqb Response Request && negb false && false) with false. rewrite Hst. destruct r as [data|e].
  - change (beqb Normal StatusError) with false.
    destruct (decode_reply libs Unzip (received (response_of req (inl data) rm) frame) k) as [k1 err] eqn:E.
    pose proof (decode_reply_done libs Unzip (received (response_of req (inl data) rm) frame) k) as Hd. rewrite E in Hd.
    eexists _, _, _. split; [done|]. cbn. rewrite lookup_alter_eq, Hk, lookup_delete_eq. do 2 (split; [done|]).
    split; [cbn in *; lia|]. split; [done|]. intros d v [= <-] Hne Hdec.
    unfold decode_reply in E. cbn [received msg_Header Payload response_of] in E.
    cbn [received msg_Header response_of] in Hct, Hse.
    rewrite Hct, Hse, Hcodec in E. change (beqb CompressNone Gzip) with false in E. cbn iota beta in E. rewrite Hdec in E.
    rewrite (proj2 (Z.ltb_lt _ _)) in E by (destruct data; [done|]; rewrite len_cons; pose proof (len_nonneg data); lia).
    injection E as <- <-. done.
  - change (beqb (bor Normal StatusError) StatusError) with true.
    eexists _, _, _. split; [done|]. cbn [calls pending update_call set_calls set_pending]. rewrite lookup_alter_eq, Hk, lookup_delete_eq. do 2 (split; [done|]).
    split; [done|]. split; [|done]. intros e0 [= <-]. split; [done|]. split; [done|].
    cbn [cl_Error done_call set_resMetadata set_Error]. by rewrite service_error_received.
Qed.

(** ** The whole call *)

(** End to end: a call that is sent over an open connection, handled by the
    server and answered, completes once at the client with the outcome the
    server's contract prescribes for exactly the request that was sent: an
    error of the server, its service, its codecs or its method (a panic
    included) arrives as a [ServiceError] with its text, and a reply arrives
    decoded.  It holds for any pooled messages, services, controllers and
    further bytes on either stream; frames are below 2^32 bytes, arguments
    are not compressed. *)
Theorem call_end_to_end (c0 : client_t value) id (k : call_t value) codec data got got' got'' choice h (s : env value) rest e :
  client_inv c0 -> 0 <= seq c0 < 2 ^ 64 - 1 -> shutdown c0 = false -> closing c0 = false ->
  calls c0 !! id = None -> cl_done k = 0 -> cl_reply k = None -> cl_Error k = None -> cl_servicePath k <> [] ->
  Codecs libs (serializeType c0) = Some codec -> codec_Encode codec (cl_args k) = inl data ->
  beqb (compressType c0) Gzip = false \/ len data <= 1024 ->
  clean got -> clean got' -> clean got'' -> Forall clean (env_pool s) ->
  exists c1 c2 frame,
    send_register libs id k c0 = (c1, Some (seq c0)) /\
    send_write libs iterate Zip got None id (seq c0) c1 = Val c2 /\ written c2 = written c0 ++ [frame] /\
    (len frame - 16 < 2 ^ 32 -> exists req s' frame' r rm,
       Decode 0 (got', mkReader (frame ++ rest) e) = ((req, mkReader rest e), Val tt) /\
       ServicePath req = cl_servicePath k /\ ServiceMethod req = cl_serviceMethod k /\ Payload req = data /\
       serve_request libs iterate choice h req s = Val s' /\ env_written s' = env_written s ++ [frame'] /\
       rpc_outcome libs (env_services s) req r rm /\
       (len frame' - 16 < 2 ^ 32 -> exists res c3 err k',
          Decode 0 (got'', mkReader (frame' ++ rest) e) = ((res, mkReader rest e), Val tt) /\
          handle_message libs Unzip res c2 = (c3, err, Reset res) /\
          calls c3 !! id = Some k' /\ cl_done k' = 1 /\ pending c3 !! seq c0 = None /\
          (forall er, r = inr er -> err = None /\ cl_reply k' = None /\
             cl_Error k' = Some (ServiceError (match rm !! ServiceErrorKey with Some t => t | None => Error er end))) /\
          (forall d v, r = inl d -> d <> [] -> codec_Decode codec d (cl_replyType k) = inl v ->
             err = None /\ cl_reply k' = Some v /\ cl_Error k' = None))).
Proof.
  intros Hinv Hseq Hsd Hcl Hid Hdone Hrep Herr Hpath Hcodec Henc Hzip Hgot Hgot' Hgot'' Hpool.
  unfold send_register. cbn [set_calls shutdown closing serializeType seq pending]. rewrite Hsd, Hcl, Hcodec. cbn [orb].
  set (c1 := mkClient _ _ _ _ _ _ _ _). exists c1.
  assert (calls c1 !! id = Some k) as Hk1 by apply lookup_insert_eq.
  destruct (build_request_spec got c1 (seq c0) k codec data) as (req0 & Hreq & Hview & Hsp & Hsm & Hmd & Hpl);
    try done; [lia|].
  destruct (Encode_total req0 (iterate (Metadata req0))) as (frame & HE).
  unfold send_write. rewrite Hk1, Hreq, HE. cbn [outcome_bind]. eexists _, frame. do 3 (split; [done|]).
  intros Hlen. exists (received req0 frame).
  assert (Metadata got' = None) as Hm' by (by rewrite Hgot').
  assert (sendable 0 (iterate (Metadata req0)) req0 frame) as Hsend.
  { split; [apply iterate_ranges|]. split; [done|]. split; [done|]. left. lia. }
  pose proof (Decode_sendable _ _ _ _ got' rest e Hsend Hm') as HD.
  destruct (view_fields _ _ Hview) as (_ & Hhb & How & _).
  destruct (answers_request libs iterate iterate_ranges choice h (received req0 frame) s Hpool Hhb How)
    as (s' & frame' & r & rm & Hserve & Hwr & _ & Hout & Hframe').
  exists s', frame', r, rm. do 7 (split; [done|]). intros Hlen'.
  set (c2 := mkClient _ _ _ _ _ _ _ (written c1 ++ [frame])).
  destruct (handle_response_spec c2 (seq c0) id k (received req0 frame) r rm frame' _ codec Hview Hcodec)
    as (c3 & err & k' & Hhm & Hk' & Hp' & Hd' & Herrs & Hreply); try done; [apply lookup_insert_eq|].
  exists (received (response_of (received req0 frame) r rm) frame'), c3, err, k'.
  split; [by apply Hframe'|]. split; [done|]. split; [done|]. split; [lia|]. done.
Qed.
(** ** Heartbeats *)

(** The request [send] builds for a call without service and method. *)
Lemma build_heartbeat_spec got (c : client_t value) sq (k : call_t value) :
  clean got -> 0 <= sq < 2 ^ 64 -> cl_servicePath k = [] -> cl_serviceMethod k = [] ->
  exists req, build_request libs Zip got c sq k = inl req /\
    view (msg_Header req) = mkView (msg_Header got !!! 0%fin) x00 Request true false CompressNone Normal JSON sq /\
    ServicePath req = [] /\ ServiceMethod req = [] /\ Metadata req = None /\ Payload req = [].
Proof.
  intros Hgot Hsq Hp Hm. unfold build_request. rewrite Hp, Hm. cbn [str_eqb andb].
  pose proof (clean_view got Hgot) as Hv. eexists. split; [done|].
  cbn [set_Header msg_Header ServicePath ServiceMethod Metadata Payload].
  split; [|repeat split; by rewrite Hgot].
  rewrite view_SetHeartbeat, view_SetSeq, view_SetMessageType, Hv. cbn zeta.
  cbn [v_magic v_version v_type v_heartbeat v_oneway v_compress v_status v_serialize v_seq].
  by rewrite wrap64_small by lia.
Qed.

(** A message without contents is a frame of 32 bytes, which arrives as it is. *)
Definition bare (m : Message) : Prop :=
  ServicePath m = [] /\ ServiceMethod m = [] /\ Metadata m = None /\ Payload m = [].

Lemma bare_sendable m : bare m -> exists frame, sendable 0 (iterate (Metadata m)) m frame.
Proof.
  intros (Hp & Hm & Hmd & Hpl). exists (layout (msg_Header m) [] [] [] []).
  split; [apply iterate_ranges|]. split; [by rewrite Encode_layout, Hp, Hm, Hpl, Hmd|].
  unfold layout. rewrite !len_app, len_body.
  change (len (be32 _)) with 4. unfold len. rewrite length_vec_to_list. cbn [length]. lia.
Qed.

(** A heartbeat keeps a connection alive end to end: the call without
    service and method the client's ticker makes is written as one frame; the
    server echoes it without touching its services, controllers or pool; and
    the echo completes the call once at the client, without an error. *)
Theorem heartbeat_end_to_end (c0 : client_t value) id (k : call_t value) codec got got' got'' choice h (s : env value) rest e :
  0 <= seq c0 < 2 ^ 64 - 1 -> shutdown c0 = false -> closing c0 = false ->
  cl_done k = 0 -> cl_Error k = None -> cl_servicePath k = [] -> cl_serviceMethod k = [] ->
  Codecs libs (serializeType c0) = Some codec -> clean got -> clean got' -> clean got'' ->
  exists c1 c2 frame req frame' res c3 k',
    send_register libs id k c0 = (c1, Some (seq c0)) /\
    send_write libs iterate Zip got None id (seq c0) c1 = Val c2 /\ written c2 = written c0 ++ [frame] /\
    Decode 0 (got', mkReader (frame ++ rest) e) = ((req, mkReader rest e), Val tt) /\
    serve_request libs iterate choice h req s =
      Val (mkEnv (env_pool s) (env_services s) (env_controllers s) (env_written s ++ [frame'])) /\
    Decode 0 (got'', mkReader (frame' ++ rest) e) = ((res, mkReader rest e), Val tt) /\
    handle_message libs Unzip res c2 = (c3, None, Reset res) /\
    calls c3 !! id = Some k' /\ cl_done k' = 1 /\ cl_Error k' = None /\ pending c3 !! seq c0 = None.
Proof.
  intros Hseq Hsd Hcl Hdone Herr Hpath Hmeth Hcodec Hgot Hgot' Hgot''.
  unfold send_register. cbn [set_calls shutdown closing serializeType seq pending]. rewrite Hsd, Hcl, Hcodec. cbn [orb].
  set (c1 := mkClient _ _ _ _ _ _ _ _). exists c1.
  assert (calls c1 !! id = Some k) as Hk1 by apply lookup_insert_eq.
  destruct (build_heartbeat_spec got c1 (seq c0) k Hgot ltac:(lia) Hpath Hmeth) as (req0 & Hreq & Hview & Hbare).
  destruct (bare_sendable req0 Hbare) as (frame & Hsend). pose proof Hsend as (_ & HE & _).
  unfold send_write. rewrite Hk1, Hreq, HE. cbn [outcome_bind].
  set (c2 := mkClient _ _ _ _ _ _ _ (written c1 ++ [frame])). exists c2, frame, (received req0 frame).
  assert (pending c2 !! seq c0 = Some id) as Hp2 by apply lookup_insert_eq.
  assert (calls c2 !! id = Some k) as Hk2 by exact Hk1.
  set (res0 := set_Header (SetMessageType (msg_Header req0) Response) (received req0 frame)).
  destruct Hbare as (Hp & Hm & Hmd & Hpl).
  assert (bare res0) as Hbare' by (unfold bare, res0, received; cbn; by rewrite Hp, Hm, Hmd, Hpl).
  destruct (bare_sendable res0 Hbare') as (frame' & Hsend'). pose proof Hsend' as (_ & HE' & _).
  exists frame', (received res0 frame').
  assert (view (msg_Header res0) = mkView (msg_Header got !!! 0%fin) x00 Response true false CompressNone Normal JSON (seq c0)) as Hv'
    by (cbn [res0 set_Header msg_Header]; by rewrite view_SetMessageType, Hview).
  destruct (view_fields _ _ Hview) as (_ & Hhb & _). destruct (view_fields _ _ Hv') as (Ht & Hhb' & How & _ & Hst & _ & Hsq).
  eexists _, _. do 3 (split; [done|]).
  split; [apply (Decode_sendable 0 (iterate (Metadata req0))); [done|by rewrite Hgot']|].
  split; [unfold serve_request; cbn [received msg_Header]; rewrite Hhb; fold res0; cbn [v_heartbeat]; by rewrite HE'|].
  split; [apply (Decode_sendable 0 (iterate (Metadata res0))); [done|by rewrite Hgot'']|].
  split.
  { unfold handle_message, is_server_message. cbn [received msg_Header]. rewrite Ht, Hhb', How, Hsq, Hst.
    cbn [v_type v_heartbeat v_oneway v_seq v_status]. change (beqb Response Request) with false. cbn [andb].
    rewrite Hp2, Hk2. change (beqb Normal StatusError) with false. cbn iota. reflexivity. }
  cbn [update_call set_calls set_pending calls pending]. rewrite lookup_alter_eq, Hk2, lookup_delete_eq.
  split; [done|]. cbn. by rewrite Hdone, Herr.
Qed.
End end_to_end.

(** ** Witness *)

Lemma call_end_to_end_witness :
  exists c1 c2 frame,
    send_register copy_libs 0 sample_call sample_client = (c1, Some 0) /\
    send_write copy_libs list_iterate no_zip msgPool_New None 0 0 c1 = Val c2 /\ written c2 = [] ++ [frame] /\
    (len frame - 16 < 2 ^ 32 -> exists req s' frame' r rm,
       Decode 0 (msgPool_New, mkReader (frame ++ []) EOF) = ((req, mkReader [] EOF), Val tt) /\
       ServicePath req = str "Arith" /\ ServiceMethod req = str "Echo" /\ Payload req = str "hello" /\
       serve_request copy_libs list_iterate None (mkHook 0 0) req sample_env = Val s' /\
       env_written s' = [] ++ [frame'] /\
       rpc_outcome copy_libs sample_services req r rm /\
       (len frame' - 16 < 2 ^ 32 -> exists res c3 err k',
          Decode 0 (msgPool_New, mkReader (frame' ++ []) EOF) = ((res, mkReader [] EOF), Val tt) /\
          handle_message copy_libs no_zip res c2 = (c3, err, Reset res) /\
          calls c3 !! 0%nat = Some k' /\ cl_done k' = 1 /\ pending c3 !! 0 = None /\
          (forall er, r = inr er -> err = None /\ cl_reply k' = None /\
             cl_Error k' = Some (ServiceError (match rm !! ServiceErrorKey with Some t => t | None => Error er end))) /\
          (forall d v, r = inl d -> d <> [] -> codec_Decode copy_codec d ty_args = inl v ->
             err = None /\ cl_reply k' = Some v /\ cl_Error k' = None))).
Proof.
  apply (call_end_to_end copy_libs list_iterate no_zip no_zip list_iterate_ranges sample_client 0 sample_call
    copy_codec (str "hello") msgPool_New msgPool_New msgPool_New None (mkHook 0 0) sample_env [] EOF);
    try (by vm_compute); try (apply New_clean); try (by constructor).
Defined.

(** The call, run: the argument comes back as the reply. *)
Example echo_call :
  let '(c1, _) := send_register copy_libs 0 sample_call sample_client in
  match send_write copy_libs list_iterate no_zip msgPool_New None 0 0 c1 with
  | Val c2 =>
      match serveConn 0 (fun _ => msgPool_New) (mkReader (concat (written c2)) EOF) [] with
      | ([req], _) =>
          match serve_request copy_libs list_iterate None (mkHook 0 0) req sample_env with
          | Val s' =>
              match handleResponse copy_libs no_zip 5 0 NewMessage (mkReader (concat (env_written s')) EOF) c2 with
              | Some (Val c3) => cl_reply <$> calls c3 !! 0%nat
              | _ => None
              end
          | _ => None
          end
      | _ => None
      end
  | _ => None
  end = Some (Some (str "hello")).
Proof. vm_compute. reflexivity. Qed.

Definition heartbeat_call : call_t bytes := new_call [] [] None [] ty_args.

Lemma heartbeat_end_to_end_witness :
  exists c1 c2 frame req frame' res c3 k',
    send_register copy_libs 0 heartbeat_call sample_client = (c1, Some 0) /\
    send_write copy_libs list_iterate no_zip msgPool_New None 0 0 c1 = Val c2 /\ written c2 = [] ++ [frame] /\
    Decode 0 (msgPool_New, mkReader (frame ++ []) EOF) = ((req, mkReader [] EOF), Val tt) /\
    serve_request copy_libs list_iterate None (mkHook 0 0) req sample_env =
      Val (mkEnv (env_pool sample_env) (env_services sample_env) (env_controllers sample_env)
        (env_written sample_env ++ [frame'])) /\
    Decode 0 (msgPool_New, mkReader (frame' ++ []) EOF) = ((res, mkReader [] EOF), Val tt) /\
    handle_message copy_libs no_zip res c2 = (c3, None, Reset res) /\
    calls c3 !! 0%nat = Some k' /\ cl_done k' = 1 /\ cl_Error k' = None /\ pending c3 !! 0 = None.
Proof.
  apply (heartbeat_end_to_end copy_libs list_iterate no_zip no_zip list_iterate_ranges sample_client 0 heartbeat_call
    copy_codec msgPool_New msgPool_New msgPool_New None (mkHook 0 0) sample_env [] EOF);
    try (by vm_compute); try (apply New_clean).
Defined.
