(* ===== verification/Gzipped.v ===== *)
(** * Compressed calls, from client to server and back

    The client compresses arguments over 1024 bytes when its option says Gzip;
    the server never looks at the compress type.  The composition of the
    client's [send], the wire, the server's request handler and the client's
    response handler for such a call. *)
From Stdlib Require Import Strings.Byte.
From S2P Require Import Prelude GoStd Header Message Pool Util Core RateLimit Controller Service Server Client EndToEnd.

Section gzipped.
Context {value : Type} (libs : codec_libs value rtype).
Context (iterate : option metadata -> list (gostring * gostring)).
Context {W R : Type} `{GzipLib W R}.
Hypothesis iterate_ranges : forall md, ranges_over md (iterate md).

Abbreviation zip := (Zip (W := W) (R := R)).
Abbreviation unzip := (Unzip (W := W) (R := R)).

(** The request [send] builds for a compressed call. *)
Lemma build_request_gzip got (c : client_t value) sq (k : call_t value) codec data z :
  clean got -> 0 <= sq < 2 ^ 64 -> Codecs libs (serializeType c) = Some codec ->
  cl_servicePath k <> [] -> codec_Encode codec (cl_args k) = inl data ->
  compressType c = Gzip -> 1024 < len data -> zip data = inl z ->
  exists req, build_request libs zip got c sq k = inl req /\
    view (msg_Header req) = mkView (msg_Header got !!! 0%fin) x00 Request false false Gzip Normal (serializeType c) sq /\
    ServicePath req = cl_servicePath k /\ ServiceMethod req = cl_serviceMethod k /\ Payload req = z.
Proof.
  intros Hgot Hsq Hcodec Hpath Henc Hct Hlen Hz. unfold build_request.
  unfold str_eqb. rewrite (bool_decide_false (cl_servicePath k = [])) by done. cbn [andb].
  rewrite Hcodec, Henc, Hct, (proj2 (Z.ltb_lt _ _)) by done. change (beqb Gzip Gzip) with true. cbn [andb]. rewrite Hz.
  destruct (registered_nibble libs _ _ Hcodec) as [_ Hn]. pose proof (clean_view got Hgot) as Hv.
  eexists. split; [done|].
  destruct (cl_metadata k) as [md|]; cbn [set_Payload set_ServiceMethod set_ServicePath set_Metadata set_Header
    msg_Header ServicePath ServiceMethod Metadata Payload].
  all: split; [|done].
  all: rewrite view_SetCompressType, view_SetSerializeType, view_SetSeq, view_SetMessageType, Hv; cbn zeta.
  all: cbn [v_magic v_version v_type v_heartbeat v_oneway v_compress v_status v_serialize v_seq].
  all: rewrite wrap64_small by lia; change JSON with x00; rewrite Hn; done.
Qed.

(** A request whose argument the codec rejects: its service is not called, and
    the answer is the codec's error. *)
Lemma serve_rejected choice h req (s s' : env value) svc mt codec er r rm :
  Forall clean (env_pool s) -> IsHeartbeat (msg_Header req) = false ->
  find_service (env_services s) (ServicePath req) = Some svc -> svc_method svc !! ServiceMethod req = Some mt ->
  Codecs libs (getSerializeType (msg_Header req)) = Some codec ->
  codec_Decode codec (Payload req) (target_type (mt_argType mt)) = inr er ->
  serve_request libs iterate choice h req s = Val s' -> rpc_outcome libs (env_services s) req r rm ->
  env_services s' = env_services s /\ r = inr er /\ rm = ∅.
Proof.
  intros Hpool Hhb Hf Hm Hc Hd HS Hout. split; [|clear HS; destruct Hout; simplify_eq; split; congruence].
  revert HS. unfold serve_request, handleRequest. rewrite Hhb. pose proof (Copy_clean choice req _ Hpool) as HC.
  destruct (Copy choice req (env_pool s)) as [c p]. cbn [fst] in HC. subst c. unfold dispatch.
  cbn [set_Header msg_Header ServicePath ServiceMethod]. rewrite Hf, Hm, Hc, Hd. cbn [handleError].
  destruct (IsOneway (msg_Header req)).
  - destruct (chain_PostResponse _ _ _ _ _). by intros [= <-].
  - destruct (Encode _ _); [cbn [outcome_bind]|discriminate..]. destruct (chain_PostResponse _ _ _ _ _). by intros [= <-].
Qed.

(** What the client makes of an error that answers a compressed request. *)
Lemma handle_gzip_error (c : client_t value) sq id k req er frame magic st :
  view (msg_Header req) = mkView magic x00 Request false false Gzip Normal st sq ->
  pending c !! sq = Some id -> calls c !! id = Some k ->
  exists c' k',
    handle_message libs unzip (received (response_of req (inr er) ∅) frame) c =
      (c', None, Reset (received (response_of req (inr er) ∅) frame)) /\
    calls c' !! id = Some k' /\ pending c' !! sq = None /\
    cl_done k' = cl_done k + 1 /\ cl_reply k' = cl_reply k /\ cl_Error k' = Some (ServiceError (Error er)).
Proof.
  intros Hview Hp Hk. pose proof (response_view req (inr er) ∅) as Hrv. rewrite Hview in Hrv. cbn zeta in Hrv.
  cbn [v_magic v_version v_type v_heartbeat v_oneway v_compress v_status v_serialize v_seq] in Hrv.
  destruct (view_fields _ _ Hrv) as (Ht & Hhb & How & Hct & Hst & _ & Hsq).
  cbn [v_magic v_version v_type v_heartbeat v_oneway v_compress v_status v_serialize v_seq] in *.
  pose proof (service_error_received req er ∅ frame) as Hse. rewrite lookup_empty in Hse.
  unfold handle_message, is_server_message. cbn [received msg_Header]. rewrite Ht, Hhb, How, Hsq, Hp, Hk.
  change (beqb Response Request && negb false && false) with false. rewrite Hst.
  change (beqb (bor Normal StatusError) StatusError) with true.
  eexists _, _. split; [done|]. cbn [calls pending update_call set_calls set_pending].
  rewrite lookup_alter_eq, Hk, lookup_delete_eq. split; [done|]. split; [done|].
  cbn [cl_done cl_reply cl_Error done_call set_resMetadata set_Error]. 
  split; [reflexivity|]. split; [reflexivity|]. exact (f_equal (fun t => Some (ServiceError t)) Hse).
Qed.

(** C37.  Compressed arguments are not understood: the arguments of a call that the
    client compresses (over 1024 bytes, with the Gzip option) reach the server
    compressed, and the server, which never decompresses, hands those bytes to
    the codec.  With a codec that does not take them for an argument of the
    method (a gzip stream is not JSON, for one), the method is not called and
    the call completes, once, with the codec's error and without a reply. *)
Theorem compressed_call_fails (c0 : client_t value) id (k : call_t value) codec data z svc mt er got got' got'' choice h
    (s : env value) rest e :
  0 <= seq c0 < 2 ^ 64 -> shutdown c0 = false -> closing c0 = false -> cl_servicePath k <> [] ->
  Codecs libs (serializeType c0) = Some codec -> codec_Encode codec (cl_args k) = inl data ->
  compressType c0 = Gzip -> 1024 < len data -> zip data = inl z ->
  find_service (env_services s) (cl_servicePath k) = Some svc -> svc_method svc !! cl_serviceMethod k = Some mt ->
  codec_Decode codec z (target_type (mt_argType mt)) = inr er ->
  clean got -> clean got' -> clean got'' -> Forall clean (env_pool s) ->
  exists c1 c2 frame,
    send_register libs id k c0 = (c1, Some (seq c0)) /\
    send_write libs iterate zip got None id (seq c0) c1 = Val c2 /\ written c2 = written c0 ++ [frame] /\
    (len frame - 16 < 2 ^ 32 -> exists req s' frame',
       Decode 0 (got', mkReader (frame ++ rest) e) = ((req, mkReader rest e), Val tt) /\ Payload req = z /\
       serve_request libs iterate choice h req s = Val s' /\ env_written s' = env_written s ++ [frame'] /\
       env_services s' = env_services s /\
       (len frame' - 16 < 2 ^ 32 -> exists res c3 k',
          Decode 0 (got'', mkReader (frame' ++ rest) e) = ((res, mkReader rest e), Val tt) /\
          handle_message libs unzip res c2 = (c3, None, Reset res) /\ calls c3 !! id = Some k' /\
          pending c3 !! seq c0 = None /\ cl_done k' = cl_done k + 1 /\ cl_reply k' = cl_reply k /\
          cl_Error k' = Some (ServiceError (Error er)))).
Proof.
  intros Hseq Hsd Hcl Hpath Hcodec Henc Hct Hlen Hz Hsvc Hmt Hrej Hgot Hgot' Hgot'' Hpool.
  unfold send_register. cbn [set_calls shutdown closing serializeType seq pending]. rewrite Hsd, Hcl, Hcodec. cbn [orb].
  set (c1 := mkClient _ _ _ _ _ _ _ _). exists c1.
  assert (calls c1 !! id = Some k) as Hk1 by apply lookup_insert_eq.
  destruct (build_request_gzip got c1 (seq c0) k codec data z) as (req0 & Hreq & Hview & Hsp & Hsm & Hpl); try done.
  destruct (Encode_total req0 (iterate (Metadata req0))) as (frame & HE).
  unfold send_write. rewrite Hk1, Hreq, HE. cbn [outcome_bind]. eexists _, frame. do 3 (split; [done|]).
  intros Hfl. exists (received req0 frame).
  assert (Metadata got' = None) as Hm' by (by rewrite Hgot').
  assert (sendable 0 (iterate (Metadata req0)) req0 frame) as Hsend.
  { split; [apply iterate_ranges|]. split; [done|]. split; [done|]. left. lia. }
  pose proof (Decode_sendable _ _ _ _ got' rest e Hsend Hm') as HD.
  destruct (view_fields _ _ Hview) as (_ & Hhb & How & _ & _ & Hse & _).
  destruct (answers_request libs iterate iterate_ranges choice h (received req0 frame) s Hpool Hhb How)
    as (s' & frame' & r & rm & Hserve & Hwr & _ & Hout & _ & _ & Hframe').
  destruct (serve_rejected choice h (received req0 frame) s s' svc mt codec er r rm) as (Hsame & -> & ->); try done.
  { cbn [received ServicePath]. by rewrite Hsp. }
  { cbn [received ServiceMethod]. by rewrite Hsm. }
  { cbn [received msg_Header]. rewrite Hse. exact Hcodec. }
  { cbn [received Payload]. by rewrite Hpl. }
  exists s', frame'. do 5 (split; [done|]). intros Hfl'. set (c2 := mkClient _ _ _ _ _ _ _ (written c1 ++ [frame])).
  destruct (handle_gzip_error c2 (seq c0) id k (received req0 frame) er frame' _ _ Hview)
    as (c3 & k' & Hhm & Hk' & Hp' & Hrest); [apply lookup_insert_eq|done|].
  exists (received (response_of (received req0 frame) (inr er) ∅) frame'), c3, k'.
  split; [by apply Hframe'|]. done.
Qed.
End gzipped.

(** ** Witnesses *)

(** A codec that, like JSON, has no value that starts with the first byte of a
    gzip stream. *)
Definition picky_error : error := ExternalError (str "invalid character '\x1f' looking for beginning of value").
Definition picky_codec : Codec bytes rtype :=
  mkCodec (fun v => inl v) (fun data _ => if HasPrefix data [x1f] then inr picky_error else inl data).
Definition picky_libs : codec_libs bytes rtype := mkLibs picky_codec (lib_pb copy_libs) picky_codec.
Definition long_call : call_t bytes := new_call (str "Arith") (str "Echo") None (replicate 1025 x61) ty_args.

(** The call as it runs, with the codec's error at the end. *)
Lemma compressed_call_fails_witness :
  exists c1 c2 frame,
    send_register picky_libs 0 long_call (new_client JSON Gzip) = (c1, Some 0) /\
    send_write picky_libs list_iterate Zip msgPool_New None 0 0 c1 = Val c2 /\ written c2 = [] ++ [frame] /\
    (len frame - 16 < 2 ^ 32 -> exists req s' frame', Payload req = [x1f; x8b] ++ replicate 1025 x61 /\
       serve_request picky_libs list_iterate None (mkHook 0 0) req sample_env = Val s' /\ env_written s' = [] ++ [frame'] /\
       (len frame' - 16 < 2 ^ 32 -> exists res c3 k',
          handle_message picky_libs Unzip res c2 = (c3, None, Reset res) /\ calls c3 !! 0%nat = Some k' /\
          cl_done k' = 1 /\ cl_reply k' = None /\ cl_Error k' = Some (ServiceError (Error picky_error)))).
Proof.
  destruct (compressed_call_fails picky_libs list_iterate list_iterate_ranges (new_client JSON Gzip) 0 long_call picky_codec
    (replicate 1025 x61) ([x1f; x8b] ++ replicate 1025 x61)
    (mkService (str "Arith") sample_rcvr {[str "Echo" := mkMethodType echo ty_args ty_reply 0]}) (mkMethodType echo ty_args ty_reply 0)
    picky_error msgPool_New msgPool_New msgPool_New None (mkHook 0 0) sample_env [] EOF)
    as (c1 & c2 & frame & H1 & H2 & H3 & H4).
  - vm_compute. intuition discriminate.
  - reflexivity.
  - reflexivity.
  - discriminate.
  - reflexivity.
  - reflexivity.
  - reflexivity.
  - reflexivity.
  - vm_compute. reflexivity.
  - reflexivity.
  - reflexivity.
  - reflexivity.
  - done.
  - done.
  - done.
  - by constructor.
  - exists c1, c2, frame. do 3 (split; [done|]). intros Hf.
    destruct (H4 Hf) as (req & s' & frame' & _ & Hp & Hs & Hw & _ & Hr). exists req, s', frame'. do 3 (split; [done|]).
    intros Hf'. destruct (Hr Hf') as (res & c3 & k' & _ & Hh & Hk & _ & Hd & Hrep & He). by exists res, c3, k'.
Defined.

(** The whole run, evaluated: the error arrives; without the option the same
    call is answered with its reply. *)
Definition long_run (ct : CompressType) : option (option error * option bytes) :=
  let '(c1, _) := send_register picky_libs 0 long_call (new_client JSON ct) in
  match send_write picky_libs list_iterate Zip msgPool_New None 0 0 c1 with
  | Val c2 =>
      match serveConn 0 (fun _ => msgPool_New) (mkReader (concat (written c2)) EOF) [] with
      | ([req], _) =>
          match serve_request picky_libs list_iterate None (mkHook 0 0) req sample_env with
          | Val s' =>
              match handleResponse picky_libs Unzip 1 0 NewMessage (mkReader (concat (env_written s')) EOF) c2 with
              | None =>
                  let res := (Decode 0 (msgPool_New, mkReader (concat (env_written s')) EOF)).1.1 in
                  (fun k => (cl_Error k, cl_reply k)) <$> calls (handle_message picky_libs Unzip res c2).1.1 !! 0%nat
              | Some _ => None
              end
          | _ => None
          end
      | _ => None
      end
  | _ => None
  end.

Example long_call_compressed : long_run Gzip = Some (Some (ServiceError (Error picky_error)), None).
Proof. vm_compute. reflexivity. Qed.
Example long_call_plain : long_run CompressNone = Some (None, Some (replicate 1025 x61)).
Proof. vm_compute. reflexivity. Qed.
