(* ===== verification/Session.v ===== *)
(** * A connection with both of its ends

    The client of Client and the server of Server joined by two byte streams:
    callers register calls and write requests, the server's reading loop turns
    the bytes into handlers, the handlers run in any order and write responses,
    and the client's response loop consumes them.  Every step is one critical
    section or one [Read]/[Write] of the program, and the steps of all
    goroutines interleave freely.  This is the course of a connection without
    failures, on which progress is proved: calls are ordinary ones (a service is
    named, the arguments encode and are not compressed, frames fit their length
    word), replies decode, nobody cancels or closes.  A connection on which all
    of that may happen is the subject of Link. *)
From Stdlib Require Import Strings.Byte.
From S2P Require Import Prelude GoStd GoTime Header Message Pool Core RateLimit Controller Service Server Catalog Client EndToEnd.

#[local] Open Scope go_scope.

Section session.
Context {value : Type} (libs : codec_libs value rtype).
Context (iterate : option metadata -> list (gostring * gostring)).
Context (Zip Unzip : bytes -> bytes + error).

(** The client, the calls that are registered and not yet written, the bytes
    on their way to the server, the requests handed to goroutines, the
    server's state, and the bytes on their way back. *)
Record session := mkSession {
  n_client : client_t value;
  n_writing : list (nat * Z);
  n_up : bytes;
  n_handlers : list Message;
  n_env : env value;
  n_down : bytes
}.

(** A call as [Go] makes it. *)
Definition fresh (k : call_t value) : Prop := cl_done k = 0 /\ cl_reply k = None /\ cl_Error k = None.

Definition ordinary (st : SerializeType) (ct : CompressType) (k : call_t value) : Prop :=
  cl_servicePath k <> [] /\
  exists codec data, Codecs libs st = Some codec /\ codec_Encode codec (cl_args k) = inl data /\
    (beqb ct Gzip = false \/ len data <= 1024) /\
    len (body (cl_servicePath k) (cl_serviceMethod k)
           (encodeMetadata (cl_metadata k) (iterate (cl_metadata k))) data) < 2 ^ 32.

(** What happens without a caller's doing. *)
Inductive internal_step : session -> session -> Prop :=
| step_write c l1 id sq l2 up hs s down got c' frame :
    clean got -> send_write libs iterate Zip got None id sq c = Val c' -> written c' = written c ++ [frame] ->
    internal_step (mkSession c (l1 ++ (id, sq) :: l2) up hs s down)
                  (mkSession c' (l1 ++ l2) (up ++ frame) hs s down)
| step_read c ws up hs s down got e req up' :
    clean got -> Decode 0 (got, mkReader up e) = ((req, mkReader up' e), Val tt) ->
    internal_step (mkSession c ws up hs s down) (mkSession c ws up' (hs ++ [req]) s down)
| step_handle c ws up l1 req l2 s down choice h s' frame :
    serve_request libs iterate choice h req s = Val s' -> env_written s' = env_written s ++ [frame] ->
    len frame - 16 < 2 ^ 32 ->
    internal_step (mkSession c ws up (l1 ++ req :: l2) s down) (mkSession c ws up (l1 ++ l2) s' (down ++ frame))
| step_receive c ws up hs s down got e res down' c' res' :
    clean got -> Decode 0 (got, mkReader down e) = ((res, mkReader down' e), Val tt) ->
    handle_message libs Unzip res c = (c', None, res') ->
    internal_step (mkSession c ws up hs s down) (mkSession c' ws up hs s down').

Inductive session_step : session -> session -> Prop :=
| step_send c ws up hs s down id k c' sq :
    calls c !! id = None -> seq c < 2 ^ 64 - 1 -> fresh k -> ordinary (serializeType c) (compressType c) k ->
    send_register libs id k c = (c', Some sq) ->
    session_step (mkSession c ws up hs s down) (mkSession c' (ws ++ [(id, sq)]) up hs s down)
| step_internal n n' : internal_step n n' -> session_step n n'.

(** The two ways in which a connection that is not broken gets stuck: an answer
    too long for its length word, and a reply its caller cannot decode (which
    ends the client's response loop). *)
Definition blocked (n : session) : Prop :=
  (exists req choice h s' frame, req ∈ n_handlers n /\ serve_request libs iterate choice h req (n_env n) = Val s' /\
     env_written s' = env_written (n_env n) ++ [frame] /\ 2 ^ 32 <= len frame - 16) \/
  (exists got e res down' c' er res', clean got /\
     Decode 0 (got, mkReader (n_down n) e) = ((res, mkReader down' e), Val tt) /\
     handle_message libs Unzip res (n_client n) = (c', Some er, res')).

(** A new connection to a server in state [s]. *)
Definition new_session (st : SerializeType) (ct : CompressType) (s : env value) : session :=
  mkSession (new_client st ct) [] [] [] s [].

(** ** What a caller gets *)

(** The request a call stands for, as the server sees it. *)
Definition request_of (st : SerializeType) (k : call_t value) (sq : Z) (m : Message) : Prop :=
  exists magic codec, Codecs libs st = Some codec /\ codec_Encode codec (cl_args k) = inl (Payload m) /\
    view (msg_Header m) = mkView magic x00 Request false false CompressNone Normal st sq /\
    ServicePath m = cl_servicePath k /\ ServiceMethod m = cl_serviceMethod k /\
    received_metadata None (Metadata m) = received_metadata None (cl_metadata k).

(** The metadata of the server's answer. *)
Definition answer_metadata (r : bytes + error) (rm : metadata) : option metadata :=
  match r with
  | inl _ => if bool_decide (rm = ∅) then None else Some rm
  | inr e => Some (rm ∪ {[ServiceErrorKey := Error e]})
  end.

(** The result of a completed call, for the server's answer. *)
Definition answered (codec : Codec value rtype) (k : call_t value) (r : bytes + error) (rm : metadata) : Prop :=
  cl_resMetadata k = answer_metadata r rm /\
  match r with
  | inr e => cl_reply k = None /\
      cl_Error k = Some (ServiceError (match rm !! ServiceErrorKey with Some t => t | None => Error e end))
  | inl [] => cl_reply k = None /\ cl_Error k = None
  | inl d => exists v, codec_Decode codec d (cl_replyType k) = inl v /\ cl_reply k = Some v /\ cl_Error k = None
  end.

(** Completed once, with the answer the contract prescribes for the call's own
    request. *)
Definition completed (st : SerializeType) (sm : serviceMap value) (k : call_t value) : Prop :=
  cl_done k = 1 /\
  exists sq req r rm codec, Codecs libs st = Some codec /\ request_of st k sq req /\
    rpc_outcome libs sm req r rm /\ answered codec k r rm.
End session.
Arguments session : clear implicits.
Arguments mkSession {value} _ _ _ _ _ _.

(** ** Proofs: the pieces *)

Section session_proofs.
Context {value : Type} (libs : codec_libs value rtype).
Context (iterate : option metadata -> list (gostring * gostring)).
Context (Zip Unzip : bytes -> bytes + error).
Hypothesis iterate_ranges : forall md, ranges_over md (iterate md).
Context (nonascii_upper : gostring -> bool).

(** The bytes of a frame are read as the message they carry, whatever follows. *)
Definition decodes (m : Message) (frame : bytes) : Prop :=
  (16 <= length frame)%nat /\
  forall got rest e, clean got ->
    Decode 0 (got, mkReader (frame ++ rest) e) = ((received m frame, mkReader rest e), Val tt).

Lemma sendable_decodes m frame : sendable 0 (iterate (Metadata m)) m frame -> decodes m frame.
Proof.
  intros Hs. split; [by eapply sendable_length|]. intros got rest e Hg.
  eapply Decode_sendable; [done|]. by rewrite Hg.
Qed.

Lemma decodes_head m frame rest got e x :
  decodes m frame -> clean got -> Decode 0 (got, mkReader (frame ++ rest) e) = x ->
  x = ((received m frame, mkReader rest e), Val tt).
Proof. intros [_ Hd] Hg <-. by apply Hd. Qed.

Lemma Decode_empty got e req rest : Decode 0 (got, mkReader [] e) = ((req, rest), Val tt) -> False.
Proof. intros H%Decode_shrinks. cbn in H. lia. Qed.

Lemma received_metadata_idem md : received_metadata None (received_metadata None md) = received_metadata None md.
Proof. unfold received_metadata. destruct (meta_size md =? 0)%nat eqn:E; [done|]. by rewrite E. Qed.

(** What the client writes for an ordinary pending call. *)
Lemma write_request got (c : client_t value) id sq k :
  clean got -> 0 <= sq < 2 ^ 64 -> calls c !! id = Some k ->
  ordinary libs iterate (serializeType c) (compressType c) k ->
  exists m frame,
    send_write libs iterate Zip got None id sq c =
      Val (mkClient (serializeType c) (compressType c) (seq c) (pending c) (closing c) (shutdown c) (calls c)
             (written c ++ [frame])) /\
    decodes m frame /\ request_of libs (serializeType c) k sq m.
Proof.
  intros Hgot Hsq Hk (Hpath & codec & data & Hc & He & Hz & Hl).
  destruct (build_request_spec libs Zip got c sq k codec data) as (m & Hb & Hv & Hsp & Hsm & Hmd & Hpl); try done.
  destruct (Encode_total m (iterate (Metadata m))) as (frame & HE).
  exists m, frame. unfold send_write. rewrite Hk, Hb, HE. split; [done|].
  pose proof HE as HL. rewrite Encode_layout in HL. injection HL as HL.
  split; [apply sendable_decodes; split; [apply iterate_ranges|]; split; [done|]|].
  - assert (len frame - 16 < 2 ^ 32) as Hlen; [|split; [done|left; lia]].
    rewrite <- HL, Hsp, Hsm, Hmd, Hpl. unfold layout. rewrite !len_app. change (len (be32 _)) with 4.
    unfold len at 1. rewrite length_vec_to_list. lia.
  - eexists _, codec. rewrite Hpl, Hmd. by repeat split.
Qed.

(** The metadata of an answer arrives as it was sent. *)
Lemma received_answer req r rm frame :
  Metadata (received (response_of req r rm) frame) = answer_metadata r rm.
Proof.
  unfold received, received_metadata, answer_metadata, response_of. destruct r as [d|e]; cbn [Metadata].
  - case_bool_decide as E; [done|]. cbn [meta_size]. rewrite (proj2 (Nat.eqb_neq _ _)); [done|].
    intros Hz. by apply E, map_size_empty_inv.
  - cbn [meta_size]. rewrite (proj2 (Nat.eqb_neq _ _)); [done|]. intros Hz%map_size_empty_inv.
    apply (f_equal (lookup ServiceErrorKey)) in Hz. rewrite lookup_union, lookup_singleton_eq, lookup_empty in Hz.
    by destruct (rm !! ServiceErrorKey).
Qed.

(** Whether a response can be taken in without ending the response loop. *)
Definition acceptable (codec : Codec value rtype) (k : call_t value) (r : bytes + error) : Prop :=
  match r with
  | inl (b :: d) => exists v, codec_Decode codec (b :: d) (cl_replyType k) = inl v
  | _ => True
  end.

(** What the client makes of the answer to a pending call. *)
Lemma receive_answer (c : client_t value) sq id k req r rm frame codec :
  request_of libs (serializeType c) k sq req -> Codecs libs (serializeType c) = Some codec ->
  pending c !! sq = Some id -> calls c !! id = Some k -> fresh k ->
  exists c' err k',
    handle_message libs Unzip (received (response_of req r rm) frame) c =
      (c', err, Reset (received (response_of req r rm) frame)) /\
    pending c' = delete sq (pending c) /\ calls c' = <[id := k']> (calls c) /\
    serializeType c' = serializeType c /\ compressType c' = compressType c /\ seq c' = seq c /\
    closing c' = closing c /\ shutdown c' = shutdown c /\
    cl_done k' = 1 /\ (acceptable codec k r <-> err = None) /\
    (err = None -> answered codec k' r rm) /\
    (forall m, request_of libs (serializeType c) k sq m -> request_of libs (serializeType c) k' sq m).
Proof.
  intros (magic & codec' & Hcodec' & _ & Hview & _) Hcodec Hp Hk (Hdone & Hrep & Herr).
  pose proof (response_view req r rm) as Hrv. rewrite Hview in Hrv. cbn zeta in Hrv.
  cbn [v_magic v_version v_type v_heartbeat v_oneway v_compress v_status v_serialize v_seq] in Hrv.
  destruct (view_fields _ _ Hrv) as (Ht & Hhb & How & Hct & Hst & Hse & Hsq).
  cbn [v_magic v_version v_type v_heartbeat v_oneway v_compress v_status v_serialize v_seq] in *.
  assert (forall f, alter f id (calls c) = <[id := f k]> (calls c)) as Halter.
  { intros f. apply map_eq. intros j. destruct (decide (j = id)) as [->|Hne].
    - by rewrite lookup_alter_eq, lookup_insert_eq, Hk.
    - by rewrite lookup_alter_ne, lookup_insert_ne. }
  pose proof (received_answer req r rm frame) as Hmd.
  assert (forall e, r = inr e -> service_error (received (response_of req r rm) frame) =
    match rm !! ServiceErrorKey with Some t => t | None => Error e end) as Hserr by (intros e ->; apply service_error_received).
  assert (Payload (received (response_of req r rm) frame) = match r with inl d => d | inr _ => [] end) as Hpl by (by destruct r).
  change (msg_Header (response_of req r rm)) with (msg_Header (received (response_of req r rm) frame)) in *.
  revert Hmd Hserr Hpl Ht Hhb How Hct Hst Hse Hsq. generalize (received (response_of req r rm) frame). clear Hrv Hview.
  intros res Hmd Hserr Hpl Ht Hhb How Hct Hst Hse Hsq.
  unfold handle_message, is_server_message. rewrite Ht, Hhb, How, Hsq, Hp, Hk.
  change (beqb Response Request && negb false && false) with false. rewrite Hst. destruct r as [data|e].
  - change (beqb Normal StatusError) with false. cbn iota. unfold decode_reply. rewrite Hpl, Hct, Hse, Hcodec.
    change (beqb CompressNone Gzip) with false. cbn iota beta. destruct data as [|b d].
    + eexists _, None, _. split; [done|]. cbn. rewrite Halter. do 7 (split; [done|]). cbn. rewrite Hdone.
      by repeat (split; [done|]).
    + rewrite (proj2 (Z.ltb_lt _ _)) by (rewrite len_cons; pose proof (len_nonneg d); lia).
      destruct (codec_Decode codec (b :: d) (cl_replyType k)) as [v|e] eqn:Ed.
      * eexists _, None, _. split; [done|]. cbn. rewrite Halter. do 7 (split; [done|]). cbn. unfold answered. cbn.
        rewrite Hdone, Herr, Ed. split; [done|]. split; [split; eauto|]. split; [eauto|done].
      * eexists _, (Some e), _. split; [done|]. cbn. rewrite Halter. do 7 (split; [done|]). cbn. rewrite Hdone, Ed.
        split; [done|]. split; [split; [by intros [? ?]|done]|]. by split.
  - change (beqb (bor Normal StatusError) StatusError) with true.
    eexists _, None, _. split; [done|]. cbn [calls pending update_call set_calls set_pending serializeType compressType seq closing shutdown].
    rewrite Halter. do 7 (split; [done|]).
    cbn [cl_done cl_Error cl_reply cl_resMetadata done_call set_resMetadata set_Error answered]. rewrite Hdone, (Hserr e eq_refl), Hmd.
    by repeat (split; [done|]).
Qed.

(** ** The invariant *)

(** The contents of the two streams: the requests on their way with their
    frames, and the responses with the requests they answer. *)
Record transit := mkTransit {
  t_up : list (Message * bytes);
  t_down : list (Message * (bytes + error) * metadata * bytes)
}.

Definition seq_of (m : Message) : Z := Seq (msg_Header m).
Definition down_request (x : Message * (bytes + error) * metadata * bytes) : Message := x.1.1.1.
Definition down_frame (x : Message * (bytes + error) * metadata * bytes) : bytes := x.2.

(** All requests between being written and being answered. *)
Definition in_transit (n : session value) (t : transit) : list Message :=
  (t_up t).*1 ++ n_handlers n ++ (down_request <$> t_down t).

(** The sequence numbers the connection is busy with. *)
Definition busy (n : session value) (t : transit) : list Z := (n_writing n).*2 ++ (seq_of <$> in_transit n t).

Record session_inv (st : SerializeType) (ct : CompressType) (sm : serviceMap value) (n : session value) (t : transit) : Prop := {
  si_client : client_inv (n_client n);
  si_seq : 0 <= seq (n_client n) < 2 ^ 64;
  si_open : shutdown (n_client n) = false /\ closing (n_client n) = false;
  si_types : serializeType (n_client n) = st /\ compressType (n_client n) = ct;
  si_up : n_up n = concat (t_up t).*2 /\ Forall (fun x => decodes x.1 x.2) (t_up t);
  si_down : n_down n = concat (down_frame <$> t_down t) /\
    Forall (fun '(m, r, rm, frame) => decodes (response_of m r rm) frame /\ rpc_outcome libs sm m r rm) (t_down t);
  si_busy : busy n t ≡ₚ (map_to_list (pending (n_client n))).*1;
  si_writing : forall id sq, (id, sq) ∈ n_writing n -> pending (n_client n) !! sq = Some id /\
    exists k, calls (n_client n) !! id = Some k /\ ordinary libs iterate st ct k;
  si_requests : forall m, m ∈ in_transit n t -> exists id k, pending (n_client n) !! seq_of m = Some id /\
    calls (n_client n) !! id = Some k /\ request_of libs st k (seq_of m) m;
  si_calls : forall id k, calls (n_client n) !! id = Some k ->
    (exists s, pending (n_client n) !! s = Some id) /\ fresh k \/
    (forall s, pending (n_client n) !! s <> Some id) /\ completed libs st sm k;
  si_pool : Forall clean (env_pool (n_env n));
  si_services : services_wf nonascii_upper (env_services (n_env n)) /\ same_services sm (env_services (n_env n))
}.

Lemma session_inv_init st ct (s : env value) :
  Forall clean (env_pool s) -> services_wf nonascii_upper (env_services s) ->
  session_inv st ct (env_services s) (new_session st ct s) (mkTransit [] []).
Proof.
  intros Hp Hs. split; cbn; try done; try lia.
  - by intros id sq ?%not_elem_of_nil.
  - by intros m ?%not_elem_of_nil.
Qed.

(** The pending call of a request is fresh. *)
Lemma pending_fresh st ct sm n t sq id k :
  session_inv st ct sm n t -> pending (n_client n) !! sq = Some id -> calls (n_client n) !! id = Some k -> fresh k.
Proof. intros Hi Hp Hk. destruct (si_calls _ _ _ _ _ Hi _ _ Hk) as [[_ ?]|[Hn _]]; [done|by destruct (Hn sq)]. Qed.

Lemma busy_NoDup st ct sm n t : session_inv st ct sm n t -> NoDup (busy n t).
Proof. intros Hi. rewrite (si_busy _ _ _ _ _ Hi). apply NoDup_fst_map_to_list. Qed.

(** How far the connection is from having answered everything. *)
Definition weight (n : session value) (t : transit) : nat :=
  4 * length (n_writing n) + 3 * length (t_up t) + 2 * length (n_handlers n) + length (t_down t).

(** ** Each step keeps the invariant *)

Lemma step_read_inv st ct sm c ws up hs s down got e req up' t :
  session_inv st ct sm (mkSession c ws up hs s down) t -> clean got ->
  Decode 0 (got, mkReader up e) = ((req, mkReader up' e), Val tt) ->
  exists t', session_inv st ct sm (mkSession c ws up' (hs ++ [req]) s down) t' /\
    (weight (mkSession c ws up' (hs ++ [req]) s down) t' < weight (mkSession c ws up hs s down) t)%nat.
Proof.
  intros [H1 H2 H3 H4 [Hup Hupd] H6 H7 H8 H9 H10 H11 H12] Hg HD. cbn in *. subst up.
  destruct t as [[|[m frame] us] ds]; cbn in *; [by apply Decode_empty in HD|].
  apply Forall_cons in Hupd as [Hd Hupd]. apply (decodes_head m frame) in HD; [|done..]. simplify_eq.
  exists (mkTransit us ds). split; [|unfold weight; cbn; rewrite length_app; cbn; lia].
  split; cbn; try done.
  - rewrite <- H7. unfold busy, in_transit. cbn. rewrite !fmap_app, <- !app_assoc. cbn.
    apply Permutation_app_head. change (seq_of (received m frame)) with (seq_of m).
    rewrite (Permutation_middle (seq_of <$> us.*1) _ (seq_of m)). apply Permutation_app_head.
    by rewrite Permutation_middle.
  - intros m' Hm'. unfold in_transit in Hm', H9. cbn in Hm', H9.
    rewrite !elem_of_app, list_elem_of_singleton in Hm'. destruct Hm' as [?|[[?| ->]|?]];
      [apply H9; rewrite elem_of_cons, !elem_of_app; tauto..| |apply H9; rewrite elem_of_cons, !elem_of_app; tauto].
    destruct (H9 m) as (id & k & Hp & Hk & Hr); [rewrite elem_of_cons; by left|].
    exists id, k. split; [done|]. split; [done|].
    destruct Hr as (magic & codec & ? & ? & ? & ? & ? & Hmd). exists magic, codec.
    repeat (split; [done|]). cbn. rewrite received_metadata_idem. done.
Qed.

Lemma step_handle_inv st ct sm c ws up l1 req l2 s down choice h s' frame t :
  session_inv st ct sm (mkSession c ws up (l1 ++ req :: l2) s down) t ->
  serve_request libs iterate choice h req s = Val s' -> env_written s' = env_written s ++ [frame] ->
  len frame - 16 < 2 ^ 32 ->
  exists t', session_inv st ct sm (mkSession c ws up (l1 ++ l2) s' (down ++ frame)) t' /\
    (weight (mkSession c ws up (l1 ++ l2) s' (down ++ frame)) t' < weight (mkSession c ws up (l1 ++ req :: l2) s down) t)%nat.
Proof.
  intros [H1 H2 H3 H4 H5 [Hdn Hdnd] H7 H8 H9 H10 H11 [Hwf Hsame]] HS HW HL. cbn in *.
  destruct (H9 req) as (id & k & Hp & Hk & Hr).
  { unfold in_transit. cbn. rewrite !elem_of_app, elem_of_cons. tauto. }
  pose proof Hr as (magic & codec & _ & _ & Hv & _). destruct (view_fields _ _ Hv) as (_ & Hhb & How & _).
  destruct (answers_request libs iterate iterate_ranges choice h req s H11 Hhb How)
    as (s0 & frame0 & r & rm & HS0 & HW0 & Hp0 & Hout & _ & _ & HD0).
  rewrite HS in HS0. simplify_eq. rewrite HW in HW0. apply app_inj_2 in HW0 as [_ HW0]; [|done]. simplify_eq.
  destruct (serve_request_table nonascii_upper libs iterate choice h req s s0 Hwf HS) as [Hwf' Hsame'].
  exists (mkTransit (t_up t) (t_down t ++ [(req, r, rm, frame0)])).
  split; [|unfold weight; cbn; rewrite !length_app; cbn; lia].
  split; cbn; try done.
  - rewrite fmap_app, concat_app. cbn. rewrite app_nil_r. split; [done|].
    apply Forall_app. split; [done|]. apply Forall_singleton. split; [|by rewrite Hsame].
    split; [|intros got rest e Hg; by apply HD0].
    specialize (HD0 ltac:(lia) msgPool_New [] EOF New_clean). rewrite app_nil_r in HD0.
    apply Decode_shrinks in HD0. cbn in HD0. lia.
  - rewrite <- H7. unfold busy, in_transit. cbn. rewrite !fmap_app. cbn. solve_Permutation.
  - intros m Hm. apply H9. unfold in_transit in Hm |- *. cbn in Hm |- *. rewrite fmap_app in Hm. cbn in Hm.
    rewrite !elem_of_app, list_elem_of_singleton in Hm. rewrite !elem_of_app, elem_of_cons.
    destruct Hm as [?|[[?|?]|[?| ->]]]; tauto.
  - split; [done|]. by transitivity (env_services s).
Qed.

Lemma step_write_inv st ct sm c l1 id sq l2 up hs s down got c' frame t :
  session_inv st ct sm (mkSession c (l1 ++ (id, sq) :: l2) up hs s down) t -> clean got ->
  send_write libs iterate Zip got None id sq c = Val c' -> written c' = written c ++ [frame] ->
  exists t', session_inv st ct sm (mkSession c' (l1 ++ l2) (up ++ frame) hs s down) t' /\
    (weight (mkSession c' (l1 ++ l2) (up ++ frame) hs s down) t' < weight (mkSession c (l1 ++ (id, sq) :: l2) up hs s down) t)%nat.
Proof.
  intros [H1 H2 H3 [H4 H4'] [Hup Hupd] H6 H7 H8 H9 H10 H11 H12] Hg HW Hfr. cbn in *.
  destruct (H8 id sq) as (Hp & k & Hk & Hord); [rewrite elem_of_app, elem_of_cons; tauto|].
  pose proof (ci_seq _ H1 _ _ Hp) as Hsq. subst st ct.
  destruct (write_request got c id sq k Hg ltac:(lia) Hk Hord) as (m & frame0 & HW0 & Hd & Hr).
  rewrite HW in HW0. injection HW0 as ->. cbn in Hfr. apply app_inj_2 in Hfr as [_ Hfr]; [|done].
  injection Hfr as <-.
  assert (seq_of m = sq) as Hseq.
  { pose proof Hr as (? & ? & _ & _ & Hv & _). by destruct (view_fields _ _ Hv) as (_ & _ & _ & _ & _ & _ & ?). }
  exists (mkTransit (t_up t ++ [(m, frame0)]) (t_down t)).
  split; [|unfold weight; cbn; rewrite !length_app; cbn; lia].
  split; cbn; try done.
  - by destruct H1.
  - rewrite fmap_app, concat_app, Hup. cbn. rewrite app_nil_r. split; [done|].
    apply Forall_app. split; [done|]. by apply Forall_singleton.
  - rewrite <- H7. unfold busy, in_transit. cbn. rewrite !fmap_app. cbn. rewrite Hseq. solve_Permutation.
  - intros id' sq' Hin. apply H8. rewrite elem_of_app in Hin. rewrite elem_of_app, elem_of_cons. tauto.
  - intros m' Hm'. unfold in_transit in Hm', H9. cbn in Hm', H9. rewrite fmap_app, !elem_of_app in Hm'. cbn in Hm'.
    rewrite list_elem_of_singleton in Hm'. destruct Hm' as [[?| ->]|?].
    + apply H9. rewrite !elem_of_app. tauto.
    + exists id, k. by rewrite Hseq.
    + apply H9. rewrite !elem_of_app. tauto.
Qed.

(** Facts about other pending calls survive the completion of one. *)
Lemma completion_frame (c c' : client_t value) sq id k' s j k :
  client_inv c -> pending c !! sq = Some id -> pending c' = delete sq (pending c) -> calls c' = <[id := k']> (calls c) ->
  s <> sq -> pending c !! s = Some j -> calls c !! j = Some k -> pending c' !! s = Some j /\ calls c' !! j = Some k.
Proof.
  intros Hc Hp Ep Ec Hs Hps Hk. assert (j <> id) as Hne by (intros ->; by apply Hs, (ci_inj _ Hc s sq id)).
  rewrite Ep, Ec, lookup_delete_ne, lookup_insert_ne by done. done.
Qed.

Lemma step_receive_inv st ct sm c ws up hs s down got e res down' c' res' t :
  session_inv st ct sm (mkSession c ws up hs s down) t -> clean got ->
  Decode 0 (got, mkReader down e) = ((res, mkReader down' e), Val tt) ->
  handle_message libs Unzip res c = (c', None, res') ->
  exists t', session_inv st ct sm (mkSession c' ws up hs s down') t' /\
    (weight (mkSession c' ws up hs s down') t' < weight (mkSession c ws up hs s down) t)%nat.
Proof.
  intros Hinv Hg HD HH. pose proof (busy_NoDup _ _ _ _ _ Hinv) as Hnd.
  pose proof (fun sq id k => pending_fresh _ _ _ _ _ sq id k Hinv) as Hfr.
  destruct Hinv as [H1 H2 [H3 H3'] [H4 H4'] H5 [Hdn Hdnd] H7 H8 H9 H10 H11 H12]. cbn in *. subst down st ct.
  destruct t as [us [|[[[m r] rm] frame] ds]]; cbn in *; [by apply Decode_empty in HD|].
  apply Forall_cons in Hdnd as [[Hd Hout] Hdnd].
  apply (decodes_head (response_of m r rm) frame) in HD; [|done..]. simplify_eq.
  destruct (H9 m) as (id & k & Hp & Hk & Hr); [unfold in_transit; cbn; rewrite !elem_of_app, elem_of_cons; tauto|].
  pose proof Hr as (_ & codec & Hcodec & _).
  destruct (receive_answer c (seq_of m) id k m r rm frame codec Hr Hcodec Hp Hk (Hfr _ _ _ Hp Hk))
    as (c0 & err & k' & HH0 & Ep & Ec & Est & Ect & Esq & Ecl & Esd & Hdone & _ & Hans & Hreq).
  pose proof (handle_message_inv libs Unzip c _ H1 : client_inv (handle_message libs Unzip (received (response_of m r rm) frame) c).1.1) as Hci.
  rewrite HH in HH0, Hci. cbn in Hci. simplify_eq.
  assert (busy (mkSession c0 ws up hs s (concat (down_frame <$> ds))) (mkTransit us ds) ++ [seq_of m] ≡ₚ
    busy (mkSession c ws up hs s (frame ++ concat (down_frame <$> ds))) (mkTransit us ((m, r, rm, frame) :: ds))) as Hbusy.
  { unfold busy, in_transit. cbn. rewrite !fmap_app. cbn. solve_Permutation. }
  assert (forall sq, sq ∈ busy (mkSession c0 ws up hs s (concat (down_frame <$> ds))) (mkTransit us ds) -> sq <> seq_of m) as Hother.
  { intros sq Hin ->. rewrite <- Hbusy in Hnd. apply NoDup_app in Hnd as (_ & Hnd & _). apply (Hnd _ Hin). by apply list_elem_of_singleton. }
  exists (mkTransit us ds). split; [|unfold weight; cbn; lia].
  split; cbn; try done; rewrite ?Est, ?Ect, ?Esq, ?Ecl, ?Esd; try done.
  - rewrite Ep. apply (Permutation_app_inv_r [seq_of m]). rewrite Hbusy, H7.
    rewrite <- (map_to_list_delete (pending c) (seq_of m) id) by done. cbn. by rewrite Permutation_cons_append.
  - intros j sq Hin. destruct (H8 _ _ Hin) as (Hpj & kj & Hkj & Hord).
    assert (sq <> seq_of m) as Hne.
    { apply Hother. unfold busy. apply elem_of_app. left. apply list_elem_of_fmap. by exists (j, sq). }
    destruct (completion_frame c c0 (seq_of m) id k' sq j kj) as [? ?]; try done. eauto.
  - intros m' Hin. destruct (H9 m') as (j & kj & Hpj & Hkj & Hrj).
    { unfold in_transit in *. cbn in *. rewrite !elem_of_app in Hin. rewrite !elem_of_app, elem_of_cons. tauto. }
    assert (seq_of m' <> seq_of m) as Hne.
    { apply Hother. unfold busy. apply elem_of_app. right. by apply list_elem_of_fmap_2. }
    destruct (completion_frame c c0 (seq_of m) id k' (seq_of m') j kj) as [? ?]; try done. eauto.
  - intros j kj Hkj. rewrite Ec in Hkj. destruct (decide (j = id)) as [->|Hne].
    + rewrite lookup_insert_eq in Hkj. injection Hkj as <-. right. split.
      * intros sq Hsq. rewrite Ep in Hsq. apply lookup_delete_Some in Hsq as [Hn Hsq]. by apply Hn, (ci_inj _ H1 (seq_of m) sq id).
      * split; [done|]. exists (seq_of m), m, r, rm, codec. eauto 10.
    + rewrite lookup_insert_ne in Hkj by done. destruct (H10 _ _ Hkj) as [[(sq & Hsq) ?]|[Hn ?]].
      * left. split; [|done]. exists sq. rewrite Ep. apply lookup_delete_Some. split; [intros <-; congruence|done].
      * right. split; [|done]. intros sq Hsq. rewrite Ep in Hsq. apply lookup_delete_Some in Hsq as [_ Hsq]. by apply (Hn sq).
Qed.

Lemma step_send_inv st ct sm c ws up hs s down id k c' sq t :
  session_inv st ct sm (mkSession c ws up hs s down) t ->
  calls c !! id = None -> seq c < 2 ^ 64 - 1 -> fresh k -> ordinary libs iterate (serializeType c) (compressType c) k ->
  send_register libs id k c = (c', Some sq) ->
  session_inv st ct sm (mkSession c' (ws ++ [(id, sq)]) up hs s down) t.
Proof.
  intros [H1 H2 [H3 H3'] [H4 H4'] H5 H6 H7 H8 H9 H10 H11 H12] Hid Hseq Hfresh Hord HS. cbn in *.
  assert (client_inv c') as Hc'.
  { pose proof (send_register_inv libs c id k H1 Hid ltac:(apply Hfresh) Hseq ltac:(lia)) as Hc. by rewrite HS in Hc. }
  assert (pending c !! seq c = None) as Hnew.
  { destruct (pending c !! seq c) eqn:E; [|done]. apply (ci_seq _ H1) in E. lia. }
  revert HS. unfold send_register. cbn. rewrite H3, H3'. cbn. destruct (Codecs libs (serializeType c)); [|done].
  intros HS. simplify_eq.
  assert (forall sq' j kj, pending c !! sq' = Some j -> calls c !! j = Some kj ->
    <[seq c := id]> (pending c) !! sq' = Some j /\ <[id := k]> (calls c) !! j = Some kj) as Hkeep.
  { intros sq' j kj Hp Hk. rewrite lookup_insert_ne, lookup_insert_ne by congruence. done. }
  split; cbn; try done.
  - rewrite wrap64_small by lia. lia.
  - unfold busy, in_transit in *. cbn in *. rewrite map_to_list_insert by done. cbn. rewrite <- H7, fmap_app. cbn. solve_Permutation.
  - intros j sq Hin. apply elem_of_app in Hin as [Hin|Hin%list_elem_of_singleton].
    + destruct (H8 _ _ Hin) as (Hp & kj & Hk & ?). destruct (Hkeep _ _ _ Hp Hk). eauto.
    + simplify_eq. rewrite !lookup_insert_eq. eauto.
  - intros m Hin. destruct (H9 _ Hin) as (j & kj & Hp & Hk & ?). destruct (Hkeep _ _ _ Hp Hk). eauto 10.
  - intros j kj Hkj. destruct (decide (j = id)) as [->|Hne].
    + rewrite lookup_insert_eq in Hkj. injection Hkj as <-. left. split; [|done]. exists (seq c). by rewrite lookup_insert_eq.
    + rewrite lookup_insert_ne in Hkj by done. destruct (H10 _ _ Hkj) as [[(sq & Hsq) ?]|[Hn ?]].
      * left. split; [|done]. exists sq. by destruct (Hkeep _ _ _ Hsq Hkj).
      * right. split; [|done]. intros sq. rewrite lookup_insert. case_decide; [congruence|]. apply Hn.
Qed.

Lemma internal_step_inv st ct sm n n' t :
  session_inv st ct sm n t -> internal_step libs iterate Zip Unzip n n' ->
  exists t', session_inv st ct sm n' t' /\ (weight n' t' < weight n t)%nat.
Proof.
  intros Hi Hs. destruct Hs; [by eapply step_write_inv|by eapply step_read_inv|by eapply step_handle_inv|by eapply step_receive_inv].
Qed.

Lemma session_reachable_inv st ct s n :
  Forall clean (env_pool s) -> services_wf nonascii_upper (env_services s) ->
  rtc (session_step libs iterate Zip Unzip) (new_session st ct s) n ->
  exists t, session_inv st ct (env_services s) n t.
Proof.
  intros Hp Hs Hr. assert (exists t, session_inv st ct (env_services s) (new_session st ct s) t) as H0
    by (eexists; by apply session_inv_init).
  revert H0. generalize (new_session st ct s) Hr. clear Hr.
  induction 1 as [|a b d Hab _ IH]; intros [t Ht]; [by exists t|]. apply IH.
  destruct Hab as [c ws up hs s0 down id k c' sq|a b Hab].
  - exists t. by eapply step_send_inv.
  - destruct (internal_step_inv _ _ _ _ _ _ Ht Hab) as (t' & ? & _). by exists t'.
Qed.

(** ** Progress *)

Lemma session_progress st ct sm n t :
  session_inv st ct sm n t -> pending (n_client n) <> ∅ ->
  blocked libs iterate Unzip n \/ exists n', internal_step libs iterate Zip Unzip n n'.
Proof.
  intros Hi Hp. pose proof (fun sq id k => pending_fresh _ _ _ _ _ sq id k Hi) as Hfr.
  destruct n as [c ws up hs s down], t as [us ds].
  destruct Hi as [H1 H2 [H3 H3'] [H4 H4'] [Hup Hupd] [Hdn Hdnd] H7 H8 H9 H10 H11 H12]. cbn in *. subst up down st ct.
  destruct ws as [|[id sq] ws].
  - destruct us as [|[m frame] us].
    + destruct hs as [|req hs].
      * destruct ds as [|[[[m r] rm] frame] ds].
        { destruct Hp. apply map_to_list_empty_iff. cbn in H7. apply Permutation_nil_l in H7. symmetry in H7. by apply fmap_nil_inv in H7. }
        apply Forall_cons in Hdnd as [[[_ Hd] _] _]. cbn in *.
        destruct (H9 m) as (id & k & Hpm & Hk & Hr); [apply elem_of_cons; by left|]. pose proof Hr as (_ & codec & Hcodec & _).
        destruct (receive_answer c (seq_of m) id k m r rm frame codec Hr Hcodec Hpm Hk (Hfr _ _ _ Hpm Hk))
          as (c' & [er|] & k' & HH & _).
        { left. right. exists msgPool_New, EOF. eexists _, _, c', er, _. cbn.
          split; [apply New_clean|]. split; [apply Hd, New_clean|exact HH]. }
        right. eexists. eapply (step_receive _ _ _ _ c [] [] [] s _ msgPool_New EOF); [apply New_clean|cbn; apply Hd, New_clean|exact HH].
      * destruct (H9 req) as (id & k & _ & _ & (? & ? & _ & _ & Hv & _)); [apply elem_of_cons; by left|].
        destruct (view_fields _ _ Hv) as (_ & Hhb & How & _).
        destruct (answers_request libs iterate iterate_ranges None (mkHook 0 0) req s H11 Hhb How) as (s' & frame & _ & _ & HS & HW & _).
        destruct (Z.lt_ge_cases (len frame - 16) (2 ^ 32)).
        { right. eexists. by eapply (step_handle _ _ _ _ c [] [] [] req hs s). }
        left. left. exists req, None, (mkHook 0 0), s', frame. cbn. rewrite elem_of_cons. auto.
    + right. eexists. apply Forall_cons in Hupd as [[_ Hd] _].
      eapply (step_read _ _ _ _ c [] _ hs s _ msgPool_New EOF); [apply New_clean|apply Hd, New_clean].
  - right. destruct (H8 id sq) as (Hpi & k & Hk & Hord); [apply elem_of_cons; by left|].
    pose proof (ci_seq _ H1 _ _ Hpi).
    destruct (write_request msgPool_New c id sq k New_clean ltac:(lia) Hk Hord) as (m & frame & HW & _).
    eexists. eapply (step_write _ _ _ _ c [] id sq ws); [apply New_clean|exact HW|done].
Qed.

Lemma weight_pending st ct sm n t : session_inv st ct sm n t -> (weight n t <= 4 * size (pending (n_client n)))%nat.
Proof.
  intros Hi. pose proof (si_busy _ _ _ _ _ Hi) as Hb. apply Permutation_length in Hb.
  unfold busy, in_transit in Hb. repeat rewrite ?length_fmap, ?length_app, ?length_map_to_list in Hb.
  unfold weight. lia.
Qed.

Lemma nsteps_weight st ct sm i : forall n n' t,
  session_inv st ct sm n t -> nsteps (internal_step libs iterate Zip Unzip) i n n' -> (i <= weight n t)%nat.
Proof.
  induction i as [|i IH]; intros n n' t Hi Hs; [lia|]. inversion Hs as [|? a b d Hab Hbd]; subst.
  destruct (internal_step_inv _ _ _ _ _ _ Hi Hab) as (t' & Hi' & Hw). specialize (IH _ _ _ Hi' Hbd). lia.
Qed.

Lemma session_drains st ct sm : forall w n t,
  session_inv st ct sm n t -> (weight n t <= w)%nat ->
  exists n' t', rtc (internal_step libs iterate Zip Unzip) n n' /\ session_inv st ct sm n' t' /\
    (blocked libs iterate Unzip n' \/ pending (n_client n') = ∅).
Proof.
  induction w as [|w IH]; intros n t Hi Hw.
  all: destruct (decide (pending (n_client n) = ∅)) as [He|Hne]; [exists n, t; eauto using rtc_refl|].
  all: destruct (session_progress _ _ _ _ _ Hi Hne) as [Hb|[n1 Hs]]; [exists n, t; eauto using rtc_refl|].
  all: destruct (internal_step_inv _ _ _ _ _ _ Hi Hs) as (t1 & Hi1 & Hw1).
  - lia.
  - destruct (IH n1 t1 Hi1 ltac:(lia)) as (n' & t' & Hr & ? & ?). exists n', t'. split; [by eapply rtc_l|done].
Qed.

(** C2.  Every call is answered: a connection with callers, readers and handlers
    never runs for ever without new calls (at most four steps per pending
    call remain), it never deadlocks, and from every reachable state it can go
    on until every call made so far has been completed with its own answer,
    unless an answer does not fit its length word or cannot be decoded by its
    caller. *)
Theorem session_completes st ct (s : env value) n :
  Forall clean (env_pool s) -> services_wf nonascii_upper (env_services s) ->
  rtc (session_step libs iterate Zip Unzip) (new_session st ct s) n ->
  (forall i n', nsteps (internal_step libs iterate Zip Unzip) i n n' -> (i <= 4 * size (pending (n_client n)))%nat) /\
  (pending (n_client n) <> ∅ -> blocked libs iterate Unzip n \/ exists n', internal_step libs iterate Zip Unzip n n') /\
  exists n', rtc (internal_step libs iterate Zip Unzip) n n' /\
    (blocked libs iterate Unzip n' \/
     forall id k, calls (n_client n') !! id = Some k -> completed libs st (env_services s) k).
Proof.
  intros Hp Hs Hr. destruct (session_reachable_inv _ _ _ _ Hp Hs Hr) as [t Ht]. split; [|split].
  - intros i n' Hn. pose proof (nsteps_weight _ _ _ _ _ _ _ Ht Hn). pose proof (weight_pending _ _ _ _ _ Ht). lia.
  - by apply (session_progress st ct (env_services s) n t).
  - destruct (session_drains _ _ _ _ _ _ Ht (le_n _)) as (n' & t' & Hrun & Hi' & [Hb|He]); exists n'; (split; [done|]); [by left|].
    right. intros id k Hk. destruct (si_calls _ _ _ _ _ Hi' _ _ Hk) as [[[sq Hsq] _]|[_ ?]]; [|done].
    by rewrite He, lookup_empty in Hsq.
Qed.
End session_proofs.

(** ** Witnesses *)

Lemma sample_services_wf : services_wf (fun _ => false) (env_services sample_env).
Proof. apply (register_wf (fun _ => false) sample_rcvr (str "Arith") true None), services_wf_empty. Qed.

Lemma sample_call_ordinary st : st = JSON -> ordinary copy_libs list_iterate st CompressNone sample_call.
Proof. intros ->. split; [done|]. exists copy_codec, (str "hello"). vm_compute. repeat split; (reflexivity || by left || lia). Qed.

(** Two callers have registered their calls. *)
Definition two_calls : session bytes :=
  let c1 := (send_register copy_libs 0 sample_call (new_client JSON CompressNone)).1 in
  let c2 := (send_register copy_libs 1 sample_call c1).1 in
  mkSession c2 [(0%nat, 0); (1%nat, 1)] [] [] sample_env [].

Lemma two_calls_reachable :
  rtc (session_step copy_libs list_iterate no_zip no_zip) (new_session JSON CompressNone sample_env) two_calls.
Proof.
  eapply rtc_l; [apply (step_send copy_libs list_iterate no_zip no_zip (new_client JSON CompressNone) [] [] [] sample_env []
    0%nat sample_call (send_register copy_libs 0 sample_call (new_client JSON CompressNone)).1 0); try done;
    apply sample_call_ordinary; done|].
  eapply rtc_l; [|apply rtc_refl].
  apply (step_send copy_libs list_iterate no_zip no_zip (send_register copy_libs 0 sample_call (new_client JSON CompressNone)).1
    [(0%nat, 0)] [] [] sample_env [] 1%nat sample_call); try done. by apply sample_call_ordinary.
Qed.

Lemma session_completes_witness :
  exists n', rtc (internal_step copy_libs list_iterate no_zip no_zip) two_calls n' /\
    (blocked copy_libs list_iterate no_zip n' \/
     forall id k, calls (n_client n') !! id = Some k -> completed copy_libs JSON (env_services sample_env) k).
Proof.
  destruct (session_completes copy_libs list_iterate no_zip no_zip list_iterate_ranges (fun _ => false) JSON CompressNone
    sample_env two_calls) as (_ & _ & H); [by constructor|apply sample_services_wf|apply two_calls_reachable|exact H].
Defined.
