(* ===== verification/Link.v ===== *)
(** * A connection that may fail (src/client/client.go, src/server/server.go)

    The connection of Session with everything that happens to it: calls of any
    kind (heartbeats, compressed calls, calls whose arguments do not encode),
    writes that fail, the look at the request after it has gone back to the
    pool, replies that do not decode, a stream that breaks, contexts that end,
    and [close].  A step is one critical section or what a goroutine does
    between two of them: a call that has been taken off the pending map is
    completed by a later step.  Whatever may complete a call without its answer
    leaves a [fault] behind, which says what it was and whose call it took.
    Of a write that fails nothing is read by the server, whose reading ends at
    a frame that is cut off; answers may get lost in the same way. *)
From Stdlib Require Import Strings.Byte.
From S2P Require Import Prelude GoStd GoTime Header Message Pool Core RateLimit Controller Service Server Catalog Client EndToEnd Session.

#[local] Open Scope go_scope.

(** ** State *)

(** Where the response loop is: reading, between taking a call off the map and
    completing it, on its way out with an error, or gone. *)
Inductive response_loop := Reading | Took (res : Message) (id : nat) | Ending (e : error) | Ended.

(** What completes a call without its answer: [send] on a closed connection or
    without codec; an error of encoding, compressing or writing; a context; the
    one-way bit of a message that is somebody else's by then; the end of the
    response loop (every call pending then); [close] (likewise). *)
Inductive fault :=
| Refused (id : nat) (e : error)
| Unsent (id : nat) (e : error)
| Cancelled (id : nat) (e : error)
| Released (id : nat)
| Broken (e : error)
| ClosedDown.

(** The error a fault gives a call. *)
Definition cause (f : fault) (id : nat) (err : option error) : Prop :=
  match f with
  | Refused j e | Unsent j e | Cancelled j e => j = id /\ err = Some e
  | Released j => j = id /\ err = None
  | Broken e => err = Some e
  | ClosedDown => err = Some ErrShutdown
  end.

Section link.
Context {value : Type} (libs : codec_libs value rtype).
Context (iterate : option metadata -> list (gostring * gostring)).
Context (Zip Unzip : bytes -> bytes + error).

(** The client; the calls registered and not yet written; the numbers of the
    requests given back to the pool and not yet looked at; the bytes on their
    way to the server, its handlers and state; the bytes on their way back; the
    response loop; the calls taken off the map and not yet completed, with
    their error; the faults so far; and whether a limit has been exceeded: a
    frame of 4 GiB or more, or 2^64 calls. *)
Record link := mkLink {
  lk_client : client_t value;
  lk_writing : list (nat * Z);
  lk_freed : list Z;
  lk_up : bytes;
  lk_handlers : list Message;
  lk_env : env value;
  lk_down : bytes;
  lk_loop : response_loop;
  lk_late : list (nat * option error);
  lk_faults : list fault;
  lk_over : bool
}.

Definition new_link (st : SerializeType) (ct : CompressType) (s : env value) : link :=
  mkLink (new_client st ct) [] [] [] [] s [] Reading [] [] false.

(** A call as [Go] makes it. *)
Definition untouched (k : call_t value) : Prop :=
  cl_done k = 0 /\ cl_reply k = None /\ cl_Error k = None /\ cl_resMetadata k = None.

(** ** Steps *)

(** [call := pending[seq]; delete(pending, seq)] under the lock. *)
Definition take_call (sq : Z) (c : client_t value) : client_t value * option nat :=
  (set_pending (delete sq (pending c)) c, pending c !! sq).

(** What follows for a call that was there, after the unlock. *)
Definition complete_late (err : option error) (k : call_t value) : call_t value :=
  done_call (match err with Some e => set_Error (Some e) k | None => k end).

Definition late_of (err : option error) (o : option nat) : list (nat * option error) :=
  match o with Some id => [(id, err)] | None => [] end.
Definition faults_of (f : nat -> fault) (o : option nat) : list fault :=
  match o with Some id => [f id] | None => [] end.

(** The critical section of a round of [handleResponse]. *)
Definition take_response (res : Message) (c : client_t value) : client_t value * option nat :=
  if is_server_message res then (c, None) else take_call (Seq (msg_Header res)) c.

(** The rest of the round for a call that was there: the call, and the loop's
    [err]. *)
Definition finish_response (res : Message) (k : call_t value) : call_t value * option error :=
  if beqb (getMessageStatusType (msg_Header res)) StatusError then
    (done_call (set_resMetadata (Metadata res) (set_Error (Some (ServiceError (service_error res))) k)), None)
  else if IsHeartbeat (msg_Header res) then (done_call (set_resMetadata (Metadata res) k), None)
  else let '(k', err) := decode_reply libs Unzip res k in (done_call (set_resMetadata (Metadata res) k'), err).

(** The error with which the end of the loop fails the pending calls. *)
Definition end_error (e : error) (c : client_t value) : error :=
  match e with EOF => if closing c then ErrShutdown else ErrUnexpectedEOF | _ => e end.

(** The error with which [send] refuses a call. *)
Definition refusal_error (c : client_t value) : error :=
  if shutdown c || closing c then ErrShutdown else ErrUnsupportedCodec.

Inductive link_step : link -> link -> Prop :=
| link_send c ws fr up hs s down lp late fs ov id k c' sq :
    calls c !! id = None -> untouched k -> send_register libs id k c = (c', Some sq) ->
    link_step (mkLink c ws fr up hs s down lp late fs ov)
              (mkLink c' (ws ++ [(id, sq)]) fr up hs s down lp late fs (ov || (2 ^ 64 - 1 <=? seq c)))
| link_refuse c ws fr up hs s down lp late fs ov id k c' :
    calls c !! id = None -> untouched k -> send_register libs id k c = (c', None) ->
    link_step (mkLink c ws fr up hs s down lp late fs ov)
              (mkLink c' ws fr up hs s down lp late (fs ++ [Refused id (refusal_error c)]) ov)
| link_write c l1 id sq l2 fr up hs s down lp late fs ov got c' frame :
    clean got -> send_write libs iterate Zip got None id sq c = Val c' -> written c' = written c ++ [frame] ->
    link_step (mkLink c (l1 ++ (id, sq) :: l2) fr up hs s down lp late fs ov)
              (mkLink c' (l1 ++ l2) (fr ++ [sq]) (up ++ frame) hs s down lp late fs (ov || (2 ^ 32 <=? len frame - 16)))
| link_unencodable c l1 id sq l2 fr up hs s down lp late fs ov got k c' e :
    clean got -> calls c !! id = Some k -> build_request libs Zip got c sq k = inr e ->
    send_write libs iterate Zip got None id sq c = Val c' ->
    link_step (mkLink c (l1 ++ (id, sq) :: l2) fr up hs s down lp late fs ov)
              (mkLink c' (l1 ++ l2) fr up hs s down lp late (fs ++ [Unsent id e]) ov)
| link_write_error c l1 id sq l2 fr up hs s down lp late fs ov got k req c' o e :
    clean got -> calls c !! id = Some k -> build_request libs Zip got c sq k = inl req -> take_call sq c = (c', o) ->
    link_step (mkLink c (l1 ++ (id, sq) :: l2) fr up hs s down lp late fs ov)
              (mkLink c' (l1 ++ l2) (fr ++ [sq]) up hs s down lp
                 (late ++ late_of (Some e) o) (fs ++ faults_of (fun j => Unsent j e) o) ov)
| link_release c ws l1 sq l2 up hs s down lp late fs ov freed :
    IsOneway (msg_Header freed) = false ->
    link_step (mkLink c ws (l1 ++ sq :: l2) up hs s down lp late fs ov)
              (mkLink c ws (l1 ++ l2) up hs s down lp late fs ov)
| link_release_oneway c ws l1 sq l2 up hs s down lp late fs ov freed c' o :
    IsOneway (msg_Header freed) = true -> take_call sq c = (c', o) ->
    link_step (mkLink c ws (l1 ++ sq :: l2) up hs s down lp late fs ov)
              (mkLink c' ws (l1 ++ l2) up hs s down lp (late ++ late_of None o) (fs ++ faults_of Released o) ov)
| link_read c ws fr up hs s down lp late fs ov got e req up' :
    clean got -> Decode 0 (got, mkReader up e) = ((req, mkReader up' e), Val tt) ->
    link_step (mkLink c ws fr up hs s down lp late fs ov) (mkLink c ws fr up' (hs ++ [req]) s down lp late fs ov)
| link_handle c ws fr up l1 req l2 s down lp late fs ov choice h s' frame :
    serve_request libs iterate choice h req s = Val s' -> env_written s' = env_written s ++ [frame] ->
    link_step (mkLink c ws fr up (l1 ++ req :: l2) s down lp late fs ov)
              (mkLink c ws fr up (l1 ++ l2) s' (down ++ frame) lp late fs (ov || (2 ^ 32 <=? len frame - 16)))
| link_answer_lost c ws fr up l1 req l2 s down lp late fs ov choice h s' :
    serve_request libs iterate choice h req s = Val s' ->
    link_step (mkLink c ws fr up (l1 ++ req :: l2) s down lp late fs ov)
              (mkLink c ws fr up (l1 ++ l2) s' down lp late fs ov)
| link_take c ws fr up hs s down late fs ov got e res down' c' o :
    clean got -> Decode 0 (got, mkReader down e) = ((res, mkReader down' e), Val tt) -> take_response res c = (c', o) ->
    link_step (mkLink c ws fr up hs s down Reading late fs ov)
              (mkLink c' ws fr up hs s down' (match o with Some id => Took res id | None => Reading end) late fs ov)
| link_finish c ws fr up hs s down late fs ov res id k k' err :
    calls c !! id = Some k -> finish_response res k = (k', err) ->
    link_step (mkLink c ws fr up hs s down (Took res id) late fs ov)
              (mkLink (update_call id (fun _ => k') c) ws fr up hs s down
                 (match err with None => Reading | Some e => Ending e end) late fs ov)
| link_stream_error c ws fr up hs s down late fs ov e :
    link_step (mkLink c ws fr up hs s down Reading late fs ov) (mkLink c ws fr up hs s down (Ending e) late fs ov)
| link_end c ws fr up hs s down late fs ov e :
    link_step (mkLink c ws fr up hs s down (Ending e) late fs ov)
              (mkLink (finish_responses (Some e) c) ws fr up hs s down Ended late (fs ++ [Broken (end_error e c)]) ov)
| link_cancel c ws fr up hs s down lp late fs ov e c' o :
    take_call 0 c = (c', o) ->
    link_step (mkLink c ws fr up hs s down lp late fs ov)
              (mkLink c' ws fr up hs s down lp (late ++ late_of (Some e) o) (fs ++ faults_of (fun j => Cancelled j e) o) ov)
| link_close c ws fr up hs s down lp late fs ov :
    link_step (mkLink c ws fr up hs s down lp late fs ov)
              (mkLink (close c).1 ws fr up hs s down lp late (fs ++ [ClosedDown]) ov)
| link_complete c ws fr up hs s down lp l1 id err l2 fs ov :
    link_step (mkLink c ws fr up hs s down lp (l1 ++ (id, err) :: l2) fs ov)
              (mkLink (update_call id (complete_late err) c) ws fr up hs s down lp (l1 ++ l2) fs ov).

(** The steps refine the operations of Client: a round of the response loop, and
    taking and completing a call. *)
Lemma handle_message_split res (c : client_t value) :
  handle_message libs Unzip res c =
    if is_server_message res then (c, None, res)
    else let '(c', o) := take_response res c in
         match o with
         | Some id => match calls c !! id with
                      | Some k => let '(k', err) := finish_response res k in (update_call id (fun _ => k') c', err, Reset res)
                      | None => (c', None, Reset res)
                      end
         | None => (c', None, Reset res)
         end.
Proof.
  unfold handle_message, take_response, take_call, finish_response. destruct (is_server_message res); [done|].
  destruct (pending c !! Seq (msg_Header res)) as [id|]; [|done]. destruct (calls c !! id) as [k|] eqn:Hk; [|done].
  assert (forall f, update_call id f (set_pending (delete (Seq (msg_Header res)) (pending c)) c) =
    update_call id (fun _ => f k) (set_pending (delete (Seq (msg_Header res)) (pending c)) c)) as Hu.
  { intros f. unfold update_call, set_calls. cbn. f_equal. apply map_eq. intros j. destruct (decide (j = id)) as [->|Hne].
    - by rewrite !lookup_alter_eq, Hk.
    - by rewrite !lookup_alter_ne. }
  destruct (beqb _ _); [by rewrite Hu|]. destruct (IsHeartbeat _); [by rewrite Hu|].
  by destruct (decode_reply libs Unzip res k).
Qed.

Lemma complete_split sq f (c : client_t value) :
  complete sq f c = let '(c', o) := take_call sq c in
    match o with Some id => update_call id (fun k => done_call (f k)) c' | None => c' end.
Proof. unfold complete, take_call. by destruct (pending c !! sq). Qed.

(** ** What a caller gets *)

Definition is_heartbeat_call (k : call_t value) : bool := str_eqb (cl_servicePath k) [] && str_eqb (cl_serviceMethod k) [].

(** Whether [send] compresses the arguments. *)
Definition compressed (ct : CompressType) (data : bytes) : bool := (1024 <? len data) && beqb ct Gzip.

(** The request of a call, as the server sees it. *)
Definition sent_as (st : SerializeType) (ct : CompressType) (k : call_t value) (sq : Z) (m : Message) : Prop :=
  exists magic,
    if is_heartbeat_call k then
      view (msg_Header m) = mkView magic x00 Request true false CompressNone Normal JSON sq /\ bare m
    else exists codec data, Codecs libs st = Some codec /\ codec_Encode codec (cl_args k) = inl data /\
      (if compressed ct data then Zip data = inl (Payload m) else Payload m = data) /\
      view (msg_Header m) =
        mkView magic x00 Request false false (if compressed ct data then Gzip else CompressNone) Normal st sq /\
      ServicePath m = cl_servicePath k /\ ServiceMethod m = cl_serviceMethod k /\
      received_metadata None (Metadata m) = received_metadata None (cl_metadata k).

(** The result of a completed call, for the server's answer: an error of the
    server, no reply for an empty one, or what the codec makes of the reply.
    The answer to a compressed request says that it is compressed: the client
    decompresses it, and lets the codec decode nothing if that fails. *)
Definition returned (zipped : bool) (codec : Codec value rtype) (k : call_t value) (r : bytes + error) (rm : metadata) : Prop :=
  cl_resMetadata k = answer_metadata r rm /\
  match r with
  | inr e => cl_reply k = None /\
      cl_Error k = Some (ServiceError (match rm !! ServiceErrorKey with Some t => t | None => Error e end))
  | inl [] => cl_reply k = None /\ cl_Error k = None
  | inl d =>
      match (if zipped then Unzip d else inl d) with
      | inl d' =>
          match codec_Decode codec d' (cl_replyType k) with
          | inl v => cl_reply k = Some v /\ cl_Error k = None
          | inr e => cl_reply k = None /\ cl_Error k = Some (ServiceError (Error e))
          end
      | inr e =>
          match codec_Decode codec [] (cl_replyType k) with
          | inl v => cl_reply k = Some v /\ cl_Error k = Some (ServiceError (str "unzip payload: " ++ Error e))
          | inr e' => cl_reply k = None /\ cl_Error k = Some (ServiceError (Error e'))
          end
      end
  end.

(** Completed once, with what the server's contract prescribes for the call's
    own request; a heartbeat with nothing. *)
Definition answered_once (st : SerializeType) (ct : CompressType) (sm : serviceMap value) (k : call_t value) : Prop :=
  cl_done k = 1 /\
  exists sq req, sent_as st ct k sq req /\
    if is_heartbeat_call k then cl_reply k = None /\ cl_Error k = None /\ cl_resMetadata k = None
    else exists r rm codec data, Codecs libs st = Some codec /\ codec_Encode codec (cl_args k) = inl data /\
      rpc_outcome libs sm req r rm /\ returned (compressed ct data) codec k r rm.

(** Completed without its answer, with the error of something that happened. *)
Definition failed (fs : list fault) (id : nat) (k : call_t value) : Prop :=
  1 <= cl_done k /\ cl_reply k = None /\ cl_resMetadata k = None /\ exists f, f ∈ fs /\ cause f id (cl_Error k).

(** A call that is not completed is somewhere: pending, with the response loop,
    or with the goroutine that took it. *)
Definition held (n : link) (id : nat) : Prop :=
  (exists sq, pending (lk_client n) !! sq = Some id) \/ (exists res, lk_loop n = Took res id) \/
  (exists err, (id, err) ∈ lk_late n).
End link.
Arguments link : clear implicits.
Arguments mkLink {value} _ _ _ _ _ _ _ _ _ _ _.

(** ** Proofs: the pieces *)

Section link_proofs.
Context {value : Type} (libs : codec_libs value rtype).
Context (iterate : option metadata -> list (gostring * gostring)).
Context (Zip Unzip : bytes -> bytes + error).
Hypothesis iterate_ranges : forall md, ranges_over md (iterate md).
Context (nonascii_upper : gostring -> bool).
Context (st : SerializeType) (ct : CompressType).
Implicit Types (c : client_t value) (k : call_t value) (m : Message).

(** What a call asks for does not change. *)
Definition same_inputs k k' : Prop :=
  cl_servicePath k' = cl_servicePath k /\ cl_serviceMethod k' = cl_serviceMethod k /\ cl_metadata k' = cl_metadata k /\
  cl_args k' = cl_args k /\ cl_replyType k' = cl_replyType k.

Lemma sent_as_inputs k k' sq m : same_inputs k k' -> sent_as libs Zip st ct k sq m -> sent_as libs Zip st ct k' sq m.
Proof. intros (E1 & E2 & E3 & E4 & _) (magic & Hs). exists magic. unfold is_heartbeat_call in *. by rewrite E1, E2, E3, E4. Qed.

Lemma sent_as_seq k sq m : sent_as libs Zip st ct k sq m ->
  seq_of m = sq /\ IsHeartbeat (msg_Header m) = is_heartbeat_call k /\ IsOneway (msg_Header m) = false.
Proof.
  intros (magic & Hs). destruct (is_heartbeat_call k).
  - destruct Hs as [Hv _]. by destruct (view_fields _ _ Hv) as (_ & ? & ? & _ & _ & _ & ?).
  - destruct Hs as (codec & data & _ & _ & _ & Hv & _). by destruct (view_fields _ _ Hv) as (_ & ? & ? & _ & _ & _ & ?).
Qed.

(** The request [send] builds. *)
Lemma build_request_sent got c sq k m :
  clean got -> 0 <= sq < 2 ^ 64 -> build_request libs Zip got c sq k = inl m ->
  sent_as libs Zip (serializeType c) (compressType c) k sq m.
Proof.
  intros Hgot Hsq Hb. unfold sent_as. exists (msg_Header got !!! 0%fin). unfold is_heartbeat_call.
  destruct (str_eqb (cl_servicePath k) [] && str_eqb (cl_serviceMethod k) []) eqn:Hh.
  - apply andb_true_iff in Hh as [Hp Hm]. apply bool_decide_eq_true in Hp, Hm.
    destruct (build_heartbeat_spec libs Zip got c sq k Hgot Hsq Hp Hm) as (req & Hr & Hv & Hbare).
    rewrite Hb in Hr. injection Hr as ->. by split.
  - unfold build_request in Hb. rewrite Hh in Hb. pose proof (clean_view got Hgot) as Hv.
    destruct (Codecs libs (serializeType c)) as [codec|] eqn:Hc; [|discriminate].
    destruct (registered_nibble libs _ _ Hc) as [_ Hn].
    destruct (codec_Encode codec (cl_args k)) as [data|] eqn:He; [|discriminate].
    exists codec, data. split; [done|]. split; [done|]. unfold compressed.
    destruct ((1024 <? len data) && beqb (compressType c) Gzip) eqn:Hz.
    + apply andb_true_iff in Hz as [_ Hct]. apply beqb_true in Hct. destruct (Zip data) as [z|] eqn:HZ; [|discriminate].
      injection Hb as <-. split; [done|].
      destruct (cl_metadata k) as [md|]; cbn [set_Payload set_ServiceMethod set_ServicePath set_Metadata set_Header
        msg_Header ServicePath ServiceMethod Metadata Payload].
      all: split; [|repeat split; by rewrite Hgot].
      all: rewrite view_SetCompressType, view_SetSerializeType, view_SetSeq, view_SetMessageType, Hv, Hct; cbn zeta.
      all: cbn [v_magic v_version v_type v_heartbeat v_oneway v_compress v_status v_serialize v_seq].
      all: rewrite wrap64_small by lia; change JSON with x00; rewrite Hn; done.
    + injection Hb as <-. split; [by destruct (cl_metadata k)|].
      destruct (cl_metadata k) as [md|]; cbn [set_Payload set_ServiceMethod set_ServicePath set_Metadata set_Header
        msg_Header ServicePath ServiceMethod Metadata Payload].
      all: split; [|repeat split; by rewrite Hgot].
      all: rewrite view_SetSerializeType, view_SetSeq, view_SetMessageType, Hv; cbn zeta.
      all: cbn [v_magic v_version v_type v_heartbeat v_oneway v_compress v_status v_serialize v_seq].
      all: rewrite wrap64_small by lia; change JSON with x00; rewrite Hn; done.
Qed.

(** A frame below 4 GiB arrives as it was sent. *)
Lemma encoded_decodes m frame :
  Encode m (iterate (Metadata m)) = Val frame -> len frame - 16 < 2 ^ 32 -> decodes m frame.
Proof.
  intros HE Hl. apply (sendable_decodes iterate). split; [apply iterate_ranges|]. split; [done|]. split; [done|]. left. lia.
Qed.

Lemma write_sent got c id sq k c' frame :
  clean got -> 0 <= sq < 2 ^ 64 -> calls c !! id = Some k ->
  send_write libs iterate Zip got None id sq c = Val c' -> written c' = written c ++ [frame] ->
  c' = mkClient (serializeType c) (compressType c) (seq c) (pending c) (closing c) (shutdown c) (calls c) (written c ++ [frame]) /\
  exists m, sent_as libs Zip (serializeType c) (compressType c) k sq m /\ (len frame - 16 < 2 ^ 32 -> decodes m frame).
Proof.
  intros Hg Hsq Hk HW Hfr. unfold send_write in HW. rewrite Hk in HW.
  destruct (build_request libs Zip got c sq k) as [m|e] eqn:Hb.
  - destruct (Encode_total m (iterate (Metadata m))) as (f & HE). rewrite HE in HW. injection HW as <-.
    cbn in Hfr. apply app_inj_2 in Hfr as [_ Hfr]; [|done]. injection Hfr as <-. split; [done|].
    exists m. split; [by eapply build_request_sent|by apply encoded_decodes].
  - injection HW as <-. cbn in Hfr. apply (f_equal length) in Hfr. rewrite length_app in Hfr. cbn in Hfr. lia.
Qed.

Lemma sent_as_received k sq m frame : sent_as libs Zip st ct k sq m -> sent_as libs Zip st ct k sq (received m frame).
Proof.
  intros (magic & Hs). exists magic. destruct (is_heartbeat_call k).
  - destruct Hs as [Hv (Hp & Hm & Hmd & Hpl)]. split; [done|]. unfold bare, received. cbn. by rewrite Hmd.
  - destruct Hs as (codec & data & Hc & He & Hz & Hv & Hp & Hm & Hmd). exists codec, data.
    repeat (split; [done|]). cbn. by rewrite received_metadata_idem.
Qed.

(** *** Answers *)

Inductive answer := Reply (r : bytes + error) (rm : metadata) | Echo.

Definition response_msg m (a : answer) : Message :=
  match a with Reply r rm => response_of m r rm | Echo => set_Header (SetMessageType (msg_Header m) Response) m end.

Definition answer_ok (sm : serviceMap value) m (a : answer) : Prop :=
  match a with
  | Reply r rm => IsHeartbeat (msg_Header m) = false /\ rpc_outcome libs sm m r rm
  | Echo => IsHeartbeat (msg_Header m) = true
  end.

Lemma response_msg_view m a :
  view (msg_Header (response_msg m a)) = let w := view (msg_Header m) in
    mkView (v_magic w) (v_version w) Response (v_heartbeat w) (v_oneway w) (v_compress w)
      (match a with Reply (inr _) _ => bor (v_status w) StatusError | _ => v_status w end) (v_serialize w) (v_seq w).
Proof.
  destruct a as [r rm|]; cbn [response_msg]; [rewrite response_view; by destruct r|].
  cbn [set_Header msg_Header]. rewrite view_SetMessageType. cbn zeta. by rewrite view_response_type.
Qed.

Lemma take_answer k sq m a frame c :
  sent_as libs Zip st ct k sq m -> take_response (received (response_msg m a) frame) c = take_call sq c.
Proof.
  intros Hs. destruct (sent_as_seq k sq m Hs) as (Hsq & _ & How). unfold take_response, is_server_message. cbn [received msg_Header].
  destruct (view_fields _ _ (response_msg_view m a)) as (Ht & _ & _ & _ & _ & _ & Hseq). cbn zeta in *.
  cbn [v_type v_seq] in *. rewrite Ht, Hseq. change (beqb Response Request) with false. cbn [andb].
  change (v_seq (view (msg_Header m))) with (seq_of m). by rewrite Hsq.
Qed.

Lemma finish_echo sm k sq m frame k' err :
  sent_as libs Zip st ct k sq m -> answer_ok sm m Echo -> untouched k ->
  finish_response libs Unzip (received (response_msg m Echo) frame) k = (k', err) ->
  same_inputs k k' /\ answered_once libs Zip Unzip st ct sm k'.
Proof.
  intros Hs Hok (Hd & Hr & He & Hmd) Hf. destruct (sent_as_seq k sq m Hs) as (_ & Hhb & _). cbn in Hok. rewrite Hok in Hhb.
  pose proof Hs as (magic & Hs'). rewrite <- Hhb in Hs'. destruct Hs' as [Hv (_ & _ & Hm & _)].
  pose proof (response_msg_view m Echo) as Hrv. rewrite Hv in Hrv. cbn zeta in Hrv.
  destruct (view_fields _ _ Hrv) as (_ & Hb & _ & _ & Hst & _). cbn [v_heartbeat v_status] in Hb, Hst.
  assert (Metadata (received (response_msg m Echo) frame) = None) as Hres by (cbn; by rewrite Hm).
  change (msg_Header (response_msg m Echo)) with (msg_Header (received (response_msg m Echo) frame)) in *.
  unfold finish_response in Hf. rewrite Hst, Hb, Hres in Hf. change (beqb Normal StatusError) with false in Hf. injection Hf as <- _.
  split; [done|]. split; [cbn; lia|]. exists sq, m. split; [by apply (sent_as_inputs k)|].
  change (is_heartbeat_call (done_call (set_resMetadata _ k))) with (is_heartbeat_call k). by rewrite <- Hhb.
Qed.

Lemma decode_reply_returned codec k data res b d :
  untouched k -> Payload res = b :: d -> Codecs libs (getSerializeType (msg_Header res)) = Some codec ->
  getCompressType (msg_Header res) = (if compressed ct data then Gzip else CompressNone) ->
  forall rm, Metadata res = answer_metadata (inl (b :: d)) rm ->
  let '(k1, _) := decode_reply libs Unzip res k in
  returned Unzip (compressed ct data) codec (done_call (set_resMetadata (Metadata res) k1)) (inl (b :: d)) rm /\
  cl_done k1 = 0 /\ same_inputs k k1.
Proof.
  intros (Hd & Hr & He & Hmd) Hpl Hc Hct rm Hres. unfold decode_reply. rewrite Hpl, Hc, Hct.
  rewrite (proj2 (Z.ltb_lt _ _)) by (rewrite len_cons; pose proof (len_nonneg d); lia). unfold returned.
  destruct (compressed ct data); [change (beqb Gzip Gzip) with true|change (beqb CompressNone Gzip) with false]; cbn iota beta.
  - destruct (Unzip (b :: d)) as [d'|e].
    + destruct (codec_Decode codec d' (cl_replyType k)) as [v|e] eqn:Ed; cbn; rewrite Ed; by rewrite Hres.
    + destruct (codec_Decode codec [] (cl_replyType k)) as [v|e'] eqn:Ed; cbn; rewrite Ed; cbn; rewrite Ed; by rewrite Hres.
  - destruct (codec_Decode codec (b :: d) (cl_replyType k)) as [v|e] eqn:Ed; cbn; rewrite Ed; by rewrite Hres.
Qed.

Lemma finish_reply sm k sq m r rm frame k' err :
  sent_as libs Zip st ct k sq m -> answer_ok sm m (Reply r rm) -> untouched k ->
  finish_response libs Unzip (received (response_msg m (Reply r rm)) frame) k = (k', err) ->
  same_inputs k k' /\ answered_once libs Zip Unzip st ct sm k'.
Proof.
  intros Hs [Hok Hout] Hun Hf. destruct (sent_as_seq k sq m Hs) as (_ & Hhb & _). rewrite Hok in Hhb.
  pose proof Hs as (magic & Hs'). rewrite <- Hhb in Hs'. destruct Hs' as (codec & data & Hc & He & Hz & Hv & _).
  pose proof (response_msg_view m (Reply r rm)) as Hrv. rewrite Hv in Hrv. cbn zeta in Hrv.
  destruct (view_fields _ _ Hrv) as (_ & Hb & _ & Hcomp & Hst & Hse & _).
  cbn [v_heartbeat v_compress v_status v_serialize v_seq v_oneway v_type] in *.
  pose proof (received_answer m r rm frame) as Hmd. cbn [response_msg] in *.
  assert (forall k1, same_inputs k k1 -> cl_done k1 = 1 -> returned Unzip (compressed ct data) codec k1 r rm ->
    same_inputs k k1 /\ answered_once libs Zip Unzip st ct sm k1) as Hend.
  { intros k1 Hin Hd1 Hret. split; [done|]. split; [done|]. exists sq, m. split; [by apply (sent_as_inputs k)|].
    destruct Hin as (E1 & E2 & E3 & E4 & E5). unfold is_heartbeat_call in *. rewrite E1, E2, <- Hhb.
    exists r, rm, codec, data. by rewrite E4. }
  change (msg_Header (response_of m r rm)) with (msg_Header (received (response_of m r rm) frame)) in *.
  assert (Payload (received (response_of m r rm) frame) = match r with inl d => d | inr _ => [] end) as Hpl by (by destruct r).
  assert (forall e, r = inr e -> service_error (received (response_of m r rm) frame) =
    match rm !! ServiceErrorKey with Some t => t | None => Error e end) as Hserr by (intros e ->; apply service_error_received).
  unfold finish_response in Hf. revert Hf Hb Hcomp Hst Hse Hmd Hpl Hserr. clear Hrv Hv.
  generalize (received (response_of m r rm) frame). intros res Hf Hb Hcomp Hst Hse Hmd Hpl Hserr.
  destruct Hun as (Hd & Hr & HE & Hm). rewrite Hst in Hf. destruct r as [dat|e].
  - change (beqb Normal StatusError) with false in Hf. rewrite Hb in Hf. rewrite <- Hse in Hc. destruct dat as [|b d].
    + unfold decode_reply in Hf. rewrite Hpl in Hf. cbn in Hf. injection Hf as <- <-.
      apply Hend; [done|cbn; lia|]. unfold returned. cbn. by rewrite Hmd.
    + pose proof (decode_reply_returned codec k data res b d (conj Hd (conj Hr (conj HE Hm))) Hpl Hc Hcomp rm Hmd) as Hret.
      destruct (decode_reply libs Unzip res k) as [k1 e1]. injection Hf as <- <-. destruct Hret as (Hret & Hd1 & Hin).
      apply Hend; [exact Hin|cbn; lia|exact Hret].
  - change (beqb (bor Normal StatusError) StatusError) with true in Hf. injection Hf as <- <-.
    apply Hend; [done|cbn; lia|]. unfold returned. cbn [cl_resMetadata cl_reply cl_Error done_call set_resMetadata set_Error].
    by rewrite Hmd, (Hserr e eq_refl), Hr.
Qed.

(** What a handler does for such a request. *)
Lemma handle_answer choice h k sq req (s s' : env value) :
  sent_as libs Zip st ct k sq req -> Forall clean (env_pool s) -> services_wf nonascii_upper (env_services s) ->
  serve_request libs iterate choice h req s = Val s' ->
  Forall clean (env_pool s') /\ services_wf nonascii_upper (env_services s') /\
  same_services (env_services s) (env_services s') /\
  exists a, answer_ok (env_services s) req a /\
    forall frame, env_written s' = env_written s ++ [frame] -> len frame - 16 < 2 ^ 32 -> decodes (response_msg req a) frame.
Proof.
  intros Hs Hpool Hwf HS. destruct (sent_as_seq k sq req Hs) as (_ & _ & How).
  destruct (serve_request_table nonascii_upper libs iterate choice h req s s' Hwf HS) as [Hwf' Hsame].
  destruct (IsHeartbeat (msg_Header req)) eqn:Hhb.
  - unfold serve_request in HS. rewrite Hhb in HS.
    destruct (Encode _ _) as [data| |] eqn:HE in HS; [|discriminate..]. injection HS as <-.
    split; [done|]. split; [done|]. split; [done|]. exists Echo. split; [done|]. intros frame Hw Hl.
    cbn in Hw. apply app_inj_2 in Hw as [_ Hw]; [|done]. injection Hw as ->. by apply encoded_decodes.
  - destruct (answers_request libs iterate iterate_ranges choice h req s Hpool Hhb How)
      as (s0 & frame0 & r & rm & HS0 & HW0 & Hp0 & Hout & _ & _ & HD0).
    rewrite HS in HS0. injection HS0 as ->. split; [done|]. split; [done|]. split; [done|]. exists (Reply r rm).
    split; [done|]. intros frame Hw Hl. rewrite HW0 in Hw. apply app_inj_2 in Hw as [_ Hw]; [|done]. injection Hw as ->.
    split; [|intros got rest e Hg; by apply HD0].
    specialize (HD0 Hl msgPool_New [] EOF New_clean). rewrite app_nil_r in HD0. apply Decode_shrinks in HD0. cbn in HD0. lia.
Qed.

(** ** The invariant *)

(** The contents of the streams, the owner [o] of every number given so far and
    the calls [q] as they were made. *)
Record flight := mkFlight {
  f_up : list (Message * bytes);
  f_down : list (Message * answer * bytes)
}.

Definition flying (t : flight) (hs : list Message) : list Message := (f_up t).*1 ++ hs ++ (f_down t).*1.*1.
Definition engaged (t : flight) (hs : list Message) (ws : list (nat * Z)) : list Z := ws.*2 ++ (seq_of <$> flying t hs).

Section invariant.
Context (sm : serviceMap value).
Implicit Types (t : flight) (o : gmap Z nat) (q : gmap nat (call_t value)) (B : list Z).
Implicit Types (ws : list (nat * Z)) (lp : response_loop) (late : list (nat * option error)) (fs : list fault).

(** The streams carry the requests of the calls and the answers to them. *)
Record wires t o q (ws : list (nat * Z)) (up : bytes) (hs : list Message) (s : env value) (down : bytes) : Prop := {
  w_up : up = concat (f_up t).*2 /\ Forall (fun x => decodes x.1 x.2) (f_up t);
  w_down : down = concat (snd <$> f_down t) /\
    Forall (fun x => decodes (response_msg x.1.1 x.1.2) x.2 /\ answer_ok sm x.1.1 x.1.2) (f_down t);
  w_requests : forall m, m ∈ flying t hs -> exists id k, o !! seq_of m = Some id /\ q !! id = Some k /\
    sent_as libs Zip st ct k (seq_of m) m;
  w_writing : forall id sq, (id, sq) ∈ ws -> o !! sq = Some id;
  w_once : NoDup (engaged t hs ws);
  w_pool : Forall clean (env_pool s);
  w_services : services_wf nonascii_upper (env_services s) /\ same_services sm (env_services s)
}.

Definition is_pending c id : Prop := exists sq, pending c !! sq = Some id.
Definition is_took (lp : response_loop) (id : nat) : Prop := exists res, lp = Took res id.
Definition is_late (late : list (nat * option error)) (id : nat) : Prop := exists err, (id, err) ∈ late.
Definition is_held c lp late id : Prop := is_pending c id \/ is_took lp id \/ is_late late id.

Definition explained (fs : list fault) (id : nat) (err : option error) : Prop := exists f, f ∈ fs /\ cause f id err.

(** What is known of a call. *)
Definition status c ws lp late fs (id : nat) k : Prop :=
  untouched k /\ is_held c lp late id \/
  answered_once libs Zip Unzip st ct sm k /\ ~ is_held c lp late id /\ (forall sq, (id, sq) ∉ ws) \/
  failed fs id k.

(** The client's books, while the numbers [B] are on their way. *)
Record book o q B c ws lp late fs : Prop := {
  b_types : serializeType c = st /\ compressType c = ct;
  b_seq : 0 <= seq c < 2 ^ 64;
  b_owner : forall sq id, o !! sq = Some id -> 0 <= sq < seq c /\ is_Some (q !! id);
  b_inj : injective_map o;
  b_made : forall id k, calls c !! id = Some k -> exists k0, q !! id = Some k0 /\ same_inputs k0 k;
  b_exists : forall id, is_Some (q !! id) -> is_Some (calls c !! id);
  b_pending : forall sq id, pending c !! sq = Some id -> o !! sq = Some id;
  b_live : forall sq id k, sq ∈ B -> pending c !! sq = Some id -> calls c !! id = Some k -> lp <> Ended -> untouched k;
  b_took : forall res id, lp = Took res id -> ~ is_pending c id /\ ~ is_late late id /\
    (forall k, calls c !! id = Some k -> untouched k) /\
    exists sq k m a frame, o !! sq = Some id /\ (sq ∉ B) /\ q !! id = Some k /\ sent_as libs Zip st ct k sq m /\
      answer_ok sm m a /\ res = received (response_msg m a) frame;
  b_late : NoDup late.*1 /\ forall id err, (id, err) ∈ late -> is_Some (q !! id) /\ ~ is_pending c id /\ explained fs id err;
  b_writing : forall id sq, (id, sq) ∈ ws -> sq ∈ B /\ o !! sq = Some id;
  b_calls : forall id k, calls c !! id = Some k -> status c ws lp late fs id k
}.

(** *** Moves of the books *)

Lemma untouched_not_failed fs id k : untouched k -> ~ failed fs id k.
Proof. intros (Hd & _) (Hd' & _). lia. Qed.

Lemma failed_mono fs fs' id k : failed fs id k -> failed (fs ++ fs') id k.
Proof. intros (H1 & H2 & H3 & f & Hf & Hc). do 3 (split; [done|]). exists f. rewrite elem_of_app. auto. Qed.

Lemma explained_mono fs fs' id err : explained fs id err -> explained (fs ++ fs') id err.
Proof. intros (f & Hf & Hc). exists f. rewrite elem_of_app. auto. Qed.

Lemma explained_last fs f id err : cause f id err -> explained (fs ++ [f]) id err.
Proof. intros Hc. exists f. split; [|done]. apply elem_of_app. right. by constructor. Qed.

(** More faults, fewer numbers on their way, fewer writers. *)
Lemma book_less o q B B' c ws ws' lp late fs fs' :
  book o q B c ws lp late fs -> (forall x, x ∈ ws' -> x ∈ ws) -> (forall sq, sq ∈ B' -> sq ∈ B) ->
  (forall id sq, (id, sq) ∈ ws' -> sq ∈ B') -> book o q B' c ws' lp late (fs ++ fs').
Proof.
  intros [H1 H2 H3 H4 H5 H6 H7 H8 H9 [H10 H10'] H11 H12] Hws HB HwB. split; try done.
  - intros sq id k Hsq. by apply H8, HB.
  - intros res id Hlp. destruct (H9 res id Hlp) as (Hp & Hl & Hu & sq & k & m & a & frame & Ho & Hn & Hr).
    do 3 (split; [done|]). exists sq, k, m, a, frame. split; [done|]. split; [|done]. intros Hin. by apply Hn, HB.
  - split; [done|]. intros id err Hin. destruct (H10' id err Hin) as (? & ? & ?). split; [done|]. split; [done|by apply explained_mono].
  - intros id sq Hin. split; [by eapply HwB|]. by apply H11, Hws.
  - intros id k Hk. destruct (H12 id k Hk) as [?|[(? & ? & Hw)|?]]; [by left|right; left|right; right; by apply failed_mono].
    split; [done|]. split; [done|]. intros sq Hin. by apply (Hw sq), Hws.
Qed.

(** Pending, taken and late calls have not been answered. *)
Lemma status_failing c ws lp late fs id k :
  status c ws lp late fs id k -> is_held c lp late id \/ (exists sq, (id, sq) ∈ ws) -> untouched k \/ failed fs id k.
Proof.
  intros [[? _]|[(_ & Hh & Hw)|?]] Hc; [by left| |by right]. destruct Hc as [?|[sq ?]]; [done|by destruct (Hw sq)].
Qed.

(** One call fails that nobody else will complete with its answer. *)
Lemma book_fail o q B c ws lp late fs id f :
  book o q B c ws lp late fs -> (forall sq, sq ∈ B -> pending c !! sq <> Some id) -> ~ is_took lp id ->
  (forall k, calls c !! id = Some k -> untouched k \/ failed fs id k -> failed fs id (f k)) ->
  (forall k, same_inputs k (f k)) ->
  (forall k, calls c !! id = Some k -> untouched k \/ failed fs id k) ->
  book o q B (update_call id f c) ws lp late fs.
Proof.
  intros [H1 H2 H3 H4 H5 H6 H7 H8 H9 H10 H11 H12] HB Ht Hf Hin Hk0.
  assert (forall j k, alter f id (calls c) !! j = Some k ->
    j = id /\ (exists k0, calls c !! id = Some k0 /\ k = f k0) \/ j <> id /\ calls c !! j = Some k) as Hcases.
  { intros j k Hk. destruct (decide (j = id)) as [->|Hne]; [left|right; by rewrite lookup_alter_ne in Hk].
    rewrite lookup_alter_eq in Hk. destruct (calls c !! id) as [k0|]; [|done]. injection Hk as <-. eauto. }
  split; cbn; try done.
  - intros j k Hk. destruct (Hcases j k Hk) as [[-> (k0 & Hk' & ->)]|[_ Hk']]; destruct (H5 _ _ Hk') as (k1 & Hq & E1 & E2 & E3 & E4 & E5);
      exists k1; (split; [done|]); [|done]. destruct (Hin k0) as (? & ? & ? & ? & ?). repeat split; congruence.
  - intros j Hj. destruct (H6 j Hj) as [k Hk]. destruct (decide (j = id)) as [->|Hne];
      [rewrite lookup_alter_eq, Hk; by eexists|rewrite lookup_alter_ne by done; by eexists].
  - intros sq j k Hsq Hp Hk Hlp. destruct (Hcases j k Hk) as [[-> _]|[_ Hk']]; [by destruct (HB sq Hsq)|by eapply H8].
  - intros res j Hlp. destruct (H9 res j Hlp) as (Hp & Hl & Hu & Hr). split; [done|]. split; [done|]. split; [|done].
    intros k Hk. destruct (Hcases j k Hk) as [[-> _]|[_ Hk']]; [destruct Ht; by exists res|by apply Hu].
  - intros j k Hk. destruct (Hcases j k Hk) as [[-> (k0 & Hk' & ->)]|[_ Hk']]; [|exact (H12 _ _ Hk')].
    right. right. apply Hf; [done|]. by apply Hk0.
Qed.

(** A call is taken off the map, to be completed later. *)
Lemma book_take o q B c ws lp late fs sq id err :
  book o q B c ws lp late fs -> pending c !! sq = Some id -> explained fs id err ->
  book o q B (set_pending (delete sq (pending c)) c) ws lp (late ++ [(id, err)]) fs.
Proof.
  intros [H1 H2 H3 H4 H5 H6 H7 H8 H9 [H10 H10'] H11 H12] Hp He.
  assert (forall s j, delete sq (pending c) !! s = Some j -> pending c !! s = Some j /\ j <> id) as Hdel.
  { intros s j Hs. apply lookup_delete_Some in Hs as [Hne Hs]. split; [done|]. intros ->.
    apply Hne. by apply (H4 sq s id); apply H7. }
  assert (forall j, is_pending (set_pending (delete sq (pending c)) c) j -> is_pending c j /\ j <> id) as Hpend.
  { intros j [s Hs]. destruct (Hdel s j Hs). split; [by exists s|done]. }
  assert (forall j, is_late (late ++ [(id, err)]) j <-> is_late late j \/ j = id) as Hlate.
  { intros j. split.
    - intros [e Hin]. apply elem_of_app in Hin as [Hin|Hin%list_elem_of_singleton]; [left; by exists e|right; congruence].
    - intros [[e Hin]| ->]; [exists e|exists err]; apply elem_of_app; [by left|right; by constructor]. }
  split; cbn; try done.
  - intros s j Hs. by apply H7, Hdel.
  - intros s j k Hs Hps. apply (H8 s j k); [done|by apply Hdel].
  - intros res j Hlp. destruct (H9 res j Hlp) as (Hnp & Hl & Hr). split; [intros Hx; by apply Hnp, Hpend|]. split; [|done].
    rewrite Hlate. intros [?| ->]; [done|]. apply Hnp. by exists sq.
  - split.
    + rewrite fmap_app. cbn. apply NoDup_app. split; [done|]. split; [|apply NoDup_singleton].
      intros j (x & -> & Hx)%list_elem_of_fmap Hj%list_elem_of_singleton. destruct x as [j e]. cbn in Hj. subst j.
      destruct (H10' id e Hx) as (_ & Hn & _). apply Hn. by exists sq.
    + intros j e Hin. apply elem_of_app in Hin as [Hin|Hin%list_elem_of_singleton].
      * destruct (H10' j e Hin) as (Hq & Hn & Hex). split; [done|]. split; [intros Hx; by apply Hn, Hpend|done].
      * injection Hin as -> ->. split; [by apply (H3 sq id), H7|]. split; [|done]. intros Hx. by apply Hpend in Hx as [_ ?].
  - intros j k Hk. destruct (H12 j k Hk) as [[Hu Hh]|[(Ha & Hh & Hw)|Hf]]; [left|right; left|by right; right].
    + split; [done|]. unfold is_held in *. rewrite Hlate. destruct Hh as [[s Hs]|[?|?]]; [|tauto..].
      destruct (decide (j = id)) as [->|Hne]; [tauto|]. left. exists s. apply lookup_delete_Some. split; [|done].
      intros <-. congruence.
    + split; [done|]. split; [|done]. unfold is_held in *. rewrite Hlate. intros [Hx|[Hx|[Hx| ->]]]; try tauto.
      * apply Hpend in Hx. tauto.
      * apply Hh. left. by exists sq.
Qed.

Lemma book_take_none o q B c ws lp late fs sq :
  book o q B c ws lp late fs -> pending c !! sq = None -> book o q B (set_pending (delete sq (pending c)) c) ws lp late fs.
Proof. intros Hb Hp. unfold set_pending. rewrite delete_id by done. by destruct c. Qed.

(** A call taken off the map is completed. *)
Lemma book_complete o q B c ws lp l1 id err l2 fs :
  book o q B c ws lp (l1 ++ (id, err) :: l2) fs -> book o q B (update_call id (complete_late err) c) ws lp (l1 ++ l2) fs.
Proof.
  intros Hb. assert (book o q B (update_call id (complete_late err) c) ws lp (l1 ++ (id, err) :: l2) fs) as Hb'.
  { destruct (proj2 (b_late _ _ _ _ _ _ _ _ Hb) id err) as (_ & Hp & f & Hf & Hc); [apply elem_of_app; right; by constructor|].
    assert (is_late (l1 ++ (id, err) :: l2) id) as Hl by (exists err; apply elem_of_app; right; by constructor).
    apply book_fail; [done|intros sq _ Hsq; apply Hp; by exists sq|intros [res Hlp]; by destruct (b_took _ _ _ _ _ _ _ _ Hb res id Hlp) as (_ & ? & _)| | |].
    - intros k Hk Hcase. assert (0 <= cl_done k /\ cl_reply k = None /\ cl_resMetadata k = None) as (H1 & H2 & H3)
        by (destruct Hcase as [(? & ? & ? & ?)|(? & ? & ? & _)]; repeat split; (done || lia)).
      unfold complete_late. split; [destruct err; cbn; lia|]. split; [by destruct err|]. split; [by destruct err|].
      destruct err as [e|]; cbn; [by exists f|]. destruct Hcase as [(_ & _ & -> & _)|(_ & _ & _ & Hx)]; [by exists f|exact Hx].
    - intros k. by destruct err.
    - intros k Hk. eapply status_failing; [by apply (b_calls _ _ _ _ _ _ _ _ Hb)|]. left. right. by right. }
  destruct Hb' as [H1 H2 H3 H4 H5 H6 H7 H8 H9 [H10 H10'] H11 H12].
  assert (forall x, x ∈ l1 ++ l2 -> x ∈ l1 ++ (id, err) :: l2) as Hsub by (intros x; rewrite !elem_of_app, elem_of_cons; tauto).
  split; try done.
  - intros res j Hlp. destruct (H9 res j Hlp) as (? & Hl & ?). split; [done|]. split; [|done]. intros [e He]. apply Hl. exists e. by apply Hsub.
  - split; [|intros j e Hin; by apply H10', Hsub]. rewrite fmap_app in *. cbn in H10.
    apply NoDup_app in H10 as (Ha & Hd & Hc). apply NoDup_cons in Hc as [_ Hc]. apply NoDup_app. split; [done|]. split; [|done].
    intros x Hx Hx'. apply (Hd x Hx). by apply elem_of_cons; right.
  - intros j k Hk. destruct (H12 j k Hk) as [[Hu Hh]|[(Ha & Hh & Hw)|Hf]]; [left|right; left|by right; right].
    + split; [done|]. destruct Hh as [?|[?|[e He]]]; [by left|by right; left|]. right. right. exists e.
      rewrite elem_of_app, elem_of_cons in He. rewrite elem_of_app. destruct He as [?|[[= -> ->]|?]]; [by left| |by right].
      exfalso. cbn in Hk. rewrite lookup_alter_eq in Hk. destruct (calls c !! id) as [k0|] eqn:Hk0; [|done]. injection Hk as <-.
      assert (untouched k0 \/ failed fs id k0) as Hcase.
      { eapply status_failing; [by apply (b_calls _ _ _ _ _ _ _ _ Hb)|]. left. right. right. exists err.
        apply elem_of_app. right. by constructor. }
      destruct Hu as (Hd & _), Hcase as [(Hd0 & _)|(Hd0 & _)]; destruct err; cbn in Hd; lia.
    + split; [done|]. split; [|done]. intros [?|[?|[e He]]]; apply Hh; [by left|by right; left|]. right. right. exists e. by apply Hsub.
Qed.

(** A new call. *)
Lemma book_send o q B B' c ws lp late fs id k c' sq :
  book o q B c ws lp late fs -> calls c !! id = None -> untouched k -> seq c < 2 ^ 64 - 1 ->
  send_register libs id k c = (c', Some sq) -> (forall x, x ∈ B' <-> x ∈ B \/ x = sq) ->
  sq = seq c /\ o !! sq = None /\ q !! id = None /\
  book (<[sq := id]> o) (<[id := k]> q) B' c' (ws ++ [(id, sq)]) lp late fs.
Proof.
  intros [H1 H2 H3 H4 H5 H6 H7 H8 H9 [H10 H10'] H11 H12] Hid Hk Hseq HS HB'.
  revert HS. unfold send_register. cbn. destruct (shutdown c || closing c); [discriminate|].
  destruct (Codecs libs (serializeType c)); [|discriminate]. intros [= <- <-].
  assert (o !! seq c = None) as Ho by (destruct (o !! seq c) eqn:E; [apply H3 in E; lia|done]).
  assert (q !! id = None) as Hq by (destruct (q !! id) eqn:E; [destruct (H6 id) as [? ?]; [by rewrite E|congruence]|done]).
  assert (forall s j, o !! s = Some j -> s <> seq c /\ j <> id) as Hold.
  { intros s j Hs. split; [intros ->; congruence|]. intros ->. destruct (H3 _ _ Hs) as [_ [? ?]]. congruence. }
  do 3 (split; [done|]).
  assert (forall j, is_pending (mkClient (serializeType c) (compressType c) (wrap64 (seq c + 1)) (<[seq c := id]> (pending c))
    (closing c) (shutdown c) (<[id := k]> (calls c)) (written c)) j <-> is_pending c j \/ j = id) as Hpend.
  { intros j. unfold is_pending. cbn. split.
    - intros [s Hs]. rewrite lookup_insert in Hs. case_decide; [right; congruence|left; by exists s].
    - intros [[s Hs]| ->]; [|exists (seq c); apply lookup_insert_eq]. exists s. rewrite lookup_insert_ne; [done|].
      intros <-. apply H7 in Hs. congruence. }
  assert (forall j, j <> id -> <[id := k]> q !! j = q !! j /\ <[id := k]> (calls c) !! j = calls c !! j) as Hne
    by (intros j Hj; by rewrite !lookup_insert_ne).
  split; cbn; try done.
  - rewrite wrap64_small by lia. lia.
  - intros s j Hs. rewrite wrap64_small by lia. rewrite lookup_insert in Hs. case_decide.
    + injection Hs as <-. split; [lia|]. rewrite lookup_insert_eq. by eexists.
    + destruct (H3 _ _ Hs) as [? ?]. split; [lia|]. destruct (Hold _ _ Hs) as [_ Hj]. by rewrite (proj1 (Hne j Hj)).
  - intros s1 s2 j Hs1 Hs2. apply lookup_insert_Some in Hs1 as [[<- E1]|[_ Hs1]], Hs2 as [[<- E2]|[_ Hs2]];
      [done|subst j; by destruct (Hold _ _ Hs2)|subst j; by destruct (Hold _ _ Hs1)|by eapply H4].
  - intros j k1 Hj. destruct (decide (j = id)) as [->|Hn].
    + rewrite lookup_insert_eq in Hj. injection Hj as <-. exists k. by rewrite lookup_insert_eq.
    + rewrite (proj2 (Hne j Hn)) in Hj. rewrite (proj1 (Hne j Hn)). by apply H5.
  - intros j Hj. destruct (decide (j = id)) as [->|Hn]; [rewrite lookup_insert_eq; by eexists|].
    rewrite (proj2 (Hne j Hn)). rewrite (proj1 (Hne j Hn)) in Hj. by apply H6.
  - intros s j Hs. rewrite lookup_insert in Hs |- *. case_decide; [done|by apply H7].
  - intros s j k1 Hs Hp Hk1 Hlp. rewrite lookup_insert in Hp. case_decide as Hcd.
    + injection Hp as <-. rewrite lookup_insert_eq in Hk1. by injection Hk1 as <-.
    + destruct (Hold s j (H7 _ _ Hp)) as [_ Hn]. rewrite (proj2 (Hne j Hn)) in Hk1.
      apply HB' in Hs as [Hs| ->]; [by apply (H8 s j k1)|done].
  - intros res j Hlp. destruct (H9 res j Hlp) as (Hp & Hl & Hu & s & k1 & m & a & frame & Hs & HsB & Hr).
    destruct (Hold _ _ Hs) as [Hsn Hn]. split; [rewrite Hpend; tauto|]. split; [done|].
    split; [intros k2; rewrite (proj2 (Hne j Hn)); apply Hu|]. exists s, k1, m, a, frame.
    rewrite lookup_insert_ne by congruence. rewrite (proj1 (Hne j Hn)). split; [done|]. split; [|done]. rewrite HB'. tauto.
  - split; [done|]. intros j e Hin. destruct (H10' j e Hin) as (Hqj & Hp & Hex).
    assert (j <> id) as Hn by (intros ->; rewrite Hq in Hqj; by destruct Hqj).
    split; [by rewrite (proj1 (Hne j Hn))|]. split; [|done]. rewrite Hpend. tauto.
  - intros j s Hin. apply elem_of_app in Hin as [Hin|Hin%list_elem_of_singleton].
    + destruct (H11 j s Hin) as [HsB Hs]. rewrite HB'. split; [by left|]. destruct (Hold _ _ Hs) as [Hn _].
      by rewrite lookup_insert_ne.
    + injection Hin as -> ->. rewrite HB'. split; [by right|apply lookup_insert_eq].
  - intros j k1 Hk1. destruct (decide (j = id)) as [->|Hn].
    + rewrite lookup_insert_eq in Hk1. injection Hk1 as <-. left. split; [done|]. left. rewrite Hpend. by right.
    + rewrite (proj2 (Hne j Hn)) in Hk1. destruct (H12 j k1 Hk1) as [[Hu Hh]|[(Ha & Hh & Hw)|Hf]]; [left|right; left|by right; right].
      * split; [done|]. destruct Hh as [?|?]; [left; rewrite Hpend; by left|by right].
      * split; [done|]. split; [intros [Hx|Hx]; apply Hh; [left; apply Hpend in Hx as [?|?]; done|by right]|].
        intros s Hin. apply elem_of_app in Hin as [Hin|Hin%list_elem_of_singleton]; [by apply (Hw s)|]. congruence.
Qed.

(** A call that [send] refuses. *)
Lemma book_refuse o q B c ws lp late fs id k c' :
  book o q B c ws lp late fs -> calls c !! id = None -> untouched k -> send_register libs id k c = (c', None) ->
  q !! id = None /\ book o (<[id := k]> q) B c' ws lp late (fs ++ [Refused id (refusal_error c)]).
Proof.
  intros Hb Hid (Hd & Hr & He & Hmd) HS.
  apply (book_less o q B B c ws ws lp late fs [Refused id (refusal_error c)]) in Hb as Hb'; [|done|done|apply (b_writing _ _ _ _ _ _ _ _ Hb)].
  destruct Hb' as [H1 H2 H3 H4 H5 H6 H7 H8 H9 [H10 H10'] H11 H12]. clear Hb.
  assert (exists k', c' = set_calls (<[id := k']> (calls c)) c /\ same_inputs k k' /\
    failed (fs ++ [Refused id (refusal_error c)]) id k') as (k' & -> & Hin & Hfail).
  { exists (done_call (set_Error (Some (refusal_error c)) k)).
    assert (forall e, alter (fun k => done_call (set_Error (Some e) k)) id (<[id := k]> (calls c)) =
      <[id := done_call (set_Error (Some e) k)]> (calls c)) as Halter.
    { intros e. apply map_eq. intros j. destruct (decide (j = id)) as [->|Hn];
        [by rewrite lookup_alter_eq, !lookup_insert_eq|by rewrite lookup_alter_ne, !lookup_insert_ne]. }
    split; [|split; [done|]].
    - unfold send_register in HS. unfold refusal_error. cbn in HS. destruct (shutdown c || closing c).
      + injection HS as <-. unfold update_call. cbn. by rewrite Halter.
      + destruct (Codecs libs (serializeType c)); [discriminate|]. injection HS as <-. unfold update_call. cbn. by rewrite Halter.
    - split; [cbn; lia|]. split; [done|]. split; [done|]. by apply explained_last. }
  assert (q !! id = None) as Hq by (destruct (q !! id) eqn:E; [destruct (H6 id) as [? ?]; [by rewrite E|congruence]|done]).
  assert (forall s j, o !! s = Some j -> j <> id) as Hold by (intros s j Hs ->; destruct (H3 _ _ Hs) as [_ [? ?]]; congruence).
  assert (forall j, j <> id -> <[id := k]> q !! j = q !! j /\ <[id := k']> (calls c) !! j = calls c !! j) as Hne
    by (intros j Hj; by rewrite !lookup_insert_ne).
  split; [done|]. split; cbn; try done.
  - intros s j Hs. destruct (H3 _ _ Hs) as [? ?]. split; [done|]. by rewrite (proj1 (Hne j (Hold _ _ Hs))).
  - intros j k1 Hj. destruct (decide (j = id)) as [->|Hn].
    + rewrite lookup_insert_eq in Hj. injection Hj as <-. exists k. by rewrite lookup_insert_eq.
    + rewrite (proj2 (Hne j Hn)) in Hj. rewrite (proj1 (Hne j Hn)). by apply H5.
  - intros j Hj. destruct (decide (j = id)) as [->|Hn]; [rewrite lookup_insert_eq; by eexists|].
    rewrite (proj2 (Hne j Hn)). rewrite (proj1 (Hne j Hn)) in Hj. by apply H6.
  - intros s j k1 Hs Hp. rewrite (proj2 (Hne j (Hold _ _ (H7 _ _ Hp)))). by apply (H8 s).
  - intros res j Hlp. destruct (H9 res j Hlp) as (Hp & Hl & Hu & s & k1 & m & a & frame & Hs & Hrest).
    pose proof (Hold _ _ Hs) as Hn. split; [done|]. split; [done|]. split; [intros k2; rewrite (proj2 (Hne j Hn)); apply Hu|].
    exists s, k1, m, a, frame. by rewrite (proj1 (Hne j Hn)).
  - split; [done|]. intros j e Hin'. destruct (H10' j e Hin') as (Hqj & Hp & Hex).
    assert (j <> id) as Hn by (intros ->; rewrite Hq in Hqj; by destruct Hqj). by rewrite (proj1 (Hne j Hn)).
  - intros j k1 Hk1. destruct (decide (j = id)) as [->|Hn].
    + rewrite lookup_insert_eq in Hk1. injection Hk1 as <-. by right; right.
    + rewrite (proj2 (Hne j Hn)) in Hk1. exact (H12 j k1 Hk1).
Qed.

(** The response loop takes the call of an answer. *)
Lemma book_response o q B B' c ws late fs sq id k m a frame :
  book o q B c ws Reading late fs -> pending c !! sq = Some id -> sq ∈ B ->
  (forall x, x ∈ B' -> x ∈ B) -> sq ∉ B' -> (forall j s, (j, s) ∈ ws -> s ∈ B') ->
  q !! id = Some k -> sent_as libs Zip st ct k sq m -> answer_ok sm m a ->
  book o q B' (set_pending (delete sq (pending c)) c) ws (Took (received (response_msg m a) frame) id) late fs.
Proof.
  intros [H1 H2 H3 H4 H5 H6 H7 H8 H9 [H10 H10'] H11 H12] Hp HsB HB Hn Hws Hq Hs Ha.
  assert (forall s j, delete sq (pending c) !! s = Some j -> pending c !! s = Some j /\ j <> id) as Hdel.
  { intros s j Hs'. apply lookup_delete_Some in Hs' as [Hne Hs']. split; [done|]. intros ->.
    apply Hne. by apply (H4 sq s id); apply H7. }
  assert (forall j, is_pending (set_pending (delete sq (pending c)) c) j -> is_pending c j /\ j <> id) as Hpend.
  { intros j [s Hs']. destruct (Hdel s j Hs'). split; [by exists s|done]. }
  assert (forall j, is_late late j -> j <> id) as Hlate.
  { intros j [e He] ->. destruct (H10' id e He) as (_ & Hx & _). apply Hx. by exists sq. }
  split; cbn; try done.
  - intros s j Hs'. by apply H7, Hdel.
  - intros s j k1 Hs' Hp' Hk1 _. apply (H8 s j k1); [by apply HB|by apply Hdel|done|done].
  - intros res j [= <- <-]. split; [intros Hx; by apply Hpend in Hx as [_ ?]|]. split; [intros Hx; by apply Hlate in Hx|].
    split; [intros k1 Hk1; by apply (H8 sq id k1)|]. exists sq, k, m, a, frame. split; [by apply H7|done].
  - split; [done|]. intros j e Hin. destruct (H10' j e Hin) as (? & Hx & ?). split; [done|]. split; [|done].
    intros Hx'. by apply Hx, Hpend.
  - intros j s Hin. split; [by eapply Hws|]. by apply H11.
  - intros j k1 Hk1. destruct (H12 j k1 Hk1) as [[Hu Hh]|[(Hans & Hh & Hw)|Hf]]; [left|right; left|by right; right].
    + split; [done|]. destruct (decide (j = id)) as [->|Hne]; [right; left; by eexists|].
      destruct Hh as [[s Hs']|[[res ?]|Hl]]; [|done|by right; right]. left. exists s. apply lookup_delete_Some.
      split; [|done]. intros <-. congruence.
    + split; [done|]. split; [|done]. intros [Hx|[[res Hx]|Hx]]; apply Hh.
      * left. by apply Hpend.
      * injection Hx as _ <-. left. by exists sq.
      * right. by right.
Qed.

(** It completes the call. *)
Lemma book_finish o q B c ws res id late fs k k' err :
  book o q B c ws (Took res id) late fs -> calls c !! id = Some k -> finish_response libs Unzip res k = (k', err) ->
  book o q B (update_call id (fun _ => k') c) ws (match err with None => Reading | Some e => Ending e end) late fs.
Proof.
  intros [H1 H2 H3 H4 H5 H6 H7 H8 H9 H10 H11 H12] Hk Hf. set (lp := match err with None => Reading | Some e => Ending e end).
  assert (lp <> Ended /\ forall j, ~ is_took lp j) as [Hlp Hnt] by (unfold lp; destruct err; split; (done || by intros j [? ?])).
  destruct (H9 res id eq_refl) as (Hnp & Hnl & Hu & sq & k0 & m & a & frame & Ho & HsB & Hq & Hs & Ha & ->).
  destruct (H5 _ _ Hk) as (k0' & Hq' & Hin). rewrite Hq in Hq'. injection Hq' as <-.
  apply (sent_as_inputs k0 k) in Hs; [|done]. specialize (Hu k Hk).
  assert (same_inputs k k' /\ answered_once libs Zip Unzip st ct sm k') as [Hin' Hans].
  { destruct a as [r rm|]; [by eapply finish_reply|by eapply finish_echo]. }
  assert (forall j k1, alter (fun _ => k') id (calls c) !! j = Some k1 -> j = id /\ k1 = k' \/ j <> id /\ calls c !! j = Some k1) as Hcases.
  { intros j k1 Hj. destruct (decide (j = id)) as [->|Hne]; [left|right; by rewrite lookup_alter_ne in Hj].
    rewrite lookup_alter_eq, Hk in Hj. by injection Hj as <-. }
  split; cbn; try done.
  - intros j k1 Hj. destruct (Hcases j k1 Hj) as [[-> ->]|[_ Hj']]; [|by apply H5]. exists k0. split; [done|].
    destruct Hin as (? & ? & ? & ? & ?), Hin' as (? & ? & ? & ? & ?). repeat split; congruence.
  - intros j Hj. destruct (H6 j Hj) as [k1 Hk1]. destruct (decide (j = id)) as [->|Hne];
      [rewrite lookup_alter_eq, Hk; by eexists|rewrite lookup_alter_ne by done; by eexists].
  - intros s j k1 Hs' Hp Hj _. destruct (Hcases j k1 Hj) as [[-> _]|[_ Hj']]; [destruct Hnp; by exists s|].
    by apply (H8 s j k1).
  - intros res j Hx. by destruct (Hnt j); exists res.
  - intros j k1 Hj. destruct (Hcases j k1 Hj) as [[-> ->]|[Hne Hj']].
    + right. left. split; [done|]. split; [intros [?|[Hx|?]]; [done|by apply Hnt in Hx|done]|].
      intros s Hin2. destruct (H11 _ _ Hin2) as [HsB' Ho']. by rewrite (H4 s sq id Ho' Ho) in HsB'.
    + destruct (H12 j k1 Hj') as [[Hu1 Hh]|[(Ha1 & Hh & Hw)|Hf1]]; [left|right; left|by right; right].
      * split; [done|]. destruct Hh as [?|[[res [= _ <-]]|?]]; [by left|done|by right; right].
      * split; [done|]. split; [|done]. intros [?|[Hx|?]]; [apply Hh; by left|by apply Hnt in Hx|apply Hh; right; by right].
Qed.

(** The loop meets an error. *)
Lemma book_ending o q B c ws late fs e : book o q B c ws Reading late fs -> book o q B c ws (Ending e) late fs.
Proof.
  intros [H1 H2 H3 H4 H5 H6 H7 H8 H9 H10 H11 H12]. split; try done.
  - intros s j k Hs Hp Hk _. by apply (H8 s j k).
  - intros j k Hk. destruct (H12 j k Hk) as [[Hu Hh]|[(Ha & Hh & Hw)|Hf]]; [left|right; left|by right; right].
    + split; [done|]. destruct Hh as [?|[[res ?]|?]]; [by left|done|by right; right].
    + split; [done|]. split; [|done]. intros [?|[[res ?]|?]]; [apply Hh; by left|done|apply Hh; right; by right].
Qed.

(** Every pending call fails, at the end of the loop or in [close]. *)
Lemma book_sweep o q B c ws lp lp' late fs e p' cl sd w :
  book o q B c ws lp late fs -> (forall id, explained fs id (Some e)) ->
  (p' = pending c /\ lp' = Ended /\ (forall id, ~ is_took lp id)) \/ (p' = ∅ /\ lp' = lp) ->
  book o q B (mkClient (serializeType c) (compressType c) (seq c) p' cl sd
    (complete_all (set_Error (Some e)) (pending c) (calls c)) w) ws lp' late fs.
Proof.
  intros [H1 H2 H3 H4 H5 H6 H7 H8 H9 [H10 H10'] H11 H12] He Hp'.
  assert (injective_map (pending c)) as Hinj by (intros s1 s2 id Hs1 Hs2; apply (H4 s1 s2 id); by apply H7).
  assert (forall id k, complete_all (set_Error (Some e)) (pending c) (calls c) !! id = Some k ->
    is_pending c id /\ (exists k0, calls c !! id = Some k0 /\ k = done_call (set_Error (Some e) k0)) \/
    ~ is_pending c id /\ calls c !! id = Some k) as Hcases.
  { intros id k Hk. destruct (complete_all_lookup (set_Error (Some e)) (pending c) (calls c) id Hinj) as [Hin Hout].
    destruct (pending_or (pending c) id) as [Hex|Hnex].
    - rewrite Hin in Hk by done. destruct (calls c !! id) as [k0|]; [|done]. injection Hk as <-. left. eauto.
    - rewrite Hout in Hk by done. right. split; [intros [s Hs]; by apply (Hnex s)|done]. }
  assert (forall id, is_pending c id -> forall k, calls c !! id = Some k -> failed fs id (done_call (set_Error (Some e) k))) as Hfail.
  { intros id Hp k Hk. destruct (status_failing _ _ _ _ _ _ _ (H12 id k Hk) (or_introl (or_introl Hp))) as [(? & ? & ? & ?)|(? & ? & ? & _)];
      (split; [cbn; lia|]; split; [done|]; split; [done|apply He]). }
  assert (forall s id, p' !! s = Some id -> pending c !! s = Some id /\ lp' = Ended) as Hsub
    by (intros s id Hs; destruct Hp' as [(-> & -> & _)|[-> _]]; [done|by rewrite lookup_empty in Hs]).
  split; cbn; try done.
  - intros id k Hk. destruct (Hcases id k Hk) as [[_ (k0 & Hk0 & ->)]|[_ Hk0]]; exact (H5 _ _ Hk0).
  - intros id Hq. destruct (H6 id Hq) as [k Hk].
    destruct (complete_all_lookup (set_Error (Some e)) (pending c) (calls c) id Hinj) as [Hin Hout].
    destruct (pending_or (pending c) id) as [Hex|Hnex]; [rewrite Hin, Hk by done|rewrite Hout, Hk by done]; by eexists.
  - intros s id Hs. by apply H7, (Hsub s id).
  - intros s id k _ Hs _ Hlp. by destruct (Hsub s id Hs).
  - intros res id Hlp. destruct Hp' as [(_ & -> & _)|[-> ->]]; [discriminate|].
    destruct (H9 res id Hlp) as (Hnp & Hl & Hu & Hr). split; [intros [s Hs]; cbn in Hs; by rewrite lookup_empty in Hs|]. split; [done|].
    split; [|done]. intros k Hk. destruct (Hcases id k Hk) as [[? _]|[_ Hk0]]; [done|by apply Hu].
  - split; [done|]. intros id err Hin. destruct (H10' id err Hin) as (? & Hn & ?). split; [done|]. split; [|done].
    intros [s Hs]. apply Hn. exists s. by apply (Hsub s id).
  - intros id k Hk. destruct (Hcases id k Hk) as [[Hp (k0 & Hk0 & ->)]|[Hnp Hk0]]; [right; right; by apply Hfail|].
    assert (forall j, is_took lp' j -> is_took lp j) as Htook by (destruct Hp' as [(_ & -> & _)|[_ ->]]; [by intros j [? ?]|done]).
    destruct (H12 id k Hk0) as [[Hu Hh]|[(Ha & Hh & Hw)|Hf]]; [left|right; left|by right; right].
    + split; [done|]. destruct Hh as [?|[Ht|?]]; [done| |by right; right]. right. left.
      destruct Hp' as [(_ & _ & Hnt)|[_ ->]]; [by destruct (Hnt id)|done].
    + split; [done|]. split; [|done]. intros [[s Hs]|[Ht|?]]; apply Hh; [left; exists s; by apply (Hsub s id)|right; left; by apply Htook|right; by right].
Qed.

(** *** Moves of the streams *)

Lemma wires_engaged t o q ws up hs s down x : wires t o q ws up hs s down -> x ∈ engaged t hs ws -> is_Some (o !! x).
Proof.
  intros Hw [Hx|Hx]%elem_of_app.
  - apply list_elem_of_fmap in Hx as ([id sq] & -> & Hin). cbn. rewrite (w_writing _ _ _ _ _ _ _ _ Hw id sq Hin). by eexists.
  - apply list_elem_of_fmap in Hx as (m & -> & Hm). destruct (w_requests _ _ _ _ _ _ _ _ Hw m Hm) as (id & k & -> & _). by eexists.
Qed.

Lemma writing_engaged t hs ws id sq : (id, sq) ∈ ws -> sq ∈ engaged t hs ws.
Proof. intros Hin. apply elem_of_app. left. apply list_elem_of_fmap. by exists (id, sq). Qed.

(** The owner and the call of a new number. *)
Lemma wires_send t o q ws up hs s down sq id k :
  wires t o q ws up hs s down -> o !! sq = None -> q !! id = None ->
  wires t (<[sq := id]> o) (<[id := k]> q) (ws ++ [(id, sq)]) up hs s down.
Proof.
  intros Hw Ho Hq. pose proof Hw as [H1 H2 H3 H4 H5 H6 H7].
  assert (forall x, x ∈ engaged t hs ws -> x <> sq) as Hne
    by (intros x Hx ->; destruct (wires_engaged _ _ _ _ _ _ _ _ _ Hw Hx); congruence).
  split; try done.
  - intros m Hm. destruct (H3 m Hm) as (j & k1 & Hj & Hk1 & Hs). exists j, k1.
    rewrite !lookup_insert_ne by congruence. done.
  - intros j x Hin. apply elem_of_app in Hin as [Hin|Hin%list_elem_of_singleton].
    + rewrite lookup_insert_ne; [by apply H4|]. apply not_eq_sym, Hne. by eapply writing_engaged.
    + injection Hin as -> ->. apply lookup_insert_eq.
  - assert (engaged t hs (ws ++ [(id, sq)]) ≡ₚ sq :: engaged t hs ws) as ->
      by (unfold engaged; rewrite fmap_app; cbn; solve_Permutation).
    apply NoDup_cons. split; [|done]. intros Hx. by destruct (Hne sq Hx).
Qed.

Lemma wires_made t o q ws up hs s down id k :
  wires t o q ws up hs s down -> q !! id = None -> wires t o (<[id := k]> q) ws up hs s down.
Proof.
  intros [H1 H2 H3 H4 H5 H6 H7] Hq. split; try done. intros m Hm. destruct (H3 m Hm) as (j & k1 & Hj & Hk1 & Hs). exists j, k1.
  rewrite (lookup_insert_ne _ id) by congruence. done.
Qed.

Lemma engaged_drop t hs l1 id sq l2 : engaged t hs (l1 ++ (id, sq) :: l2) ≡ₚ sq :: engaged t hs (l1 ++ l2).
Proof. unfold engaged. rewrite !fmap_app. cbn. solve_Permutation. Qed.

(** A writer gives up. *)
Lemma wires_drop t o q l1 id sq l2 up hs s down :
  wires t o q (l1 ++ (id, sq) :: l2) up hs s down -> wires t o q (l1 ++ l2) up hs s down /\ sq ∉ engaged t hs (l1 ++ l2).
Proof.
  intros [H1 H2 H3 H4 H5 H6 H7]. rewrite engaged_drop in H5. apply NoDup_cons in H5 as [Hn H5]. split; [|done].
  split; try done. intros j x Hin. apply H4. rewrite elem_of_app in *. rewrite elem_of_cons. tauto.
Qed.

(** A writer writes. *)
Lemma wires_write t o q l1 id sq l2 up hs s down m frame k :
  wires t o q (l1 ++ (id, sq) :: l2) up hs s down -> decodes m frame -> q !! id = Some k -> sent_as libs Zip st ct k sq m ->
  let t' := mkFlight (f_up t ++ [(m, frame)]) (f_down t) in
  wires t' o q (l1 ++ l2) (up ++ frame) hs s down /\ engaged t' hs (l1 ++ l2) ≡ₚ engaged t hs (l1 ++ (id, sq) :: l2).
Proof.
  intros Hw Hd Hq Hs t'. pose proof Hw as [[H1 H1'] H2 H3 H4 H5 H6 H7]. destruct (sent_as_seq k sq m Hs) as (Hseq & _).
  assert (o !! sq = Some id) as Ho by (apply H4; rewrite elem_of_app, elem_of_cons; tauto).
  assert (engaged t' hs (l1 ++ l2) ≡ₚ engaged t hs (l1 ++ (id, sq) :: l2)) as Hperm.
  { rewrite engaged_drop. unfold engaged, flying, t'. cbn. rewrite !fmap_app. cbn. rewrite Hseq. solve_Permutation. }
  split; [|done]. split; try done; cbn.
  - rewrite fmap_app, concat_app, H1. cbn. rewrite app_nil_r. split; [done|]. apply Forall_app. split; [done|]. by apply Forall_singleton.
  - intros m' Hm'. unfold flying in *. cbn in Hm'. rewrite fmap_app, !elem_of_app in Hm'. cbn in Hm'. rewrite list_elem_of_singleton in Hm'.
    destruct Hm' as [[?| ->]|?]; [apply H3; rewrite !elem_of_app; tauto| |apply H3; rewrite !elem_of_app; tauto].
    exists id, k. by rewrite Hseq.
  - intros j x Hin. apply H4. rewrite elem_of_app in *. rewrite elem_of_cons. tauto.
  - by rewrite Hperm.
Qed.

(** The server reads. *)
Lemma wires_read t o q ws up hs s down got e req up' :
  wires t o q ws up hs s down -> clean got -> Decode 0 (got, mkReader up e) = ((req, mkReader up' e), Val tt) ->
  exists t', wires t' o q ws up' (hs ++ [req]) s down /\ engaged t' (hs ++ [req]) ws ≡ₚ engaged t hs ws.
Proof.
  intros [[H1 H1'] H2 H3 H4 H5 H6 H7] Hg HD. subst up. destruct t as [[|[m frame] us] ds]; cbn in *; [by apply Decode_empty in HD|].
  apply Forall_cons in H1' as [Hd H1']. apply (decodes_head m frame) in HD; [|done..]. simplify_eq.
  exists (mkFlight us ds).
  assert (engaged (mkFlight us ds) (hs ++ [received m frame]) ws ≡ₚ engaged (mkFlight ((m, frame) :: us) ds) hs ws) as Hperm.
  { unfold engaged, flying. cbn. rewrite !fmap_app. cbn. change (seq_of (received m frame)) with (seq_of m). solve_Permutation. }
  split; [|done]. split; try done; cbn.
  - intros m' Hm'. unfold flying in *. cbn in *. rewrite !elem_of_app, list_elem_of_singleton in Hm'.
    destruct Hm' as [?|[[?| ->]|?]]; [apply H3; rewrite elem_of_cons, !elem_of_app; tauto..| |apply H3; rewrite elem_of_cons, !elem_of_app; tauto].
    destruct (H3 m) as (id & k & Ho & Hk & Hs); [rewrite elem_of_cons; by left|]. exists id, k.
    split; [done|]. split; [done|]. by apply sent_as_received.
  - by rewrite Hperm.
Qed.

(** A handler ends; its answer is written or lost. *)
Lemma wires_handle t o q ws up l1 req l2 s down choice h s' :
  wires t o q ws up (l1 ++ req :: l2) s down -> serve_request libs iterate choice h req s = Val s' ->
  (exists x, (x ∉ engaged t (l1 ++ l2) ws) /\ engaged t (l1 ++ req :: l2) ws ≡ₚ x :: engaged t (l1 ++ l2) ws) /\
  wires t o q ws up (l1 ++ l2) s' down /\
  forall frame, env_written s' = env_written s ++ [frame] -> len frame - 16 < 2 ^ 32 ->
    exists t', wires t' o q ws up (l1 ++ l2) s' (down ++ frame) /\ engaged t' (l1 ++ l2) ws ≡ₚ engaged t (l1 ++ req :: l2) ws.
Proof.
  intros [H1 [H2 H2'] H3 H4 H5 H6 [H7 H7']] HS.
  destruct (H3 req) as (id & k & Ho & Hk & Hs); [unfold flying; rewrite !elem_of_app, elem_of_cons; tauto|].
  destruct (handle_answer choice h k (seq_of req) req s s' Hs H6 H7 HS) as (Hpool & Hwf & Hsame & a & Ha & Hframe).
  assert (engaged t (l1 ++ req :: l2) ws ≡ₚ seq_of req :: engaged t (l1 ++ l2) ws) as Hperm
    by (unfold engaged, flying; rewrite !fmap_app; cbn; solve_Permutation).
  assert (same_services sm (env_services s')) as Hsame' by (by transitivity (env_services s)).
  assert (NoDup (seq_of req :: engaged t (l1 ++ l2) ws)) as Hnd by (by rewrite <- Hperm).
  assert (forall m, m ∈ flying t (l1 ++ l2) -> m ∈ flying t (l1 ++ req :: l2)) as Hsub
    by (intros m; unfold flying; rewrite !elem_of_app, elem_of_cons; tauto).
  split; [exists (seq_of req); apply NoDup_cons in Hnd as [? _]; done|]. split.
  - split; try done; [intros m Hm; by apply H3, Hsub|by apply NoDup_cons in Hnd as [_ ?]].
  - intros frame Hfr Hl. exists (mkFlight (f_up t) (f_down t ++ [(req, a, frame)])).
    assert (engaged (mkFlight (f_up t) (f_down t ++ [(req, a, frame)])) (l1 ++ l2) ws ≡ₚ seq_of req :: engaged t (l1 ++ l2) ws) as Hperm'
      by (unfold engaged, flying; cbn; rewrite !fmap_app; cbn; solve_Permutation).
    split; [|by rewrite Hperm', Hperm]. split; try done; cbn.
    + rewrite fmap_app, concat_app, H2. cbn. rewrite app_nil_r. split; [done|]. apply Forall_app. split; [done|].
      apply Forall_singleton. cbn. split; [by apply Hframe|]. destruct a; cbn in *; [|done].
      destruct Ha as [? Hout]. split; [done|]. by rewrite H7'.
    + intros m Hm. apply H3. unfold flying in *. cbn in Hm. rewrite !fmap_app in Hm. cbn in Hm.
      rewrite !elem_of_app, list_elem_of_singleton in Hm. rewrite !elem_of_app, elem_of_cons. destruct Hm as [?|[[?|?]|[?| ->]]]; tauto.
    + by rewrite Hperm'.
Qed.

(** The client reads an answer. *)
Lemma wires_answer t o q ws up hs s down got e res down' :
  wires t o q ws up hs s down -> clean got -> Decode 0 (got, mkReader down e) = ((res, mkReader down' e), Val tt) ->
  exists t' m a frame id k, res = received (response_msg m a) frame /\ answer_ok sm m a /\
    o !! seq_of m = Some id /\ q !! id = Some k /\ sent_as libs Zip st ct k (seq_of m) m /\
    wires t' o q ws up hs s down' /\ (seq_of m ∉ engaged t' hs ws) /\ engaged t hs ws ≡ₚ seq_of m :: engaged t' hs ws.
Proof.
  intros [H1 [H2 H2'] H3 H4 H5 H6 H7] Hg HD. subst down. destruct t as [us [|[[m a] frame] ds]]; cbn in *; [by apply Decode_empty in HD|].
  apply Forall_cons in H2' as [[Hd Ha] H2']. cbn in Hd, Ha. apply (decodes_head (response_msg m a) frame) in HD; [|done..]. simplify_eq.
  destruct (H3 m) as (id & k & Ho & Hk & Hs); [unfold flying; cbn; rewrite !elem_of_app, elem_of_cons; tauto|].
  assert (engaged (mkFlight us ((m, a, frame) :: ds)) hs ws ≡ₚ seq_of m :: engaged (mkFlight us ds) hs ws) as Hperm
    by (unfold engaged, flying; cbn; rewrite !fmap_app; cbn; solve_Permutation).
  rewrite Hperm in H5. apply NoDup_cons in H5 as [Hn H5].
  exists (mkFlight us ds), m, a, frame, id, k. do 5 (split; [done|]). split; [|done]. split; try done; cbn.
  intros m' Hm'. apply H3. unfold flying in *. cbn in *. rewrite !elem_of_app in *. rewrite elem_of_cons. tauto.
Qed.

(** *** Every step keeps the invariant *)

Definition link_inv (n : link value) : Prop :=
  exists t o q, wires t o q (lk_writing n) (lk_up n) (lk_handlers n) (lk_env n) (lk_down n) /\
    book o q (engaged t (lk_handlers n) (lk_writing n)) (lk_client n) (lk_writing n) (lk_loop n) (lk_late n) (lk_faults n).

(** The same books, for the same numbers on their way or fewer. *)
Lemma book_same o q B B' c ws lp late fs :
  book o q B c ws lp late fs -> B' ≡ₚ B -> book o q B' c ws lp late fs.
Proof.
  intros Hb HB. rewrite <- (app_nil_r fs). apply (book_less o q B B' c ws ws lp late fs []); [done|done| |].
  - intros x. by rewrite HB.
  - intros id sq Hin. rewrite HB. by apply (b_writing _ _ _ _ _ _ _ _ Hb id sq).
Qed.

Lemma book_written o q B c ws lp late fs w :
  book o q B c ws lp late fs ->
  book o q B (mkClient (serializeType c) (compressType c) (seq c) (pending c) (closing c) (shutdown c) (calls c) w) ws lp late fs.
Proof. intros [H1 H2 H3 H4 H5 H6 H7 H8 H9 H10 H11 H12]. by split. Qed.

(** A writer is done; its number may still be on its way. *)
Lemma book_drop o q t hs l1 id sq l2 c lp late fs fs' B :
  book o q (engaged t hs (l1 ++ (id, sq) :: l2)) c (l1 ++ (id, sq) :: l2) lp late fs ->
  (forall x, x ∈ B -> x ∈ engaged t hs (l1 ++ (id, sq) :: l2)) -> (forall x, x ∈ engaged t hs (l1 ++ l2) -> x ∈ B) ->
  book o q B c (l1 ++ l2) lp late (fs ++ fs').
Proof.
  intros Hb HB HB'. eapply book_less; [exact Hb| |exact HB|].
  - intros x. rewrite !elem_of_app, elem_of_cons. tauto.
  - intros j s Hin. apply HB'. by eapply writing_engaged.
Qed.

(** Taking a call off the map for a fault. *)
Lemma book_take_call o q B c ws lp late fs sq c' ob err (f : nat -> fault) :
  book o q B c ws lp late fs -> take_call sq c = (c', ob) -> (forall id, cause (f id) id err) ->
  book o q B c' ws lp (late ++ late_of err ob) (fs ++ faults_of f ob).
Proof.
  intros Hb [= <- <-] Hc. destruct (pending c !! sq) as [id|] eqn:Hp; cbn.
  - apply book_take; [|done|by apply explained_last].
    apply (book_less o q B B c ws ws lp late fs [f id]); [done|done|done|apply (b_writing _ _ _ _ _ _ _ _ Hb)].
  - rewrite !app_nil_r. by apply book_take_none.
Qed.

Lemma unencodable_inv t o q c l1 id sq l2 up hs s down lp late fs k e :
  wires t o q (l1 ++ (id, sq) :: l2) up hs s down ->
  book o q (engaged t hs (l1 ++ (id, sq) :: l2)) c (l1 ++ (id, sq) :: l2) lp late fs -> calls c !! id = Some k ->
  book o q (engaged t hs (l1 ++ l2)) (update_call id (fun k => done_call (set_Error (Some e) k)) c) (l1 ++ l2) lp late (fs ++ [Unsent id e]).
Proof.
  intros Hw Hb Hk. destruct (wires_drop _ _ _ _ _ _ _ _ _ _ _ Hw) as [Hw' Hn].
  assert ((id, sq) ∈ l1 ++ (id, sq) :: l2) as Hin by (apply elem_of_app; right; by constructor).
  destruct (b_writing _ _ _ _ _ _ _ _ Hb id sq Hin) as [_ Ho].
  assert (untouched k \/ failed fs id k) as Hcase by (eapply status_failing; [by apply (b_calls _ _ _ _ _ _ _ _ Hb)|right; by exists sq]).
  apply (book_drop _ _ _ _ _ _ _ _ _ _ _ _ [Unsent id e] (engaged t hs (l1 ++ l2))) in Hb as Hb'; [|intros x; rewrite engaged_drop, elem_of_cons; tauto|done].
  apply book_fail; [done| | | |done|].
  - intros s' Hs' Hp. apply Hn. rewrite (b_inj _ _ _ _ _ _ _ _ Hb sq s' id Ho (b_pending _ _ _ _ _ _ _ _ Hb _ _ Hp)). done.
  - intros [res Hlp]. destruct (b_took _ _ _ _ _ _ _ _ Hb res id Hlp) as (_ & _ & _ & sq' & ? & ? & ? & ? & Ho' & Hn' & _).
    apply Hn'. rewrite (b_inj _ _ _ _ _ _ _ _ Hb sq' sq id Ho' Ho). by eapply writing_engaged.
  - intros k1 Hk1 Hc1. assert (0 <= cl_done k1 /\ cl_reply k1 = None /\ cl_resMetadata k1 = None) as (H1 & H2 & H3)
      by (destruct Hc1 as [(? & ? & ? & ?)|(? & ? & ? & _)]; repeat split; (done || lia)).
    split; [cbn; lia|]. split; [done|]. split; [done|]. by apply explained_last.
  - intros k1 Hk1. rewrite Hk in Hk1. injection Hk1 as <-. destruct Hcase; [by left|right; by apply failed_mono].
Qed.

Lemma link_write_inv t o q c l1 id sq l2 up hs s down lp late fs got c' frame :
  wires t o q (l1 ++ (id, sq) :: l2) up hs s down ->
  book o q (engaged t hs (l1 ++ (id, sq) :: l2)) c (l1 ++ (id, sq) :: l2) lp late fs -> clean got ->
  send_write libs iterate Zip got None id sq c = Val c' -> written c' = written c ++ [frame] -> len frame - 16 < 2 ^ 32 ->
  exists t', wires t' o q (l1 ++ l2) (up ++ frame) hs s down /\ book o q (engaged t' hs (l1 ++ l2)) c' (l1 ++ l2) lp late fs.
Proof.
  intros Hw Hb Hg HW Hfr Hl. assert ((id, sq) ∈ l1 ++ (id, sq) :: l2) as Hin by (apply elem_of_app; right; by constructor).
  destruct (b_writing _ _ _ _ _ _ _ _ Hb id sq Hin) as [_ Ho]. destruct (b_owner _ _ _ _ _ _ _ _ Hb sq id Ho) as [Hsq Hq].
  destruct (b_exists _ _ _ _ _ _ _ _ Hb id Hq) as [k Hk]. destruct (b_made _ _ _ _ _ _ _ _ Hb id k Hk) as (k0 & Hk0 & Hin0).
  destruct (b_types _ _ _ _ _ _ _ _ Hb) as [E1 E2]. pose proof (b_seq _ _ _ _ _ _ _ _ Hb).
  destruct (write_sent got c id sq k c' frame Hg ltac:(lia) Hk HW Hfr) as (-> & m & Hs & Hd). rewrite E1, E2 in Hs.
  assert (sent_as libs Zip st ct k0 sq m) as Hs0
    by (apply (sent_as_inputs k k0); [by destruct Hin0 as (? & ? & ? & ? & ?)|done]).
  destruct (wires_write t o q l1 id sq l2 up hs s down m frame k0 Hw (Hd Hl) Hk0 Hs0) as [Hw' Hperm].
  eexists. split; [exact Hw'|]. apply book_written. rewrite <- (app_nil_r fs). eapply book_drop; [exact Hb| |].
  - intros x. by rewrite Hperm.
  - intros x Hx. rewrite Hperm, engaged_drop. by apply elem_of_cons; right.
Qed.

Lemma link_take_inv t o q c ws up hs s down late fs got e res down' c' ob :
  wires t o q ws up hs s down -> book o q (engaged t hs ws) c ws Reading late fs -> clean got ->
  Decode 0 (got, mkReader down e) = ((res, mkReader down' e), Val tt) -> take_response res c = (c', ob) ->
  exists t', wires t' o q ws up hs s down' /\
    book o q (engaged t' hs ws) c' ws (match ob with Some id => Took res id | None => Reading end) late fs.
Proof.
  intros Hw Hb Hg HD Htake.
  destruct (wires_answer _ _ _ _ _ _ _ _ _ _ _ _ Hw Hg HD) as (t' & m & a & frame & id & k & -> & Ha & Ho & Hq & Hs & Hw' & Hn & Hperm).
  rewrite (take_answer k (seq_of m) m a frame c Hs) in Htake. injection Htake as <- <-. exists t'. split; [done|].
  assert (forall x, x ∈ engaged t' hs ws -> x ∈ engaged t hs ws) as Hsub by (intros x Hx; rewrite Hperm; by apply elem_of_cons; right).
  destruct (pending c !! seq_of m) as [id'|] eqn:Hp.
  - assert (id' = id) as -> by (apply (b_pending _ _ _ _ _ _ _ _ Hb) in Hp; congruence).
    eapply book_response; [exact Hb|exact Hp|rewrite Hperm; by constructor|exact Hsub|exact Hn| |exact Hq|exact Hs|exact Ha].
    intros j x Hin. by eapply writing_engaged.
  - apply book_take_none; [|done]. rewrite <- (app_nil_r fs). eapply book_less; [exact Hb|done|exact Hsub|].
    intros j x Hin. by eapply writing_engaged.
Qed.

(** The end of the loop, and [close]. *)
Lemma book_end o q B c ws late fs e :
  book o q B c ws (Ending e) late fs -> book o q B (finish_responses (Some e) c) ws Ended late (fs ++ [Broken (end_error e c)]).
Proof.
  intros Hb. apply (book_less o q B B c ws ws _ late fs [Broken (end_error e c)]) in Hb as Hb'; [|done|done|apply (b_writing _ _ _ _ _ _ _ _ Hb)].
  replace (finish_responses (Some e) c) with (mkClient (serializeType c) (compressType c) (seq c) (pending c) (closing c) true
    (complete_all (set_Error (Some (end_error e c))) (pending c) (calls c)) (written c))
    by (unfold finish_responses, end_error; by destruct e).
  eapply book_sweep; [exact Hb'|intros id; by apply explained_last|]. left. split; [done|]. split; [done|]. by intros id [? ?].
Qed.

Lemma book_close o q B c ws lp late fs :
  book o q B c ws lp late fs -> book o q B (close c).1 ws lp late (fs ++ [ClosedDown]).
Proof.
  intros Hb. apply (book_less o q B B c ws ws lp late fs [ClosedDown]) in Hb as Hb'; [|done|done|apply (b_writing _ _ _ _ _ _ _ _ Hb)].
  unfold close. destruct (closing c || shutdown c); cbn [fst];
    (eapply book_sweep; [exact Hb'|intros id; by apply explained_last|by right]).
Qed.

Lemma link_step_inv n n' :
  link_inv n -> link_step libs iterate Zip Unzip n n' -> lk_over n' = false -> link_inv n'.
Proof.
  intros (t & o & q & Hw & Hb) Hstep Hov.
  destruct Hstep as [c ws fr up hs s down lp late fs ov id k c' sq Hid Hk HS
    |c ws fr up hs s down lp late fs ov id k c' Hid Hk HS
    |c l1 id sq l2 fr up hs s down lp late fs ov got c' frame Hg HW Hfr
    |c l1 id sq l2 fr up hs s down lp late fs ov got k c' e Hg Hk Hbuild HW
    |c l1 id sq l2 fr up hs s down lp late fs ov got k req c' ob e Hg Hk Hbuild Htake
    |c ws l1 sq l2 up hs s down lp late fs ov freed How
    |c ws l1 sq l2 up hs s down lp late fs ov freed c' ob How Htake
    |c ws fr up hs s down lp late fs ov got e req up' Hg HD
    |c ws fr up l1 req l2 s down lp late fs ov choice h s' frame HS HW
    |c ws fr up l1 req l2 s down lp late fs ov choice h s' HS
    |c ws fr up hs s down late fs ov got e res down' c' ob Hg HD Htake
    |c ws fr up hs s down late fs ov res id k k' err Hk Hf
    |c ws fr up hs s down late fs ov e
    |c ws fr up hs s down late fs ov e
    |c ws fr up hs s down lp late fs ov e c' ob Htake
    |c ws fr up hs s down lp late fs ov
    |c ws fr up hs s down lp l1 id err l2 fs ov];
    unfold link_inv; cbn in Hw, Hb, Hov |- *.
  - apply orb_false_iff in Hov as [_ Hov]. apply Z.leb_gt in Hov.
    destruct (book_send o q _ (engaged t hs (ws ++ [(id, sq)])) c ws lp late fs id k c' sq Hb Hid Hk ltac:(lia) HS) as (_ & Ho & Hq & Hb').
    { intros x. unfold engaged. rewrite fmap_app. cbn. rewrite !elem_of_app, list_elem_of_singleton. tauto. }
    exists t, (<[sq := id]> o), (<[id := k]> q). split; [by apply wires_send|done].
  - destruct (book_refuse o q _ c ws lp late fs id k c' Hb Hid Hk HS) as [Hq Hb'].
    exists t, o, (<[id := k]> q). split; [by apply wires_made|done].
  - apply orb_false_iff in Hov as [_ Hov]. apply Z.leb_gt in Hov.
    destruct (link_write_inv _ _ _ _ _ _ _ _ _ _ _ _ _ _ _ _ _ _ Hw Hb Hg HW Hfr ltac:(lia)) as (t' & Hw' & Hb'). by exists t', o, q.
  - destruct (wires_drop _ _ _ _ _ _ _ _ _ _ _ Hw) as [Hw' _]. exists t, o, q. split; [done|].
    unfold send_write in HW. rewrite Hk, Hbuild in HW. injection HW as <-. by eapply unencodable_inv.
  - destruct (wires_drop _ _ _ _ _ _ _ _ _ _ _ Hw) as [Hw' _]. exists t, o, q. split; [done|].
    eapply book_take_call; [|exact Htake|done]. rewrite <- (app_nil_r fs). eapply book_drop; [exact Hb| |done].
    intros x. rewrite engaged_drop, elem_of_cons. tauto.
  - exists t, o, q. by split.
  - exists t, o, q. split; [done|]. by eapply book_take_call.
  - destruct (wires_read _ _ _ _ _ _ _ _ _ _ _ _ Hw Hg HD) as (t' & Hw' & Hperm). exists t', o, q. split; [done|by eapply book_same].
  - apply orb_false_iff in Hov as [_ Hov]. apply Z.leb_gt in Hov.
    destruct (wires_handle _ _ _ _ _ _ _ _ _ _ _ _ _ Hw HS) as (_ & _ & Hfr).
    destruct (Hfr frame HW ltac:(lia)) as (t' & Hw' & Hperm). exists t', o, q. split; [done|by eapply book_same].
  - destruct (wires_handle _ _ _ _ _ _ _ _ _ _ _ _ _ Hw HS) as ((x & _ & Hperm) & Hw' & _). exists t, o, q. split; [done|].
    rewrite <- (app_nil_r fs). eapply book_less; [exact Hb|done| |].
    + intros y Hy. rewrite Hperm. by apply elem_of_cons; right.
    + intros j y Hin. by eapply writing_engaged.
  - destruct (link_take_inv _ _ _ _ _ _ _ _ _ _ _ _ _ _ _ _ _ Hw Hb Hg HD Htake) as (t' & Hw' & Hb'). by exists t', o, q.
  - exists t, o, q. split; [done|]. by eapply book_finish.
  - exists t, o, q. split; [done|]. by apply book_ending.
  - exists t, o, q. split; [done|]. by apply book_end.
  - exists t, o, q. split; [done|]. by eapply book_take_call.
  - exists t, o, q. split; [done|]. by apply book_close.
  - exists t, o, q. split; [done|]. by apply book_complete.
Qed.

Lemma link_over_mono n n' : link_step libs iterate Zip Unzip n n' -> lk_over n' = false -> lk_over n = false.
Proof. intros Hs. destruct Hs; cbn; try done; intros [? _]%orb_false_iff; done. Qed.

Lemma link_run_inv n n' :
  rtc (link_step libs iterate Zip Unzip) n n' -> lk_over n' = false -> link_inv n -> link_inv n'.
Proof.
  intros Hr Hov. induction Hr as [|a b d Hab Hbd IH]; [done|]. intros Ha. apply IH; [done|].
  apply (link_step_inv a b Ha Hab). clear - Hbd Hov. induction Hbd as [|x y z Hxy _ IHb]; [done|].
  eapply link_over_mono; [exact Hxy|by apply IHb].
Qed.
End invariant.

Lemma link_inv_init (s : env value) :
  Forall clean (env_pool s) -> services_wf nonascii_upper (env_services s) -> link_inv (env_services s) (new_link st ct s).
Proof.
  intros Hp Hs. exists (mkFlight [] []), ∅, ∅. split.
  - split; cbn; try done.
    + intros m Hm. by apply not_elem_of_nil in Hm.
    + intros id sq Hin. by apply not_elem_of_nil in Hin.
    + constructor.
  - split; cbn; try done; try lia.
    + split; [constructor|]. intros id err Hin. by apply not_elem_of_nil in Hin.
    + intros id sq Hin. by apply not_elem_of_nil in Hin.
Qed.

(** What is known of every call of a connection. *)
Lemma link_calls (s : env value) n :
  Forall clean (env_pool s) -> services_wf nonascii_upper (env_services s) ->
  rtc (link_step libs iterate Zip Unzip) (new_link st ct s) n -> lk_over n = false ->
  forall id k, calls (lk_client n) !! id = Some k ->
    held n id /\ untouched k \/
    ~ held n id /\ answered_once libs Zip Unzip st ct (env_services s) k \/
    failed (lk_faults n) id k.
Proof.
  intros Hp Hs Hr Hov id k Hk. destruct (link_run_inv (env_services s) _ _ Hr Hov (link_inv_init s Hp Hs)) as (t & o & q & _ & Hb).
  destruct (b_calls _ _ _ _ _ _ _ _ _ Hb id k Hk) as [[? ?]|[(? & ? & _)|?]]; [by left|by right; left|by right; right].
Qed.

(** C1.  Many calls at once, on a connection that may fail: any number of callers
    share a connection to a server that runs its handlers in any order, under
    every interleaving, with calls of every kind, failing writes, undecodable
    replies, broken streams, contexts that end, one-way bits of reused messages
    and [close].  In every reachable state each call is untouched and somewhere
    (pending, or with the goroutine that is about to complete it); or it has
    been completed exactly once, with what the server's contract prescribes for
    the request of that very call; or it has been completed without an answer,
    with the error of one of the things that have happened on the connection to
    that call or to all pending ones.  (Frames stay below 4 GiB and fewer than
    2^64 calls are made.) *)
Theorem link_answers_match (s : env value) n :
  Forall clean (env_pool s) -> services_wf nonascii_upper (env_services s) ->
  rtc (link_step libs iterate Zip Unzip) (new_link st ct s) n -> lk_over n = false ->
  forall id k, calls (lk_client n) !! id = Some k ->
    held n id /\ untouched k \/
    ~ held n id /\ answered_once libs Zip Unzip st ct (env_services s) k \/
    failed (lk_faults n) id k.
Proof. apply link_calls. Qed.
End link_proofs.

(** ** Witnesses *)

(** A codec that cannot decode one type of reply, and two callers: the reply of
    the first does not decode, which fails the second. *)
Definition odd_type : rtype := NonPtr (str "Odd") [] false false.
Definition odd_error : error := ExternalError (str "cannot decode").
Definition fussy_codec : Codec bytes rtype :=
  mkCodec (fun v => inl v) (fun data t => if str_eqb (t_Name t) (str "Odd") then inr odd_error else inl data).
Definition fussy_libs : codec_libs bytes rtype := mkLibs fussy_codec (lib_pb copy_libs) fussy_codec.
Definition odd_call : call_t bytes := new_call (str "Arith") (str "Echo") None (str "hello") odd_type.

Definition lw_c1 : client_t bytes := (send_register fussy_libs 0 odd_call (new_client JSON CompressNone)).1.
Definition lw_c2 : client_t bytes := (send_register fussy_libs 1 sample_call lw_c1).1.
Definition lw_c3 : client_t bytes :=
  match send_write fussy_libs list_iterate no_zip msgPool_New None 0 0 lw_c2 with Val c => c | _ => lw_c2 end.
Definition lw_frame : bytes := concat (written lw_c3).
Definition lw_req : Message := (Decode 0 (msgPool_New, mkReader lw_frame EOF)).1.1.
Definition lw_env : env bytes :=
  match serve_request fussy_libs list_iterate None (mkHook 0 0) lw_req sample_env with Val s => s | _ => sample_env end.
Definition lw_answer : bytes := concat (env_written lw_env).
Definition lw_res : Message := (Decode 0 (msgPool_New, mkReader lw_answer EOF)).1.1.
Definition lw_c4 : client_t bytes := (take_response lw_res lw_c3).1.
Definition lw_k : call_t bytes := (finish_response fussy_libs no_zip lw_res odd_call).1.
Definition lw_c5 : client_t bytes := update_call 0 (fun _ => lw_k) lw_c4.
Definition lw_c6 : client_t bytes := finish_responses (Some odd_error) lw_c5.
Definition broken_link : link bytes :=
  mkLink lw_c6 [(1%nat, 1)] [0] [] [] lw_env [] Ended [] [Broken odd_error] false.

Lemma broken_link_reachable :
  rtc (link_step fussy_libs list_iterate no_zip no_zip) (new_link JSON CompressNone sample_env) broken_link.
Proof.
  eapply rtc_l; [apply (link_send fussy_libs list_iterate no_zip no_zip (new_client JSON CompressNone) [] [] [] [] sample_env []
    Reading [] [] false 0%nat odd_call lw_c1 0); [reflexivity|by repeat split|vm_compute; reflexivity]|].
  eapply rtc_l; [apply (link_send fussy_libs list_iterate no_zip no_zip lw_c1 [(0%nat, 0)] [] [] [] sample_env []
    Reading [] [] false 1%nat sample_call lw_c2 1); [vm_compute; reflexivity|by repeat split|vm_compute; reflexivity]|].
  eapply rtc_l; [apply (link_write fussy_libs list_iterate no_zip no_zip lw_c2 [] 0%nat 0 [(1%nat, 1)] [] [] [] sample_env []
    Reading [] [] false msgPool_New lw_c3 lw_frame); [apply New_clean|vm_compute; reflexivity|vm_compute; reflexivity]|].
  eapply rtc_l; [apply (link_read fussy_libs list_iterate no_zip no_zip lw_c3 [(1%nat, 1)] [0] lw_frame [] sample_env []
    Reading [] [] _ msgPool_New EOF lw_req []); [apply New_clean|vm_compute; reflexivity]|].
  eapply rtc_l; [apply (link_handle fussy_libs list_iterate no_zip no_zip lw_c3 [(1%nat, 1)] [0] [] [] lw_req [] sample_env []
    Reading [] [] _ None (mkHook 0 0) lw_env lw_answer); [vm_compute; reflexivity|vm_compute; reflexivity]|].
  eapply rtc_l; [apply (link_take fussy_libs list_iterate no_zip no_zip lw_c3 [(1%nat, 1)] [0] [] [] lw_env lw_answer
    [] [] _ msgPool_New EOF lw_res [] lw_c4 (Some 0%nat)); [apply New_clean|vm_compute; reflexivity|vm_compute; reflexivity]|].
  eapply rtc_l; [apply (link_finish fussy_libs list_iterate no_zip no_zip lw_c4 [(1%nat, 1)] [0] [] [] lw_env []
    [] [] _ lw_res 0%nat odd_call lw_k (Some odd_error)); [vm_compute; reflexivity|vm_compute; reflexivity]|].
  eapply rtc_l; [apply (link_end fussy_libs list_iterate no_zip no_zip lw_c5 [(1%nat, 1)] [0] [] [] lw_env [] [] [] _ odd_error)|].
  apply rtc_refl.
Qed.

(** The second caller gets the error of the first one's reply. *)
Example undecodable_reply_fails_others :
  (cl_Error <$> calls lw_c6 !! 0%nat, cl_Error <$> calls lw_c6 !! 1%nat) =
  (Some (Some (ServiceError (str "cannot decode"))), Some (Some odd_error)).
Proof. vm_compute. reflexivity. Qed.

Lemma link_answers_match_witness :
  exists k, calls (lk_client broken_link) !! 1%nat = Some k /\
    (held broken_link 1 /\ untouched k \/
     ~ held broken_link 1 /\ answered_once fussy_libs no_zip no_zip JSON CompressNone (env_services sample_env) k \/
     failed (lk_faults broken_link) 1 k).
Proof.
  destruct (calls (lk_client broken_link) !! 1%nat) as [k|] eqn:Hk; [|exfalso; revert Hk; vm_compute; discriminate].
  exists k. split; [reflexivity|].
  apply (link_answers_match fussy_libs list_iterate no_zip no_zip list_iterate_ranges (fun _ => false) JSON CompressNone
    sample_env broken_link); [by constructor|apply sample_services_wf|apply broken_link_reachable|reflexivity|exact Hk].
Defined.
