(* ===== verification/Arith.v ===== *)
(** * The services of the repository's test programs (src/test/method_common.go)

    The methods that the tests register and call, as functions of the decoded
    argument, the zeroed reply and what the context carries; their signatures,
    as reflection shows them; and the server they form.  The theorems instance
    the general ones: what a caller of these services gets over a connection
    that any number of callers share and that may fail.  The codec is an argument, with the law
    that what it encodes it decodes. *)
From S2P Require Import Prelude GoStd GoTime Header Message Pool Core Breaker RateLimit Controller Service Server Catalog Client EndToEnd Session Link.

(** ** Data *)

Record Args := mkArgs { args_A : Z; args_B : Z }.
Record Reply := mkReply { reply_C : Z }.
(** The messages of client_test_param.proto, with [int32] fields. *)
Record ProtoArgs := mkProtoArgs { pargs_A : Z; pargs_B : Z }.
Record ProtoReply := mkProtoReply { preply_C : Z }.

(** What passes through the codecs. *)
Inductive test_value :=
| VArgs (v : Args)
| VReply (v : Reply)
| VProtoArgs (v : ProtoArgs)
| VProtoReply (v : ProtoReply).

(** ** Methods *)

Definition Arith_Mul (args : Args) (reply : Reply) : Reply * option error :=
  (mkReply (swrap64 (args_A args * args_B args)), None).

Definition Arith_Add (args : Args) (reply : Reply) : Reply * option error :=
  (mkReply (swrap64 (args_A args + args_B args)), None).

Definition Arith2_Mul (args : Args) (reply : Reply) : Reply * option error :=
  (mkReply (swrap64 (swrap64 (args_A args * args_B args) * 100)), None).

Definition ArithF_Mul (args : Args) (reply : Reply) : Reply * option error :=
  (reply, Some (errorString (str "unknown error"))).

Definition PBArith_Mul (args : ProtoArgs) (reply : ProtoReply) : ProtoReply * option error :=
  (mkProtoReply (swrap32 (pargs_A args * pargs_B args)), None).

(** The time it returns at, for the time it is called at. *)
Definition TimeoutArith_Mul (now : Z) (args : ProtoArgs) (reply : ProtoReply) : Z * (ProtoReply * option error) :=
  (time_Add now (2 * Second), (mkProtoReply (swrap32 (pargs_A args * pargs_B args)), None)).

(** The map under [ResMetaDataKey] is updated; the request metadata is only
    printed. *)
Definition MetaDataArith_Mul (respMetaData : metadata) (args : ProtoArgs) (reply : ProtoReply)
    : metadata * (ProtoReply * option error) :=
  (<[str "echo" := str "from server"]> respMetaData, (mkProtoReply (swrap32 (pargs_A args * pargs_B args)), None)).

(** [count] is a variable of the package, -1 at the start. *)
Definition ArithB_Mul (count : Z) (args : Args) (reply : Reply) : Z * (Reply * option error) :=
  let count := swrap64 (count + 1) in
  if (5 <=? count) && (count <? 10) then (count, (reply, None))
  else (count, (reply, Some (errorString (str "test error")))).

(** ** The services, as reflection shows them *)

Definition ty_struct (name : gostring) : rtype := NonPtr name (str "frpc/test") false false.
Definition ty_pointer (t : rtype) : rtype := Ptr t [] [] false.
Definition ty_Args : rtype := ty_struct (str "Args").
Definition ty_Reply : rtype := ty_struct (str "Reply").
Definition ty_ProtoArgs : rtype := ty_struct (str "ProtoArgs").
Definition ty_ProtoReply : rtype := ty_struct (str "ProtoReply").

(** [reflect.Value.Call] panics on an argument of another type. *)
Definition reflect_panic : user_result test_value :=
  Panics (str "reflect: Call using value as another type") ∅.

Definition on_Args (f : Args -> Reply -> Reply * option error) (md : option metadata) (v : test_value)
    : user_result test_value :=
  match v with
  | VArgs a => let '(r, err) := f a (mkReply 0) in Returns (VReply r) err ∅
  | _ => reflect_panic
  end.

Definition on_ProtoArgs (f : metadata -> ProtoArgs -> ProtoReply -> metadata * (ProtoReply * option error))
    (md : option metadata) (v : test_value) : user_result test_value :=
  match v with
  | VProtoArgs a => let '(rm, (r, err)) := f ∅ a (mkProtoReply 0) in Returns (VProtoReply r) err rm
  | _ => reflect_panic
  end.

Definition test_method (rcvr name : gostring) (arg reply : rtype) (f : option metadata -> test_value -> user_result test_value)
    : method test_value :=
  mkMethod name [] [ty_pointer (ty_struct rcvr); ty_context; ty_pointer arg; ty_pointer reply] [ty_error] f.

Definition test_receiver (name : gostring) (ms : list (method test_value)) : receiver test_value :=
  mkReceiver name (str "*test." ++ name) ms.

Definition Arith : receiver test_value :=
  test_receiver (str "Arith")
    [test_method (str "Arith") (str "Add") ty_Args ty_Reply (on_Args Arith_Add);
     test_method (str "Arith") (str "Mul") ty_Args ty_Reply (on_Args Arith_Mul)].
Definition Arith2 : receiver test_value :=
  test_receiver (str "Arith2") [test_method (str "Arith2") (str "Mul") ty_Args ty_Reply (on_Args Arith2_Mul)].
Definition ArithF : receiver test_value :=
  test_receiver (str "ArithF") [test_method (str "ArithF") (str "Mul") ty_Args ty_Reply (on_Args ArithF_Mul)].
Definition PBArith : receiver test_value :=
  test_receiver (str "PBArith")
    [test_method (str "PBArith") (str "Mul") ty_ProtoArgs ty_ProtoReply
       (on_ProtoArgs (fun rm a r => (rm, PBArith_Mul a r)))].
(** The clock does not reach the reply. *)
Definition TimeoutArith : receiver test_value :=
  test_receiver (str "TimeoutArith")
    [test_method (str "TimeoutArith") (str "Mul") ty_ProtoArgs ty_ProtoReply
       (on_ProtoArgs (fun rm a r => (rm, (TimeoutArith_Mul 0 a r).2)))].
Definition MetaDataArith : receiver test_value :=
  test_receiver (str "MetaDataArith")
    [test_method (str "MetaDataArith") (str "Mul") ty_ProtoArgs ty_ProtoReply (on_ProtoArgs MetaDataArith_Mul)].

Definition test_receivers : list (receiver test_value) :=
  [Arith; Arith2; ArithF; PBArith; TimeoutArith; MetaDataArith].

Section arith.
Context (nonascii_upper : gostring -> bool).

(** A server that registers all of them, under the names of their types. *)
Definition test_services : serviceMap test_value :=
  foldl (fun sm r => (register nonascii_upper r [] false sm).1) None test_receivers.

(** ** What the services promise *)

(** The result of a call, by service and method: the reply or an error, and
    the response metadata. *)
Definition test_spec (path meth : gostring) (v : test_value) : option ((test_value + error) * metadata) :=
  match v with
  | VArgs (mkArgs a b) =>
      if str_eqb path (str "Arith") && str_eqb meth (str "Mul") then Some (inl (VReply (mkReply (swrap64 (a * b)))), ∅)
      else if str_eqb path (str "Arith") && str_eqb meth (str "Add") then Some (inl (VReply (mkReply (swrap64 (a + b)))), ∅)
      else if str_eqb path (str "Arith2") && str_eqb meth (str "Mul") then Some (inl (VReply (mkReply (swrap64 (a * b * 100)))), ∅)
      else if str_eqb path (str "ArithF") && str_eqb meth (str "Mul") then Some (inr (errorString (str "unknown error")), ∅)
      else None
  | VProtoArgs (mkProtoArgs a b) =>
      if (str_eqb path (str "PBArith") || str_eqb path (str "TimeoutArith")) && str_eqb meth (str "Mul")
      then Some (inl (VProtoReply (mkProtoReply (swrap32 (a * b)))), ∅)
      else if str_eqb path (str "MetaDataArith") && str_eqb meth (str "Mul")
      then Some (inl (VProtoReply (mkProtoReply (swrap32 (a * b)))), {[str "echo" := str "from server"]})
      else None
  | _ => None
  end.

(** The type an argument has. *)
Definition arg_type (v : test_value) : rtype :=
  match v with VArgs _ => ty_Args | VReply _ => ty_Reply | VProtoArgs _ => ty_ProtoArgs | VProtoReply _ => ty_ProtoReply end.
End arith.

(** The integers of a value fit their Go types. *)
Definition in_range (v : test_value) : Prop :=
  match v with
  | VArgs a => - 2 ^ 63 <= args_A a < 2 ^ 63 /\ - 2 ^ 63 <= args_B a < 2 ^ 63
  | VReply r => - 2 ^ 63 <= reply_C r < 2 ^ 63
  | VProtoArgs a => - 2 ^ 31 <= pargs_A a < 2 ^ 31 /\ - 2 ^ 31 <= pargs_B a < 2 ^ 31
  | VProtoReply r => - 2 ^ 31 <= preply_C r < 2 ^ 31
  end.

(** The law of a serialisation library: what it encodes it decodes. *)
Class CodecLaw (codec : Codec test_value rtype) : Prop := {
  codec_roundtrip : forall v d, in_range v -> codec_Encode codec v = inl d ->
    codec_Decode codec d (arg_type v) = inl v
}.

(** ** Proofs *)

Lemma swrap64_range z : - 2 ^ 63 <= swrap64 z < 2 ^ 63.
Proof. unfold swrap64. pose proof (Z.mod_pos_bound (z + 2 ^ 63) (2 ^ 64)). lia. Qed.
Lemma swrap32_range z : - 2 ^ 31 <= swrap32 z < 2 ^ 31.
Proof. unfold swrap32. pose proof (Z.mod_pos_bound (z + 2 ^ 31) (2 ^ 32)). lia. Qed.

(** A product may be wrapped at the end only. *)
Lemma swrap64_mul_l a b : swrap64 (swrap64 a * b) = swrap64 (a * b).
Proof.
  unfold swrap64. f_equal. pose proof (Z.div_mod (a + 2 ^ 63) (2 ^ 64)) as E.
  replace ((a + 2 ^ 63) mod 2 ^ 64) with (a + 2 ^ 63 - 2 ^ 64 * ((a + 2 ^ 63) / 2 ^ 64)) by lia.
  rewrite <- (Z.mod_add (a * b + 2 ^ 63) (- ((a + 2 ^ 63) / 2 ^ 64) * b) (2 ^ 64)) by lia. f_equal. ring.
Qed.

Section arith_proofs.
Context (nonascii_upper : gostring -> bool).

Lemma test_services_wf : services_wf nonascii_upper (test_services nonascii_upper).
Proof. unfold test_services, test_receivers. cbn [foldl]. repeat apply register_wf. apply services_wf_empty. Qed.

(** The table of a server that registers such services, whatever their methods
    do. *)
Definition lookup_method (sm : serviceMap test_value) (path meth : gostring) : option (methodType test_value) :=
  match find_service sm path with Some svc => svc_method svc !! meth | None => None end.

Definition entry (path meth : gostring) (arg reply : rtype) f : methodType test_value :=
  mkMethodType (test_method path meth arg reply f) (ty_pointer arg) (ty_pointer reply) 0.

Definition args_entry (path meth : gostring) := entry path meth ty_Args ty_Reply.
Definition proto_entry (path : gostring) := entry path (str "Mul") ty_ProtoArgs ty_ProtoReply.

Lemma test_table fa fm f2 ff fp ft fd :
  let m name f := test_method name (str "Mul") ty_Args ty_Reply f in
  let p name f := test_method name (str "Mul") ty_ProtoArgs ty_ProtoReply f in
  let r name ms := test_receiver name ms in
  let sm := foldl (fun sm r => (register nonascii_upper r [] false sm).1) None
    [r (str "Arith") [test_method (str "Arith") (str "Add") ty_Args ty_Reply fa; m (str "Arith") fm];
     r (str "Arith2") [m (str "Arith2") f2]; r (str "ArithF") [m (str "ArithF") ff]; r (str "PBArith") [p (str "PBArith") fp];
     r (str "TimeoutArith") [p (str "TimeoutArith") ft]; r (str "MetaDataArith") [p (str "MetaDataArith") fd]] in
  lookup_method sm (str "Arith") (str "Add") = Some (args_entry (str "Arith") (str "Add") fa) /\
  lookup_method sm (str "Arith") (str "Mul") = Some (args_entry (str "Arith") (str "Mul") fm) /\
  lookup_method sm (str "Arith2") (str "Mul") = Some (args_entry (str "Arith2") (str "Mul") f2) /\
  lookup_method sm (str "ArithF") (str "Mul") = Some (args_entry (str "ArithF") (str "Mul") ff) /\
  lookup_method sm (str "PBArith") (str "Mul") = Some (proto_entry (str "PBArith") fp) /\
  lookup_method sm (str "TimeoutArith") (str "Mul") = Some (proto_entry (str "TimeoutArith") ft) /\
  lookup_method sm (str "MetaDataArith") (str "Mul") = Some (proto_entry (str "MetaDataArith") fd).
Proof. repeat split; vm_compute; reflexivity. Qed.

(** The result of a method that the specification describes. *)
Definition method_result (r : test_value + error) (rm : metadata) (u : user_result test_value) : Prop :=
  match r with
  | inl v => u = Returns v None rm
  | inr e => exists v, u = Returns v (Some e) rm
  end.

(** Each specified call finds its method, whose argument has the right type
    and whose result is as specified. *)
Lemma test_spec_method path meth v r rm md :
  test_spec path meth v = Some (r, rm) ->
  exists mt, lookup_method (test_services nonascii_upper) path meth = Some mt /\
    target_type (mt_argType mt) = arg_type v /\ method_result r rm (m_Func (mt_method mt) md v) /\
    (forall w, r = inl w -> in_range w).
Proof.
  unfold test_spec, str_eqb. intros H. destruct v as [[a b]| |[a b]|]; try done.
  all: repeat (case_bool_decide; subst; cbn [andb orb] in H; simplify_eq).
  all: destruct (test_table (on_Args Arith_Add) (on_Args Arith_Mul) (on_Args Arith2_Mul) (on_Args ArithF_Mul)
    (on_ProtoArgs (fun rm a r => (rm, PBArith_Mul a r))) (on_ProtoArgs (fun rm a r => (rm, (TimeoutArith_Mul 0 a r).2)))
    (on_ProtoArgs MetaDataArith_Mul)) as (Ha & Hm & H2 & Hf & Hp & Ht & Hd).
  all: eexists; split; [first [exact Ha|exact Hm|exact H2|exact Hf|exact Hp|exact Ht|exact Hd]|]; clear Ha Hm H2 Hf Hp Ht Hd.
  all: split; [reflexivity|]; split; [|intros w [= <-]; cbn; apply swrap64_range || apply swrap32_range].
  all: cbn -[swrap64 swrap32]; rewrite ?swrap64_mul_l; try done.
  all: by eexists.
Qed.

Context (libs : codec_libs test_value rtype) (iterate : option metadata -> list (gostring * gostring)).
Context (Zip Unzip : bytes -> bytes + error).
Hypothesis iterate_ranges : forall md, ranges_over md (iterate md).

(** The answer to a specified request: the encoded reply or the error. *)
Definition encoded (codec : Codec test_value rtype) (r : test_value + error) : bytes + error :=
  match r with inl v => codec_Encode codec v | inr e => inr e end.

(** The contract of the server, for a specified call: there is one outcome. *)
Lemma test_spec_outcome st ct codec (k : call_t test_value) sq req a rma r rm :
  CodecLaw codec -> Codecs libs st = Some codec -> beqb ct Gzip = false -> sent_as libs Zip st ct k sq req ->
  is_heartbeat_call k = false -> in_range (cl_args k) ->
  rpc_outcome libs (test_services nonascii_upper) req a rma ->
  test_spec (cl_servicePath k) (cl_serviceMethod k) (cl_args k) = Some (r, rm) ->
  a = encoded codec r /\ rma = rm /\ (forall w, r = inl w -> in_range w).
Proof.
  intros Hlaw Hcodec Hct [magic Hsent] Hhb Hrange Hout Hspec. rewrite Hhb in Hsent.
  destruct Hsent as (codec' & data & Hcodec' & Henc & Hpl & Hview & Hpath & Hmeth & _). unfold compressed in *.
  rewrite Hct, andb_false_r in Hpl, Hview. subst data. rewrite Hcodec in Hcodec'. injection Hcodec' as <-.
  pose proof (codec_roundtrip _ _ Hrange Henc) as Hdec.
  destruct (test_spec_method _ _ _ _ _ (Metadata req) Hspec) as (mt & Hlook & Hty & Hres & Hw).
  unfold lookup_method in Hlook. rewrite <- Hpath, <- Hmeth in Hlook.
  destruct (find_service (test_services nonascii_upper) (ServicePath req)) as [svc|] eqn:Hf; [|discriminate].
  destruct (view_fields _ _ Hview) as (_ & _ & _ & _ & _ & Hse & _). cbn [v_serialize] in Hse. rewrite <- Hse in Hcodec.
  revert Hf Hlook. generalize dependent (test_services nonascii_upper). intros sm Hout Hf Hlook.
  destruct Hout as [H|svc' H H'|svc' mt' H H' H''|svc' mt' codec' e H H' Hc H''|svc' mt' codec' arg a rma H H' Hc Hd Hmo];
    try congruence; rewrite Hf in H; injection H as <-; try congruence; rewrite Hlook in H'; injection H' as <-; try congruence;
    rewrite Hc in Hcodec; injection Hcodec as ->; rewrite Hty, Hdec in *; try congruence.
  injection Hd as <-. destruct r as [v|e]; cbn in Hres |- *.
  - rewrite Hres in Hmo. inversion Hmo; subst. done.
  - destruct Hres as [v Hres]. rewrite Hres in Hmo. inversion Hmo; subst. done.
Qed.

Lemma test_spec_names path meth v x : test_spec path meth v = Some x -> str_eqb path [] = false.
Proof.
  intros H. apply bool_decide_eq_false. intros ->. destruct v as [[a b]| |[a b]|]; cbn in H; discriminate.
Qed.

(** C34.  What a caller of the test services gets, over a connection that any
    number of callers share, whose server runs its handlers in any order, and
    that may fail: a call that has arrived on its channel has completed once,
    with the product, sum or hundredfold product of its own arguments in the
    width of the reply, or the error of the failing service as a
    [ServiceError], and with the response metadata of its method; or it has
    been completed without an answer, with the error of one of the things that
    have happened to the call or to the connection.  A reply that encodes to
    nothing is not written; the client does not compress. *)
Theorem test_services_answer st ct (s : env test_value) codec n id k r rm :
  CodecLaw codec -> Codecs libs st = Some codec -> beqb ct Gzip = false ->
  Forall clean (env_pool s) -> env_services s = test_services nonascii_upper ->
  rtc (link_step libs iterate Zip Unzip) (new_link st ct s) n -> lk_over n = false ->
  calls (lk_client n) !! id = Some k -> 0 < cl_done k ->
  in_range (cl_args k) -> test_spec (cl_servicePath k) (cl_serviceMethod k) (cl_args k) = Some (r, rm) ->
  (forall v, r = inl v -> cl_replyType k = arg_type v) ->
  (cl_done k = 1 /\ cl_resMetadata k = answer_metadata (encoded codec r) rm /\
   match r with
   | inr e => cl_reply k = None /\ cl_Error k = Some (ServiceError (Error e))
   | inl v =>
       match codec_Encode codec v with
       | inl [] => cl_reply k = None /\ cl_Error k = None
       | inl _ => cl_reply k = Some v /\ cl_Error k = None
       | inr e => cl_reply k = None /\ cl_Error k = Some (ServiceError (Error e))
       end
   end) \/
  failed (lk_faults n) id k.
Proof.
  intros Hlaw Hcodec Hct Hpool Hsm Hr Hov Hk Hpos Hrange Hspec Hty.
  assert (services_wf nonascii_upper (env_services s)) as Hwf by (rewrite Hsm; apply test_services_wf).
  assert (is_heartbeat_call k = false) as Hhb by (unfold is_heartbeat_call; by rewrite (test_spec_names _ _ _ _ Hspec)).
  destruct (link_calls libs iterate Zip Unzip iterate_ranges nonascii_upper st ct s n Hpool Hwf Hr Hov id k Hk)
    as [[_ (Hd0 & _)]|[(_ & Hd & sq & req & Hsent & Hans)|Hf]]; [lia|left|by right].
  rewrite Hhb in Hans. destruct Hans as (a & rma & codec' & data & Hc & _ & Hout & Hret).
  rewrite Hcodec in Hc. injection Hc as <-. rewrite Hsm in Hout.
  destruct (test_spec_outcome st ct codec k sq req a rma r rm Hlaw Hcodec Hct Hsent Hhb Hrange Hout Hspec) as (-> & -> & Hw).
  assert (rm !! ServiceErrorKey = None) as Hkey.
  { clear - Hspec. unfold test_spec in Hspec. repeat case_match; simplify_eq; first [apply lookup_empty|vm_compute; reflexivity]. }
  destruct Hret as [Hmd Hans]. rewrite Hkey in Hans. unfold compressed in Hans. rewrite Hct, andb_false_r in Hans.
  split; [done|]. split; [done|]. destruct r as [v|e]; cbn in Hans |- *; [|done].
  destruct (codec_Encode codec v) as [[|b d]|e] eqn:Ev; [done| |done].
  rewrite (Hty v) in Hans by done. by rewrite (codec_roundtrip v _ (Hw v eq_refl) Ev) in Hans.
Qed.
End arith_proofs.

(** ** The failing service behind a breaker *)

(** The readings of one guarded call of [ArithB.Mul] without timeout. *)
Record guard_clock := mkClock { gc_since : Z; gc_reset : Z; gc_end : Z }.

(** Calls of [ArithB.Mul] through a breaker, as in the loops of
    breaker_test.go: the method runs, and counts, only when the breaker starts
    it. *)
Definition guarded_ArithB `{Breaker B} (t : guard_clock) (x : B * Z) : (B * Z) * (option error * bool) :=
  let '(cb, count) := x in
  let '(count', (_, err)) := ArithB_Mul count (mkArgs 10 20) (mkReply 0) in
  let '(cb', (res, ran)) := breaker_Call 0 (mkCallInput err false (gc_since t) (gc_reset t) (gc_end t)) cb in
  ((cb', if ran then count' else count), (res, ran)).

Fixpoint guarded_loop `{Breaker B} (ts : list guard_clock) (x : B * Z) : list (option error * bool) :=
  match ts with
  | [] => []
  | t :: ts' => let '(x', r) := guarded_ArithB t x in r :: guarded_loop ts' x'
  end.

(** ** Witnesses *)

(** Big-endian integers. *)
Definition be_encode (v : test_value) : bytes :=
  match v with
  | VArgs a => be64 (args_A a) ++ be64 (args_B a)
  | VReply r => be64 (reply_C r)
  | VProtoArgs a => be64 (pargs_A a) ++ be64 (pargs_B a)
  | VProtoReply r => be64 (preply_C r)
  end.
Definition be_codec : Codec test_value rtype := mkCodec
  (fun v => inl (be_encode v))
  (fun d t =>
     match BigEndian_Uint64 d with
     | Val a =>
         let second := match BigEndian_Uint64 (drop 8 d) with Val b => swrap64 b | _ => 0 end in
         inl (if str_eqb (t_Name t) (str "Args") then VArgs (mkArgs (swrap64 a) second)
              else if str_eqb (t_Name t) (str "Reply") then VReply (mkReply (swrap64 a))
              else if str_eqb (t_Name t) (str "ProtoArgs") then VProtoArgs (mkProtoArgs (swrap64 a) second)
              else VProtoReply (mkProtoReply (swrap64 a)))
     | _ => inr (errorString (str "short"))
     end).

Lemma swrap64_wrap64 z : - 2 ^ 63 <= z < 2 ^ 63 -> swrap64 (wrap64 z) = z.
Proof.
  intros Hz. unfold swrap64, wrap64. rewrite Zplus_mod_idemp_l. fold (swrap64 z). by apply swrap64_small.
Qed.

#[export] Instance be_codec_law : CodecLaw be_codec.
Proof.
  split. intros v d Hr Hd. assert (d = be_encode v) as -> by (cbn in Hd; congruence). clear Hd.
  destruct v as [[a b]|[c]|[a b]|[c]]; cbn in Hr; cbn [be_encode codec_Decode be_codec arg_type args_A args_B reply_C pargs_A pargs_B preply_C].
  1, 3: rewrite Uint64_be64, drop_app_length' by done; rewrite <- (app_nil_r (be64 b)), Uint64_be64;
    rewrite !swrap64_wrap64 by lia; reflexivity.
  all: rewrite <- (app_nil_r (be64 c)), Uint64_be64, swrap64_wrap64 by lia; reflexivity.
Qed.

Definition be_libs : codec_libs test_value rtype :=
  mkLibs be_codec (mkPb (fun _ => None) (fun _ => None) (fun _ => None) (fun _ => None) (fun _ => []) (fun _ => [])) be_codec.

(** A call of [Arith.Mul], through all its steps; the product wraps around. *)
Definition mul_call : call_t test_value :=
  new_call (str "Arith") (str "Mul") None (VArgs (mkArgs (2 ^ 62) 6)) ty_Reply.
Definition test_env : env test_value := mkEnv [] (test_services (fun _ => false)) [] [].
Definition mul_c1 : client_t test_value := (send_register be_libs 0 mul_call (new_client JSON CompressNone)).1.
Definition mul_c2 : client_t test_value :=
  match send_write be_libs list_iterate no_zip msgPool_New None 0 0 mul_c1 with Val c => c | _ => mul_c1 end.
Definition mul_frame : bytes := concat (written mul_c2).
Definition mul_req : Message := (Decode 0 (msgPool_New, mkReader mul_frame EOF)).1.1.
Definition mul_env : env test_value :=
  match serve_request be_libs list_iterate None (mkHook 0 0) mul_req test_env with Val s => s | _ => test_env end.
Definition mul_answer : bytes := concat (env_written mul_env).
Definition mul_res : Message := (Decode 0 (msgPool_New, mkReader mul_answer EOF)).1.1.
Definition mul_c3 : client_t test_value := (take_response mul_res mul_c2).1.
Definition mul_k : call_t test_value := (finish_response be_libs no_zip mul_res mul_call).1.
Definition mul_c4 : client_t test_value := update_call 0 (fun _ => mul_k) mul_c3.
Definition mul_done : link test_value := mkLink mul_c4 [] [0] [] [] mul_env [] Reading [] [] false.

Lemma mul_served : serve_request be_libs list_iterate None (mkHook 0 0) mul_req test_env = Val mul_env.
Proof.
  assert (match serve_request be_libs list_iterate None (mkHook 0 0) mul_req test_env with Val _ => true | _ => false end = true)
    as H by (vm_compute; reflexivity).
  unfold mul_env. destruct (serve_request _ _ _ _ _ _); [reflexivity|discriminate..].
Qed.

Lemma mul_done_reachable :
  rtc (link_step be_libs list_iterate no_zip no_zip) (new_link JSON CompressNone test_env) mul_done.
Proof.
  eapply rtc_l; [apply (link_send be_libs list_iterate no_zip no_zip (new_client JSON CompressNone) [] [] [] [] test_env []
    Reading [] [] false 0%nat mul_call mul_c1 0); [reflexivity|by repeat split|vm_compute; reflexivity]|].
  eapply rtc_l; [apply (link_write be_libs list_iterate no_zip no_zip mul_c1 [] 0%nat 0 [] [] [] [] test_env []
    Reading [] [] false msgPool_New mul_c2 mul_frame); [apply New_clean|vm_compute; reflexivity|vm_compute; reflexivity]|].
  eapply rtc_l; [apply (link_read be_libs list_iterate no_zip no_zip mul_c2 [] [0] mul_frame [] test_env []
    Reading [] [] false msgPool_New EOF mul_req []); [apply New_clean|vm_compute; reflexivity]|].
  eapply rtc_l; [apply (link_handle be_libs list_iterate no_zip no_zip mul_c2 [] [0] [] [] mul_req [] test_env []
    Reading [] [] false None (mkHook 0 0) mul_env mul_answer); [exact mul_served|vm_compute; reflexivity]|].
  eapply rtc_l; [apply (link_take be_libs list_iterate no_zip no_zip mul_c2 [] [0] [] [] mul_env mul_answer
    [] [] false msgPool_New EOF mul_res [] mul_c3 (Some 0%nat)); [apply New_clean|vm_compute; reflexivity|vm_compute; reflexivity]|].
  eapply rtc_l; [apply (link_finish be_libs list_iterate no_zip no_zip mul_c3 [] [0] [] [] mul_env []
    [] [] false mul_res 0%nat mul_call mul_k None); [vm_compute; reflexivity|vm_compute; reflexivity]|].
  apply rtc_refl.
Qed.

Lemma test_services_answer_witness :
  exists k, calls (lk_client mul_done) !! 0%nat = Some k /\ cl_done k = 1 /\
    cl_reply k = Some (VReply (mkReply (- 2 ^ 63))) /\ cl_Error k = None.
Proof.
  destruct (calls (lk_client mul_done) !! 0%nat) as [k|] eqn:Hk; [|exfalso; revert Hk; vm_compute; discriminate].
  exists k. split; [reflexivity|].
  assert (cl_args k = VArgs (mkArgs (2 ^ 62) 6) /\ cl_servicePath k = str "Arith" /\ cl_serviceMethod k = str "Mul" /\
    cl_replyType k = ty_Reply /\ 0 < cl_done k) as (Ha & Hs & Hm & Ht & Hd) by (revert Hk; vm_compute; intros [= <-]; auto).
  destruct (test_services_answer (fun _ => false) be_libs list_iterate no_zip no_zip list_iterate_ranges JSON CompressNone
    test_env be_codec mul_done 0 k (inl (VReply (mkReply (- 2 ^ 63)))) ∅) as [(H1 & _ & H2)|(_ & _ & _ & f & Hf & _)].
  - exact be_codec_law.
  - reflexivity.
  - reflexivity.
  - constructor.
  - reflexivity.
  - exact mul_done_reachable.
  - reflexivity.
  - exact Hk.
  - exact Hd.
  - rewrite Ha. cbn. lia.
  - rewrite Ha, Hs, Hm. vm_compute. reflexivity.
  - intros v [= <-]. exact Ht.
  - split; [exact H1|exact H2].
  - exfalso. exact (not_elem_of_nil f Hf).
Defined.

(** The run of TestLocalCircuitBreaker, one call per millisecond and a pause
    after the tenth: five failures, five refusals, five successes, five
    failures, five refusals. *)
Definition test_clock (ms : Z) : guard_clock :=
  let t := 1000 * Second + ms * Millisecond in mkClock t t t.
Example local_breaker_run :
  snd <$> guarded_loop (test_clock <$> (seqZ 0 10 ++ seqZ 160 15))
    (NewSimpleCircuitBreaker 5 (100 * Millisecond), -1) =
  replicate 5 true ++ replicate 5 false ++ replicate 10 true ++ replicate 5 false.
Proof. vm_compute. reflexivity. Qed.
