(* ===== verification/Caller.v ===== *)
(** * A caller's view of a connection (src/client/client.go: Go, call, heartbeat)

    [Go] fills in a call from its context and sends it, [call] waits for the
    call or for the context and copies the response metadata into the context's
    map, and [heartbeat] is a caller of its own.  The theorem closes the chain
    that Link begins: what [call] returns to its caller is what the server's
    contract prescribes for the caller's own request, or the error of what has
    happened to the connection. *)
From Stdlib Require Import Strings.Byte.
From S2P Require Import Prelude GoStd GoTime Header Message Pool Core RateLimit Controller Service Server Catalog Client EndToEnd Session Link.

#[local] Open Scope go_scope.

(** A value under a context key: none, a map of strings (perhaps the nil map),
    or a value of another type, on which the assertion panics. *)
Inductive ctx_value := CtxNone | CtxMeta (m : option metadata) | CtxOther.

(** How the wait of [call] ends: the context is done with an error, or the
    call arrives on its channel. *)
Inductive call_end := EndContext (e : error) | EndDone.

(** What a tick of [heartbeat] does: returns, or makes a call. *)
Inductive beat (A : Type) := BeatReturn | BeatCall (r : A).
Arguments BeatReturn {A}.
Arguments BeatCall {A} _.

Section caller.
Context {value : Type} (libs : codec_libs value rtype).
Context (iterate : option metadata -> list (gostring * gostring)).
Context (Zip : bytes -> bytes + error).

(** [send] without interference: the critical section, the write, and the look
    at the request given back to the pool, which nobody has taken from there
    (after an error of encoding there is no such look, but it would change
    nothing). *)
Definition send (got : Message) (werr : option error) (id : nat) (call : call_t value) (c : client_t value)
    : outcome (client_t value) :=
  match send_register libs id call c with
  | (c, None) => Val c
  | (c, Some sq) => let? c := send_write libs iterate Zip got werr id sq c in Val (send_release (Reset got) sq c)
  end.

(** [call.metadata], from the request metadata of the context. *)
Definition request_metadata (v : ctx_value) : outcome (option metadata) :=
  match v with CtxNone => Val None | CtxMeta m => Val m | CtxOther => Panic end.

(** [Go] with a new [Call] known as [id]; [done] is the capacity of the channel,
    [None] the nil channel.  An unbuffered channel panics ([log.Panic] of the
    default logger). *)
Definition Go (reqMeta : ctx_value) (path method : gostring) (args : value) (rt : rtype) (done : option nat)
    (got : Message) (werr : option error) (id : nat) (c : client_t value) : outcome (client_t value) :=
  let? md := request_metadata reqMeta in
  match done with
  | Some O => Panic
  | _ => send got werr id (new_call path method md args rt) c
  end.

(** The branch of [call] for a call that arrives: its error, and the context's
    map with the response metadata written over it.  The assertion panics on
    a value of another type, and so does the assignment to the nil map. *)
Definition call_return (resMeta : ctx_value) (k : call_t value) : outcome (option error * ctx_value) :=
  match cl_resMetadata k with
  | Some md =>
      if bool_decide (md = ∅) then Val (cl_Error k, resMeta)
      else match resMeta with
           | CtxNone => Val (cl_Error k, CtxNone)
           | CtxMeta (Some m) => Val (cl_Error k, CtxMeta (Some (md ∪ m)))
           | CtxMeta None => Panic
           | CtxOther => Panic
           end
  | None => Val (cl_Error k, resMeta)
  end.

(** The select statement of [call] for the call [id]. *)
Definition call_wait (ending : call_end) (id : nat) (resMeta : ctx_value) (c : client_t value)
    : outcome (client_t value * option error * ctx_value) :=
  match ending with
  | EndContext e => Val (cancel e c, Some e, resMeta)
  | EndDone =>
      match calls c !! id with
      | None => Panic
      | Some k => let? (err, meta) := call_return resMeta k in Val (c, err, meta)
      end
  end.

(** A tick of [heartbeat], up to the wait for its call; the arguments are nil. *)
Definition heartbeat (nil_value : value) (nil_type : rtype) (got : Message) (werr : option error) (id : nat)
    (c : client_t value) : beat (outcome (client_t value)) :=
  if shutdown c || closing c then BeatReturn
  else BeatCall (Go CtxNone [] [] nil_value nil_type (Some 1%nat) got werr id c).
End caller.

(** ** Proofs *)

Section caller_proofs.
Context {value : Type} (libs : codec_libs value rtype).
Context (iterate : option metadata -> list (gostring * gostring)).
Context (Zip Unzip : bytes -> bytes + error).
Hypothesis iterate_ranges : forall md, ranges_over md (iterate md).
Context (nonascii_upper : gostring -> bool).

(** The context's map after an answer: the answer's metadata over what was
    there. *)
Definition merged (r : bytes + error) (rm m : metadata) : metadata :=
  match answer_metadata r rm with Some md => md ∪ m | None => m end.

Lemma call_return_answered (zipped : bool) (codec : Codec value rtype) (k : call_t value) (r : bytes + error) (rm m : metadata) :
  returned Unzip zipped codec k r rm -> call_return (CtxMeta (Some m)) k = Val (cl_Error k, CtxMeta (Some (merged r rm m))).
Proof.
  intros [Hmd _]. unfold call_return, merged. rewrite Hmd. destruct (answer_metadata r rm) as [md|]; [|done].
  case_bool_decide as E; [|done]. subst md. by rewrite (left_id_L ∅ (∪)).
Qed.

Lemma call_wait_bare id (k : call_t value) (c : client_t value) m :
  calls c !! id = Some k -> cl_resMetadata k = None -> call_wait EndDone id m c = Val (c, cl_Error k, m).
Proof. intros Hk Hmd. unfold call_wait, call_return. by rewrite Hk, Hmd. Qed.

(** C3.  What [call] returns for a call that has arrived on its channel, over a
    connection that any number of callers share and that may fail: for the
    caller's own request what the server's contract prescribes, that is, the
    server's error as a [ServiceError] or what the codec makes of the reply,
    with every entry of the answer's metadata in the context's map, over what
    was there; for a heartbeat no error; or else the error of one of the things
    that have happened to the call or to the connection, with the context's map
    as it was and no reply. *)
Theorem call_returns_answer st ct (s : env value) n id k m :
  Forall clean (env_pool s) -> services_wf nonascii_upper (env_services s) ->
  rtc (link_step libs iterate Zip Unzip) (new_link st ct s) n -> lk_over n = false ->
  calls (lk_client n) !! id = Some k -> 0 < cl_done k ->
  (exists sq req, sent_as libs Zip st ct k sq req /\
     if is_heartbeat_call k then call_wait EndDone id (CtxMeta (Some m)) (lk_client n) = Val (lk_client n, None, CtxMeta (Some m))
     else exists r rm codec data, Codecs libs st = Some codec /\ codec_Encode codec (cl_args k) = inl data /\
       rpc_outcome libs (env_services s) req r rm /\ returned Unzip (compressed ct data) codec k r rm /\
       call_wait EndDone id (CtxMeta (Some m)) (lk_client n) = Val (lk_client n, cl_Error k, CtxMeta (Some (merged r rm m)))) \/
  failed (lk_faults n) id k /\
    call_wait EndDone id (CtxMeta (Some m)) (lk_client n) = Val (lk_client n, cl_Error k, CtxMeta (Some m)).
Proof.
  intros Hp Hs Hr Hov Hk Hd.
  destruct (link_calls libs iterate Zip Unzip iterate_ranges nonascii_upper st ct s n Hp Hs Hr Hov id k Hk)
    as [[_ (Hd0 & _)]|[(_ & _ & sq & req & Hsent & Hans)|Hf]]; [lia|left|right].
  - exists sq, req. split; [done|]. destruct (is_heartbeat_call k).
    + destruct Hans as (_ & He & Hmd). by rewrite (call_wait_bare id k), He.
    + destruct Hans as (r & rm & codec & data & Hc & He & Hout & Hret). exists r, rm, codec, data. do 4 (split; [done|]).
      unfold call_wait. rewrite Hk. by rewrite (call_return_answered _ _ _ _ _ _ Hret).
  - split; [done|]. destruct Hf as (_ & _ & Hmd & _). by apply call_wait_bare.
Qed.

(** Whether and how a call that has been sent is under way: written and
    pending, or completed once with an error and nothing written. *)
Definition started_call (c c' : client_t value) (id : nat) (k : call_t value) : Prop :=
  calls c' !! id = Some k /\
  (cl_done k = 1 /\ is_Some (cl_Error k) /\ written c' = written c \/
   cl_done k = 0 /\ cl_Error k = None /\ pending c' !! seq c = Some id /\ exists frame, written c' = written c ++ [frame]).

Lemma send_outcome got werr id (k : call_t value) (c : client_t value) :
  fresh k -> exists c' k', send libs iterate Zip got werr id k c = Val c' /\ started_call c c' id k' /\
    (shutdown c || closing c = true -> cl_Error k' = Some ErrShutdown).
Proof.
  intros (Hd & _ & He). unfold send, send_register. cbn [set_calls shutdown closing serializeType seq pending calls].
  assert (forall f (c1 : client_t value), calls c1 !! id = Some k -> calls (update_call id f c1) !! id = Some (f k)) as Hupd.
  { intros f c1 Hc1. unfold update_call. cbn. by rewrite lookup_alter_eq, Hc1. }
  destruct (shutdown c || closing c) eqn:Hdown; [|destruct (Codecs libs (serializeType c)) as [codec|] eqn:Hcodec].
  - eexists _, (done_call (set_Error (Some ErrShutdown) k)). split; [done|]. split; [|done]. split; [apply Hupd, lookup_insert_eq|]. left. cbn. rewrite Hd. by split; [|split].
  - unfold send_release. change (IsOneway (msg_Header (Reset got))) with false.
    unfold send_write. cbn [calls]. rewrite lookup_insert_eq.
    destruct (build_request libs Zip got _ (seq c) k) as [req|e].
    + destruct (Encode_total req (iterate (Metadata req))) as (frame & ->). cbn [outcome_bind].
      destruct werr as [e|].
      * unfold complete. cbn [pending]. rewrite lookup_insert_eq.
        eexists _, (done_call (set_Error (Some e) k)). split; [done|]. split; [|done].
        split; [apply Hupd, lookup_insert_eq|]. left. cbn. rewrite Hd. by split; [|split].
      * eexists _, k. split; [done|]. split; [|done]. split; [apply lookup_insert_eq|]. right. cbn.
        split; [done|]. split; [done|]. split; [apply lookup_insert_eq|by eexists].
    + eexists _, (done_call (set_Error (Some e) k)). split; [done|]. split; [|done]. split; [apply Hupd, lookup_insert_eq|]. left. cbn. rewrite Hd. by split; [|split].
  - eexists _, (done_call (set_Error (Some ErrUnsupportedCodec) k)). split; [done|]. split; [|done]. split; [apply Hupd, lookup_insert_eq|]. left. cbn. rewrite Hd. by split; [|split].
Qed.

(** [Go] on every path: it panics exactly when the context's request
    metadata has another type or the done channel is unbuffered; otherwise the
    call is under way (pending under the next sequence number, its frame
    written) or completed once with an error and nothing written, which is
    [ErrShutdown] on a connection that is closing or shut down.  A tick of
    [heartbeat] returns exactly on such a connection and never panics. *)
Theorem Go_outcome reqMeta path method args rt done got werr id (c : client_t value) :
  (Go libs iterate Zip reqMeta path method args rt done got werr id c = Panic <->
     reqMeta = CtxOther \/ done = Some 0%nat) /\
  (forall c', Go libs iterate Zip reqMeta path method args rt done got werr id c = Val c' ->
     exists k, started_call c c' id k /\ (shutdown c || closing c = true -> cl_Error k = Some ErrShutdown)) /\
  (heartbeat libs iterate Zip args rt got werr id c = BeatReturn <-> shutdown c || closing c = true) /\
  heartbeat libs iterate Zip args rt got werr id c <> BeatCall Panic.
Proof.
  assert (forall md, exists c' k, send libs iterate Zip got werr id (new_call path method md args rt) c = Val c' /\
    started_call c c' id k /\ (shutdown c || closing c = true -> cl_Error k = Some ErrShutdown)) as Hsend.
  { intros md. by apply send_outcome. }
  split; [|split].
  - unfold Go. destruct reqMeta as [|md|]; cbn [request_metadata outcome_bind]; [| |split; [by left|done]].
    all: match goal with |- context [new_call _ _ ?md _ _] => destruct (Hsend md) as (c' & k & -> & _) end.
    all: destruct done as [[|n]|]; split; (done || (by right) || (by intros [?|?])).
  - intros c' Hgo. unfold Go in Hgo. destruct (request_metadata reqMeta) as [md| |]; [|discriminate..]. cbn [outcome_bind] in Hgo.
    destruct (Hsend md) as (c1 & k & Hs & Hk). destruct done as [[|n]|]; [discriminate|rewrite Hs in Hgo..];
      injection Hgo as <-; by exists k.
  - unfold heartbeat. destruct (shutdown c || closing c); [done|]. split; [done|].
    unfold Go. cbn [request_metadata outcome_bind].
    destruct (send_outcome got werr id (new_call [] [] None args rt) c) as (c' & k & -> & _); [done|]. discriminate.
Qed.
End caller_proofs.

(** ** Witnesses *)

(** The two callers of a connection that an undecodable reply breaks: the first
    gets the codec's error as the answer to its own request, the second as what
    has happened to the connection. *)
Lemma call_returns_answer_witness :
  exists k, calls (lk_client broken_link) !! 1%nat = Some k /\
    ((exists sq req, sent_as fussy_libs no_zip JSON CompressNone k sq req /\
        if is_heartbeat_call k
        then call_wait EndDone 1 (CtxMeta (Some ∅)) (lk_client broken_link) = Val (lk_client broken_link, None, CtxMeta (Some ∅))
        else exists r rm codec data, Codecs fussy_libs JSON = Some codec /\ codec_Encode codec (cl_args k) = inl data /\
          rpc_outcome fussy_libs (env_services sample_env) req r rm /\ returned no_zip (compressed CompressNone data) codec k r rm /\
          call_wait EndDone 1 (CtxMeta (Some ∅)) (lk_client broken_link) =
            Val (lk_client broken_link, cl_Error k, CtxMeta (Some (merged r rm ∅)))) \/
     failed (lk_faults broken_link) 1 k /\
       call_wait EndDone 1 (CtxMeta (Some ∅)) (lk_client broken_link) = Val (lk_client broken_link, cl_Error k, CtxMeta (Some ∅))).
Proof.
  destruct (calls (lk_client broken_link) !! 1%nat) as [k|] eqn:Hk; [|exfalso; revert Hk; vm_compute; discriminate].
  assert (cl_done k = 1) as Hd by (revert Hk; vm_compute; intros [= <-]; reflexivity).
  exists k. split; [reflexivity|].
  apply (call_returns_answer fussy_libs list_iterate no_zip no_zip list_iterate_ranges (fun _ => false) JSON CompressNone
    sample_env broken_link 1 k ∅); [by constructor|apply sample_services_wf|apply broken_link_reachable|reflexivity|exact Hk|lia].
Defined.
