(* ===== verification/Connect.v ===== *)
(** * Connecting (src/client/option.go, connection.go, connection_kcp.go, connection_quic.go;
    src/server/server.go: serveHTTPListner, ServeHTTP)

    The options of a client, dialling over the four kinds of network, and the
    HTTP handshake between the client's [newHttpConn] and the server's
    [ServeHTTP].  The network is a record of functions ([dialer]); of package
    net/http the parts the handshake goes through are written out, except for
    the parsing of a request URI, which is a parameter. *)
From Stdlib Require Import Strings.Byte.
From S2P Require Import Prelude GoStd GoTime GoUrl Header Core Listener.

#[local] Open Scope go_scope.

(** ** Options *)

(** [block interface{}]: nil, a [kcp.BlockCrypt], or a value of another type. *)
Inductive block_value := NoBlock | BlockCrypt (key : Z) | OtherBlock.

Record client_option := mkClientOption {
  co_serializeType : SerializeType;
  co_compressType : CompressType;
  co_readTimeout : Z;
  co_writeTimeout : Z;
  co_connTimeout : Z;
  co_heartbeat : bool;
  co_heartbeatInterval : Z;
  co_rpcPath : gostring;
  co_retries : Z;
  co_tlsConfig : option Z;
  co_block : block_value
}.

Definition zero_option : client_option :=
  mkClientOption JSON CompressNone 0 0 0 false 0 [] 0 None NoBlock.

Definition client_Serialize (x : SerializeType) (o : client_option) : client_option :=
  mkClientOption x (co_compressType o) (co_readTimeout o) (co_writeTimeout o) (co_connTimeout o) (co_heartbeat o)
    (co_heartbeatInterval o) (co_rpcPath o) (co_retries o) (co_tlsConfig o) (co_block o).
Definition client_Compress (x : CompressType) (o : client_option) : client_option :=
  mkClientOption (co_serializeType o) x (co_readTimeout o) (co_writeTimeout o) (co_connTimeout o) (co_heartbeat o)
    (co_heartbeatInterval o) (co_rpcPath o) (co_retries o) (co_tlsConfig o) (co_block o).
Definition client_ReadTimeout (x : Z) (o : client_option) : client_option :=
  mkClientOption (co_serializeType o) (co_compressType o) x (co_writeTimeout o) (co_connTimeout o) (co_heartbeat o)
    (co_heartbeatInterval o) (co_rpcPath o) (co_retries o) (co_tlsConfig o) (co_block o).
Definition client_WriteTimeout (x : Z) (o : client_option) : client_option :=
  mkClientOption (co_serializeType o) (co_compressType o) (co_readTimeout o) x (co_connTimeout o) (co_heartbeat o)
    (co_heartbeatInterval o) (co_rpcPath o) (co_retries o) (co_tlsConfig o) (co_block o).
(** [ConnTimeout] assigns [readTimeout]. *)
Definition client_ConnTimeout (x : Z) (o : client_option) : client_option :=
  mkClientOption (co_serializeType o) (co_compressType o) x (co_writeTimeout o) (co_connTimeout o) (co_heartbeat o)
    (co_heartbeatInterval o) (co_rpcPath o) (co_retries o) (co_tlsConfig o) (co_block o).
Definition client_Heartbeat (b : bool) (interval : Z) (o : client_option) : client_option :=
  mkClientOption (co_serializeType o) (co_compressType o) (co_readTimeout o) (co_writeTimeout o) (co_connTimeout o) b
    interval (co_rpcPath o) (co_retries o) (co_tlsConfig o) (co_block o).
Definition client_RpcPath (x : gostring) (o : client_option) : client_option :=
  mkClientOption (co_serializeType o) (co_compressType o) (co_readTimeout o) (co_writeTimeout o) (co_connTimeout o)
    (co_heartbeat o) (co_heartbeatInterval o) x (co_retries o) (co_tlsConfig o) (co_block o).
Definition client_Retries (x : Z) (o : client_option) : client_option :=
  mkClientOption (co_serializeType o) (co_compressType o) (co_readTimeout o) (co_writeTimeout o) (co_connTimeout o)
    (co_heartbeat o) (co_heartbeatInterval o) (co_rpcPath o) x (co_tlsConfig o) (co_block o).
Definition client_WithBlock (x : block_value) (o : client_option) : client_option :=
  mkClientOption (co_serializeType o) (co_compressType o) (co_readTimeout o) (co_writeTimeout o) (co_connTimeout o)
    (co_heartbeat o) (co_heartbeatInterval o) (co_rpcPath o) (co_retries o) (co_tlsConfig o) x.
Definition client_WithTls (x : option Z) (o : client_option) : client_option :=
  mkClientOption (co_serializeType o) (co_compressType o) (co_readTimeout o) (co_writeTimeout o) (co_connTimeout o)
    (co_heartbeat o) (co_heartbeatInterval o) (co_rpcPath o) (co_retries o) x (co_block o).

(** The options of [NewClient()]. *)
Definition NewClient : client_option :=
  client_Retries 3 (client_Compress CompressNone (client_Serialize MsgPack (client_ConnTimeout (10 * Second) zero_option))).

(** ** HTTP *)

(** A line of the stream without its end, and what follows. *)
Definition ReadLine (s : bytes) : option (gostring * bytes) :=
  match split_first x0a s with
  | None => None
  | Some (l, rest) => Some (if HasSuffix l [x0d] then take (length l - 1) l else l, rest)
  end.

(** [http.ParseHTTPVersion] *)
Definition ParseHTTPVersion (vers : gostring) : bool :=
  HasPrefix vers (str "HTTP/") &&
  match split_first x2e (drop 5 vers) with
  | None => false
  | Some (major, minor) =>
      match Atoi major, Atoi minor with
      | Some a, Some b => (0 <=? a) && (a <=? 1000000) && (0 <=? b) && (b <=? 1000000)
      | _, _ => false
      end
  end.

(** The header lines up to the empty one; [fuel] is a bound on their number. *)
Fixpoint ReadMIMEHeader (fuel : nat) (s : bytes) : option bytes :=
  match fuel with
  | O => None
  | S fuel' =>
      match ReadLine s with
      | None => None
      | Some ([], rest) => Some rest
      | Some (l, rest) => if bool_decide (x3a ∈ l) then ReadMIMEHeader fuel' rest else None
      end
  end.

Definition malformed_response : error := ExternalError (str "malformed HTTP response").

(** [strings.TrimLeft(s, " ")] *)
Fixpoint trim_spaces (s : gostring) : gostring :=
  match s with
  | c :: s' => if bool_decide (c = x20) then trim_spaces s' else s
  | [] => []
  end.

(** The status of [http.ReadResponse], or its error. *)
Definition ReadResponse (r : reader) : gostring + error :=
  let eof := if is_EOF (rd_err r) then ErrUnexpectedEOF else rd_err r in
  match ReadLine (rd_bytes r) with
  | None => inr eof
  | Some (line, rest) =>
      match split_first x20 line with
      | None => inr malformed_response
      | Some (proto, status) =>
          let status := trim_spaces status in
          let code := match split_first x20 status with Some (c, _) => c | None => status end in
          if negb (length code =? 3)%nat then inr malformed_response
          else
            match Atoi code with
            | None => inr malformed_response
            | Some n =>
                if n <? 0 then inr malformed_response
                else if negb (ParseHTTPVersion proto) then inr malformed_response
                else
                  match ReadMIMEHeader (S (length rest)) rest with
                  | None => inr eof
                  | Some _ => inl status
                  end
            end
      end
  end.

Definition connected : gostring := str "200 Connected to frpc".

(** The request [newHttpConn] writes. *)
Definition connect_request (path : gostring) : bytes :=
  str "CONNECT " ++ path ++ str " HTTP/1.0" ++ [x0a; x0a].

(** ** Dialling *)

(** The network; [exchange conn req] is what can be read from a connection
    after writing [req]. *)
Record dialer (C : Type) := mkDialer {
  DialTimeout : gostring -> gostring -> Z -> C + error;
  quic_Dial : gostring -> Z -> C + error;
  kcp_Dial : gostring -> Z -> C + error;
  is_tcp : C -> bool;
  exchange : C -> bytes -> reader
}.
Arguments mkDialer {C}.
Arguments DialTimeout {C}.
Arguments quic_Dial {C}.
Arguments kcp_Dial {C}.
Arguments is_tcp {C}.
Arguments exchange {C}.

(** The configuration [&tls.Config{InsecureSkipVerify: true}]. *)
Definition insecure : Z := 0.

Section connect.
Context {C : Type} (net : dialer C).

(** A dialled connection and whether keep-alive was set on it, or the error;
    besides the connections closed on the way. *)
Definition newDirectConn (o : client_option) (network address : gostring) : (C * bool) + error :=
  match DialTimeout net network address (co_connTimeout o) with
  | inr e => inr e
  | inl conn => inl (conn, is_tcp net conn)
  end.

Definition newKcpConn (o : client_option) (address : gostring) : outcome ((C * bool) + error) :=
  match co_block o with
  | BlockCrypt key =>
      match kcp_Dial net address key with inr e => Val (inr e) | inl conn => Val (inl (conn, false)) end
  | _ => Panic
  end.

Definition newQuicConn (o : client_option) (address : gostring) : (C * bool) + error :=
  let tlsConf := match co_tlsConfig o with None => insecure | Some t => t end in
  match quic_Dial net address tlsConf with inr e => inr e | inl conn => inl (conn, false) end.

(** [net.OpError] of the handshake, by its text. *)
Definition dial_http_error (network address : gostring) (e : gostring) : error :=
  ExternalError (str "dial-http " ++ network ++ str " " ++ address ++ str ": " ++ e).

Definition newHttpConn (o : client_option) (network address : gostring)
    : list C * ((C * bool) + error) :=
  let path := if str_eqb (co_rpcPath o) [] then DefaultRPCPath else co_rpcPath o in
  match DialTimeout net (str "tcp") address (co_connTimeout o) with
  | inr e => ([], inr e)
  | inl conn =>
      match ReadResponse (exchange net conn (connect_request path)) with
      | inl status =>
          if str_eqb status connected then ([], inl (conn, false))
          else ([conn], inr (dial_http_error network address (str "unexpected HTTP response: " ++ status)))
      | inr e => ([conn], inr (dial_http_error network address (Error e)))
      end
  end.

(** What a client keeps of a connection: the deadlines (set once, here), and
    whether its heartbeat was started.  The response goroutine always is. *)
Record connection := mkConnection {
  cn_conn : C;
  cn_keepAlive : bool;
  cn_readDeadline : option Z;
  cn_writeDeadline : option Z;
  cn_heartbeat : bool
}.

(** [Connect] at time [now]: the connections closed, and the connection or the
    error. *)
Definition Connect (now : Z) (o : client_option) (network address : gostring)
    : outcome (list C * (connection + error)) :=
  let? (closed, r) :=
    if str_eqb network (str "http") then Val (newHttpConn o network address)
    else if str_eqb network (str "kcp") then let? r := newKcpConn o address in Val ([], r)
    else if str_eqb network (str "quic") then Val ([], newQuicConn o address)
    else Val ([], newDirectConn o network address) in
  match r with
  | inr e => Val (closed, inr e)
  | inl (conn, keepAlive) =>
      Val (closed, inl (mkConnection conn keepAlive
        (if co_readTimeout o =? 0 then None else Some (time_Add now (co_readTimeout o)))
        (if co_writeTimeout o =? 0 then None else Some (time_Add now (co_writeTimeout o)))
        (co_heartbeat o && (0 <? co_heartbeatInterval o))))
  end.
End connect.
Arguments connection : clear implicits.

(** ** The server's side of the handshake *)

Section http_server.
(** [url.ParseRequestURI(...).Path] ([None] is an error), and [cleanPath] of
    net/http. *)
Context (ParseRequestURI : gostring -> option gostring) (cleanPath : gostring -> gostring).

(** The method and URI of [http.ReadRequest]. *)
Definition ReadRequest (s : bytes) : option (gostring * gostring) :=
  match ReadLine s with
  | None => None
  | Some (line, rest) =>
      match split_first x20 line with
      | None => None
      | Some (method, line') =>
          match split_first x20 line' with
          | None => None
          | Some (uri, proto) =>
              if negb (ParseHTTPVersion proto) then None
              else match ReadMIMEHeader (S (length rest)) rest with
                   | None => None
                   | Some _ => Some (method, uri)
                   end
          end
      end
  end.

(** The handlers registered with [http.DefaultServeMux]: a server of this
    program, or a page of the trace package. *)
Inductive http_handler := FrpcServer | DebugPage.
Definition mux : Type := list (gostring * http_handler).

Fixpoint mux_lookup (m : mux) (path : gostring) : option http_handler :=
  match m with
  | [] => None
  | (pattern, h) :: m' => if str_eqb pattern path then Some h else mux_lookup m' path
  end.

(** [http.Handle]: an empty pattern and one that is taken panic. *)
Definition http_Handle (pattern : gostring) (h : http_handler) (m : mux) : outcome mux :=
  if str_eqb pattern [] then Panic
  else match mux_lookup m pattern with Some _ => Panic | None => Val (m ++ [(pattern, h)]) end.

(** The longest pattern with a trailing slash that begins a path. *)
Definition mux_longest (m : mux) (path : gostring) : option (gostring * http_handler) :=
  foldl (fun best e =>
    if HasSuffix e.1 (str "/") && HasPrefix path e.1 then
      match best with
      | None => Some e
      | Some b => if len b.1 <? len e.1 then Some e else best
      end
    else best) None m.

(** [ServeMux.match]: the path itself, else the longest. *)
Definition mux_match (m : mux) (path : gostring) : option http_handler :=
  match mux_lookup m path with
  | Some h => Some h
  | None => snd <$> mux_longest m path
  end.

(** [ServeMux.shouldRedirect]: from [/tree] to a registered [/tree/]. *)
Definition should_redirect (m : mux) (path : gostring) : bool :=
  match mux_lookup m path with
  | Some _ => false
  | None =>
      negb (str_eqb path []) &&
      match mux_lookup m (path ++ str "/") with Some _ => negb (HasSuffix path (str "/")) | None => false end
  end.

(** What the trace package, which controller/trace.go imports, has registered. *)
Definition default_mux : mux := [(str "/debug/requests", DebugPage); (str "/debug/events", DebugPage)].

(** The patterns of the process once [serveHTTPListner] has added its own. *)
Definition serveHTTP_mux (rpcPath : gostring) (m : mux) : outcome mux :=
  http_Handle (if str_eqb rpcPath [] then DefaultRPCPath else rpcPath) FrpcServer m.

(** A hijacked connection with what was written to it, or an ordinary reply. *)
Inductive http_reply := Hijacked (data : bytes) | Replied (status : gostring).

(** [ServeHTTP], when hijacking succeeds. *)
Definition ServeHTTP_handler (method : gostring) : http_reply :=
  if negb (str_eqb method (str "CONNECT")) then Replied (str "405 Method Not Allowed")
  else Hijacked (str "HTTP/1.0 " ++ connected ++ [x0a; x0a]).

(** ... and the connection becomes active. *)
Definition ServeHTTP_accept {value} (c : Z) (s : server_t value) : server_t value :=
  set_active (Some ({[c]} ∪ default ∅ (srv_active s))) s.

(** A page of the trace package: clients that are not local are refused. *)
Definition debug_page (local : bool) : http_reply := Replied (if local then str "200 OK" else str "401 Unauthorized").

(** The HTTP server over the default multiplexer; [local] says whether the
    client is on this host.  The path of a CONNECT request is not cleaned. *)
Definition http_serve (m : mux) (local : bool) (s : bytes) : http_reply :=
  match ReadRequest s with
  | None => Replied (str "400 Bad Request")
  | Some (method, uri) =>
      match ParseRequestURI uri with
      | None => Replied (str "400 Bad Request")
      | Some path =>
          if negb (str_eqb method (str "CONNECT")) && negb (str_eqb (cleanPath path) path)
             || should_redirect m path then Replied (str "301 Moved Permanently")
          else
            match mux_match m path with
            | None => Replied (str "404 Not Found")
            | Some FrpcServer => ServeHTTP_handler method
            | Some DebugPage => debug_page local
            end
      end
  end.

(** The bytes of a reply; the server chooses header lines and body. *)
Definition reply_bytes (headers : list gostring) (body : bytes) (r : http_reply) : bytes :=
  match r with
  | Hijacked data => data
  | Replied status =>
      str "HTTP/1.0 " ++ status ++ [x0d; x0a] ++ concat (map (fun h => h ++ [x0d; x0a]) headers) ++ [x0d; x0a] ++ body
  end.
End http_server.

(** ** The handshake succeeds *)

(** A decidable fact about concrete data. *)
Ltac by_deciding := apply (bool_decide_unpack _); vm_compute; exact I.

Lemma HasSuffix_snoc l c d : HasSuffix (l ++ [c]) [d] = bool_decide (c = d).
Proof.
  unfold HasSuffix. rewrite length_app. cbn [length]. rewrite bool_decide_true by lia.
  rewrite Nat.add_sub, drop_app_length. cbn. apply bool_decide_ext. naive_solver.
Qed.

Lemma ReadLine_lf l c rest : x0a ∉ l ++ [c] -> c <> x0d -> ReadLine ((l ++ [c]) ++ x0a :: rest) = Some (l ++ [c], rest).
Proof. intros Hl Hc. unfold ReadLine. rewrite split_first_app by done. by rewrite HasSuffix_snoc, bool_decide_false. Qed.

Lemma ReadLine_crlf l rest : x0a ∉ l -> ReadLine (l ++ x0d :: x0a :: rest) = Some (l, rest).
Proof.
  intros Hl. unfold ReadLine. replace (l ++ x0d :: x0a :: rest) with ((l ++ [x0d]) ++ x0a :: rest) by (by rewrite <- app_assoc).
  rewrite split_first_app by (rewrite not_elem_of_app; split; [done|by_deciding]). rewrite HasSuffix_snoc, bool_decide_true by done.
  by rewrite length_app, Nat.add_sub, take_app_length.
Qed.

(** Header lines a server may send. *)
Definition header_line (h : gostring) : Prop := (x3a ∈ h) /\ (x0a ∉ h).

Lemma ReadMIMEHeader_lines headers body : forall fuel,
  Forall header_line headers -> (length headers < fuel)%nat ->
  ReadMIMEHeader fuel (concat (map (fun h => h ++ [x0d; x0a]) headers) ++ [x0d; x0a] ++ body) = Some body.
Proof.
  induction headers as [|h hs IH]; intros [|fuel] Hh Hf; try (cbn in Hf; lia).
  - cbn [map concat ReadMIMEHeader]. change ([] ++ [x0d; x0a] ++ body) with ([] ++ x0d :: x0a :: body).
    by rewrite (ReadLine_crlf []) by by_deciding.
  - apply Forall_cons in Hh as [[Hc Hn] Hh]. cbn [map concat ReadMIMEHeader]. rewrite <- !app_assoc. cbn [app].
    rewrite ReadLine_crlf by done. destruct h as [|b h]; [by apply elem_of_nil in Hc|].
    rewrite bool_decide_true by done. apply IH; [done|]. cbn in Hf. lia.
Qed.

Lemma header_block_length headers body :
  (length headers < S (length (concat (map (fun h => h ++ [x0d; x0a]) headers) ++ [x0d; x0a] ++ body)))%nat.
Proof. induction headers as [|h hs IH]; cbn in *; [lia|]. rewrite !length_app in *. cbn in *. lia. Qed.

(** A path that can stand in a request line. *)
Definition plain_path (p : gostring) : Prop := (x20 ∉ p) /\ (x0a ∉ p).

Lemma ReadRequest_connect p :
  plain_path p -> ReadRequest (connect_request p) = Some (str "CONNECT", p).
Proof.
  intros [Hs Hn]. unfold ReadRequest, connect_request.
  replace (str "CONNECT " ++ p ++ str " HTTP/1.0" ++ [x0a; x0a])
    with (((str "CONNECT " ++ p ++ str " HTTP/1.") ++ [x30]) ++ x0a :: [x0a])
    by (rewrite <- !app_assoc; reflexivity).
  rewrite ReadLine_lf; [|rewrite !not_elem_of_app; repeat split; (done || by_deciding)|done]. rewrite <- !app_assoc.
  change (str "CONNECT " ++ p ++ str " HTTP/1." ++ [x30]) with (str "CONNECT" ++ x20 :: (p ++ x20 :: str "HTTP/1.0")).
  rewrite split_first_app by by_deciding. rewrite split_first_app by done. vm_compute. reflexivity.
Qed.

(** A status line whose code and text [ReadResponse] returns. *)
Definition status_ok (status : gostring) : Prop :=
  (x0a ∉ status) /\ trim_spaces status = status /\
  exists code text n, split_first x20 status = Some (code, text) /\ length code = 3%nat /\ Atoi code = Some n /\ 0 <= n.

Lemma ReadResponse_status status headers body e :
  status_ok status -> Forall header_line headers ->
  ReadResponse (mkReader (reply_bytes headers body (Replied status)) e) = inl status.
Proof.
  intros (Hnl & Htrim & code & text & n & Hsp & Hlen & Hcode & Hn) Hh. unfold ReadResponse. cbn [rd_bytes rd_err reply_bytes].
  replace (str "HTTP/1.0 " ++ status ++ [x0d; x0a] ++ concat (map (fun h => h ++ [x0d; x0a]) headers) ++ [x0d; x0a] ++ body)
    with ((str "HTTP/1.0" ++ x20 :: status) ++ x0d :: x0a :: (concat (map (fun h => h ++ [x0d; x0a]) headers) ++ [x0d; x0a] ++ body))
    by (rewrite <- !app_assoc; reflexivity).
  rewrite ReadLine_crlf by (rewrite not_elem_of_app, not_elem_of_cons; repeat split; (done || by_deciding)).
  rewrite split_first_app by by_deciding. rewrite Htrim, Hsp, Hlen, Hcode. cbn [negb Nat.eqb].
  rewrite (proj2 (Z.ltb_ge _ _)) by done. change (ParseHTTPVersion (str "HTTP/1.0")) with true. cbn [negb].
  set (block := concat _ ++ _). by rewrite (ReadMIMEHeader_lines headers body) by (done || apply header_block_length).
Qed.

(** *** Where the multiplexer sends a path *)

Definition debug_path (path : gostring) : bool := str_eqb path (str "/debug/requests") || str_eqb path (str "/debug/events").

(** The paths that reach the server registered under a pattern. *)
Definition covered (pattern path : gostring) : bool :=
  str_eqb path pattern || (HasSuffix pattern (str "/") && HasPrefix path pattern && negb (debug_path path)).

(** The status of the reply to the other paths. *)
Definition refusal (local : bool) (pattern path : gostring) : gostring :=
  if debug_path path then (if local then str "200 OK" else str "401 Unauthorized")
  else if str_eqb (path ++ str "/") pattern && negb (HasSuffix path (str "/")) then str "301 Moved Permanently"
  else str "404 Not Found".

Lemma refusal_ok local pattern path : status_ok (refusal local pattern path).
Proof.
  assert (status_ok (str "200 OK") /\ status_ok (str "401 Unauthorized") /\ status_ok (str "301 Moved Permanently") /\
    status_ok (str "404 Not Found")) as (H1 & H2 & H3 & H4).
  { repeat split; try by_deciding.
    - exists (str "200"), (str "OK"), 200. by vm_compute.
    - exists (str "401"), (str "Unauthorized"), 401. by vm_compute.
    - exists (str "301"), (str "Moved Permanently"), 301. by vm_compute.
    - exists (str "404"), (str "Not Found"), 404. by vm_compute. }
  unfold refusal. destruct (debug_path path), local; try done; by destruct (_ && _).
Qed.

Lemma str_eqb_sym a b : str_eqb a b = str_eqb b a.
Proof. unfold str_eqb. apply bool_decide_ext. split; by intros ->. Qed.

Lemma default_lookup pattern path :
  mux_lookup (default_mux ++ [(pattern, FrpcServer)]) path =
    if debug_path path then Some DebugPage else if str_eqb path pattern then Some FrpcServer else None.
Proof.
  unfold default_mux, debug_path. cbn [app mux_lookup]. rewrite !(str_eqb_sym _ path).
  destruct (str_eqb path (str "/debug/requests")), (str_eqb path (str "/debug/events")); done.
Qed.

Lemma default_longest pattern path :
  mux_longest (default_mux ++ [(pattern, FrpcServer)]) path =
    if HasSuffix pattern (str "/") && HasPrefix path pattern then Some (pattern, FrpcServer) else None.
Proof.
  unfold mux_longest, default_mux. cbn [app foldl fst].
  change (HasSuffix (str "/debug/requests") (str "/")) with false. change (HasSuffix (str "/debug/events") (str "/")) with false.
  done.
Qed.

Lemma debug_path_slash path : HasSuffix (path ++ str "/") (str "/") = true.
Proof. change (str "/") with [x2f]. by rewrite HasSuffix_snoc, bool_decide_true. Qed.

Lemma debug_path_no_slash path : debug_path (path ++ str "/") = false.
Proof.
  unfold debug_path, str_eqb. rewrite !bool_decide_false; [done| |];
    intros E; pose proof (debug_path_slash path) as H; rewrite E in H; vm_compute in H; discriminate.
Qed.

(** A CONNECT request for a path, at a process that serves one pattern. *)
Lemma http_serve_connect ParseRequestURI cleanPath rpcPath m local path :
  serveHTTP_mux rpcPath default_mux = Val m -> plain_path path -> path <> [] -> ParseRequestURI path = Some path ->
  let pattern := if str_eqb rpcPath [] then DefaultRPCPath else rpcPath in
  http_serve ParseRequestURI cleanPath m local (connect_request path) =
    if covered pattern path then Hijacked (str "HTTP/1.0 " ++ connected ++ [x0a; x0a]) else Replied (refusal local pattern path).
Proof.
  intros Hm Hp Hne Hu pattern. unfold serveHTTP_mux, http_Handle in Hm. fold pattern in Hm.
  destruct (str_eqb pattern []); [discriminate|]. destruct (mux_lookup default_mux pattern) eqn:Hfree; [discriminate|].
  assert (m = default_mux ++ [(pattern, FrpcServer)]) as -> by congruence. clear Hm. unfold http_serve. rewrite ReadRequest_connect, Hu by done.
  change (negb (str_eqb (str "CONNECT") (str "CONNECT"))) with false. cbn [andb orb].
  unfold should_redirect, mux_match. rewrite !default_lookup, default_longest, debug_path_no_slash.
  unfold covered, refusal. destruct (debug_path path) eqn:Hd.
  { destruct (str_eqb path pattern) eqn:E.
    - exfalso. apply bool_decide_eq_true in E. subst path. unfold debug_path in Hd. unfold default_mux in Hfree. cbn [mux_lookup] in Hfree.
      rewrite !(str_eqb_sym _ pattern) in Hfree. destruct (str_eqb pattern (str "/debug/requests")); [discriminate|].
      destruct (str_eqb pattern (str "/debug/events")); discriminate.
    - rewrite andb_false_r. by destruct local. }
  rewrite andb_true_r. destruct (str_eqb path pattern) eqn:E; [done|]. cbn [orb].
  assert (str_eqb path [] = false) as -> by (by apply bool_decide_eq_false). cbn [negb andb].
  destruct (str_eqb (path ++ str "/") pattern) eqn:Es.
  - apply bool_decide_eq_true in Es. rewrite <- Es, debug_path_slash. cbn [andb].
    assert (HasPrefix path (path ++ str "/") = false) as ->.
    { unfold HasPrefix. apply bool_decide_eq_false. intros Ht. apply (f_equal length) in Ht.
      rewrite length_take, length_app in Ht. cbn in Ht. lia. }
    destruct (HasSuffix path (str "/")); done.
  - cbn [andb]. destruct (HasSuffix pattern (str "/") && HasPrefix path pattern); done.
Qed.

(** C27.  The HTTP handshake, with the pages that share the default multiplexer: a
    client that dials a server of this program over "http" gets its connection
    exactly when the path it asks for is the server's, or lies below a server
    path that ends in a slash and is not one of the two debug pages of the
    trace package; in particular when both use the same path or both the
    default one.  Otherwise the connection is closed and the error carries the
    status: 301 for the server's path without its slash, the status of a debug
    page, or 404. *)
Theorem http_handshake {C} (net : dialer C) ParseRequestURI cleanPath o network address conn rpcPath m local headers body e :
  let path := if str_eqb (co_rpcPath o) [] then DefaultRPCPath else co_rpcPath o in
  let pattern := if str_eqb rpcPath [] then DefaultRPCPath else rpcPath in
  serveHTTP_mux rpcPath default_mux = Val m ->
  plain_path path -> ParseRequestURI path = Some path -> Forall header_line headers ->
  DialTimeout net (str "tcp") address (co_connTimeout o) = inl conn ->
  (forall req, exchange net conn req = mkReader (reply_bytes headers body (http_serve ParseRequestURI cleanPath m local req)) e) ->
  newHttpConn net o network address =
    if covered pattern path then ([], inl (conn, false))
    else ([conn], inr (dial_http_error network address (str "unexpected HTTP response: " ++ refusal local pattern path))).
Proof.
  intros path pattern Hm Hp Hu Hh Hd Hx. unfold newHttpConn. fold path. rewrite Hd, Hx.
  assert (path <> []) as Hne.
  { unfold path. destruct (str_eqb (co_rpcPath o) []) eqn:E; [discriminate|]. by apply bool_decide_eq_false in E. }
  rewrite (http_serve_connect _ _ rpcPath m local path Hm Hp Hne Hu). fold pattern. destruct (covered pattern path).
  - generalize (exchange net). intros _. vm_compute. reflexivity.
  - rewrite ReadResponse_status by (done || apply refusal_ok).
    assert (str_eqb (refusal local pattern path) connected = false) as ->; [|done].
    unfold refusal. destruct (debug_path path), local; try reflexivity; by destruct (_ && _).
Qed.

(** ** What [NewClient] and [Connect] make of the timeouts *)

(** The options of [NewClient] in use: [ConnTimeout] sets the read timeout,
    so a default client dials without a timeout, and every connection it
    makes gets a read deadline ten seconds after connecting, which nothing
    extends; and dialling kcp without a block cipher panics. *)
Theorem default_client_deadline {C} (net : dialer C) now network address conn :
  (network <> str "http" -> network <> str "kcp" -> network <> str "quic" ->
   DialTimeout net network address 0 = inl conn ->
   Connect net now NewClient network address =
     Val ([], inl (mkConnection conn (is_tcp net conn) (Some (now + 10 * Second)) None false))) /\
  (forall t, co_connTimeout (client_ConnTimeout t NewClient) = 0 /\ co_readTimeout (client_ConnTimeout t NewClient) = t) /\
  Connect net now NewClient (str "kcp") address = Panic.
Proof.
  split; [|split; [intros t; done|done]]. intros H1 H2 H3 Hd. unfold Connect, newDirectConn, str_eqb.
  rewrite !bool_decide_false by done. change (co_connTimeout NewClient) with 0. rewrite Hd. reflexivity.
Qed.

(** ** Witnesses *)

Definition uri_path (s : gostring) : option gostring := if HasPrefix s (str "/") then Some s else None.
Definition http_peer (rpcPath : gostring) : dialer nat :=
  let m := match serveHTTP_mux rpcPath default_mux with Val m => m | _ => default_mux end in
  mkDialer (fun _ _ _ => inl 7%nat) (fun _ _ => inl 8%nat) (fun _ _ => inl 9%nat) (fun _ => true)
    (fun _ req => mkReader (reply_bytes [str "Content-Type: text/plain"] (str "404 page not found")
       (http_serve uri_path (fun p => p) m false req)) EOF).

Lemma http_handshake_witness :
  newHttpConn (http_peer []) NewClient (str "http") (str "a:1") = ([], inl (7%nat, false)) /\
  newHttpConn (http_peer (str "/_fprc_/")) NewClient (str "http") (str "a:1") =
    ([7%nat], inr (dial_http_error (str "http") (str "a:1") (str "unexpected HTTP response: 301 Moved Permanently"))) /\
  newHttpConn (http_peer (str "/")) (client_RpcPath (str "/debug/requests") NewClient) (str "http") (str "a:1") =
    ([7%nat], inr (dial_http_error (str "http") (str "a:1") (str "unexpected HTTP response: 401 Unauthorized"))).
Proof.
  split; [|split].
  - apply (http_handshake (http_peer []) uri_path (fun p => p) NewClient (str "http") (str "a:1") 7%nat []
      (default_mux ++ [(DefaultRPCPath, FrpcServer)]) false
      [str "Content-Type: text/plain"] (str "404 page not found") EOF); try reflexivity.
    + split; by_deciding.
    + repeat constructor; by_deciding.
  - apply (http_handshake (http_peer (str "/_fprc_/")) uri_path (fun p => p) NewClient (str "http") (str "a:1") 7%nat (str "/_fprc_/")
      (default_mux ++ [(str "/_fprc_/", FrpcServer)]) false
      [str "Content-Type: text/plain"] (str "404 page not found") EOF); try reflexivity.
    + split; by_deciding.
    + repeat constructor; by_deciding.
  - apply (http_handshake (http_peer (str "/")) uri_path (fun p => p) (client_RpcPath (str "/debug/requests") NewClient)
      (str "http") (str "a:1") 7%nat (str "/") (default_mux ++ [(str "/", FrpcServer)]) false
      [str "Content-Type: text/plain"] (str "404 page not found") EOF); try reflexivity.
    + split; by_deciding.
    + repeat constructor; by_deciding.
Defined.

Lemma default_client_deadline_witness :
  Connect (http_peer []) 5 NewClient (str "tcp") (str "a:1") =
    Val ([], inl (mkConnection 7%nat true (Some (5 + 10 * Second)) None false)).
Proof. apply (default_client_deadline (http_peer []) 5 (str "tcp") (str "a:1") 7%nat); done. Defined.
