(* ===== verification/FailMode.v ===== *)
(** * Selecting servers, failing over, breakers (src/client/client.go: Call, CallDirect,
    selectClient, getCachedClient, removeClient; src/client/failmod*.go)

    The client that a user calls keeps a cache of connected clients by server
    name.  A connected client is a handle with its closing and shutdown flags;
    what a call over it and a dial return comes from the environment ([net]),
    indexed by the number of calls and dials made so far, so a run of the code
    is a function of the environment.  The selector is any implementation of
    the [Selector] interface, the breaker any of the [Breaker] interface. *)
From Stdlib Require Import Strings.Byte.
From S2P Require Import Prelude GoStd GoTime Core Selector Breaker.

#[local] Open Scope go_scope.

(** The environment: the outcome (and clock readings) of the [n]-th call over
    a connection and the error of the [n]-th dial. *)
Record net_env := mkNetEnv {
  ne_call : nat -> call_input;
  ne_dial : nat -> option error;
  ne_rand : nat -> Z
}.

Section client.
Context {S B : Type} `{Selector S} `{Breaker B} (net : net_env).

(** A call over a handle, in the order the calls are made. *)
Record attempt := mkAttempt { at_server : gostring; at_handle : nat; at_error : option error }.

Record xclient := mkXClient {
  x_selector : S;
  x_cached : gmap gostring nat;
  x_flags : gmap nat (bool * bool);
  x_next : nat;
  x_breaker : option (B * Z);
  x_retries : Z;
  x_log : list attempt;
  x_dials : nat;
  x_watching : bool
}.

Definition set_selector (s : S) (c : xclient) : xclient :=
  mkXClient s (x_cached c) (x_flags c) (x_next c) (x_breaker c) (x_retries c) (x_log c) (x_dials c) (x_watching c).
Definition set_cached (m : gmap gostring nat) (c : xclient) : xclient :=
  mkXClient (x_selector c) m (x_flags c) (x_next c) (x_breaker c) (x_retries c) (x_log c) (x_dials c) (x_watching c).
Definition set_flags (m : gmap nat (bool * bool)) (c : xclient) : xclient :=
  mkXClient (x_selector c) (x_cached c) m (x_next c) (x_breaker c) (x_retries c) (x_log c) (x_dials c) (x_watching c).
Definition set_breaker (b : option (B * Z)) (c : xclient) : xclient :=
  mkXClient (x_selector c) (x_cached c) (x_flags c) (x_next c) b (x_retries c) (x_log c) (x_dials c) (x_watching c).
Definition set_watching (b : bool) (c : xclient) : xclient :=
  mkXClient (x_selector c) (x_cached c) (x_flags c) (x_next c) (x_breaker c) (x_retries c) (x_log c) (x_dials c) b.

(** [client.closing || client.shutdown] *)
Definition down (c : xclient) (h : nat) : bool :=
  match x_flags c !! h with Some (cl, sd) => cl || sd | None => false end.

(** ** One call over a connection *)

(** [CallDirect]: through the breaker when there is one.  [send] refuses a
    connection that is shut down or closing. *)
Definition CallDirect (cname : gostring) (h : nat) (c : xclient) : xclient * option error :=
  let n := length (x_log c) in
  let i := ne_call net n in
  let i := if down c h then mkCallInput (Some ErrShutdown) (ci_timer i) (ci_since i) (ci_reset i) (ci_end i) else i in
  let '(b, err) :=
    match x_breaker c with
    | Some (b, timeout) => let '(b', (err, _)) := breaker_Call timeout i b in (Some (b', timeout), err)
    | None => (None, ci_fn i)
    end in
  let c := set_breaker b c in
  (mkXClient (x_selector c) (x_cached c) (x_flags c) (x_next c) (x_breaker c) (x_retries c)
     (x_log c ++ [mkAttempt cname h err]) (x_dials c) (x_watching c), err).

(** ** The cache *)

(** [client.Close()] of a cached client: it is marked shut down; its goroutine
    removes and closes the watcher channel it shares with the parent. *)
Definition child_Close (h : nat) (c : xclient) : xclient :=
  set_watching false (set_flags (<[h := (match x_flags c !! h with Some (cl, _) => cl | None => false end, true)]> (x_flags c)) c).

(** The critical section of [removeClient]. *)
Definition remove_entry (cname : gostring) (client : option nat) (c : xclient) : xclient :=
  let cl := x_cached c !! cname in
  if bool_decide (cl = client) then set_cached (delete cname (x_cached c)) c else c.

Definition removeClient (cname : gostring) (client : option nat) (c : xclient) : xclient :=
  let c := remove_entry cname client c in
  match client with
  | None => c
  | Some h => child_Close h c
  end.

Definition getCachedClient (cname : gostring) (c : xclient) : xclient * (option nat * option error) :=
  match x_cached c !! cname with
  | Some h => (c, (Some h, None))
  | None =>
      let n := x_dials c in
      match ne_dial net n with
      | Some e =>
          (mkXClient (x_selector c) (x_cached c) (x_flags c) (x_next c) (x_breaker c) (x_retries c) (x_log c)
             (n + 1) (x_watching c), (None, Some e))
      | None =>
          let h := x_next c in
          (mkXClient (x_selector c) (<[cname := h]> (x_cached c)) (<[h := (false, false)]> (x_flags c)) (h + 1)
             (x_breaker c) (x_retries c) (x_log c) (n + 1) (x_watching c), (Some h, None))
      end
  end.

Record request := mkRequest { rq_path : gostring; rq_method : gostring; rq_args : gostring }.

(** [selectClient]; a panic of the selector is a panic. *)
Definition selectClient (rq : request) (c : xclient)
    : outcome (xclient * (gostring * option nat * option error)) :=
  let? (s', cname) := Select (mkReq (rq_path rq) (rq_method rq) (rq_args rq) (ne_rand net (length (x_log c))))
                        (x_selector c) in
  let c := set_selector s' c in
  if str_eqb cname [] then Val (c, ([], None, Some ErrClientNoServer))
  else let '(c, (client, err)) := getCachedClient cname c in Val (c, (cname, client, err)).

(** ** Fail modes *)

Definition is_service_error (e : error) : bool := match e with ServiceError _ => true | _ => false end.

(** [FailFastMod.Call]; [client] is never nil here. *)
Definition FailFast_Call (cname : gostring) (h : nat) (c : xclient) : xclient * option error :=
  let '(c, err) := CallDirect cname h c in
  match err with
  | None => (c, None)
  | Some e => if is_service_error e then (c, Some e) else (removeClient cname (Some h) c, Some e)
  end.

(** The loop of [FailOverMod.Call]; [err] is the variable it returns. *)
Fixpoint FailOver_loop (retries : nat) (rq : request) (cname : gostring) (client : option nat) (err : option error)
    (c : xclient) : outcome (xclient * option error) :=
  match retries with
  | O => Val (c, err)
  | Datatypes.S retries' =>
      let '(c, err, ok) :=
        match client with
        | Some h => let '(c, err) := CallDirect cname h c in
                    (c, err, match err with None => true | Some _ => false end)
        | None => (c, err, false)
        end in
      if ok then Val (c, None)
      else
        let c := removeClient cname client c in
        let? (c, (cname, client, err)) := selectClient rq c in
        FailOver_loop retries' rq cname client err c
  end.

Definition FailOver_Call (rq : request) (cname : gostring) (client : option nat) (c : xclient)
    : outcome (xclient * option error) :=
  FailOver_loop (Z.to_nat (x_retries c)) rq cname client None c.

Fixpoint FailTry_loop (retries : nat) (cname : gostring) (client : option nat) (err : option error)
    (c : xclient) : xclient * option error :=
  match retries with
  | O => (c, err)
  | Datatypes.S retries' =>
      let '(c, err, ok) :=
        match client with
        | Some h => let '(c, err) := CallDirect cname h c in
                    (c, err, match err with None => true | Some _ => false end)
        | None => (c, err, false)
        end in
      if ok then (c, None)
      else
        let c := removeClient cname client c in
        let '(c, (client, err)) := getCachedClient cname c in
        FailTry_loop retries' cname client err c
  end.

Definition FailTry_Call (cname : gostring) (client : option nat) (c : xclient) : xclient * option error :=
  FailTry_loop (Z.to_nat (x_retries c)) cname client None c.

(** core.FailMode and [newFailMod] *)
Inductive FailMode := FailFast | FailOver | FailTry | OtherFailMode (z : Z).

(** [Call], with a selector and a discovery configured: an error of
    [selectClient] is returned whatever the fail mode, because the value in
    [failMode] is a pointer and the type assertion to [FailFastMod] fails. *)
Definition Call (mode : FailMode) (rq : request) (c : xclient) : outcome (xclient * option error) :=
  let? (c, (cname, client, err)) := selectClient rq c in
  match err with
  | Some e => Val (c, Some e)
  | None =>
      match mode, client with
      | FailOver, _ => FailOver_Call rq cname client c
      | FailTry, _ => Val (FailTry_Call cname client c)
      | _, Some h => Val (FailFast_Call cname h c)
      | _, None => Panic
      end
  end.
(** ** Closing the client *)

(** [close()] of a cached client; [cerr] is what closing its connection returns. *)
Definition handle_close (cerr : nat -> option error) (h : nat) (c : xclient) : xclient * option error :=
  if down c h then (c, Some ErrShutdown)
  else (set_flags (<[h := (true, match x_flags c !! h with Some (_, sd) => sd | None => false end)]> (x_flags c)) c, cerr h).

(** [Close()] of the client the user holds: every cached client is closed and
    forgotten, in the order [iter] the map is ranged over, and the errors are
    collected; its goroutine removes and closes the watcher channel. *)
Definition client_Close (cerr : nat -> option error) (iter : list (gostring * nat)) (c : xclient) : xclient * option error :=
  let '(c, errs) :=
    foldl (fun '(c, errs) '(k, h) =>
      let '(c, e) := handle_close cerr h c in
      (set_cached (delete k (x_cached c)) c, errs ++ match e with Some e => [e] | None => [] end)) (c, []) iter in
  (set_watching false c, match errs with [] => None | _ => Some (NewMultiError errs) end).
End client.
Arguments xclient : clear implicits.

(** [splitNetworkAndAddress] *)
Definition splitNetworkAndAddress (server : gostring) : gostring * gostring :=
  match split_first x40 server with
  | None => (str "tcp", server)
  | Some (network, address) => (network, address)
  end.

(** ** Proofs *)

Section client_proofs.
Context {S B : Type} `{SelectLaws S} `{BreakerLaws B} (net : net_env).
Hypothesis rand_range : forall n, 0 <= ne_rand net n < 2 ^ 32.
Implicit Types c : xclient S B.

(** What a call over a connection leaves unchanged, and what it appends. *)
Lemma CallDirect_spec cname h c :
  exists err c', CallDirect net cname h c = (c', err) /\
    x_log c' = x_log c ++ [mkAttempt cname h err] /\ x_selector c' = x_selector c /\ x_cached c' = x_cached c /\
    x_retries c' = x_retries c.
Proof.
  unfold CallDirect. destruct (x_breaker c) as [[b timeout]|].
  - destruct (breaker_Call timeout _ b) as [b' [err ran]]. by eexists err, _.
  - by eexists _, _.
Qed.

(** A call fails when the function it guards fails, with a breaker or without. *)
Lemma CallDirect_fails cname h c :
  (forall n, ci_fn (ne_call net n) <> None) -> (CallDirect net cname h c).2 <> None.
Proof.
  intros Hf. unfold CallDirect. set (i := if down c h then _ else _).
  assert (ci_fn i <> None) as Hi by (unfold i; destruct (down c h); [done|apply Hf]).
  destruct (x_breaker c) as [[b timeout]|]; [|done].
  destruct (breaker_Call timeout i b) as [b' [err ran]] eqn:E. cbn. apply breaker_Call_law in E.
  destruct ran; subst err; [|done]. unfold guarded_result. destruct (timeout =? 0); [done|]. by destruct (ci_timer i).
Qed.

Lemma removeClient_same cname client c :
  x_log (removeClient cname client c) = x_log c /\ x_selector (removeClient cname client c) = x_selector c.
Proof. unfold removeClient, remove_entry. destruct (bool_decide _), client; done. Qed.

Lemma getCachedClient_spec cname c :
  exists c' client err, getCachedClient net cname c = (c', (client, err)) /\
    x_log c' = x_log c /\ x_selector c' = x_selector c /\
    ((forall n, ne_dial net n = None) -> is_Some client /\ err = None).
Proof.
  unfold getCachedClient. destruct (x_cached c !! cname) as [h|]; [by eexists _, _, _; eauto 10|].
  destruct (ne_dial net (x_dials c)) as [e|] eqn:E; eexists _, _, _; (split; [done|]); do 2 (split; [done|]); intros Hd.
  - by rewrite Hd in E.
  - by eauto.
Qed.

(** The selector stays usable, and chooses among its servers. *)
Lemma selectClient_spec rq c :
  valid (x_selector c) ->
  exists c' cname client err, selectClient net rq c = Val (c', (cname, client, err)) /\
    x_log c' = x_log c /\ valid (x_selector c') /\ known (x_selector c') = known (x_selector c) /\
    (known (x_selector c) = [] -> err = Some ErrClientNoServer) /\
    (Forall (fun n => n <> []) (known (x_selector c)) -> known (x_selector c) <> [] ->
     (forall n, ne_dial net n = None) -> is_Some client /\ err = None).
Proof.
  intros Hv. unfold selectClient.
  set (r := mkReq _ _ _ _).
  destruct (Select_law r (x_selector c) Hv (rand_range _)) as (s' & name & -> & Hv' & Hk & Hnil & Hin).
  cbn [outcome_bind]. unfold str_eqb. destruct (bool_decide (name = [])) eqn:E.
  - apply bool_decide_eq_true in E as ->. eexists _, _, _, _. do 5 (split; [done|]).
    intros Hall Hne Hd. exfalso. rewrite Forall_forall in Hall. by apply (Hall [] (Hin Hne)).
  - apply bool_decide_eq_false in E.
    destruct (getCachedClient_spec name (set_selector s' c)) as (c' & client & err & -> & Hl & Hs & Hd).
    eexists _, _, _, _. split; [done|]. rewrite Hl, Hs. do 3 (split; [done|]). split.
    + intros Hkn. exfalso. by apply E, Hnil.
    + intros _ _. apply Hd.
Qed.

(** The attempts of a failover loop: at most [retries], all failing except
    perhaps the last, and a successful one makes the result nil. *)
Lemma FailOver_loop_spec retries rq : forall cname client err c,
  valid (x_selector c) ->
  exists c' r atts, FailOver_loop net retries rq cname client err c = Val (c', r) /\
    x_log c' = x_log c ++ atts /\ (length atts <= retries)%nat /\
    Forall (fun a => at_error a <> None) (removelast atts) /\
    (forall a, a ∈ atts -> at_error a = None -> r = None).
Proof.
  induction retries as [|retries IH]; intros cname client err c Hv; cbn.
  { exists c, err, []. rewrite app_nil_r. do 4 (split; [done|]). intros a Ha. by apply not_elem_of_nil in Ha. }
  assert (forall c0, valid (x_selector c0) ->
    exists c' r atts, (let? (c, (cname, client, err)) := selectClient net rq (removeClient cname client c0) in
        FailOver_loop net retries rq cname client err c) = Val (c', r) /\
      x_log c' = x_log c0 ++ atts /\ (length atts <= retries)%nat /\
      Forall (fun a => at_error a <> None) (removelast atts) /\
      (forall a, a ∈ atts -> at_error a = None -> r = None)) as Hnext.
  { intros c0 Hv0. destruct (removeClient_same cname client c0) as [Hl0 Hs0].
    destruct (selectClient_spec rq (removeClient cname client c0)) as (c1 & cn1 & cl1 & e1 & -> & Hl1 & Hv1 & _);
      [by rewrite Hs0|]. cbn [outcome_bind].
    destruct (IH cn1 cl1 e1 c1 Hv1) as (c' & r & atts & -> & Hl & Hlen & Hall & Hok).
    exists c', r, atts. split; [done|]. rewrite Hl, Hl1, Hl0. done. }
  destruct client as [h|].
  - destruct (CallDirect_spec cname h c) as (err1 & c1 & -> & Hl1 & Hs1 & _ & _).
    destruct err1 as [e1|].
    + destruct (Hnext c1) as (c' & r & atts & -> & Hl & Hlen & Hall & Hok); [by rewrite Hs1|].
      exists c', r, (mkAttempt cname h (Some e1) :: atts). split; [done|]. rewrite Hl, Hl1, <- app_assoc.
      split; [done|]. split; [cbn; lia|]. split.
      * destruct atts as [|a atts]; [done|]. cbn [removelast]. constructor; [done|]. exact Hall.
      * intros a Ha Hn. apply elem_of_cons in Ha as [-> |Ha]; [done|]. by apply (Hok a).
    + exists c1, None, [mkAttempt cname h None]. split; [done|]. split; [done|]. split; [cbn; lia|]. done.
  - destruct (Hnext c Hv) as (c' & r & atts & -> & Hl & Hlen & Hall & Hok).
    exists c', r, atts. split; [done|]. split; [done|]. split; [lia|]. done.
Qed.

(** C26.  Attempts of a call with failover: for any selector that keeps its laws
    and any behaviour of the network, the call returns, makes at most
    [retries] attempts, goes on only after a failed one, and returns nil as
    soon as one succeeds. *)
Theorem failover_attempts rq cname client c :
  valid (x_selector c) ->
  exists c' r atts, FailOver_Call net rq cname client c = Val (c', r) /\
    x_log c' = x_log c ++ atts /\ (length atts <= Z.to_nat (x_retries c))%nat /\
    Forall (fun a => at_error a <> None) (removelast atts) /\
    (forall a, a ∈ atts -> at_error a = None -> r = None).
Proof. intros Hv. by apply FailOver_loop_spec. Qed.

(** What is known of the attempts of a loop with [retries] rounds and result
    [r]: at most that many, going on only after a failure, a success makes the
    result nil. *)
Definition good_attempts (retries : nat) (r : option error) (atts : list attempt) : Prop :=
  (length atts <= retries)%nat /\ Forall (fun a => at_error a <> None) (removelast atts) /\
  (forall a, a ∈ atts -> at_error a = None -> r = None).

Lemma good_attempts_cons retries r a atts :
  at_error a <> None -> good_attempts retries r atts -> good_attempts (Datatypes.S retries) r (a :: atts).
Proof.
  intros Ha (Hlen & Hall & Hok). split; [cbn; lia|]. split.
  - destruct atts; [constructor|]. cbn [removelast]. by constructor.
  - intros b [-> |Hb]%elem_of_cons Hn; [done|]. by apply (Hok b).
Qed.

Lemma FailTry_loop_spec retries : forall cname client err c,
  exists c' r atts, FailTry_loop net retries cname client err c = (c', r) /\
    x_log c' = x_log c ++ atts /\ Forall (fun a => at_server a = cname) atts /\ good_attempts retries r atts.
Proof.
  induction retries as [|retries IH]; intros cname client err c; cbn [FailTry_loop].
  { exists c, err, []. rewrite app_nil_r. do 3 (split; [done|]). split; [done|]. split; [done|]. by intros a ?%not_elem_of_nil. }
  assert (forall c0, exists c' r atts,
    (let '(c1, (client1, err1)) := getCachedClient net cname (removeClient cname client c0) in
     FailTry_loop net retries cname client1 err1 c1) = (c', r) /\
    x_log c' = x_log c0 ++ atts /\ Forall (fun a => at_server a = cname) atts /\ good_attempts retries r atts) as Hnext.
  { intros c0. destruct (getCachedClient_spec cname (removeClient cname client c0)) as (c1 & cl1 & e1 & -> & Hl1 & _).
    destruct (IH cname cl1 e1 c1) as (c' & r & atts & -> & Hl & Hrest). exists c', r, atts. split; [done|].
    rewrite Hl, Hl1, (proj1 (removeClient_same cname client c0)). done. }
  destruct client as [h|].
  - destruct (CallDirect_spec cname h c) as (err1 & c1 & -> & Hl1 & _). destruct err1 as [e1|].
    + destruct (Hnext c1) as (c' & r & atts & -> & Hl & Hsrv & Hgood).
      exists c', r, (mkAttempt cname h (Some e1) :: atts). split; [done|]. rewrite Hl, Hl1, <- app_assoc.
      split; [done|]. split; [by constructor|]. by apply good_attempts_cons.
    + exists c1, None, [mkAttempt cname h None]. split; [done|]. split; [done|]. split; [by constructor|].
      split; [cbn; lia|]. split; [done|]. done.
  - destruct (Hnext c) as (c' & r & atts & -> & Hl & Hsrv & Hlen & Hrest).
    exists c', r, atts. do 3 (split; [done|]). split; [lia|done].
Qed.

(** Trying again: every attempt goes to the same server, redialled after a
    failure; there are at most [retries], and a success makes the result nil. *)
Theorem failtry_attempts cname client c :
  exists c' r atts, FailTry_Call net cname client c = (c', r) /\
    x_log c' = x_log c ++ atts /\ Forall (fun a => at_server a = cname) atts /\
    good_attempts (Z.to_nat (x_retries c)) r atts.
Proof. apply FailTry_loop_spec. Qed.

(** Without servers every fail mode reports [ErrClientNoServer] and makes no
    attempt. *)
Theorem call_without_servers mode rq c :
  valid (x_selector c) -> known (x_selector c) = [] ->
  exists c', Call net mode rq c = Val (c', Some ErrClientNoServer) /\ x_log c' = x_log c.
Proof.
  intros Hv Hk. unfold Call.
  destruct (selectClient_spec rq c Hv) as (c' & cname & client & err & -> & Hl & _ & _ & Herr & _).
  rewrite (Herr Hk). cbn [outcome_bind]. by exists c'.
Qed.

(** Fail fast: one attempt, whose error is returned; the cached connection
    is dropped exactly when the error does not come from the service. *)
Theorem failfast_result cname h c :
  x_cached c !! cname = Some h ->
  exists c' err, FailFast_Call net cname h c = (c', err) /\ x_log c' = x_log c ++ [mkAttempt cname h err] /\
    (x_cached c' !! cname = match err with
                            | Some e => if is_service_error e then Some h else None
                            | None => Some h
                            end) /\
    (forall e, err = Some e -> is_service_error e = false -> down c' h = true).
Proof.
  intros Hc. unfold FailFast_Call.
  destruct (CallDirect_spec cname h c) as (err & c1 & -> & Hl1 & _ & Hc1 & _).
  destruct err as [e|]; [|exists c1, None; rewrite Hc1; by repeat split].
  destruct (is_service_error e) eqn:E.
  { exists c1, (Some e). rewrite Hc1, E. split; [done|]. split; [done|]. split; [done|]. intros e' [= <-]. congruence. }
  exists (removeClient cname (Some h) c1), (Some e). split; [done|].
  split; [by rewrite (proj1 (removeClient_same cname (Some h) c1))|]. rewrite E.
  unfold removeClient, remove_entry. rewrite Hc1, Hc, bool_decide_true by done. cbn. rewrite lookup_delete_eq. split; [done|].
  intros _ _ _. unfold down. cbn. rewrite lookup_insert_eq. apply orb_true_r.
Qed.

(** The loop when no attempt can succeed but connecting always works. *)
Lemma FailOver_loop_all_fail retries rq : forall cname h err c,
  valid (x_selector c) -> known (x_selector c) <> [] -> Forall (fun n => n <> []) (known (x_selector c)) ->
  (forall n, ne_dial net n = None) -> (forall n, ci_fn (ne_call net n) <> None) ->
  exists c' atts, FailOver_loop net (Datatypes.S retries) rq cname (Some h) err c = Val (c', None) /\
    x_log c' = x_log c ++ atts /\ length atts = Datatypes.S retries /\ Forall (fun a => at_error a <> None) atts.
Proof.
  induction retries as [|retries IH]; intros cname h err c Hv Hne Hall Hd Hf; cbn [FailOver_loop].
  all: destruct (CallDirect_spec cname h c) as (err1 & c1 & Hcd & Hl1 & Hs1 & _ & _).
  all: pose proof (CallDirect_fails cname h c Hf) as Hfail; rewrite Hcd in Hfail |- *; cbn in Hfail.
  all: destruct err1 as [e1|]; [|done].
  all: destruct (removeClient_same cname (Some h) c1) as [Hl2 Hs2].
  all: destruct (selectClient_spec rq (removeClient cname (Some h) c1)) as (c3 & cn3 & cl3 & e3 & -> & Hl3 & Hv3 & Hk3 & _ & Hgood);
    [by rewrite Hs2, Hs1|].
  all: rewrite Hs2, Hs1 in *; destruct (Hgood Hall Hne Hd) as [[h3 ->] ->]; cbn [outcome_bind].
  - exists c3, [mkAttempt cname h (Some e1)]. rewrite Hl3, Hl2, Hl1. split; [done|]. split; [done|]. split; [done|].
    by constructor.
  - rewrite <- Hk3 in Hne, Hall. destruct (IH cn3 h3 None c3 Hv3 Hne Hall Hd Hf) as (c' & atts & Hrun & Hl & Hlen & Hbad).
    cbn [FailOver_loop] in Hrun. exists c', (mkAttempt cname h (Some e1) :: atts). split; [exact Hrun|].
    rewrite Hl, Hl3, Hl2, Hl1, <- app_assoc. split; [done|]. split; [cbn; lia|]. by constructor.
Qed.

(** C35.  Failover reports success although nothing succeeded: when every attempt
    fails but servers can still be selected and dialled, the call makes its
    [retries] attempts and then returns nil, because the error of the last
    attempt is overwritten by the result of selecting the next server. *)
Theorem failover_hides_failure rq cname h c :
  valid (x_selector c) -> known (x_selector c) <> [] -> Forall (fun n => n <> []) (known (x_selector c)) ->
  (forall n, ne_dial net n = None) -> (forall n, ci_fn (ne_call net n) <> None) -> 0 < x_retries c ->
  exists c' atts, FailOver_Call net rq cname (Some h) c = Val (c', None) /\
    x_log c' = x_log c ++ atts /\ length atts = Z.to_nat (x_retries c) /\ Forall (fun a => at_error a <> None) atts.
Proof.
  intros Hv Hne Hall Hd Hf Hr. unfold FailOver_Call.
  destruct (Z.to_nat (x_retries c)) as [|n] eqn:E; [lia|]. by apply FailOver_loop_all_fail.
Qed.

(** One failed call ends the watching: the connection that a fail-fast call
    gives up is closed with [Close], which also removes and closes the watcher
    channel it shares with the client, so the client sees no later change. *)
Theorem failed_call_stops_watching cname h c e :
  x_breaker c = None -> down c h = false -> ci_fn (ne_call net (length (x_log c))) = Some e -> is_service_error e = false ->
  let c' := (FailFast_Call net cname h c).1 in
  x_watching c' = false /\ down c' h = true.
Proof.
  intros Hb Hd He Hs. unfold FailFast_Call, CallDirect. rewrite Hb, Hd, He, Hs. cbn. split; [done|].
  unfold down, removeClient, remove_entry, child_Close. cbn. case_bool_decide; cbn; rewrite lookup_insert_eq; by destruct (x_flags c !! h) as [[[] ?]|].
Qed.

(** Closing one handle takes it down and raises no other. *)
Lemma handle_close_down cerr h c :
  let c' := (handle_close cerr h c).1 in
  down c' h = true /\ (forall h', down c h' = true -> down c' h' = true) /\ x_cached c' = x_cached c.
Proof.
  unfold handle_close. destruct (down c h) eqn:E; [by cbn|]. cbn [fst]. unfold down, set_flags. cbn [x_flags x_cached].
  rewrite lookup_insert_eq. split; [done|]. split; [|done]. intros h' Hh'.
  destruct (decide (h' = h)) as [->|Hne]; [by rewrite lookup_insert_eq|by rewrite lookup_insert_ne by done].
Qed.

Lemma close_loop cerr iter : forall c errs,
  let r := foldl (fun '(c, errs) '(k, h) =>
      let '(c, e) := handle_close cerr h c in
      (set_cached (delete k (x_cached c)) c, errs ++ match e with Some e => [e] | None => [] end)) (c, errs) iter in
  (forall h, down c h = true -> down r.1 h = true) /\ (forall k h, (k, h) ∈ iter -> down r.1 h = true) /\
  (forall k, x_cached r.1 !! k = if bool_decide (k ∈ iter.*1) then None else x_cached c !! k).
Proof.
  induction iter as [|[k h] iter IH]; intros c errs; cbn [foldl].
  { split; [done|]. split; [by intros ? ? ?%elem_of_nil|]. intros k. by rewrite bool_decide_false by apply not_elem_of_nil. }
  pose proof (handle_close_down cerr h c) as (Hd & Hk & Hc). destruct (handle_close cerr h c) as [c1 e]. cbn in Hd, Hk, Hc.
  set (c2 := set_cached (delete k (x_cached c1)) c1). set (errs' := errs ++ _).
  destruct (IH c2 errs') as (Hl1 & Hl2 & Hl3).
  assert (forall h', down c1 h' = true -> down c2 h' = true) as Hsame by done.
  split; [intros h' Hh'; by apply Hl1, Hsame, Hk|]. split.
  - intros k' h' Hin. apply elem_of_cons in Hin as [[= -> ->]|Hin]; [by apply Hl1, Hsame|by apply (Hl2 k')].
  - intros k'. rewrite Hl3. cbn [fmap list_fmap fst]. destruct (decide (k' = k)) as [->|Hne].
    + rewrite (bool_decide_true (k ∈ k :: _)) by (apply elem_of_cons; by left). case_bool_decide; [done|]. apply lookup_delete_eq.
    + rewrite (bool_decide_ext (k' ∈ k :: iter.*1) (k' ∈ iter.*1)) by (rewrite elem_of_cons; split; [by intros [->|]|by right]).
      case_bool_decide; [done|]. cbn [c2 set_cached x_cached]. by rewrite lookup_delete_ne, Hc.
Qed.

(** Closing the client takes down every cached connection and empties the
    cache, whatever the order of the map and the errors on the way. *)
Theorem client_Close_all cerr iter c :
  iter ≡ₚ map_to_list (x_cached c) ->
  x_cached (client_Close cerr iter c).1 = ∅ /\ x_watching (client_Close cerr iter c).1 = false /\
  (forall k h, x_cached c !! k = Some h -> down (client_Close cerr iter c).1 h = true).
Proof.
  intros Hi. unfold client_Close. destruct (close_loop cerr iter c []) as (_ & Hl2 & Hl3).
  destruct (foldl _ _ iter) as [c' errs]. cbn in Hl2, Hl3 |- *. split; [|split; [done|]].
  - apply map_eq. intros k. rewrite Hl3, lookup_empty. case_bool_decide as Hk; [done|].
    apply eq_None_not_Some. intros [h Hh]. apply Hk. apply list_elem_of_fmap. exists (k, h). split; [done|].
    rewrite Hi. by apply elem_of_map_to_list.
  - intros k h Hh. apply (Hl2 k). rewrite Hi. by apply elem_of_map_to_list.
Qed.
End client_proofs.

(** ** Witnesses *)

Definition bad_net : net_env :=
  mkNetEnv (fun n => mkCallInput (Some (ExternalError (str "refused"))) false (Z.of_nat n) 0 0) (fun _ => None) (fun _ => 0).
Definition two_servers : roundRobinSelector := newRoundRobinSelector [(str "tcp@a:1", []); (str "tcp@b:1", [])].
Definition sample_x : xclient roundRobinSelector SimpleCircuitBreaker :=
  mkXClient two_servers {[str "tcp@a:1" := 0%nat]} {[0%nat := (false, false)]} 1 None 3 [] 0 true.
Definition sample_rq : request := mkRequest (str "Arith") (str "Mul") (str "1").

Lemma two_servers_valid : valid two_servers.
Proof. vm_compute. intuition discriminate. Qed.

Lemma bad_net_rand : forall n, 0 <= ne_rand bad_net n < 2 ^ 32.
Proof. intros n. cbn. lia. Qed.

Lemma failover_attempts_witness :
  exists c' r atts, FailOver_Call bad_net sample_rq (str "tcp@a:1") (Some 0%nat) sample_x = Val (c', r) /\
    x_log c' = [] ++ atts /\ (length atts <= 3)%nat /\
    Forall (fun a => at_error a <> None) (removelast atts) /\
    (forall a, a ∈ atts -> at_error a = None -> r = None).
Proof. apply (failover_attempts bad_net bad_net_rand sample_rq (str "tcp@a:1") (Some 0%nat) sample_x). apply two_servers_valid. Defined.

Lemma failover_hides_failure_witness :
  exists c' atts, FailOver_Call bad_net sample_rq (str "tcp@a:1") (Some 0%nat) sample_x = Val (c', None) /\
    x_log c' = [] ++ atts /\ length atts = 3%nat /\ Forall (fun a => at_error a <> None) atts.
Proof.
  apply (failover_hides_failure bad_net bad_net_rand sample_rq (str "tcp@a:1") 0 sample_x).
  - apply two_servers_valid.
  - discriminate.
  - repeat constructor; discriminate.
  - done.
  - done.
  - cbn. lia.
Defined.

Lemma call_without_servers_witness :
  exists c', Call bad_net FailTry sample_rq
      (mkXClient (newRoundRobinSelector []) ∅ ∅ 0 None 3 [] 0 true) = Val (c', Some ErrClientNoServer) /\ x_log c' = [].
Proof.
  apply (call_without_servers bad_net bad_net_rand FailTry sample_rq
    (mkXClient (newRoundRobinSelector []) ∅ ∅ 0 None 3 [] 0 true)).
  - vm_compute. intuition discriminate.
  - reflexivity.
Defined.

Lemma failfast_result_witness :
  exists c' err, FailFast_Call bad_net (str "tcp@a:1") 0 sample_x = (c', err) /\
    x_log c' = [] ++ [mkAttempt (str "tcp@a:1") 0 err] /\
    (x_cached c' !! str "tcp@a:1" = match err with
                            | Some e => if is_service_error e then Some 0%nat else None
                            | None => Some 0%nat
                            end) /\
    (forall e, err = Some e -> is_service_error e = false -> down c' 0 = true).
Proof. apply (failfast_result bad_net (str "tcp@a:1") 0 sample_x). vm_compute. reflexivity. Defined.

Lemma failed_call_stops_watching_witness :
  let c' := (FailFast_Call bad_net (str "tcp@a:1") 0 sample_x).1 in x_watching c' = false /\ down c' 0 = true.
Proof.
  apply (failed_call_stops_watching bad_net (str "tcp@a:1") 0 sample_x (ExternalError (str "refused"))); reflexivity.
Defined.
