(* ===== verification/Cache.v ===== *)
(** * The cache of connections under concurrent use (src/client/client.go:
    getCachedClient, removeClient)

    Many goroutines of one client look up, dial and give up connections.  Each
    step is one critical section: the fast path of [getCachedClient] under the
    read lock, its second look and dial under the write lock, the critical
    section of [removeClient], and the [Close] after it.  A connection may go
    down at any time.  What has been dialled and removed is recorded. *)
From S2P Require Import Prelude GoStd GoTime Core Selector Breaker FailMode.

(** Where a goroutine is: before the fast path, before the slow path, with a
    connection, with an error, before [Close], or done. *)
Inductive pc :=
| PLookup (name : gostring)
| PSlow (name : gostring)
| PGot (name : gostring) (h : nat)
| PFailed
| PClose (h : nat)
| PDone.

Section cache.
Context {S B : Type} `{Selector S} `{Breaker B} (net : net_env).

Record cache_world := mkCacheWorld {
  cw_client : xclient S B;
  cw_threads : gmap nat pc;
  cw_dialled : list (gostring * nat);
  cw_removed : list (gostring * nat)
}.

(** A connection's response loop ends: it is shut down. *)
Definition shut_down (h : nat) (c : xclient S B) : xclient S B :=
  set_flags (<[h := (match x_flags c !! h with Some (cl, _) => cl | None => false end, true)]> (x_flags c)) c.

Inductive cache_step : cache_world -> cache_world -> Prop :=
| cs_start c ts dl rm i name :
    ts !! i = None ->
    cache_step (mkCacheWorld c ts dl rm) (mkCacheWorld c (<[i := PLookup name]> ts) dl rm)
| cs_fast c ts dl rm i name h :
    ts !! i = Some (PLookup name) -> x_cached c !! name = Some h -> down c h = false ->
    cache_step (mkCacheWorld c ts dl rm) (mkCacheWorld c (<[i := PGot name h]> ts) dl rm)
| cs_miss c ts dl rm i name :
    ts !! i = Some (PLookup name) -> (forall h, x_cached c !! name = Some h -> down c h = true) ->
    cache_step (mkCacheWorld c ts dl rm) (mkCacheWorld c (<[i := PSlow name]> ts) dl rm)
| cs_slow_hit c ts dl rm i name h c' err :
    ts !! i = Some (PSlow name) -> x_cached c !! name = Some h ->
    getCachedClient net name c = (c', (Some h, err)) ->
    cache_step (mkCacheWorld c ts dl rm) (mkCacheWorld c' (<[i := PGot name h]> ts) dl rm)
| cs_slow_dial c ts dl rm i name h c' err :
    ts !! i = Some (PSlow name) -> x_cached c !! name = None ->
    getCachedClient net name c = (c', (Some h, err)) ->
    cache_step (mkCacheWorld c ts dl rm) (mkCacheWorld c' (<[i := PGot name h]> ts) (dl ++ [(name, h)]) rm)
| cs_slow_fail c ts dl rm i name c' err :
    ts !! i = Some (PSlow name) -> getCachedClient net name c = (c', (None, err)) ->
    cache_step (mkCacheWorld c ts dl rm) (mkCacheWorld c' (<[i := PFailed]> ts) dl rm)
| cs_remove c ts dl rm i name h :
    ts !! i = Some (PGot name h) ->
    cache_step (mkCacheWorld c ts dl rm)
      (mkCacheWorld (remove_entry name (Some h) c) (<[i := PClose h]> ts) dl
         (if bool_decide (x_cached c !! name = Some h) then rm ++ [(name, h)] else rm))
| cs_keep c ts dl rm i name h :
    ts !! i = Some (PGot name h) ->
    cache_step (mkCacheWorld c ts dl rm) (mkCacheWorld c (<[i := PDone]> ts) dl rm)
| cs_close c ts dl rm i h :
    ts !! i = Some (PClose h) ->
    cache_step (mkCacheWorld c ts dl rm) (mkCacheWorld (child_Close h c) (<[i := PDone]> ts) dl rm)
| cs_down c ts dl rm h :
    cache_step (mkCacheWorld c ts dl rm) (mkCacheWorld (shut_down h c) ts dl rm).

Record cache_inv (w : cache_world) : Prop := {
  ca_cached : forall name h, x_cached (cw_client w) !! name = Some h ->
    (name, h) ∈ cw_dialled w /\ (name, h) ∉ cw_removed w;
  ca_dialled : forall name h, (name, h) ∈ cw_dialled w ->
    x_cached (cw_client w) !! name = Some h \/ (name, h) ∈ cw_removed w;
  ca_removed : forall name h, (name, h) ∈ cw_removed w -> (name, h) ∈ cw_dialled w;
  ca_fresh : forall name h, (name, h) ∈ cw_dialled w -> (h < x_next (cw_client w))%nat;
  ca_unique : NoDup (map snd (cw_dialled w));
  ca_threads : forall i name h, cw_threads w !! i = Some (PGot name h) -> (name, h) ∈ cw_dialled w
}.

(** Steps that change neither the cache nor the counter of handles, and whose
    thread ends up with a dialled connection or none. *)
Lemma cache_inv_thread c c' ts dl rm i p :
  cache_inv (mkCacheWorld c ts dl rm) -> x_cached c' = x_cached c -> x_next c' = x_next c ->
  (forall name h, p = PGot name h -> (name, h) ∈ dl) ->
  cache_inv (mkCacheWorld c' (<[i := p]> ts) dl rm).
Proof.
  intros [H1 H2 H6 H3 H4 H5] Hc Hn Hp. cbn in *. split; cbn; rewrite ?Hc, ?Hn; try done.
  intros j name h Hj. rewrite lookup_insert in Hj. case_decide; [|by eapply H5]. injection Hj as ->. by apply Hp.
Qed.

(** A dial under the write lock. *)
Lemma dial_inv c ts dl rm i name h c' err :
  cache_inv (mkCacheWorld c ts dl rm) -> x_cached c !! name = None ->
  getCachedClient net name c = (c', (Some h, err)) ->
  cache_inv (mkCacheWorld c' (<[i := PGot name h]> ts) (dl ++ [(name, h)]) rm).
Proof.
  intros [H1 H2 H6 H3 H4 H5] Hnone Hget. cbn in *. unfold getCachedClient in Hget. rewrite Hnone in Hget.
  destruct (ne_dial net (x_dials c)); [discriminate|]. injection Hget as <- <- <-.
  assert (forall n k, (n, k) ∈ dl -> (n, k) <> (name, x_next c)) as Hne.
  { intros n k Hk [= -> ->]. specialize (H3 _ _ Hk). lia. }
  split; cbn; try setoid_rewrite elem_of_app; try setoid_rewrite list_elem_of_singleton.
  - intros n k. rewrite lookup_insert. case_decide as E; [|intros Hk; destruct (H1 n k Hk); auto].
    intros [= <-]. subst n. split; [by right|]. intros Hrm. exact (Hne name (x_next c) (H6 _ _ Hrm) eq_refl).
  - intros n k [Hk|[= -> ->]]; [|left; apply lookup_insert_eq]. destruct (H2 n k Hk) as [Hc|Hc]; [|by right].
    left. rewrite lookup_insert_ne; [done|]. intros <-. congruence.
  - intros n k Hk. left. by apply H6.
  - intros n k [Hk|[= -> ->]]; [specialize (H3 _ _ Hk)|]; lia.
  - rewrite map_app. apply NoDup_app. split; [done|]. split; [|apply NoDup_singleton].
    intros k ([n k'] & -> & Hk)%list_elem_of_fmap Hin. cbn in Hin. apply list_elem_of_singleton in Hin. specialize (H3 _ _ Hk). cbn in *. lia.
  - intros j n k Hj. rewrite lookup_insert in Hj. case_decide; [|left; by eapply H5]. injection Hj as <- <-. by right.
Qed.

(** The critical section of [removeClient]: only the entry of that very
    connection is removed. *)
Lemma remove_inv c ts dl rm i name h :
  cache_inv (mkCacheWorld c ts dl rm) -> ts !! i = Some (PGot name h) ->
  cache_inv (mkCacheWorld (remove_entry name (Some h) c) (<[i := PClose h]> ts) dl
    (if bool_decide (x_cached c !! name = Some h) then rm ++ [(name, h)] else rm)).
Proof.
  intros Hinv Hi. unfold remove_entry. case_bool_decide as E; [|by apply (cache_inv_thread c)].
  destruct Hinv as [H1 H2 H6 H3 H4 H5]. cbn in *.
  split; cbn; try setoid_rewrite elem_of_app; try setoid_rewrite list_elem_of_singleton.
  - intros n k [Hne Hk]%lookup_delete_Some. destruct (H1 n k Hk) as [Hd Hr]. split; [done|]. intros [?|[= -> _]]; done.
  - intros n k Hk. destruct (H2 n k Hk) as [Hc|Hc]; [|by right; left].
    destruct (decide (n = name)) as [->|Hne]; [right; right; congruence|left; by rewrite lookup_delete_ne].
  - intros n k [Hk|[= -> ->]]; [by apply H6|by apply H1].
  - done.
  - done.
  - intros j n k Hj. rewrite lookup_insert in Hj. case_decide; [done|]. by eapply H5.
Qed.

Lemma cache_step_inv w w' : cache_inv w -> cache_step w w' -> cache_inv w'.
Proof.
  intros Hinv Hstep. destruct Hstep as [c ts dl rm i name Hi|c ts dl rm i name h Hi Hc Hd|c ts dl rm i name Hi Hm
    |c ts dl rm i name h c' err Hi Hc Hg|c ts dl rm i name h c' err Hi Hc Hg|c ts dl rm i name c' err Hi Hg
    |c ts dl rm i name h Hi|c ts dl rm i name h Hi|c ts dl rm i h Hi|c ts dl rm h].
  - by apply (cache_inv_thread c).
  - apply (cache_inv_thread c); try done. intros ? ? [= <- <-]. by apply (ca_cached _ Hinv).
  - by apply (cache_inv_thread c).
  - unfold getCachedClient in Hg. rewrite Hc in Hg. injection Hg as <- _.
    apply (cache_inv_thread c); try done. intros ? ? [= <- <-]. by apply (ca_cached _ Hinv).
  - by eapply dial_inv.
  - unfold getCachedClient in Hg. destruct (x_cached c !! name); [discriminate|].
    destruct (ne_dial net (x_dials c)); [|discriminate]. injection Hg as <- _. by apply (cache_inv_thread c).
  - by apply remove_inv.
  - by apply (cache_inv_thread c).
  - by apply (cache_inv_thread c).
  - destruct Hinv as [H1 H2 H6 H3 H4 H5]. by split.
Qed.

(** A client without connections and without goroutines. *)
Definition new_cache (c : xclient S B) : cache_world := mkCacheWorld c ∅ [] [].

Lemma cache_reachable c w : x_cached c = ∅ -> rtc cache_step (new_cache c) w -> cache_inv w.
Proof.
  intros Hc Hr. assert (cache_inv (new_cache c)) as Hinit.
  { split; cbn; try (by intros ? ? ?%not_elem_of_nil).
    - intros name h. by rewrite Hc, lookup_empty.
    - constructor.
    - intros i name h. by rewrite lookup_empty. }
  clear Hc. induction Hr as [w|w1 w2 w3 H12 _ IH]; [done|]. by apply IH, (cache_step_inv w1).
Qed.

(** C14.  Callers share one connection per server: whatever number of goroutines
    look up, dial, give up and close connections, and whatever connections go
    down, a caller has a connection that was dialled for the server it asked
    for; every connection ever dialled is in the cache or has been removed
    from it, never both, and no two names share one; so two callers of the same
    server whose connections have not been removed hold the same one. *)
Theorem callers_share_connections c w :
  x_cached c = ∅ -> rtc cache_step (new_cache c) w ->
  (forall i name h, cw_threads w !! i = Some (PGot name h) -> (name, h) ∈ cw_dialled w) /\
  (forall name h, (name, h) ∈ cw_dialled w ->
     (x_cached (cw_client w) !! name = Some h <-> (name, h) ∉ cw_removed w)) /\
  (forall n1 n2 h, (n1, h) ∈ cw_dialled w -> (n2, h) ∈ cw_dialled w -> n1 = n2) /\
  (forall i j name h1 h2, cw_threads w !! i = Some (PGot name h1) -> cw_threads w !! j = Some (PGot name h2) ->
     (name, h1) ∉ cw_removed w -> (name, h2) ∉ cw_removed w -> h1 = h2).
Proof.
  intros Hc Hr. destruct (cache_reachable c w Hc Hr) as [H1 H2 H6 H3 H4 H5].
  assert (forall name h, (name, h) ∈ cw_dialled w -> (name, h) ∉ cw_removed w -> x_cached (cw_client w) !! name = Some h) as Hin.
  { intros name h Hd Hn. by destruct (H2 name h Hd). }
  split; [done|]. split; [|split].
  - intros name h Hd. split; [intros Hcd; exact (proj2 (H1 _ _ Hcd))|by apply Hin].
  - intros n1 n2 h Hd1 Hd2. apply list_elem_of_lookup in Hd1 as [k1 Hk1], Hd2 as [k2 Hk2].
    assert (k1 = k2) as ->; [|congruence].
    eapply (NoDup_lookup (map snd (cw_dialled w)) k1 k2 h H4).
    + change (map snd (cw_dialled w)) with (snd <$> cw_dialled w). by rewrite list_lookup_fmap, Hk1.
    + change (map snd (cw_dialled w)) with (snd <$> cw_dialled w). by rewrite list_lookup_fmap, Hk2.
  - intros i j name h1 h2 Hi Hj Hr1 Hr2. pose proof (Hin name h1 (H5 _ _ _ Hi) Hr1). pose proof (Hin name h2 (H5 _ _ _ Hj) Hr2).
    congruence.
Qed.
End cache.

(** ** Witnesses *)

(** Two goroutines look up the same server; the second misses before the first
    has dialled, and finds the connection on its second look. *)
Definition cache0 : xclient roundRobinSelector SimpleCircuitBreaker :=
  mkXClient two_servers ∅ ∅ 0 None 3 [] 0 true.
Definition cache1 : xclient roundRobinSelector SimpleCircuitBreaker := (getCachedClient bad_net (str "tcp@a:1") cache0).1.
Definition shared : cache_world (S := roundRobinSelector) (B := SimpleCircuitBreaker) :=
  mkCacheWorld cache1 {[0%nat := PGot (str "tcp@a:1") 0; 1%nat := PGot (str "tcp@a:1") 0]} [(str "tcp@a:1", 0%nat)] [].

Lemma shared_reachable : rtc (cache_step bad_net) (new_cache cache0) shared.
Proof.
  eapply rtc_l; [apply (cs_start bad_net cache0 ∅ [] [] 0 (str "tcp@a:1")); done|].
  eapply rtc_l; [apply (cs_start bad_net cache0 _ [] [] 1 (str "tcp@a:1")); done|].
  eapply rtc_l; [apply (cs_miss bad_net cache0 _ [] [] 0 (str "tcp@a:1")); done|].
  eapply rtc_l; [apply (cs_miss bad_net cache0 _ [] [] 1 (str "tcp@a:1")); done|].
  eapply rtc_l; [apply (cs_slow_dial bad_net cache0 _ [] [] 0 (str "tcp@a:1") 0 cache1 None); done|].
  eapply rtc_l; [apply (cs_slow_hit bad_net cache1 _ [(str "tcp@a:1", 0%nat)] [] 1 (str "tcp@a:1") 0 cache1 None); done|].
  apply rtc_refl.
Qed.

Lemma callers_share_connections_witness :
  cw_threads shared !! 1%nat = Some (PGot (str "tcp@a:1") 0) /\ (str "tcp@a:1", 0%nat) ∈ cw_dialled shared.
Proof.
  split; [reflexivity|]. eapply (proj1 (callers_share_connections bad_net cache0 shared eq_refl shared_reachable) 1%nat).
  reflexivity.
Defined.
