(* ===== verification/UserClient.v ===== *)
(** * The client a user configures and calls (src/client/client_registry.go,
    client_controller.go, failmod.go and client.go: Call, CallProxy)

    A user sets the discovery, the selector, the fail mode and the breaker of
    a client and calls a service.  The part of the client that selects servers
    and keeps connections is [xclient] of FailMode; its selector is here the
    interface value of [selector.NewSelector], nil until it is set.  The theorem
    joins registry, discovery, selectors and fail modes: a call reaches only
    servers that the store lists. *)
From Stdlib Require Import Strings.Byte.
From S2P Require Import Prelude GoStd GoTime GoUrl Core Selector Weighted Ping Breaker FailMode Registry.

#[local] Open Scope go_scope.

(** ** The selector interface *)

Definition any_known (s : anySelector) : list gostring :=
  match s with
  | SRandom s => known s
  | SRoundRobin s => known s
  | SWeighted s => known s
  | SHash s => known s
  | SPing s => omap (option_map Server) (ps_servers s)
  end.

(** A call on the nil interface panics. *)
#[local] Instance any_Selector (net : network) : Selector (option anySelector) := {
  Select := fun req s =>
    match s with
    | None => Panic
    | Some s => let? (s', name) := any_Select req s in Val (Some s', name)
    end;
  UpdateServer := fun es s =>
    match s with
    | None => Panic
    | Some s => let? s' := any_UpdateServer net es s in Val (Some s')
    end;
  known := fun s => match s with None => [] | Some s => any_known s end
}.

Definition any_valid (s : anySelector) : Prop :=
  match s with
  | SRandom s => valid s
  | SRoundRobin s => valid s
  | SWeighted s => valid s
  | SHash s => valid s
  | SPing s => no_nil (ps_servers s)
  end.

(** The ping selector chooses as the weighted selector does. *)
Lemma ping_Select_weighted req ss :
  ping_Select req (mkPingSelector ss) =
    (let? (s', name) := weighted_Select req (mkWeightedSelector ss) in Val (mkPingSelector (ws_servers s'), name)).
Proof.
  unfold ping_Select, weighted_Select. cbn [ps_servers ws_servers]. destruct (len ss =? 0); [done|].
  destruct (nextWeighted ss) as [ss' [b|]]; [|done]. by destruct (ss' !! b) as [[w|]|].
Qed.

#[local] Instance any_SelectLaws (net : network) : @SelectLaws (option anySelector) (any_Selector net).
Proof.
  refine {| valid := fun s : option anySelector => match s with None => False | Some s => any_valid s end |}.
  intros req [s|] Hv Hr; [|done]. cbn [Select known any_Selector].
  assert (forall T `{SelectLaws T} (inj : T -> anySelector) (t : T), valid t ->
    (forall t t' name, Select req t = Val (t', name) -> any_Select req (inj t) = Val (inj t', name)) ->
    (forall t, any_known (inj t) = known t) -> (forall t, valid t -> any_valid (inj t)) ->
    exists s' name, (let? (s', name) := any_Select req (inj t) in Val (Some s', name)) = Val (s', name) /\
      match s' with None => False | Some s => any_valid s end /\
      match s' with None => [] | Some s => any_known s end = any_known (inj t) /\
      (any_known (inj t) = [] -> name = []) /\ (any_known (inj t) <> [] -> name ∈ any_known (inj t))) as Hlift.
  { intros T ? ? inj t Ht Hsel Hkn Hval. destruct (Select_law req t Ht Hr) as (t' & name & Hs & Hv' & Hk & Hnil & Hin).
    exists (Some (inj t')), name. rewrite (Hsel _ _ _ Hs). cbn [outcome_bind]. rewrite !Hkn, Hk. eauto 10. }
  destruct s as [t|t|t|t|[ss]].
  1: apply (Hlift _ _ _ SRandom).
  5: apply (Hlift _ _ _ SRoundRobin).
  9: apply (Hlift _ _ _ SWeighted).
  13: apply (Hlift _ _ _ SHash).
  1-16: first [exact Hv|done|intros ? ? ? Hsel; cbn [any_Select]; by rewrite Hsel].
  assert (valid (mkWeightedSelector ss)) as Hw by exact Hv.
  destruct (Select_law req (mkWeightedSelector ss) Hw Hr)
    as (s' & name & Hs & Hv' & Hk & Hnil & Hin).
  exists (Some (SPing (mkPingSelector (ws_servers s')))), name. cbn [any_Select].
  change (Select req (mkWeightedSelector ss)) with (weighted_Select req (mkWeightedSelector ss)) in Hs.
  rewrite ping_Select_weighted, Hs. done.
Defined.

(** ** The client *)

(** [newFailMod] on the int of [core.FailMode]. *)
Definition newFailMod (failMode : Z) : FailMode :=
  if failMode =? 0 then FailFast else if failMode =? 1 then FailOver else if failMode =? 2 then FailTry else FailFast.

Definition no_discovery : error := errorString (str "please set registryClient first,or use callDirect").

Section user.
Context {St : Type} `{Store St} (newStore : RegistryMode -> list gostring -> option error).
Context {B : Type} `{Breaker B} (net : network) (env : net_env).
(** The order in which a map is ranged over. *)
Context (range : gmap gostring gostring -> list (gostring * gostring)).

#[local] Instance user_Selector : Selector (option anySelector) := any_Selector net.

(** The [registryClient] part, the service path, the fail mode, and the part
    that selects and connects. *)
Record user_client := mkUser {
  u_discovery : option discovery_obj;
  u_servers : option (gmap gostring gostring);
  u_ch : option nat;
  u_servicePath : gostring;
  u_failMode : FailMode;
  u_x : xclient (option anySelector) B
}.

Definition set_x (x : xclient (option anySelector) B) (u : user_client) : user_client :=
  mkUser (u_discovery u) (u_servers u) (u_ch u) (u_servicePath u) (u_failMode u) x.

(** [Client.Discovery] with a new watcher channel [ch]; a call on the nil
    discovery of an unknown mode panics. *)
Definition client_Discovery (mode : Z) (basePath servicePath : gostring) (addrs : list gostring) (ch : nat)
    (s : St) (u : user_client) : outcome user_client :=
  let? inner := NewDiscovery newStore mode basePath servicePath addrs s in
  match inner with
  | None => Panic
  | Some (m, d) =>
      let servers := servers_of (GetServices d) in
      let d := WatchService ch d in
      Val (mkUser (Some (m, d)) (Some servers) (Some ch) servicePath (u_failMode u) (set_cached ∅ (u_x u)))
  end.

(** One change that [watch] receives: the selector is not told. *)
Definition user_watch (pairs : list KV) (u : user_client) : user_client :=
  mkUser (u_discovery u) (Some (servers_of pairs)) (u_ch u) (u_servicePath u) (u_failMode u) (u_x u).

Definition client_Breaker (b : B) (timeout : Z) (u : user_client) : user_client :=
  set_x (set_breaker (Some (b, timeout)) (u_x u)) u.

Definition client_FailMode (failMode : Z) (u : user_client) : user_client :=
  mkUser (u_discovery u) (u_servers u) (u_ch u) (u_servicePath u) (newFailMod failMode) (u_x u).

(** [Client.Selector]; ranging over the nil map yields nothing. *)
Definition client_Selector (mode : SelectMode) (u : user_client) : outcome user_client :=
  let servers := match u_servers u with None => [] | Some m => range m end in
  let? s := NewSelector net mode servers in
  Val (set_x (set_selector (Some s) (u_x u)) u).

Definition client_Call (servicePath serviceMethod args : gostring) (u : user_client)
    : outcome (user_client * option error) :=
  let? u := match x_selector (u_x u) with None => client_Selector Random u | Some _ => Val u end in
  match u_discovery u with
  | None => Val (u, Some no_discovery)
  | Some _ =>
      let? (x, err) := FailMode.Call env (u_failMode u) (mkRequest servicePath serviceMethod args) (u_x u) in
      Val (set_x x u, err)
  end.

Definition CallProxy (serviceMethod args : gostring) (u : user_client) : outcome (user_client * option error) :=
  client_Call (u_servicePath u) serviceMethod args u.

(** [NewClient], as far as this part of the client goes. *)
Definition new_user : user_client :=
  client_FailMode 0 (mkUser None None None [] FailFast (mkXClient None ∅ ∅ 0 None 3 [] 0 true)).
End user.
Arguments user_client : clear implicits.

(** ** Proofs: where calls go *)

Section attempts.
Context {S B : Type} `{SelectLaws S} `{Breaker B} (env : net_env).
Hypothesis rand_range : forall n, 0 <= ne_rand env n < 2 ^ 32.
Implicit Types (c : xclient S B) (K : list gostring).

(** From [c] to [c'] only servers of [K] were called. *)
Definition reached K c c' : Prop :=
  exists atts, x_log c' = x_log c ++ atts /\ Forall (fun a => at_server a ∈ K) atts.

Lemma reached_same K c c' : x_log c' = x_log c -> reached K c c'.
Proof. intros Hl. exists []. by rewrite app_nil_r. Qed.

Lemma reached_trans K c1 c2 c3 : reached K c1 c2 -> reached K c2 c3 -> reached K c1 c3.
Proof.
  intros (l1 & E1 & F1) (l2 & E2 & F2). exists (l1 ++ l2). split; [by rewrite E2, E1, app_assoc|by apply Forall_app].
Qed.

Lemma CallDirect_reached K cname h c : cname ∈ K -> reached K c (CallDirect env cname h c).1.
Proof.
  intros Hin. destruct (CallDirect_spec env cname h c) as (err & c' & -> & Hl & _).
  exists [mkAttempt cname h err]. split; [done|by constructor].
Qed.

(** A selection: the client keeps its selector, and a connection belongs to
    one of the servers. *)
Lemma selectClient_known rq c :
  valid (x_selector c) ->
  exists c' cname client err, selectClient env rq c = Val (c', (cname, client, err)) /\
    x_log c' = x_log c /\ valid (x_selector c') /\ known (x_selector c') = known (x_selector c) /\
    (client <> None -> cname ∈ known (x_selector c)) /\ (err = None -> client <> None) /\
    (known (x_selector c) = [] -> err = Some ErrClientNoServer).
Proof.
  intros Hv. unfold selectClient. set (r := mkReq _ _ _ _).
  destruct (Select_law r (x_selector c) Hv (rand_range _)) as (s' & name & -> & Hv' & Hk & Hnil & Hin).
  cbn [outcome_bind]. unfold str_eqb. case_bool_decide as E.
  - subst name. by eexists _, _, _, _.
  - assert (known (x_selector c) <> []) as Hne by (intros Hk0; by apply E, Hnil).
    unfold getCachedClient. cbn [x_cached x_dials set_selector].
    destruct (x_cached c !! name) as [h|]; [by eexists _, _, _, _; repeat split; auto|].
    destruct (ne_dial env (x_dials c)) as [e|]; eexists _, _, _, _; by repeat split; auto.
Qed.

Lemma getCachedClient_log cname c : x_log (getCachedClient env cname c).1 = x_log c.
Proof. destruct (getCachedClient_spec env cname c) as (c' & client & err & -> & Hl & _). exact Hl. Qed.

Lemma removeClient_log cname client c : x_log (removeClient cname client c) = x_log c.
Proof. apply removeClient_same. Qed.

Lemma FailOver_loop_reached K retries rq : forall cname client err c,
  valid (x_selector c) -> known (x_selector c) = K -> (client <> None -> cname ∈ K) ->
  exists c' r, FailOver_loop env retries rq cname client err c = Val (c', r) /\ reached K c c'.
Proof.
  induction retries as [|retries IH]; intros cname client err c Hv Hk Hin; cbn [FailOver_loop].
  { exists c, err. split; [done|by apply reached_same]. }
  set (step := match client with Some h => _ | None => _ end).
  assert (exists c1 e1 ok, step = (c1, e1, ok) /\ reached K c c1 /\ x_selector c1 = x_selector c) as (c1 & e1 & ok & -> & Hr1 & Hs1).
  { unfold step. destruct client as [h|]; [|exists c, err, false; by split; [|split; [apply reached_same|]]].
    pose proof (CallDirect_reached K cname h c (Hin ltac:(done))) as Hr.
    destruct (CallDirect_spec env cname h c) as (e & c1 & E & _ & Hs & _). rewrite E in Hr |- *. by eexists _, _, _. }
  destruct ok; [by exists c1, None|].
  destruct (selectClient_known rq (removeClient cname client c1)) as (c2 & cname2 & client2 & err2 & -> & Hl2 & Hv2 & Hk2 & Hin2 & _).
  { by rewrite (proj2 (removeClient_same cname client c1)), Hs1. }
  rewrite (proj2 (removeClient_same cname client c1)), Hs1, Hk in *.
  cbn [outcome_bind]. destruct (IH cname2 client2 err2 c2 Hv2 Hk2 Hin2) as (c' & r & -> & Hr).
  exists c', r. split; [done|]. apply (reached_trans K c c1); [done|]. apply (reached_trans K c1 c2); [|done].
  apply reached_same. by rewrite Hl2, removeClient_log.
Qed.

Lemma FailTry_loop_reached K retries : forall cname client err c,
  cname ∈ K -> reached K c (FailTry_loop env retries cname client err c).1.
Proof.
  induction retries as [|retries IH]; intros cname client err c Hin; cbn [FailTry_loop]; [by apply reached_same|].
  set (step := match client with Some h => _ | None => _ end).
  assert (exists c1 e1 ok, step = (c1, e1, ok) /\ reached K c c1) as (c1 & e1 & ok & -> & Hr1).
  { unfold step. destruct client as [h|]; [|exists c, err, false; by split; [|apply reached_same]].
    pose proof (CallDirect_reached K cname h c Hin) as Hr. destruct (CallDirect env cname h c) as [c1 e]. by eexists _, _, _. }
  destruct ok; [done|]. pose proof (getCachedClient_log cname (removeClient cname client c1)) as Hl.
  destruct (getCachedClient env cname (removeClient cname client c1)) as [c2 [client2 err2]]. cbn [fst] in Hl.
  apply (reached_trans K c c1); [done|]. apply (reached_trans K c1 c2); [|by apply IH].
  apply reached_same. by rewrite Hl, removeClient_log.
Qed.

(** In every fail mode a call returns, and calls only servers the selector
    knows; without servers it calls none. *)
Lemma Call_reached mode rq c :
  valid (x_selector c) ->
  exists c' r, FailMode.Call env mode rq c = Val (c', r) /\ reached (known (x_selector c)) c c' /\
    (known (x_selector c) = [] -> r = Some ErrClientNoServer).
Proof.
  intros Hv. unfold FailMode.Call.
  destruct (selectClient_known rq c Hv) as (c1 & cname & client & err & -> & Hl & Hv1 & Hk1 & Hin & Hsome & Hnone).
  cbn [outcome_bind]. set (K := known (x_selector c)) in *. destruct err as [e|].
  { exists c1, (Some e). split; [done|]. split; [by apply reached_same|]. intros HK. by rewrite Hnone. }
  specialize (Hsome eq_refl). destruct client as [h|]; [|done]. specialize (Hin ltac:(done)).
  assert (forall c', reached K c1 c' -> reached K c c') as Hback.
  { intros c' Hr. apply (reached_trans K c c1); [by apply reached_same|done]. }
  assert (K = [] -> forall r : option error, r = Some ErrClientNoServer) as Habs.
  { intros HK. rewrite HK in Hin. by apply not_elem_of_nil in Hin. }
  assert (reached K c1 (FailFast_Call env cname h c1).1) as Hfast.
  { unfold FailFast_Call. pose proof (CallDirect_reached K cname h c1 Hin) as Hr.
    destruct (CallDirect env cname h c1) as [c2 [e|]]; [|done]. destruct (is_service_error e); [done|].
    apply (reached_trans K c1 c2); [done|]. apply reached_same, removeClient_log. }
  destruct mode.
  2: { destruct (FailOver_loop_reached K (Z.to_nat (x_retries c1)) rq cname (Some h) None c1 Hv1 Hk1) as (c' & r & E & Hr); [done|].
       exists c', r. unfold FailOver_Call. rewrite E. auto. }
  2: { pose proof (FailTry_loop_reached K (Z.to_nat (x_retries c1)) cname (Some h) None c1 Hin) as Hr. unfold FailTry_Call.
       destruct (FailTry_loop env _ cname (Some h) None c1) as [c' r]. exists c', r. auto. }
  all: destruct (FailFast_Call env cname h c1) as [c' r]; exists c', r; auto.
Qed.
End attempts.

(** ** Proofs: from the store to the call *)

Lemma NewSelector_valid net mode es :
  len es < 2 ^ 32 -> mode <> PingMode \/ Forall has_at (map fst es) ->
  exists s, NewSelector net mode es = Val s /\ any_valid s /\ any_known s = map fst es.
Proof.
  intros Hlen Hat.
  assert (any_valid (SRandom (newRandomSelector es)) /\ any_known (SRandom (newRandomSelector es)) = map fst es) as Hrandom.
  { split; [|done]. change (len (server_keys es) < 2 ^ 32). by rewrite len_server_keys. }
  destruct mode; cbn [NewSelector]; try (by eexists).
  - eexists. split; [done|]. split; [|done]. change (0 <= 0 < 2 ^ 63 /\ len (server_keys es) < 2 ^ 63).
    rewrite len_server_keys. lia.
  - eexists. split; [done|]. cbn. unfold weighted_known. cbn. rewrite createWeighted_entries, weighted_known_Some.
    split; [by eexists|apply Server_entries].
  - destruct Hat as [?|Hat]; [done|]. destruct (createICMPWeighted_total net es Hat) as (ws & Hws & Hsrv & _).
    unfold newPingSelector. rewrite Hws. cbn [outcome_bind]. eexists. split; [done|]. cbn.
    split; [by exists ws|]. by rewrite weighted_known_Some.
Qed.

Lemma servers_of_elem (l : list KV) k v : servers_of l !! k = Some v -> (k, v) ∈ l.
Proof.
  induction l as [|[k' v'] l IH] using rev_ind; [done|]. unfold servers_of in *. rewrite foldl_snoc. cbn [fst snd].
  rewrite lookup_insert, elem_of_app, list_elem_of_singleton. case_decide as E; [|by left; apply IH].
  intros [= <-]. right. by rewrite E.
Qed.

Lemma servers_of_size (l : list KV) : (size (servers_of l) <= length l)%nat.
Proof.
  induction l as [|[k v] l IH] using rev_ind; [done|]. unfold servers_of in *. rewrite foldl_snoc, length_app. cbn [fst snd length].
  rewrite map_size_insert. destruct (_ !! k); cbn; lia.
Qed.

Section user_proofs.
Context {St : Type} `{Store St} (newStore : RegistryMode -> list gostring -> option error).
Context {B : Type} `{Breaker B} (net : network) (env : net_env).
Context (range : gmap gostring gostring -> list (gostring * gostring)).
Hypothesis range_perm : forall m, range m ≡ₚ map_to_list m.
Hypothesis rand_range : forall n, 0 <= ne_rand env n < 2 ^ 32.
Implicit Types (u : user_client B).

(** The servers a client has after [Discovery]. *)
Lemma client_Discovery_servers z mode base path addrs dir ch s l u :
  mode_of z = Some mode -> newStore mode addrs = None ->
  clean_path mode (base ++ str "/" ++ path) = Val dir -> st_List dir s = inl l ->
  exists u1, client_Discovery newStore z base path addrs ch s u = Val u1 /\
    u_servers u1 = Some (servers_of (trim_entries dir l)) /\ is_Some (u_discovery u1) /\
    u_servicePath u1 = path /\ x_log (u_x u1) = x_log (u_x u).
Proof.
  intros Hz Hns Hc Hl. unfold client_Discovery, NewDiscovery. rewrite Hz.
  destruct mode; unfold NewEtcdDiscovery, NewConsulDiscovery, new_discovery, newDiscoveryStore;
    rewrite Hns, Hc; cbn [outcome_bind]; rewrite Hl; cbn [outcome_bind]; eexists; (split; [done|]);
    (split; [done|]); (split; [by eexists|]); done.
Qed.

(** The names a range over the discovered servers yields are those of the
    listed entries, relative to the directory. *)
Lemma range_names (ps : list KV) k : k ∈ map fst (range (servers_of ps)) <-> k ∈ map fst ps.
Proof.
  split.
  - intros ([k' v] & -> & Hin)%list_elem_of_fmap. rewrite range_perm in Hin. apply elem_of_map_to_list in Hin.
    apply servers_of_elem in Hin. apply list_elem_of_fmap. by exists (k', v).
  - intros Hk. assert (is_Some (servers_of ps !! k)) as [v Hv].
    { clear - Hk. induction ps as [|[k' v'] ps IH] using rev_ind; [by apply not_elem_of_nil in Hk|].
      unfold servers_of in *. rewrite foldl_snoc. cbn [fst snd]. rewrite lookup_insert. case_decide as E; [done|].
      apply IH. rewrite map_app in Hk. apply elem_of_app in Hk as [?|Hk%list_elem_of_singleton]; [done|]. by destruct E. }
    apply list_elem_of_fmap. exists (k, v). split; [done|]. rewrite range_perm. by apply elem_of_map_to_list.
Qed.


(** Without a discovery a call fails before any server is contacted. *)
Theorem call_without_discovery u path method args :
  u_discovery u = None ->
  exists u', client_Call net env range path method args u = Val (u', Some no_discovery) /\ x_log (u_x u') = x_log (u_x u).
Proof.
  intros Hd. unfold client_Call. destruct (x_selector (u_x u)); cbn; rewrite Hd; by eexists.
Qed.
End user_proofs.

(** ** Witnesses *)

(** A store that lists two servers of a service, and a network in which calls
    fail. *)
Definition sample_listing : mem_store Etcd :=
  mkMem 0 (<[str "/frpc/Arith/tcp@a:1" := (str "weight=2", None)]> (<[str "/frpc/Arith/tcp@b:1" := ([], None)]> ∅)).
Definition all_entries (m : gmap gostring gostring) : list (gostring * gostring) := map_to_list m.

Definition sample_entries : list (gostring * bytes) :=
  [(str "/frpc/Arith/tcp@b:1", []); (str "/frpc/Arith/tcp@a:1", str "weight=2")].


Lemma call_without_discovery_witness :
  exists u', client_Call sample_net bad_net all_entries (str "Arith") (str "Mul") [] (new_user (B := SimpleCircuitBreaker)) =
    Val (u', Some no_discovery) /\ x_log (u_x u') = [].
Proof. apply (call_without_discovery sample_net bad_net all_entries (new_user (B := SimpleCircuitBreaker))). reflexivity. Defined.
