(* ===== verification/Publish.v ===== *)
(** * Publishing a server (src/server/server_registry.go, service.go, server.go: ServeProxy)

    The composition of the server's registry option, the registration of a
    service and serving: what a client discovers and dials is what the server
    registered and listens on. *)
From Stdlib Require Import Strings.Byte.
From S2P Require Import Prelude GoStd GoTime GoUrl Header Message Core Selector Weighted Breaker RateLimit Controller Service Server Registry Listener FailMode.

#[local] Open Scope go_scope.

Section publish.
Context {value : Type} (nonascii_upper : gostring -> bool).
Context {St : Type} `{Store St} (newStore : RegistryMode -> list gostring -> option error).
Context (unicode_blank : gostring -> bool).

(** The base path a started registry uses. *)
Definition started_base (mode : RegistryMode) (base : gostring) : gostring :=
  match mode, base with
  | Consul, b :: rest => if bool_decide (b = x2f) then rest else base
  | _, _ => base
  end.

(** Whether the registry accepts a registration; [RegisterWithMeta] does not
    say so. *)
Definition accepted (s : server_t value) (st : St) (name metadata : gostring) : Prop :=
  exists r, srv_registry s = Some r /\ (registry_Register newStore unicode_blank name metadata r st).2 = None.

Lemma Start_base mode p (st : St) p' st' err :
  Start mode newStore p st = Val (p', st', err) -> newStore mode (registryAddr p) = None ->
  BasePath p' = started_base mode (BasePath p) /\ ServiceAddress p' = ServiceAddress p /\ UpdateInterval p' = UpdateInterval p.
Proof.
  intros HS Hns. unfold Start in HS. rewrite Hns in HS. destruct (connected p);
    (destruct mode; cbn [outcome_bind set_connected BasePath] in HS;
     [destruct (st_Put _ _ _ _ st) as [st1 e1]; destruct (fatal _ e1); by simplify_eq|]);
    (destruct (BasePath p) as [|b base] eqn:Eb; [discriminate|]; cbn [outcome_bind] in HS;
     case_bool_decide as Hb; (destruct (st_Put _ _ _ _ st) as [st1 e1]); destruct (fatal _ e1); simplify_eq;
     cbn; rewrite ?bool_decide_true, ?bool_decide_false by done; by rewrite ?Eb).
Qed.

(** The state after [Server.Registry]. *)
Lemma server_Registry_state z mode base addr addrs interval (s s1 : server_t value) (st st1 : St) :
  server_Registry newStore z base addr addrs interval s st = Val (s1, st1) ->
  mode_of z = Some mode -> newStore mode addrs = None ->
  exists p, srv_registry s1 = Some (mode, p) /\ BasePath p = started_base mode base /\ ServiceAddress p = addr /\ UpdateInterval p = interval /\
    srv_address s1 = addr /\ srv_services s1 = srv_services s.
Proof.
  intros HR Hz Hns. unfold server_Registry, NewRegistry in HR. rewrite Hz in HR.
  destruct mode; cbn [outcome_bind] in HR; unfold registry_Start, EtcdRegister_Start, ConsulRegister_Start in HR; cbn [fst snd] in HR.
  all: match type of HR with context [Start ?m ?ns ?p ?st] =>
    destruct (Start m ns p st) as [[[p' st'] err]| |] eqn:E; cbn [outcome_bind] in HR; try discriminate end.
  all: apply Start_base in E as (Hb & Ha & Hi); [|done]; injection HR as <- <-; by exists p'.
Qed.

(** What [RegisterWithMeta] does with the registry and with the service table. *)
Lemma RegisterWithMeta_state rcvr name metadata (s s2 : server_t value) (st st2 : St) mode p err :
  srv_registry s = Some (mode, p) ->
  RegisterWithMeta nonascii_upper newStore unicode_blank rcvr name metadata s st = (s2, st2, err) ->
  exists p' rerr, Registry.Register mode newStore unicode_blank name metadata p st = (p', st2, rerr) /\
    srv_registry s2 = Some (mode, p') /\ srv_address s2 = srv_address s /\
    register nonascii_upper rcvr name true (srv_services s) = (srv_services s2, err) /\
    (registry_Register newStore unicode_blank name metadata (mode, p) st).2 = rerr.
Proof.
  intros Hr HM. unfold RegisterWithMeta in HM. rewrite Hr in HM. unfold registry_Register in *. cbn [fst snd] in *.
  destruct mode; unfold EtcdRegister_Register, ConsulRegister_Register in *.
  all: match type of HM with context [Registry.Register ?m ?ns ?b ?n ?md ?p ?st] =>
    destruct (Registry.Register m ns b n md p st) as [[p' st'] rerr] eqn:E end.
  all: destruct (chain_Register name _) as [cs e1]; cbn in HM.
  all: destruct (register nonascii_upper rcvr name true (srv_services s)) as [m e2] eqn:Em; injection HM as <- <- <-.
  all: by exists p', rerr.
Qed.

(** C15.  A published service is found, dialled and served: a server that sets a
    registry and registers a service, accepted by both, has the service in its
    table; a client that can list the directory of the service finds the
    server's address there with the metadata; and the network and address the
    client splits off that entry are those [ServeProxy] listens on.  At etcd
    with a base path that begins with a slash, at consul with or without one;
    for plain names, and an update interval of a second or more. *)
Theorem published_service z mode `{!StoreLaws mode St} base addr addrs addrs' interval rcvr name metadata net l
    (s s1 s2 : server_t value) (st st1 st2 : St) :
  server_Registry newStore z base addr addrs interval s st = Val (s1, st1) ->
  mode_of z = Some mode -> newStore mode addrs = None -> newStore mode addrs' = None ->
  accepted s1 st1 name metadata ->
  RegisterWithMeta nonascii_upper newStore unicode_blank rcvr name metadata s1 st1 = (s2, st2, None) ->
  canonical mode (started_base mode base) -> component name -> component addr -> storable mode metadata ->
  Second <= interval -> interval * 2 < 2 ^ 63 -> st_List (slash (started_base mode base) name) st2 = inl l ->
  (exists svc, find_service (srv_services s2) name = Some svc /\ svc_rcvr svc = rcvr /\
     svc_method svc = suitableMethods nonascii_upper (rv_methods rcvr)) /\
  (exists d, new_discovery mode newStore (started_base mode base) name addrs' st2 = Val d /\
     servers_of (GetServices d) !! addr = Some metadata) /\
  ServeProxy net s2 = Serve net (splitNetworkAndAddress addr).1 (splitNetworkAndAddress addr).2 s2.
Proof.
  intros HR Hz Hns Hns' (r & Hr & Hacc) HM Hb Hname Haddr Hm Hi Hfit Hl.
  destruct (server_Registry_state _ _ _ _ _ _ _ _ _ _ HR Hz Hns) as (p & Hp & Hbase & Hpa & Hpi & Hsa & _).
  destruct (RegisterWithMeta_state _ _ _ _ _ _ _ _ _ _ Hp HM) as (p' & rerr & Hreg & _ & Hsa2 & Htab & Hrerr).
  rewrite Hp in Hr. injection Hr as <-. rewrite Hacc in Hrerr. subst rerr. split; [|split].
  - unfold register in Htab. rewrite bool_decide_false in Htab by apply (comp_nonempty _ Hname). cbn [negb andb] in Htab.
    destruct (Z.of_nat (size (suitableMethods nonascii_upper (rv_methods rcvr))) =? 0); [discriminate|]. injection Htab as <-.
    eexists. cbn. by rewrite lookup_insert_eq.
  - rewrite <- Hbase in Hb, Hl |- *. rewrite <- Hpi in Hi, Hfit. rewrite <- Hpa in Haddr |- *.
    destruct (registered_discovered newStore unicode_blank mode _ _ addrs' _ _ _ _ _ Hreg Hns' Hl Hb Hname Haddr Hm Hi Hfit)
      as (d & Hd & _ & Hlook). by exists d.
  - unfold ServeProxy, splitNetworkAndAddress. rewrite Hsa2, Hsa. unfold str_eqb.
    rewrite bool_decide_false by apply (comp_nonempty _ Haddr). cbn [negb].
    destruct (split_first x40 addr) as [[network address]|]; done.
Qed.

(** C38.  At etcd a base path must begin with a slash: the store names what it lists
    from the root, so with a base path that does not, nothing is trimmed off
    the listed keys.  A client then does not know any server under an address
    that was registered, and what it takes for the network, or, without an '@',
    for the address to dial, is the key from its slash on. *)
Theorem etcd_base_without_slash `{!StoreLaws Etcd St} base name addrs (s : St) d :
  base <> [] -> head base <> Some x2f -> new_discovery Etcd newStore base name addrs s = Val d ->
  forall e, e ∈ GetServices d ->
    head e.1 = Some x2f /\ (forall addr, component addr -> e.1 <> addr) /\
    (head (splitNetworkAndAddress e.1).1 = Some x2f \/ splitNetworkAndAddress e.1 = (str "tcp", e.1)).
Proof.
  intros Hne Hh Hd e He. unfold new_discovery, newDiscoveryStore in Hd. destruct (newStore Etcd addrs); [discriminate|].
  unfold clean_path in Hd. cbn [outcome_bind] in Hd.
  set (dir := if (1 <? len (base ++ str "/" ++ name)) && _ then _ else _) in Hd.
  assert (head dir = head base) as Hdir.
  { unfold dir. destruct (_ && _) eqn:E; [|by destruct base]. apply andb_true_iff in E as [El _]. apply Z.ltb_lt in El.
    destruct base as [|b base]; [done|]. rewrite <- app_comm_cons in *. cbn [length]. unfold len in El. cbn [length] in El.
    destruct (length (base ++ str "/" ++ name)) eqn:En; [lia|]. by cbn [Nat.sub take head]. }
  destruct (st_List dir s) as [kv|] eqn:El; [|discriminate]. injection Hd as <-. cbn [GetServices d_pairs] in He.
  apply list_elem_of_fmap in He as (k & -> & Hk). cbn [fst].
  pose proof (List_rooted dir s kv k eq_refl El Hk) as Hroot.
  assert (TrimPrefix k.1 (dir ++ str "/") = k.1) as ->.
  { unfold TrimPrefix. destruct (HasPrefix k.1 (dir ++ str "/")) eqn:E; [|done]. apply HasPrefix_inv in E.
    exfalso. apply Hh. rewrite <- Hdir, <- Hroot, E. destruct dir; [|done]. by destruct base. }
  split; [done|]. split.
  - intros addr Ha <-. apply (comp_no_slash _ Ha). destruct (k.1); [discriminate|]. injection Hroot as ->. by constructor.
  - unfold splitNetworkAndAddress. destruct (split_first x40 k.1) as [[network address]|] eqn:E; [left|by right].
    cbn. apply split_first_inv in E. rewrite E in Hroot. by destruct network.
Qed.

(** A registration that the registry rejects is not reported: the service is
    served and not published. *)
Theorem publish_error_ignored rcvr name metadata (s : server_t value) (st : St) mode p e :
  srv_registry s = Some (mode, p) ->
  (registry_Register newStore unicode_blank name metadata (mode, p) st).2 = Some e ->
  (register nonascii_upper rcvr name true (srv_services s)).2 = None ->
  exists s2 st2, RegisterWithMeta nonascii_upper newStore unicode_blank rcvr name metadata s st = (s2, st2, None).
Proof.
  intros Hr He Hreg.
  destruct (RegisterWithMeta nonascii_upper newStore unicode_blank rcvr name metadata s st) as [[s3 st3] err] eqn:E.
  destruct (RegisterWithMeta_state _ _ _ _ _ _ _ _ _ _ Hr E) as (p' & rerr & _ & _ & _ & Htab & _).
  rewrite Htab in Hreg. cbn in Hreg. subst err. by exists s3, st3.
Qed.
End publish.

(** ** Witnesses *)

Definition pub1 : server_t bytes * mem_store Consul :=
  match server_Registry (St := mem_store Consul) open_store 1 (str "/frpc") (str "tcp@10.0.0.1:8972") [] (60 * Second)
          newServer (mkMem 0 ∅) with
  | Val x => x
  | _ => (newServer, mkMem 0 ∅)
  end.
Definition pub2 : server_t bytes * mem_store Consul * option error :=
  RegisterWithMeta (fun _ => false) open_store (fun _ => false) sample_rcvr (str "Arith") sample_metadata pub1.1 pub1.2.
Definition any_net : net_ops := mkNet (fun _ => None) (fun _ => None) (fun _ => None).

Lemma published_service_witness :
  (exists svc, find_service (srv_services pub2.1.1) (str "Arith") = Some svc /\ svc_rcvr svc = sample_rcvr) /\
  (exists d, new_discovery Consul open_store (str "frpc") (str "Arith") [] pub2.1.2 = Val d /\
     servers_of (GetServices d) !! str "tcp@10.0.0.1:8972" = Some sample_metadata) /\
  ServeProxy any_net pub2.1.1 = Serve any_net (str "tcp") (str "10.0.0.1:8972") pub2.1.1.
Proof.
  destruct (published_service (fun _ => false) open_store (fun _ => false) 1 Consul (str "/frpc") (str "tcp@10.0.0.1:8972")
    [] [] (60 * Second) sample_rcvr (str "Arith") sample_metadata any_net
    (match st_List (slash (str "frpc") (str "Arith")) pub2.1.2 with inl l => l | inr _ => [] end)
    newServer pub1.1 pub2.1.1 (mkMem (mode := Consul) 0 ∅) pub1.2 pub2.1.2)
    as ((svc & H1 & H2 & _) & H3 & H4).
  - vm_compute. reflexivity.
  - reflexivity.
  - reflexivity.
  - reflexivity.
  - eexists. split; [vm_compute; reflexivity|]. vm_compute. reflexivity.
  - assert (pub2.2 = None) as E by (vm_compute; reflexivity). unfold pub2 in *.
    destruct (RegisterWithMeta _ _ _ _ _ _ _ _) as [[a b] c]. cbn in *. by rewrite E.
  - exists [str "frpc"]. split; [discriminate|]. split; [constructor; [concrete_component|constructor]|reflexivity].
  - apply sample_name.
  - apply sample_address.
  - exact I.
  - discriminate.
  - vm_compute. reflexivity.
  - reflexivity.
  - split; [exists svc; split; [exact H1|exact H2]|]. split; [exact H3|exact H4].
Defined.

(** The entry of a server registered at etcd under a base path without a slash. *)
Definition slashless : mem_store Etcd :=
  (Registry.Register (St := mem_store Etcd) Etcd open_store (fun _ => false) (str "Arith") sample_metadata
     (new_register (str "com/example/frpc") (str "tcp@10.0.0.1:8972") [] (60 * Second)) (mkMem 0 ∅)).1.2.

Lemma etcd_base_without_slash_witness :
  exists d, new_discovery Etcd open_store (str "com/example/frpc") (str "Arith") [] slashless = Val d /\
    map fst (GetServices d) = [str "/com/example/frpc/Arith/tcp@10.0.0.1:8972"] /\
    forall e, e ∈ GetServices d ->
      head e.1 = Some x2f /\ (forall addr, component addr -> e.1 <> addr) /\
      (head (splitNetworkAndAddress e.1).1 = Some x2f \/ splitNetworkAndAddress e.1 = (str "tcp", e.1)).
Proof.
  destruct (new_discovery Etcd open_store (str "com/example/frpc") (str "Arith") [] slashless) as [d| |] eqn:E;
    [|exfalso; vm_compute in E; discriminate|exfalso; vm_compute in E; discriminate].
  exists d. split; [reflexivity|]. split.
  - assert (match new_discovery Etcd open_store (str "com/example/frpc") (str "Arith") [] slashless with
            | Val d => map fst (GetServices d) | _ => [] end = [str "/com/example/frpc/Arith/tcp@10.0.0.1:8972"]) as Hd
      by (vm_compute; reflexivity). rewrite E in Hd. exact Hd.
  - apply (etcd_base_without_slash open_store (str "com/example/frpc") (str "Arith") [] slashless d);
      [discriminate|discriminate|exact E].
Defined.

Lemma publish_error_ignored_witness :
  exists s2 st2, RegisterWithMeta (St := mem_store Etcd) (fun _ => false) open_store (fun _ => false) sample_rcvr (str " ") []
    (set_registry (Some (Etcd, sample_register)) newServer) (mkMem 0 ∅) = (s2, st2, None).
Proof.
  apply (publish_error_ignored (fun _ => false) open_store (fun _ => false) sample_rcvr (str " ") []
    (set_registry (Some (Etcd, sample_register)) newServer) (mkMem (mode := Etcd) 0 ∅) Etcd sample_register
    (errorString (str "Register service `name` can't be empty"))); vm_compute; reflexivity.
Defined.
